(** * A shallow embedding of the finance-tracker engine

    The C++ sources under [backend/cpp] are embedded one header per module:
    [linkedlist.h], [hashmap.h], [bst.h], [heap.h], [queue.h], [stack.h],
    [trie.h] and [finance_engine.h].

    Conventions of the embedding.
    - A [double] is a rational ([Q]); [==] on doubles is [Qeq].  A sum or
      a difference of doubles is rounded to the nearest binary64 value,
      ties to even ([Double.add], [Double.sub]).  The one quotient of the
      code, in [getPercentUsed], and the text of a number read from a
      stream are taken as they are, without rounding.  Infinities, NaN
      and overflow are outside the model.
    - An [int] is an unbounded [Z]; a vector index is a [nat].
    - A singly or doubly linked chain of nodes is the [list] of its payloads,
      first node first.  The node counter of a chain is carried where the
      code branches on it (the two stacks, the hash map); elsewhere it is
      the length of the list.
    - A member function that updates its object returns the new object;
      one that also returns a value returns the pair.
    - A call that dereferences a null pointer, or reads a variable that was
      never written, has no result ([None]).
    - The clock read by the id generators is an argument, [now]; their
      [static] counters are fields of the engine state. *)

From Stdlib Require Import ZArith QArith Qround Qabs Lia Lqa Bool.
From Stdlib Require Import List String Ascii.
From Stdlib Require Import Permutation Sorted.
From Stdlib Require Import DecimalString DecimalZ DecimalPos Qpower.
From Stdlib Require DecimalFacts.
Import ListNotations.

Local Open Scope string_scope.
Local Open Scope list_scope.
Local Open Scope Z_scope.

(* ------------------------------------------------------------------ *)
(** ** Fallible computations *)

Definition bind {A B : Type} (c : option A) (k : A -> option B) : option B :=
  match c with
  | Some a => k a
  | None => None
  end.

Notation "' p <- c ;; k" := (bind c (fun p => k))
  (at level 61, p pattern, c at next level, right associativity).

(* ------------------------------------------------------------------ *)
(** ** Arithmetic on [double] and comparison of [std::string] *)

Module Double.

Definition ltb (a b : Q) : bool := negb (Qle_bool b a).
Definition leb (a b : Q) : bool := Qle_bool a b.
Definition eqb (a b : Q) : bool := Qeq_bool a b.

(** [std::max(a, b)] is [(a < b) ? b : a]. *)
Definition max (a b : Q) : Q := if ltb a b then b else a.

(** [(int)d]: [d] truncated toward zero.  The conversion is undefined
    when the truncated value is not an [int] (32 bits). *)
Definition to_int (d : Q) : option Z :=
  let z := if Qle_bool 0 d then Qfloor d else Qceiling d in
  if (- 2 ^ 31 <=? z) && (z <? 2 ^ 31) then Some z else None.

(** The integer nearest to [q], the even one of two equally near. *)
Definition round_half_even (q : Q) : Z :=
  let f := Qfloor q in
  match Qcompare (q - inject_Z f) (1 # 2) with
  | Lt => f
  | Gt => f + 1
  | Eq => if Z.even f then f else f + 1
  end.

(** The binary exponent [x] of [a > 0]: [2^x <= a < 2^(x+1)]. *)
Definition binary_exponent (a : Q) : Z :=
  let k := Z.log2 (Qnum a) - Z.log2 (Zpos (Qden a)) in
  if Qle_bool (2 ^ k) a then k else k - 1.

(** The [double] nearest to [q], the one with an even significand of two
    equally near: 53 significant bits, or a multiple of [2^-1074] below
    [2^-1022].  The result is a reduced fraction. *)
Definition round (q : Q) : Q :=
  if Qeq_bool q 0 then 0%Q
  else
    let a := Qabs q in
    let e := Z.max (binary_exponent a - 52) (- 1074) in
    let m := round_half_even (a * 2 ^ (- e)) in
    let v := Qred (inject_Z m * 2 ^ e) in
    if Qle_bool 0 q then v else (- v)%Q.

(** [a + b] and [a - b] on [double]. *)
Definition add (a b : Q) : Q := round (a + b).
Definition sub (a b : Q) : Q := round (a - b).

End Double.

(** [operator<] and [operator==] of [std::string]: lexicographic on the
    bytes, each byte compared as an unsigned value. *)
Definition str_lt (a b : string) : bool := String.ltb a b.
Definition str_le (a b : string) : bool := negb (str_lt b a).
Definition str_eq (a b : string) : bool := String.eqb a b.

Arguments str_lt : simpl never.
Arguments str_le : simpl never.
Arguments str_eq : simpl never.

(* ------------------------------------------------------------------ *)
(** ** linkedlist.h *)

Record Transaction := mkTransaction {
  id : string;
  type : string;
  amount : Q;
  category : string;
  description : string;
  date : string
}.

Module DoublyLinkedList.

(** The chain from [head] following [next]; [count] is its length. *)
Definition t := list Transaction.

Definition empty : t := [].

Definition addFront (x : Transaction) (l : t) : t := x :: l.

Definition addBack (x : Transaction) (l : t) : t := l ++ [x].

(** Unlinks the first node whose id matches. *)
Fixpoint deleteById (i : string) (l : t) : bool * t :=
  match l with
  | [] => (false, [])
  | x :: rest =>
      if str_eq (id x) i then (true, rest)
      else let (found, rest') := deleteById i rest in (found, x :: rest')
  end.

(** Unlinks the head and returns its transaction. *)
Definition deleteFront (l : t) : option (Transaction * t) :=
  match l with
  | [] => None
  | x :: rest => Some (x, rest)
  end.

Definition traverseForward (l : t) : list Transaction := l.

(** From [tail] following [prev]. *)
Definition traverseBackward (l : t) : list Transaction := rev l.

Definition getFront (l : t) : option Transaction :=
  match l with
  | [] => None
  | x :: _ => Some x
  end.

Fixpoint findById (i : string) (l : t) : option Transaction :=
  match l with
  | [] => None
  | x :: rest => if str_eq (id x) i then Some x else findById i rest
  end.

Definition filterByCategory (c : string) (l : t) : list Transaction :=
  filter (fun x => str_eq (category x) c) l.

Definition filterByType (ty : string) (l : t) : list Transaction :=
  filter (fun x => str_eq (type x) ty) l.

Definition size (l : t) : Z := Z.of_nat (List.length l).

Definition isEmpty (l : t) : bool := size l =? 0.

Definition clear (l : t) : t := [].

End DoublyLinkedList.

(* ------------------------------------------------------------------ *)
(** ** queue.h *)

Record Bill := mkBill {
  bill_id : string;
  bill_name : string;
  bill_amount : Q;
  dueDate : string;
  bill_category : string;
  isPaid : bool
}.

(** [Bill(i, n, a, d, c)] starts unpaid. *)
Definition newBill (i n : string) (a : Q) (d c : string) : Bill :=
  mkBill i n a d c false.

Definition setPaid (b : Bill) (p : bool) : Bill :=
  mkBill (bill_id b) (bill_name b) (bill_amount b) (dueDate b)
         (bill_category b) p.

Module BillQueue.

(** The chain from [front] to [rear]. *)
Definition t := list Bill.

Definition empty : t := [].

Definition enqueue (b : Bill) (q : t) : t := q ++ [b].

Definition dequeue (q : t) : option (Bill * t) :=
  match q with
  | [] => None
  | b :: rest => Some (b, rest)
  end.

Definition peek (q : t) : option Bill :=
  match q with
  | [] => None
  | b :: _ => Some b
  end.

Definition getAllBills (q : t) : list Bill := q.

Fixpoint findById (i : string) (q : t) : option Bill :=
  match q with
  | [] => None
  | b :: rest => if str_eq (bill_id b) i then Some b else findById i rest
  end.

Fixpoint removeById (i : string) (q : t) : bool * t :=
  match q with
  | [] => (false, [])
  | b :: rest =>
      if str_eq (bill_id b) i then (true, rest)
      else let (found, rest') := removeById i rest in (found, b :: rest')
  end.

(** Sets [isPaid] on the first bill whose id matches. *)
Fixpoint markAsPaid (i : string) (q : t) : bool * t :=
  match q with
  | [] => (false, [])
  | b :: rest =>
      if str_eq (bill_id b) i then (true, setPaid b true :: rest)
      else let (found, rest') := markAsPaid i rest in (found, b :: rest')
  end.

Definition getUnpaidBills (q : t) : list Bill :=
  filter (fun b => negb (isPaid b)) q.

Definition getOverdueBills (currentDate : string) (q : t) : list Bill :=
  filter (fun b => negb (isPaid b) && str_lt (dueDate b) currentDate) q.

Definition size (q : t) : Z := Z.of_nat (List.length q).

Definition isEmpty (q : t) : bool := size q =? 0.

Definition clear (q : t) : t := [].

End BillQueue.

(* ------------------------------------------------------------------ *)
(** ** stack.h *)

Inductive ActionType :=
| ADD_TRANSACTION
| DELETE_TRANSACTION
| ADD_BUDGET
| UPDATE_BUDGET
| ADD_BILL
| DELETE_BILL
| PAY_BILL.

Record Action := mkAction {
  action_type : ActionType;
  action_data : string
}.

Module UndoStack.

(** [nodes] is the chain from [top]; [count] and [maxSize] are the
    fields of the class. *)
Record t := mk {
  nodes : list Action;
  count : Z;
  maxSize : Z
}.

Definition new (maxSz : Z) : t := mk [] 0 maxSz.

(** The trimming walk of [push]: from [top], advance while both [next]
    and [next->next] exist, then unlink [next] if there is one.  The
    boolean tells whether a node was unlinked.  On an empty chain the
    walk reads [top->next] through a null pointer. *)
Definition dropBottom (l : list Action) : option (list Action * bool) :=
  match l with
  | [] => None
  | [x] => Some ([x], false)
  | _ => Some (removelast l, true)
  end.

Definition push (a : Action) (s : t) : option t :=
  if count s >=? maxSize s then
    '(l, removed) <- dropBottom (nodes s) ;;
    let c := if removed : bool then count s - 1 else count s in
    Some (mk (a :: l) (c + 1) (maxSize s))
  else Some (mk (a :: nodes s) (count s + 1) (maxSize s)).

Definition pop (s : t) : option (Action * t) :=
  match nodes s with
  | [] => None
  | a :: rest => Some (a, mk rest (count s - 1) (maxSize s))
  end.

Definition peek (s : t) : option Action :=
  match nodes s with
  | [] => None
  | a :: _ => Some a
  end.

Definition getAllActions (s : t) : list Action := nodes s.

Definition size (s : t) : Z := count s.

Definition isEmpty (s : t) : bool := count s =? 0.

Definition clear (s : t) : t := mk [] 0 (maxSize s).

End UndoStack.

Module TransactionStack.

Record t := mk {
  nodes : list Transaction;
  count : Z;
  maxSize : Z
}.

Definition new (maxSz : Z) : t := mk [] 0 maxSz.

(** After linking the new node: if [count > maxSize], walk
    [maxSize - 1] links from the top (stopping at the end of the chain)
    and cut off everything behind the node reached, decrementing [count]
    once per node freed. *)
Definition push (x : Transaction) (s : t) : t :=
  let l := x :: nodes s in
  let c := count s + 1 in
  if c >? maxSize s then
    let keep := S (Z.to_nat (maxSize s - 1)) in
    mk (firstn keep l) (c - Z.of_nat (List.length (skipn keep l))) (maxSize s)
  else mk l c (maxSize s).

Definition pop (s : t) : option (Transaction * t) :=
  match nodes s with
  | [] => None
  | x :: rest => Some (x, mk rest (count s - 1) (maxSize s))
  end.

Definition peek (s : t) : option Transaction :=
  match nodes s with
  | [] => None
  | x :: _ => Some x
  end.

Definition getAll (s : t) : list Transaction := nodes s.

Definition getTopN (n : Z) (s : t) : list Transaction :=
  firstn (Z.to_nat n) (nodes s).

Definition size (s : t) : Z := count s.

Definition isEmpty (s : t) : bool := count s =? 0.

Definition clear (s : t) : t := mk [] 0 (maxSize s).

End TransactionStack.

(* ------------------------------------------------------------------ *)
(** ** hashmap.h *)

(** [v[i] = x] on a vector; nothing is written out of range. *)
Fixpoint upd {A : Type} (i : nat) (x : A) (l : list A) : list A :=
  match l, i with
  | [], _ => []
  | _ :: rest, O => x :: rest
  | y :: rest, S j => y :: upd j x rest
  end.

Module HashMap.

Definition TABLE_SIZE : Z := 100.

(** A [char] as the signed 8-bit value it has on x86-64. *)
Definition char_value (c : ascii) : Z :=
  let n := Z.of_N (N_of_ascii c) in
  if n <? 128 then n else n - 256.

(** The loop of [hash]: [hashVal] is an [unsigned long] (64 bits, so the
    sum wraps modulo 2^64 before the remainder is taken), [p_pow] a
    [long] that stays in [0, 100). *)
Fixpoint hash_loop (key : string) (hashVal p_pow : Z) : Z :=
  match key with
  | EmptyString => hashVal
  | String c rest =>
      let hashVal' :=
        ((hashVal + (char_value c - 97 + 1) * p_pow) mod 2 ^ 64)
          mod TABLE_SIZE in
      let p_pow' := (p_pow * 31) mod TABLE_SIZE in
      hash_loop rest hashVal' p_pow'
  end.

Definition hash (key : string) : nat := Z.to_nat (hash_loop key 0 1).

Section WithValue.

Context {V : Type}.

(** A bucket is the chain hanging from one table slot. *)
Definition bucket : Type := list (string * V).

Record t := mk {
  table : list bucket;
  count : Z
}.

Definition new : t := mk (repeat [] (Z.to_nat TABLE_SIZE)) 0.

Definition slot (m : t) (index : nat) : bucket := nth index (table m) [].

(** Overwrites the value of the first node holding [key], if any. *)
Fixpoint chain_set (key : string) (value : V) (b : bucket) : option bucket :=
  match b with
  | [] => None
  | (k, v) :: rest =>
      if str_eq k key then Some ((k, value) :: rest)
      else option_map (cons (k, v)) (chain_set key value rest)
  end.

Fixpoint chain_get (key : string) (b : bucket) : option V :=
  match b with
  | [] => None
  | (k, v) :: rest => if str_eq k key then Some v else chain_get key rest
  end.

(** Unlinks the first node holding [key], if any. *)
Fixpoint chain_del (key : string) (b : bucket) : option bucket :=
  match b with
  | [] => None
  | (k, v) :: rest =>
      if str_eq k key then Some rest
      else option_map (cons (k, v)) (chain_del key rest)
  end.

Definition insert (key : string) (value : V) (m : t) : t :=
  let index := hash key in
  match chain_set key value (slot m index) with
  | Some b => mk (upd index b (table m)) (count m)
  | None => mk (upd index ((key, value) :: slot m index) (table m))
               (count m + 1)
  end.

Definition search (key : string) (m : t) : option V :=
  chain_get key (slot m (hash key)).

Definition contains (key : string) (m : t) : bool :=
  match search key m with Some _ => true | None => false end.

Definition remove (key : string) (m : t) : bool * t :=
  let index := hash key in
  match chain_del key (slot m index) with
  | Some b => (true, mk (upd index b (table m)) (count m - 1))
  | None => (false, m)
  end.

Definition update (key : string) (value : V) (m : t) : bool * t :=
  let index := hash key in
  match chain_set key value (slot m index) with
  | Some b => (true, mk (upd index b (table m)) (count m))
  | None => (false, m)
  end.

Definition getAllPairs (m : t) : list (string * V) :=
  flat_map (slot m) (seq 0 (Z.to_nat TABLE_SIZE)).

Definition size (m : t) : Z := count m.

Definition isEmpty (m : t) : bool := count m =? 0.

End WithValue.

Arguments t : clear implicits.
Arguments bucket : clear implicits.

End HashMap.

(* ------------------------------------------------------------------ *)
(** ** bst.h *)

Inductive BSTNode :=
| Leaf
| Node (node_date : string) (transactions : list Transaction)
       (left right : BSTNode).

Module BST.

(** The tree hanging from [root]. *)
Definition t := BSTNode.

Definition empty : t := Leaf.

Fixpoint insertHelper (node : BSTNode) (d : string) (x : Transaction)
  : BSTNode :=
  match node with
  | Leaf => Node d [x] Leaf Leaf
  | Node nd txs l r =>
      if str_lt d nd then Node nd txs (insertHelper l d x) r
      else if str_lt nd d then Node nd txs l (insertHelper r d x)
      else Node nd (txs ++ [x]) l r
  end.

Fixpoint inorderHelper (node : BSTNode) (result : list Transaction)
  : list Transaction :=
  match node with
  | Leaf => result
  | Node nd txs l r => inorderHelper r (inorderHelper l result ++ txs)
  end.

Fixpoint reverseInorderHelper (node : BSTNode) (result : list Transaction)
  : list Transaction :=
  match node with
  | Leaf => result
  | Node nd txs l r =>
      reverseInorderHelper l (reverseInorderHelper r result ++ txs)
  end.

Fixpoint rangeQueryHelper (node : BSTNode) (startDate endDate : string)
  (result : list Transaction) : list Transaction :=
  match node with
  | Leaf => result
  | Node nd txs l r =>
      let r1 := if str_lt startDate nd
                then rangeQueryHelper l startDate endDate result
                else result in
      let r2 := if negb (str_lt nd startDate) && negb (str_lt endDate nd)
                then r1 ++ txs
                else r1 in
      if str_lt nd endDate
      then rangeQueryHelper r startDate endDate r2
      else r2
  end.

(** [erase] of the first transaction of a bucket with the given id. *)
Fixpoint eraseFirst (i : string) (txs : list Transaction)
  : option (list Transaction) :=
  match txs with
  | [] => None
  | x :: rest =>
      if str_eq (id x) i then Some rest
      else option_map (cons x) (eraseFirst i rest)
  end.

Fixpoint deleteTransactionHelper (node : BSTNode) (i : string)
  : bool * BSTNode :=
  match node with
  | Leaf => (false, Leaf)
  | Node nd txs l r =>
      match eraseFirst i txs with
      | Some txs' => (true, Node nd txs' l r)
      | None =>
          let (foundl, l') := deleteTransactionHelper l i in
          if foundl then (true, Node nd txs l' r)
          else
            let (foundr, r') := deleteTransactionHelper r i in
            (foundr, Node nd txs l r')
      end
  end.

Fixpoint findHelper (node : BSTNode) (i : string) : option Transaction :=
  match node with
  | Leaf => None
  | Node nd txs l r =>
      match find (fun x => str_eq (id x) i) txs with
      | Some x => Some x
      | None =>
          match findHelper l i with
          | Some x => Some x
          | None => findHelper r i
          end
      end
  end.

Definition insert (x : Transaction) (b : t) : t := insertHelper b (date x) x.

Definition inorderTraversal (b : t) : list Transaction := inorderHelper b [].

Definition reverseInorderTraversal (b : t) : list Transaction :=
  reverseInorderHelper b [].

Definition rangeQuery (startDate endDate : string) (b : t)
  : list Transaction :=
  rangeQueryHelper b startDate endDate [].

Definition deleteById (i : string) (b : t) : bool * t :=
  deleteTransactionHelper b i.

Definition findById (i : string) (b : t) : option Transaction :=
  findHelper b i.

Definition getByMonth (yearMonth : string) (b : t) : list Transaction :=
  rangeQuery (yearMonth ++ "-01")%string (yearMonth ++ "-31")%string b.

Definition clear (b : t) : t := Leaf.

End BST.

(* ------------------------------------------------------------------ *)
(** ** heap.h

    [MaxHeap] and [CategoryMaxHeap] are the same code over two element
    types, ordered by [amount] and by [totalAmount]; the embedding is
    written once over the element type [T] and its [key]. *)

Record CategoryAmount := mkCategoryAmount {
  ca_category : string;
  totalAmount : Q
}.

Module Heap.

Section WithElement.

Context {T : Type} (key : T -> Q).

(** The vector [heap]. *)
Definition t := list T.

Definition parent (i : nat) : nat := ((i - 1) / 2)%nat.
Definition leftChild (i : nat) : nat := (2 * i + 1)%nat.
Definition rightChild (i : nat) : nat := (2 * i + 2)%nat.

(** [heap[a].key > heap[b].key], both indices inside the vector. *)
Definition gt_at (heap : t) (a b : nat) : bool :=
  match nth_error heap a, nth_error heap b with
  | Some x, Some y => Double.ltb (key y) (key x)
  | _, _ => false
  end.

(** [std::swap(heap[i], heap[j])]. *)
Definition swap (heap : t) (i j : nat) : t :=
  match nth_error heap i, nth_error heap j with
  | Some x, Some y => upd j x (upd i y heap)
  | _, _ => heap
  end.

(** The index [largest] computed by one activation of [heapifyDown]. *)
Definition largestOf (heap : t) (i : nat) : nat :=
  let largest := i in
  let l := leftChild i in
  let r := rightChild i in
  let largest :=
    if (l <? List.length heap)%nat && gt_at heap l largest
    then l else largest in
  let largest :=
    if (r <? List.length heap)%nat && gt_at heap r largest
    then r else largest in
  largest.

(** [heapifyDown] recurses on a strictly larger index below the size of
    the vector; [fuel] bounds the depth of the recursion. *)
Fixpoint heapifyDown_fuel (fuel : nat) (heap : t) (i : nat) : t :=
  match fuel with
  | O => heap
  | S fuel' =>
      let largest := largestOf heap i in
      if (largest =? i)%nat then heap
      else heapifyDown_fuel fuel' (swap heap i largest) largest
  end.

Definition heapifyDown (heap : t) (i : nat) : t :=
  heapifyDown_fuel (List.length heap) heap i.

(** The loop of [heapifyUp], at most [fuel] iterations. *)
Fixpoint heapifyUp_fuel (fuel : nat) (heap : t) (i : nat) : t :=
  match fuel with
  | O => heap
  | S fuel' =>
      if (0 <? i)%nat && gt_at heap i (parent i)
      then heapifyUp_fuel fuel' (swap heap (parent i) i) (parent i)
      else heap
  end.

Definition heapifyUp (heap : t) (i : nat) : t :=
  heapifyUp_fuel (List.length heap) heap i.

(** [for (i = size / 2 - 1; i >= 0; i--) heapifyDown(i)], with [n] the
    number of iterations left, so that the next index is [n - 1]. *)
Fixpoint buildHeap_loop (n : nat) (heap : t) : t :=
  match n with
  | O => heap
  | S i => buildHeap_loop i (heapifyDown heap i)
  end.

Definition buildHeap (xs : list T) : t :=
  buildHeap_loop (List.length xs / 2)%nat xs.

Definition insert (x : T) (heap : t) : t :=
  heapifyUp (heap ++ [x]) (List.length (heap ++ [x]) - 1)%nat.

Definition extractMax (heap : t) : option (T * t) :=
  match heap with
  | [] => None
  | result :: _ =>
      let heap1 := removelast (upd 0 (last heap result) heap) in
      let heap2 := match heap1 with
                   | [] => heap1
                   | _ :: _ => heapifyDown heap1 0
                   end in
      Some (result, heap2)
  end.

Definition peek (heap : t) : option T :=
  match heap with
  | [] => None
  | x :: _ => Some x
  end.

(** [for (i = 0; i < k && !heap.empty(); i++)], with [n] the number of
    iterations still allowed by [k]. *)
Fixpoint getTopK_loop (n : nat) (heap : t) : list T :=
  match n with
  | O => []
  | S n' =>
      match extractMax heap with
      | None => []
      | Some (x, heap') => x :: getTopK_loop n' heap'
      end
  end.

(** The heap itself is restored from [backup] before returning. *)
Definition getTopK (k : Z) (heap : t) : list T :=
  getTopK_loop (Z.to_nat k) heap.

Definition size (heap : t) : Z := Z.of_nat (List.length heap).

Definition clear (heap : t) : t := [].

End WithElement.

End Heap.

Module MaxHeap.
Definition t := list Transaction.
Definition buildHeap := Heap.buildHeap amount.
Definition insert := Heap.insert amount.
Definition extractMax := Heap.extractMax amount.
Definition getTopK := Heap.getTopK amount.
Definition clear : t -> t := Heap.clear.
End MaxHeap.

Module CategoryMaxHeap.
Definition t := list CategoryAmount.
Definition buildHeap := Heap.buildHeap totalAmount.
Definition insert := Heap.insert totalAmount.
Definition extractMax := Heap.extractMax totalAmount.
Definition getTopK := Heap.getTopK totalAmount.
Definition clear : t -> t := Heap.clear.
End CategoryMaxHeap.

(* ------------------------------------------------------------------ *)
(** ** trie.h *)

(** [children] is the [unordered_map] of a node as an association list;
    a new key is added at its end. *)
#[local] Set Warnings "-register-all".

Inductive TrieNode :=
| TNode (children : list (ascii * TrieNode)) (isEndOfWord : bool)
        (word : string).

Module Trie.

Record t := mk {
  root : TrieNode;
  wordCount : Z
}.

Definition new : t := mk (TNode [] false "") 0.

(** [::tolower] in the C locale. *)
Definition lower_char (c : ascii) : ascii :=
  let n := N_of_ascii c in
  if ((65 <=? n) && (n <=? 90))%N then ascii_of_N (n + 32) else c.

Fixpoint toLower (s : string) : string :=
  match s with
  | EmptyString => EmptyString
  | String c rest => String (lower_char c) (toLower rest)
  end.

Fixpoint child_find (c : ascii) (ch : list (ascii * TrieNode))
  : option TrieNode :=
  match ch with
  | [] => None
  | (k, n) :: rest => if Ascii.eqb k c then Some n else child_find c rest
  end.

Fixpoint child_set (c : ascii) (n : TrieNode) (ch : list (ascii * TrieNode))
  : list (ascii * TrieNode) :=
  match ch with
  | [] => [(c, n)]
  | (k, m) :: rest =>
      if Ascii.eqb k c then (k, n) :: rest else (k, m) :: child_set c n rest
  end.

(** Walks [path] from [node], creating the missing nodes, and marks the
    node reached as the end of [w] unless it already ends a word.  The
    boolean tells whether a word was added. *)
Fixpoint insertAt (path : string) (w : string) (node : TrieNode)
  : TrieNode * bool :=
  match node with
  | TNode ch e wd =>
      match path with
      | EmptyString =>
          if e then (node, false) else (TNode ch true w, true)
      | String c rest =>
          let child := match child_find c ch with
                       | Some n => n
                       | None => TNode [] false ""
                       end in
          let (child', added) := insertAt rest w child in
          (TNode (child_set c child' ch) e wd, added)
      end
  end.

Definition insert (w : string) (tr : t) : t :=
  match w with
  | EmptyString => tr
  | _ =>
      let (root', added) := insertAt (toLower w) w (root tr) in
      mk root' (if added then wordCount tr + 1 else wordCount tr)
  end.

Fixpoint walk (path : string) (node : TrieNode) : option TrieNode :=
  match path with
  | EmptyString => Some node
  | String c rest =>
      match node with
      | TNode ch _ _ =>
          match child_find c ch with
          | Some n => walk rest n
          | None => None
          end
      end
  end.

Definition search (w : string) (tr : t) : bool :=
  match walk (toLower w) (root tr) with
  | Some (TNode _ e _) => e
  | None => false
  end.

(** The walk of [startsWith]: the prefix is a path of the trie. *)
Definition startsWith (prefix : string) (tr : t) : bool :=
  match walk (toLower prefix) (root tr) with
  | Some _ => true
  | None => false
  end.

(** The words below [node], the node's own word first.  The children
    are visited in the order of the association list; the iteration
    order of an [unordered_map] is unspecified. *)
Fixpoint collectWords (node : TrieNode) : list string :=
  match node with
  | TNode ch e w =>
      (if e then [w] else [])
        ++ flat_map (fun p => collectWords (snd p)) ch
  end.

(** [if ((int)result.size() > maxResults) result.resize(maxResults)]:
    a negative [maxResults] converts to a size beyond [max_size()], and
    [resize] throws. *)
Definition limitResults (maxResults : Z) (result : list string)
  : option (list string) :=
  if Z.of_nat (List.length result) >? maxResults then
    if maxResults <? 0 then None
    else Some (firstn (Z.to_nat maxResults) result)
  else Some result.

Definition getWordsWithPrefix (prefix : string) (maxResults : Z) (tr : t)
  : option (list string) :=
  match prefix with
  | EmptyString => limitResults maxResults (collectWords (root tr))
  | _ =>
      match walk (toLower prefix) (root tr) with
      | None => Some []
      | Some node => limitResults maxResults (collectWords node)
      end
  end.

(** Walks [path] and clears the end-of-word mark of the node reached;
    [None] when the path is missing or the node ends no word.  The nodes
    of the path stay in the trie. *)
Fixpoint removeAt (path : string) (node : TrieNode) : option TrieNode :=
  match node with
  | TNode ch e wd =>
      match path with
      | EmptyString => if e then Some (TNode ch false "") else None
      | String c rest =>
          match child_find c ch with
          | None => None
          | Some n =>
              option_map (fun n' => TNode (child_set c n' ch) e wd)
                         (removeAt rest n)
          end
      end
  end.

Definition remove (w : string) (tr : t) : bool * t :=
  match removeAt (toLower w) (root tr) with
  | Some root' => (true, mk root' (wordCount tr - 1))
  | None => (false, tr)
  end.

Definition getAllWords (tr : t) : list string := collectWords (root tr).

Definition size (tr : t) : Z := wordCount tr.

Definition isEmpty (tr : t) : bool := wordCount tr =? 0.

Definition clear (tr : t) : t := new.

End Trie.

(* ------------------------------------------------------------------ *)
(** ** The [std::stringstream] operations the engine uses

    Undo records are text: fields joined with ['|'] by [operator<<] and
    split again by [std::getline] and [operator>>].  A [double] is written
    in the default format (six significant digits, as [%g]) and read back
    as the decimal it spells. *)

Module Stream.

Definition show_Z (z : Z) : string := NilZero.string_of_int (Z.to_int z).

(** [a / 10^e] for any integer [e]. *)
Definition scale10 (a : Q) (e : Z) : Q :=
  if 0 <=? e then (a / inject_Z (10 ^ e))%Q
  else (a * inject_Z (10 ^ (- e)))%Q.

(** Climbs from [x] to the decimal exponent of [a > 0]: the [x] with
    [10^x <= a < 10^(x+1)]. *)
Fixpoint find_exp (fuel : nat) (a : Q) (x : Z) : Z :=
  match fuel with
  | O => x
  | S fuel' =>
      if Qle_bool 1 (scale10 a (x + 1)) then find_exp fuel' a (x + 1)
      else x
  end.

Definition decimal_exponent (a : Q) : Z :=
  let n := Qnum a in
  let d := Zpos (Qden a) in
  find_exp (Z.to_nat (Z.log2 n + Z.log2 d + 3)) a (- Z.log2 d - 2).

Fixpoint strip_zeros_rev (s : list ascii) : list ascii :=
  match s with
  | "0"%char :: rest => strip_zeros_rev rest
  | _ => s
  end.

(** Removes the trailing ['0'] characters. *)
Definition strip_zeros (s : string) : string :=
  string_of_list_ascii
    (rev (strip_zeros_rev (rev (list_ascii_of_string s)))).

Definition zeros (n : nat) : string :=
  string_of_list_ascii (repeat "0"%char n).

Definition with_fraction (int_part frac : string) : string :=
  match strip_zeros frac with
  | EmptyString => int_part
  | f => (int_part ++ "." ++ f)%string
  end.

Definition two_digits (n : Z) : string :=
  if n <? 10 then ("0" ++ show_Z n)%string else show_Z n.

(** [ss << d]: six significant digits, fixed notation when the decimal
    exponent lies in [-4, 6), scientific otherwise, trailing zeros
    removed. *)
Definition put_double (d : Q) : string :=
  if Qeq_bool d 0 then "0"
  else
    let sign := if Qle_bool 0 d then "" else "-" in
    let a := Qabs d in
    let x0 := decimal_exponent a in
    let m0 := Double.round_half_even (scale10 a (x0 - 5)) in
    let '(m, x) := if m0 =? 10 ^ 6 then (10 ^ 5, x0 + 1) else (m0, x0) in
    let ds := show_Z m in
    let body :=
      if (x <? -4) || (6 <=? x) then
        (with_fraction (substring 0 1 ds) (substring 1 5 ds)
           ++ "e" ++ (if (x <? 0)%Z then "-" else "+") ++ two_digits (Z.abs x))
          %string
      else if 0 <=? x then
        with_fraction (substring 0 (Z.to_nat (x + 1)) ds)
                      (substring (Z.to_nat (x + 1)) (Z.to_nat (5 - x)) ds)
      else
        with_fraction "0" (zeros (Z.to_nat (- x - 1)%Z) ++ ds)%string in
    (sign ++ body)%string.

(** The read side: what is left of the buffer, and whether the stream is
    still [good()]. *)
Record istream := mk {
  buf : string;
  good : bool
}.

Definition open (s : string) : istream := mk s true.

(** [std::getline(ss, token, delim)] into an empty [token].  On a stream
    that is not good nothing is read and the token stays empty. *)
Fixpoint take_until (delim : ascii) (s : string) : string * istream :=
  match s with
  | EmptyString => (EmptyString, mk EmptyString false)
  | String c rest =>
      if Ascii.eqb c delim then (EmptyString, mk rest true)
      else let (tok, st) := take_until delim rest in (String c tok, st)
  end.

Definition getline (delim : ascii) (s : istream) : string * istream :=
  if good s then take_until delim (buf s) else (EmptyString, s).

(** [ss.ignore()]: drops one character. *)
Definition ignore (s : istream) : istream :=
  if good s then
    match buf s with
    | EmptyString => mk EmptyString false
    | String _ rest => mk rest true
    end
  else s.

Definition is_space (c : ascii) : bool :=
  let n := N_of_ascii c in ((n =? 32) || ((9 <=? n) && (n <=? 13)))%N.

Definition is_digit (c : ascii) : bool :=
  let n := N_of_ascii c in ((48 <=? n) && (n <=? 57))%N.

Fixpoint skip_while (p : ascii -> bool) (s : string) : string :=
  match s with
  | EmptyString => EmptyString
  | String c rest => if p c then skip_while p rest else s
  end.

Fixpoint take_while (p : ascii -> bool) (s : string) : string :=
  match s with
  | EmptyString => EmptyString
  | String c rest => if p c then String c (take_while p rest) else EmptyString
  end.

(** The value of a run of decimal digits. *)
Fixpoint digits_value (s : string) (acc : Z) : Z :=
  match s with
  | EmptyString => acc
  | String c rest =>
      digits_value rest (10 * acc + (Z.of_N (N_of_ascii c) - 48))
  end.

Definition take_sign (s : string) : bool * string :=
  match s with
  | String "-"%char rest => (true, rest)
  | String "+"%char rest => (false, rest)
  | _ => (false, s)
  end.

(** [ss >> d].  The result is [None] when the stream was not good, or
    ran out while skipping white space, so that [d] is not written; it is
    [Some 0] with the stream failed when the text is not a number.  The
    text accepted is an optional sign, digits with at most one point, and,
    after at least one digit, an exponent; an exponent mark without digits
    makes the whole conversion fail. *)
Definition get_double (s : istream) : option Q * istream :=
  if negb (good s) then (None, s)
  else
    match skip_while is_space (buf s) with
    | EmptyString => (None, mk EmptyString false)
    | b0 =>
        let (neg, b1) := take_sign b0 in
        let ip := take_while is_digit b1 in
        let b2 := skip_while is_digit b1 in
        let '(fp, b3) :=
          match b2 with
          | String "."%char r => (take_while is_digit r, skip_while is_digit r)
          | _ => (EmptyString, b2)
          end in
        match (ip ++ fp)%string with
        | EmptyString => (Some 0%Q, mk b3 false)
        | mant =>
            let m := inject_Z (digits_value mant 0) in
            let m := scale10 m (Z.of_nat (String.length fp)) in
            let m := if neg : bool then (- m)%Q else m in
            match b3 with
            | String c r =>
                if (Ascii.eqb c "e" || Ascii.eqb c "E")%bool then
                  let (eneg, r1) := take_sign r in
                  let ed := take_while is_digit r1 in
                  let r2 := skip_while is_digit r1 in
                  match ed with
                  | EmptyString => (Some 0%Q, mk r2 false)
                  | _ =>
                      let e := digits_value ed 0 in
                      (Some (scale10 m (if eneg : bool then e else - e)),
                       mk r2 (match r2 with EmptyString => false | _ => true end))
                  end
                else (Some m, mk b3 true)
            | EmptyString => (Some m, mk EmptyString false)
            end
        end
    end.

End Stream.

(* ------------------------------------------------------------------ *)
(** ** finance_engine.h *)

Record Budget := mkBudget {
  budget_category : string;
  limit : Q;
  spent : Q
}.

Definition getPercentUsed (b : Budget) : Q :=
  if Double.eqb (limit b) 0 then 0%Q
  else ((spent b / limit b) * 100)%Q.

Definition getAlertLevel (b : Budget) : string :=
  let percent := getPercentUsed b in
  if Double.leb 100 percent then "exceeded"
  else if Double.leb 80 percent then "warning"
  else if Double.leb 50 percent then "caution"
  else "normal".

Definition with_limit (b : Budget) (l : Q) : Budget :=
  mkBudget (budget_category b) l (spent b).

Definition with_spent (b : Budget) (s : Q) : Budget :=
  mkBudget (budget_category b) (limit b) s.

Record MonthlySummary := mkMonthlySummary {
  month : string;
  totalIncome : Q;
  totalExpenses : Q;
  netSavings : Q;
  transactionCount : Z;
  categoryBreakdown : list (string * Q)
}.

Record BudgetAlert := mkBudgetAlert {
  alert_category : string;
  level : string;
  percentUsed : Q;
  alert_spent : Q;
  alert_limit : Q;
  message : string
}.

(** The members of the class, followed by the two function-local
    [static int counter]s of [generateId] and [generateBillId]. *)
Record FinanceEngine := mkEngine {
  budgetMap : HashMap.t Budget;
  expenseMap : HashMap.t Q;
  transactionList : DoublyLinkedList.t;
  transactionBST : BST.t;
  expenseHeap : MaxHeap.t;
  categoryHeap : CategoryMaxHeap.t;
  billQueue : BillQueue.t;
  undoStack : UndoStack.t;
  recentStack : TransactionStack.t;
  categoryTrie : Trie.t;
  payeeTrie : Trie.t;
  txnCounter : Z;
  billCounter : Z
}.

Module Engine.

Definition set_budgetMap (e : FinanceEngine) x :=
  mkEngine x (expenseMap e) (transactionList e) (transactionBST e)
    (expenseHeap e) (categoryHeap e) (billQueue e) (undoStack e)
    (recentStack e) (categoryTrie e) (payeeTrie e) (txnCounter e)
    (billCounter e).

Definition set_expenseMap (e : FinanceEngine) x :=
  mkEngine (budgetMap e) x (transactionList e) (transactionBST e)
    (expenseHeap e) (categoryHeap e) (billQueue e) (undoStack e)
    (recentStack e) (categoryTrie e) (payeeTrie e) (txnCounter e)
    (billCounter e).

Definition set_transactionList (e : FinanceEngine) x :=
  mkEngine (budgetMap e) (expenseMap e) x (transactionBST e)
    (expenseHeap e) (categoryHeap e) (billQueue e) (undoStack e)
    (recentStack e) (categoryTrie e) (payeeTrie e) (txnCounter e)
    (billCounter e).

Definition set_transactionBST (e : FinanceEngine) x :=
  mkEngine (budgetMap e) (expenseMap e) (transactionList e) x
    (expenseHeap e) (categoryHeap e) (billQueue e) (undoStack e)
    (recentStack e) (categoryTrie e) (payeeTrie e) (txnCounter e)
    (billCounter e).

Definition set_expenseHeap (e : FinanceEngine) x :=
  mkEngine (budgetMap e) (expenseMap e) (transactionList e)
    (transactionBST e) x (categoryHeap e) (billQueue e) (undoStack e)
    (recentStack e) (categoryTrie e) (payeeTrie e) (txnCounter e)
    (billCounter e).


Definition set_billQueue (e : FinanceEngine) x :=
  mkEngine (budgetMap e) (expenseMap e) (transactionList e)
    (transactionBST e) (expenseHeap e) (categoryHeap e) x (undoStack e)
    (recentStack e) (categoryTrie e) (payeeTrie e) (txnCounter e)
    (billCounter e).

Definition set_undoStack (e : FinanceEngine) x :=
  mkEngine (budgetMap e) (expenseMap e) (transactionList e)
    (transactionBST e) (expenseHeap e) (categoryHeap e) (billQueue e) x
    (recentStack e) (categoryTrie e) (payeeTrie e) (txnCounter e)
    (billCounter e).

Definition set_recentStack (e : FinanceEngine) x :=
  mkEngine (budgetMap e) (expenseMap e) (transactionList e)
    (transactionBST e) (expenseHeap e) (categoryHeap e) (billQueue e)
    (undoStack e) x (categoryTrie e) (payeeTrie e) (txnCounter e)
    (billCounter e).

Definition set_categoryTrie (e : FinanceEngine) x :=
  mkEngine (budgetMap e) (expenseMap e) (transactionList e)
    (transactionBST e) (expenseHeap e) (categoryHeap e) (billQueue e)
    (undoStack e) (recentStack e) x (payeeTrie e) (txnCounter e)
    (billCounter e).

Definition set_payeeTrie (e : FinanceEngine) x :=
  mkEngine (budgetMap e) (expenseMap e) (transactionList e)
    (transactionBST e) (expenseHeap e) (categoryHeap e) (billQueue e)
    (undoStack e) (recentStack e) (categoryTrie e) x (txnCounter e)
    (billCounter e).

Definition set_txnCounter (e : FinanceEngine) x :=
  mkEngine (budgetMap e) (expenseMap e) (transactionList e)
    (transactionBST e) (expenseHeap e) (categoryHeap e) (billQueue e)
    (undoStack e) (recentStack e) (categoryTrie e) (payeeTrie e) x
    (billCounter e).

Definition set_billCounter (e : FinanceEngine) x :=
  mkEngine (budgetMap e) (expenseMap e) (transactionList e)
    (transactionBST e) (expenseHeap e) (categoryHeap e) (billQueue e)
    (undoStack e) (recentStack e) (categoryTrie e) (payeeTrie e)
    (txnCounter e) x.

Definition defaultCategories : list string :=
  ["Food"; "Transport"; "Shopping"; "Entertainment"; "Bills";
   "Healthcare"; "Education"; "Salary"; "Freelance"; "Investment";
   "Rent"; "Utilities"; "Groceries"; "Dining"; "Travel"].

(** The constructor; the undo stack and the recent stack take their
    default capacities, 50 and 100. *)
Definition new : FinanceEngine :=
  mkEngine HashMap.new HashMap.new DoublyLinkedList.empty BST.empty
    [] [] BillQueue.empty (UndoStack.new 50) (TransactionStack.new 100)
    (fold_left (fun tr c => Trie.insert c tr) defaultCategories Trie.new)
    Trie.new 0 0.

(** [now] is the value returned by [std::time(nullptr)]. *)
Definition generateId (now : Z) (e : FinanceEngine)
  : string * FinanceEngine :=
  let c := txnCounter e + 1 in
  (("txn_" ++ Stream.show_Z now ++ "_" ++ Stream.show_Z c)%string,
   set_txnCounter e c).

Definition generateBillId (now : Z) (e : FinanceEngine)
  : string * FinanceEngine :=
  let c := billCounter e + 1 in
  (("bill_" ++ Stream.show_Z now ++ "_" ++ Stream.show_Z c)%string,
   set_billCounter e c).

Definition updateExpenseTracking (x : Transaction) (isAdd : bool)
  (e : FinanceEngine) : FinanceEngine :=
  if negb (str_eq (type x) "expense") then e
  else
    let current := match HashMap.search (category x) (expenseMap e) with
                   | Some v => v
                   | None => 0%Q
                   end in
    let total := if isAdd then Double.add current (amount x)
                 else Double.max 0 (Double.sub current (amount x)) in
    let e1 := set_expenseMap e
                (HashMap.insert (category x) total (expenseMap e)) in
    match HashMap.search (category x) (budgetMap e1) with
    | Some b =>
        set_budgetMap e1
          (snd (HashMap.update (category x) (with_spent b total)
                  (budgetMap e1)))
    | None => e1
    end.

(** The text of a transaction in an undo record. *)
Definition transactionRecord (x : Transaction) : string :=
  (id x ++ "|" ++ type x ++ "|" ++ Stream.put_double (amount x) ++ "|"
     ++ category x ++ "|" ++ description x ++ "|" ++ date x)%string.

Definition billRecord (b : Bill) : string :=
  (bill_id b ++ "|" ++ bill_name b ++ "|"
     ++ Stream.put_double (bill_amount b) ++ "|" ++ dueDate b ++ "|"
     ++ bill_category b)%string.

Definition pushUndo (a : Action) (e : FinanceEngine) : option FinanceEngine :=
  ' s <- UndoStack.push a (undoStack e) ;;
  Some (set_undoStack e s).

(** The part shared by [addTransaction] and [loadTransaction] after the
    transaction has been linked into the list. *)
Definition indexTransaction (x : Transaction) (e : FinanceEngine)
  : FinanceEngine :=
  let e := set_transactionBST e (BST.insert x (transactionBST e)) in
  let e := set_recentStack e (TransactionStack.push x (recentStack e)) in
  let e := updateExpenseTracking x true e in
  let e := if str_eq (type x) "expense"
           then set_expenseHeap e (MaxHeap.insert x (expenseHeap e))
           else e in
  let e := set_categoryTrie e (Trie.insert (category x) (categoryTrie e)) in
  match description x with
  | EmptyString => e
  | d => set_payeeTrie e (Trie.insert d (payeeTrie e))
  end.

Definition addTransaction (now : Z) (ty : string) (amt : Q)
  (cat desc dt : string) (e : FinanceEngine)
  : option (Transaction * FinanceEngine) :=
  let (i, e) := generateId now e in
  let x := mkTransaction i ty amt cat desc dt in
  let e := set_transactionList e
             (DoublyLinkedList.addFront x (transactionList e)) in
  let e := indexTransaction x e in
  ' e <- pushUndo (mkAction ADD_TRANSACTION (transactionRecord x)) e ;;
  Some (x, e).

Definition deleteTransaction (i : string) (e : FinanceEngine)
  : option (bool * FinanceEngine) :=
  match BST.findById i (transactionBST e) with
  | None => Some (false, e)
  | Some x =>
      ' e <- pushUndo (mkAction DELETE_TRANSACTION (transactionRecord x)) e ;;
      let e := set_transactionList e
                 (snd (DoublyLinkedList.deleteById i (transactionList e))) in
      let e := set_transactionBST e
                 (snd (BST.deleteById i (transactionBST e))) in
      Some (true, updateExpenseTracking x false e)
  end.

Definition getAllTransactions (e : FinanceEngine) : list Transaction :=
  DoublyLinkedList.traverseForward (transactionList e).

Definition getTransactionsByDateAsc (e : FinanceEngine) : list Transaction :=
  BST.inorderTraversal (transactionBST e).

Definition getTransactionsByDateDesc (e : FinanceEngine) : list Transaction :=
  BST.reverseInorderTraversal (transactionBST e).

Definition getTransactionsInRange (startDate endDate : string)
  (e : FinanceEngine) : list Transaction :=
  BST.rangeQuery startDate endDate (transactionBST e).

Definition getRecentTransactions (n : Z) (e : FinanceEngine)
  : list Transaction :=
  TransactionStack.getTopN n (recentStack e).

Definition getTransactionsByCategory (c : string) (e : FinanceEngine)
  : list Transaction :=
  DoublyLinkedList.filterByCategory c (transactionList e).

Definition setBudget (cat : string) (lim : Q) (e : FinanceEngine)
  : option FinanceEngine :=
  let spent0 := match HashMap.search cat (expenseMap e) with
                | Some v => v
                | None => 0%Q
                end in
  ' e <-
    match HashMap.search cat (budgetMap e) with
    | Some existing =>
        ' e <- pushUndo
                 (mkAction UPDATE_BUDGET
                    (cat ++ "|" ++ Stream.put_double (limit existing))%string)
                 e ;;
        Some (set_budgetMap e
                (snd (HashMap.update cat (with_limit existing lim)
                        (budgetMap e))))
    | None =>
        ' e <- pushUndo
                 (mkAction ADD_BUDGET
                    (cat ++ "|" ++ Stream.put_double lim)%string)
                 e ;;
        Some (set_budgetMap e
                (HashMap.insert cat (mkBudget cat lim spent0) (budgetMap e)))
    end ;;
  Some (set_categoryTrie e (Trie.insert cat (categoryTrie e))).

Definition getBudget (cat : string) (e : FinanceEngine) : option Budget :=
  HashMap.search cat (budgetMap e).

Definition getAllBudgets (e : FinanceEngine) : list Budget :=
  map snd (HashMap.getAllPairs (budgetMap e)).

(** The text of an alert of level [lvl]; [std::to_string] of an [int]
    is its decimal numeral. *)
Definition alertMessage (b : Budget) (lvl : string) : option string :=
  if str_eq lvl "exceeded" then
    ' s <- Double.to_int (spent b) ;;
    ' l <- Double.to_int (limit b) ;;
    Some ("Budget exceeded! You've spent $" ++ Stream.show_Z s
            ++ " of $" ++ Stream.show_Z l)%string
  else if str_eq lvl "warning" then Some "Warning: 80%+ of budget used"
  else Some "Caution: 50%+ of budget used".

(** The loop of [getBudgetAlerts] over the budgets. *)
Fixpoint budgetAlerts (budgets : list Budget) : option (list BudgetAlert) :=
  match budgets with
  | [] => Some []
  | b :: rest =>
      if negb (str_eq (getAlertLevel b) "normal") then
        ' m <- alertMessage b (getAlertLevel b) ;;
        ' alerts <- budgetAlerts rest ;;
        Some (mkBudgetAlert (budget_category b) (getAlertLevel b)
                (getPercentUsed b) (spent b) (limit b) m :: alerts)
      else budgetAlerts rest
  end.

Definition getBudgetAlerts (e : FinanceEngine) : option (list BudgetAlert) :=
  budgetAlerts (getAllBudgets e).

Definition addBill (now : Z) (name : string) (amt : Q) (due cat : string)
  (e : FinanceEngine) : option (Bill * FinanceEngine) :=
  let (i, e) := generateBillId now e in
  let b := newBill i name amt due cat in
  let e := set_billQueue e (BillQueue.enqueue b (billQueue e)) in
  ' e <- pushUndo (mkAction ADD_BILL (billRecord b)) e ;;
  Some (b, e).

Definition getAllBills (e : FinanceEngine) : list Bill :=
  BillQueue.getAllBills (billQueue e).

Definition getUnpaidBills (e : FinanceEngine) : list Bill :=
  BillQueue.getUnpaidBills (billQueue e).

Definition getOverdueBills (currentDate : string) (e : FinanceEngine)
  : list Bill :=
  BillQueue.getOverdueBills currentDate (billQueue e).

Definition payBill (i : string) (e : FinanceEngine)
  : option (bool * FinanceEngine) :=
  match BillQueue.findById i (billQueue e) with
  | Some _ =>
      ' e <- pushUndo (mkAction PAY_BILL i) e ;;
      let (r, q) := BillQueue.markAsPaid i (billQueue e) in
      Some (r, set_billQueue e q)
  | None => Some (false, e)
  end.

Definition removeBill (i : string) (e : FinanceEngine)
  : option (bool * FinanceEngine) :=
  match BillQueue.findById i (billQueue e) with
  | Some b =>
      ' e <- pushUndo (mkAction DELETE_BILL (billRecord b)) e ;;
      let (r, q) := BillQueue.removeById i (billQueue e) in
      Some (r, set_billQueue e q)
  | None => Some (false, e)
  end.

Definition getNextBill (e : FinanceEngine) : option Bill :=
  BillQueue.peek (billQueue e).

(** Rebuilds [expenseHeap] from the expenses now in the list. *)
Definition getTopExpenses (k : Z) (e : FinanceEngine)
  : list Transaction * FinanceEngine :=
  let expenses := DoublyLinkedList.filterByType "expense"
                    (transactionList e) in
  let h := MaxHeap.buildHeap expenses in
  (MaxHeap.getTopK k h, set_expenseHeap e h).



(** [categoryTotals[c] += a] on the [unordered_map] of
    [getMonthlySummary], kept as an association list: a missing key is
    first entered with 0.  The categories are listed in the order they
    were first met; the iteration order of an [unordered_map] is
    unspecified. *)
Fixpoint addToCategory (c : string) (a : Q) (totals : list (string * Q))
  : list (string * Q) :=
  match totals with
  | [] => [(c, Double.add 0 a)]
  | (k, v) :: rest =>
      if str_eq k c then (k, Double.add v a) :: rest
      else (k, v) :: addToCategory c a rest
  end.

(** One iteration of the loop of [getMonthlySummary] on the count, the
    two sums and the category totals. *)
Definition summarise (acc : Z * Q * Q * list (string * Q)) (x : Transaction)
  : Z * Q * Q * list (string * Q) :=
  let '(n, income, expenses, totals) := acc in
  if str_eq (type x) "income"
  then (n + 1, Double.add income (amount x), expenses, totals)
  else (n + 1, income, Double.add expenses (amount x),
        addToCategory (category x) (amount x) totals).

Definition getMonthlySummary (yearMonth : string) (e : FinanceEngine)
  : MonthlySummary :=
  let transactions := BST.getByMonth yearMonth (transactionBST e) in
  let '(n, income, expenses, totals) :=
    fold_left summarise transactions (0, 0%Q, 0%Q, []) in
  mkMonthlySummary yearMonth income expenses (Double.sub income expenses)
    n totals.

(** The suggestion queries take the default [maxResults], 10. *)
Definition getCategorySuggestions (prefix : string) (e : FinanceEngine)
  : option (list string) :=
  Trie.getWordsWithPrefix prefix 10 (categoryTrie e).

Definition getAllCategories (e : FinanceEngine) : list string :=
  Trie.getAllWords (categoryTrie e).

Definition getPayeeSuggestions (prefix : string) (e : FinanceEngine)
  : option (list string) :=
  Trie.getWordsWithPrefix prefix 10 (payeeTrie e).

(** The payload of a [DELETE_TRANSACTION] record read back.  [None] stands
    for a read of the uninitialised [amount]. *)
Definition parseTransaction (data : string) : option Transaction :=
  let ss := Stream.open data in
  let (i, ss) := Stream.getline "|" ss in
  let (ty, ss) := Stream.getline "|" ss in
  let (amt, ss) := Stream.get_double ss in
  let ss := Stream.ignore ss in
  let (cat, ss) := Stream.getline "|" ss in
  let (desc, ss) := Stream.getline "|" ss in
  let (dt, ss) := Stream.getline "010" ss in
  ' a <- amt ;;
  Some (mkTransaction i ty a cat desc dt).

Definition undo (e : FinanceEngine) : option (bool * FinanceEngine) :=
  match UndoStack.pop (undoStack e) with
  | None => Some (false, e)
  | Some (action, s) =>
      let e := set_undoStack e s in
      let ss := Stream.open (action_data action) in
      match action_type action with
      | ADD_TRANSACTION =>
          let (token, _) := Stream.getline "|" ss in
          ' (_, e) <- deleteTransaction token e ;;
          let e := match UndoStack.pop (undoStack e) with
                   | Some (_, s') => set_undoStack e s'
                   | None => e
                   end in
          Some (true, e)
      | DELETE_TRANSACTION =>
          ' x <- parseTransaction (action_data action) ;;
          let e := set_transactionList e
                     (DoublyLinkedList.addFront x (transactionList e)) in
          let e := set_transactionBST e
                     (BST.insert x (transactionBST e)) in
          Some (true, updateExpenseTracking x true e)
      | ADD_BUDGET =>
          let (token, _) := Stream.getline "|" ss in
          Some (true,
                set_budgetMap e (snd (HashMap.remove token (budgetMap e))))
      | UPDATE_BUDGET =>
          let (cat, ss) := Stream.getline "|" ss in
          let (oldLimit, _) := Stream.get_double ss in
          match HashMap.search cat (budgetMap e) with
          | Some b =>
              ' l <- oldLimit ;;
              Some (true,
                    set_budgetMap e
                      (snd (HashMap.update cat (with_limit b l)
                              (budgetMap e))))
          | None => Some (true, e)
          end
      | _ => Some (true, e)
      end
  end.

Definition canUndo (e : FinanceEngine) : bool :=
  negb (UndoStack.isEmpty (undoStack e)).

Definition loadTransaction (i ty : string) (amt : Q) (cat desc dt : string)
  (e : FinanceEngine) : FinanceEngine :=
  let x := mkTransaction i ty amt cat desc dt in
  let e := set_transactionList e
             (DoublyLinkedList.addBack x (transactionList e)) in
  indexTransaction x e.

Definition loadBudget (cat : string) (lim : Q) (e : FinanceEngine)
  : FinanceEngine :=
  let spent0 := match HashMap.search cat (expenseMap e) with
                | Some v => v
                | None => 0%Q
                end in
  let e := set_budgetMap e
             (HashMap.insert cat (mkBudget cat lim spent0) (budgetMap e)) in
  set_categoryTrie e (Trie.insert cat (categoryTrie e)).

Definition loadBill (i name : string) (amt : Q) (due cat : string)
  (paid : bool) (e : FinanceEngine) : FinanceEngine :=
  let b := setPaid (newBill i name amt due cat) paid in
  set_billQueue e (BillQueue.enqueue b (billQueue e)).

Definition clearAll (e : FinanceEngine) : FinanceEngine :=
  let e := set_transactionList e
             (DoublyLinkedList.clear (transactionList e)) in
  let e := set_transactionBST e (BST.clear (transactionBST e)) in
  let e := set_expenseHeap e (MaxHeap.clear (expenseHeap e)) in
  let e := set_recentStack e (TransactionStack.clear (recentStack e)) in
  let e := set_undoStack e (UndoStack.clear (undoStack e)) in
  set_billQueue e (BillQueue.clear (billQueue e)).

Definition getTransactionCount (e : FinanceEngine) : Z :=
  DoublyLinkedList.size (transactionList e).

Definition getBudgetCount (e : FinanceEngine) : Z :=
  HashMap.size (budgetMap e).

Definition getBillCount (e : FinanceEngine) : Z :=
  BillQueue.size (billQueue e).

Definition getTotalBalance (e : FinanceEngine) : Q :=
  fold_left
    (fun balance x =>
       if str_eq (type x) "income" then Double.add balance (amount x)
       else Double.sub balance (amount x))
    (DoublyLinkedList.traverseForward (transactionList e)) 0%Q.

Definition getTotalIncome (e : FinanceEngine) : Q :=
  fold_left (fun total x => Double.add total (amount x))
    (DoublyLinkedList.filterByType "income" (transactionList e)) 0%Q.

Definition getTotalExpenses (e : FinanceEngine) : Q :=
  fold_left (fun total x => Double.add total (amount x))
    (DoublyLinkedList.filterByType "expense" (transactionList e)) 0%Q.

End Engine.

(* ================================================================== *)
(** * Specification

    The predicates and reference functions the properties are stated
    with, and the engines the scenarios run on. *)

(* ------------------------------------------------------------------ *)
(** ** The undo log *)

(** A run of [push] calls, first action first. *)
Fixpoint pushAll (l : list Action) (s : UndoStack.t) : option UndoStack.t :=
  match l with
  | [] => Some s
  | a :: rest => ' s' <- UndoStack.push a s ;; pushAll rest s'
  end.

(** [count] is the length of the chain and stays within [maxSize]. *)
Definition undo_stack_ok (s : UndoStack.t) : Prop :=
  UndoStack.count s = Z.of_nat (List.length (UndoStack.nodes s)) /\
  UndoStack.count s <= UndoStack.maxSize s.

Definition is_bill_action (a : Action) : bool :=
  match action_type a with
  | ADD_BILL | DELETE_BILL | PAY_BILL => true
  | _ => false
  end.

(** [e'] differs from [e] in more than the undo log. *)
Definition reversed_something (e e' : FinanceEngine) : Prop :=
  Engine.set_undoStack e' (undoStack e) <> e.

(** C3 as it is worded: on a bill action [undo] only pops the log, and
    its result tells whether anything was undone. *)
Definition undo_on_bill_action_as_claimed (e : FinanceEngine) : Prop :=
  forall a s,
    UndoStack.pop (undoStack e) = Some (a, s) -> is_bill_action a = true ->
    exists r e',
      Engine.undo e = Some (r, e') /\ e' = Engine.set_undoStack e s /\
      (r = true <-> reversed_something e e').

(** The string [s] does not contain the character [c]. *)
Fixpoint lacks (c : ascii) (s : string) : bool :=
  match s with
  | EmptyString => true
  | String a rest => negb (Ascii.eqb a c) && lacks c rest
  end.

(* ------------------------------------------------------------------ *)
(** ** The order of a binary max-heap *)

Section HeapOrder.

Context {T : Type} (key : T -> Q).

(** Node [i] is not smaller than either of its children. *)
Definition node_ok (h : list T) (i : nat) : Prop :=
  forall x c y,
    nth_error h i = Some x ->
    c = Heap.leftChild i \/ c = Heap.rightChild i ->
    nth_error h c = Some y -> (key y <= key x)%Q.

(** Every node from index [lo] on is in order with its children. *)
Definition heap_from (h : list T) (lo : nat) : Prop :=
  forall i, (lo <= i)%nat -> node_ok h i.

(** The state of the vector while [heapifyDown] is at node [i]: every
    other node from [lo] on is in order, and the children of [i] do not
    exceed the parent of [i]. *)
Definition sift_inv (h : list T) (lo i : nat) : Prop :=
  (forall k, (lo <= k)%nat -> k <> i -> node_ok h k) /\
  (forall p x c y,
     (lo <= p)%nat ->
     i = Heap.leftChild p \/ i = Heap.rightChild p ->
     nth_error h p = Some x ->
     c = Heap.leftChild i \/ c = Heap.rightChild i ->
     nth_error h c = Some y -> (key y <= key x)%Q).

(** Descending order of the keys. *)
Definition sorted_desc (l : list T) : Prop :=
  StronglySorted (fun a b => (key b <= key a)%Q) l.

End HeapOrder.

(* ------------------------------------------------------------------ *)
(** ** The shape of a hash map *)

Section HashMapShape.

Context {V : Type}.

(** The table has its 100 slots, a key sits in the slot of its hash, and
    no chain holds a key twice. *)
Definition hashmap_ok (m : HashMap.t V) : Prop :=
  List.length (HashMap.table m) = 100%nat /\
  forall i, (forall k, In k (map fst (HashMap.slot m i)) ->
                       HashMap.hash k = i) /\
            NoDup (map fst (HashMap.slot m i)).

End HashMapShape.

(* ------------------------------------------------------------------ *)
(** ** The date index *)

(** [start <= date x <= end] under [std::string] comparison. *)
Definition in_range (startDate endDate : string) (x : Transaction) : bool :=
  str_le startDate (date x) && str_le (date x) endDate.

Fixpoint all_dates (P : string -> Prop) (t : BSTNode) : Prop :=
  match t with
  | Leaf => True
  | Node d _ l r => P d /\ all_dates P l /\ all_dates P r
  end.

(** The search-tree order on node dates; every bucket holds transactions
    of its node's date. *)
Fixpoint bst_ok (t : BSTNode) : Prop :=
  match t with
  | Leaf => True
  | Node d txs l r =>
      all_dates (fun x => str_lt x d = true) l /\
      all_dates (fun x => str_lt d x = true) r /\
      Forall (fun x => date x = d) txs /\
      bst_ok l /\ bst_ok r
  end.

(** [place x l] puts [x] behind every transaction of [l] dated no later
    than [x]; [by_date] does so for a whole log, first entry first: the
    stable sort of the log by date. *)
Fixpoint place (x : Transaction) (l : list Transaction) : list Transaction :=
  match l with
  | [] => [x]
  | y :: rest =>
      if str_lt (date x) (date y) then x :: y :: rest
      else y :: place x rest
  end.

Definition by_date (log : list Transaction) : list Transaction :=
  fold_left (fun acc x => place x acc) log [].

Definition ascending (l : list Transaction) : Prop :=
  StronglySorted (fun a b => str_le (date a) (date b) = true) l.

(** The transactions whose id is not [i]. *)
Definition other_ids (i : string) (x : Transaction) : bool :=
  negb (str_eq (id x) i).

(** The date index [b] and the ledger [l] both hold the transactions of
    [log], the live transactions in the order they were indexed. *)
Definition date_index_ok (l : DoublyLinkedList.t) (b : BST.t)
  (log : list Transaction) : Prop :=
  bst_ok b /\ BST.inorderTraversal b = by_date log /\ Permutation log l.

Definition engine_indexed (e : FinanceEngine) (log : list Transaction)
  : Prop :=
  date_index_ok (transactionList e) (transactionBST e) log.

(* ------------------------------------------------------------------ *)
(** ** Expense totals and budgets *)

(** The running total of a category, 0 when it has none. *)
Definition current_total (c : string) (em : HashMap.t Q) : Q :=
  match HashMap.search c em with
  | Some v => v
  | None => 0%Q
  end.

(** What [updateExpenseTracking] does to the two maps. *)
Definition tracked_total (x : Transaction) (isAdd : bool)
  (em : HashMap.t Q) : Q :=
  if isAdd then Double.add (current_total (category x) em) (amount x)
  else Double.max 0 (Double.sub (current_total (category x) em) (amount x)).

Definition track_expenses (x : Transaction) (isAdd : bool)
  (em : HashMap.t Q) : HashMap.t Q :=
  if negb (str_eq (type x) "expense") then em
  else HashMap.insert (category x) (tracked_total x isAdd em) em.

Definition track_budgets (x : Transaction) (isAdd : bool)
  (bm : HashMap.t Budget) (em : HashMap.t Q) : HashMap.t Budget :=
  if negb (str_eq (type x) "expense") then bm
  else
    match HashMap.search (category x) bm with
    | Some b =>
        snd (HashMap.update (category x)
               (with_spent b (tracked_total x isAdd em)) bm)
    | None => bm
    end.

(** The state of the maps that the engine maintains: both tables are
    well formed, every budget mirrors the running total of its category,
    and no running total is negative. *)
Definition budgets_mirror (bm : HashMap.t Budget) (em : HashMap.t Q) : Prop :=
  forall c b, HashMap.search c bm = Some b ->
              (spent b == current_total c em)%Q.

Definition totals_nonneg (em : HashMap.t Q) : Prop :=
  forall c v, HashMap.search c em = Some v -> (0 <= v)%Q.

Definition maps_ok (bm : HashMap.t Budget) (em : HashMap.t Q) : Prop :=
  hashmap_ok bm /\ hashmap_ok em /\ budgets_mirror bm em /\ totals_nonneg em.

(** The state the engine keeps between calls: the maps as in [maps_ok],
    the undo log within a capacity of at least two (it is built with
    50). *)
Definition engine_consistent (e : FinanceEngine) : Prop :=
  maps_ok (budgetMap e) (expenseMap e) /\
  undo_stack_ok (undoStack e) /\
  2 <= UndoStack.maxSize (undoStack e).

(** Two answers of [getBudget] that agree, [spent] compared as numbers. *)
Definition same_budget (o1 o2 : option Budget) : Prop :=
  match o1, o2 with
  | Some b1, Some b2 =>
      budget_category b1 = budget_category b2 /\ limit b1 = limit b2 /\
      (spent b1 == spent b2)%Q
  | None, None => True
  | _, _ => False
  end.

(** [q] is a [double]: [M * 2^k] with a significand [M] of at most 53
    bits and an exponent [k] of at least -1074. *)
Definition representable (q : Q) : Prop :=
  exists M k : Z,
    Z.abs M < 2 ^ 53 /\ - 1074 <= k /\ (q == inject_Z M * 2 ^ k)%Q.

(** [q] is a multiple of [2^k]. *)
Definition on_grid (k : Z) (q : Q) : Prop :=
  exists n : Z, (q == inject_Z n * 2 ^ k)%Q.

(** The sum of the amounts of [l], as a number. *)
Fixpoint sum_amounts (l : list Transaction) : Q :=
  match l with
  | [] => 0%Q
  | x :: rest => (amount x + sum_amounts rest)%Q
  end.

(** The amounts of [l] add up without rounding, in any order and with
    any of them subtracted: they are non-negative multiples of one power
    of two [2^k], such as whole numbers ([k = 0]) or quarters
    ([k = -2]), and their sum is below [2^(k+53)]. *)
Definition exact_amounts (k : Z) (l : list Transaction) : Prop :=
  - 1074 <= k /\
  Forall (fun x => (0 <= amount x)%Q /\ on_grid k (amount x)) l /\
  (sum_amounts l < 2 ^ (k + 53))%Q.

(** The answer of [getBudget] for a category after a transaction of type
    [ty] and amount [amt] in that category was added and the add undone,
    [before] being the answer before the add: the same budget, with
    [amt] added to [spent] and subtracted again when the transaction is
    an expense, each result rounded, the difference clamped at 0. *)
Definition budget_after_add_undo (ty : string) (amt : Q)
  (before after : option Budget) : Prop :=
  match before, after with
  | Some b, Some b' =>
      budget_category b' = budget_category b /\ limit b' = limit b /\
      (spent b'
       == if str_eq ty "expense"
          then Double.max 0 (Double.sub (Double.add (spent b) amt) amt)
          else spent b)%Q
  | None, None => True
  | _, _ => False
  end.

(** [x] is an expense of category [c]. *)
Definition counts_for (c : string) (x : Transaction) : bool :=
  str_eq (type x) "expense" && str_eq (category x) c.

(** The sum of the amounts of the expenses of category [c] in [l]. *)
Fixpoint ledger_total (c : string) (l : list Transaction) : Q :=
  match l with
  | [] => 0%Q
  | x :: rest =>
      if counts_for c x then (amount x + ledger_total c rest)%Q
      else ledger_total c rest
  end.

(** C1 as a predicate on the engine: every budget's [spent] is the sum
    of the expenses of its category now in the ledger, clamped at 0. *)
Definition budget_sync (e : FinanceEngine) : Prop :=
  forall c b,
    Engine.getBudget c e = Some b ->
    (spent b
     == Double.max 0 (ledger_total c (Engine.getAllTransactions e)))%Q.

(** The engine holds the transactions of [log], with unique ids and
    non-negative amounts that add up without rounding, and its running
    totals are their sums. *)
Definition engine_synced (e : FinanceEngine) (log : list Transaction)
  : Prop :=
  engine_consistent e /\ engine_indexed e log /\
  NoDup (map id log) /\
  Forall (fun x => (0 <= amount x)%Q) log /\
  (exists k, exact_amounts k log) /\
  forall c, (current_total c (expenseMap e) == ledger_total c log)%Q.

(* ------------------------------------------------------------------ *)
(** ** Engines of the scenarios *)

(** Scenario 5: one unpaid bill due on 2024-01-01. *)
Definition engine_one_bill : FinanceEngine :=
  Engine.loadBill "bill_1" "Rent" 1000 "2024-01-01" "Bills" false Engine.new.

(** The same engine after the bill has been paid. *)
Definition engine_bill_paid : FinanceEngine :=
  match Engine.payBill "bill_1" engine_one_bill with
  | Some (_, e') => e'
  | None => engine_one_bill
  end.

(** The engine after one [addBill]. *)
Definition engine_bill_added : FinanceEngine :=
  match Engine.addBill 1700000000 "Rent" 1000 "2024-01-01" "Bills"
          Engine.new with
  | Some (_, e) => e
  | None => Engine.new
  end.

(** Scenario 2: a budget of 100 for Food and one Food expense of 80. *)
Definition engine_food_80 : FinanceEngine :=
  match Engine.setBudget "Food" 100 Engine.new with
  | Some e =>
      match Engine.addTransaction 1700000000 "expense" 80 "Food" ""
              "2024-02-01" e with
      | Some (_, e') => e'
      | None => e
      end
  | None => Engine.new
  end.

(** A budget of 100 for Food and one Food expense of 0.1, that is of
    the [double] nearest to it. *)
Definition engine_food_tenth : FinanceEngine :=
  match Engine.setBudget "Food" 100 Engine.new with
  | Some e =>
      match Engine.addTransaction 1700000000 "expense"
              (Double.round (1 # 10)) "Food" "" "2024-02-01" e with
      | Some (_, e') => e'
      | None => e
      end
  | None => Engine.new
  end.

(** The same engine after the expense has been deleted again. *)
Definition engine_food_deleted : FinanceEngine :=
  match Engine.deleteTransaction "txn_1700000000_1" engine_food_80 with
  | Some (_, e) => e
  | None => engine_food_80
  end.

(** Scenario 4: five expenses of 10, 50, 30, 90 and 20. *)
Definition engine_five_expenses : FinanceEngine :=
  fold_left
    (fun e p =>
       Engine.loadTransaction (fst p) "expense" (snd p) "Food" ""
         "2024-03-01" e)
    [("t1", 10%Q); ("t2", 50%Q); ("t3", 30%Q); ("t4", 90%Q); ("t5", 20%Q)]
    Engine.new.

(** Scenario 3: transactions dated the 5th, 15th and 25th of January. *)
Definition engine_three_dates : FinanceEngine :=
  Engine.loadTransaction "c" "expense" 3 "Food" "" "2024-01-25"
    (Engine.loadTransaction "b" "expense" 2 "Food" "" "2024-01-15"
       (Engine.loadTransaction "a" "expense" 1 "Food" "" "2024-01-05"
          Engine.new)).

(** The three transactions of scenario 3 in the order they were loaded. *)
Definition log_three_dates : list Transaction :=
  [mkTransaction "a" "expense" 1 "Food" "" "2024-01-05";
   mkTransaction "b" "expense" 2 "Food" "" "2024-01-15";
   mkTransaction "c" "expense" 3 "Food" "" "2024-01-25"].

(* ------------------------------------------------------------------ *)
(** ** The node counter of a hash map *)

Section HashMapCount.
Context {V : Type}.
(** [count] is the number of nodes in the table. *)
Definition hashmap_counted (m : HashMap.t V) : Prop :=
  HashMap.count m = Z.of_nat (List.length (HashMap.getAllPairs m)).
End HashMapCount.

(** A table of integers holding one entry. *)
Definition map_one_entry : HashMap.t Z := HashMap.insert "Food" 7 HashMap.new.

(* ------------------------------------------------------------------ *)
(** ** The recent-transactions stack *)

(** [count] is the length of the chain, and the chain holds at most
    [maxSize] nodes, or one node when [maxSize] is below 1. *)
Definition recent_stack_ok (s : TransactionStack.t) : Prop :=
  TransactionStack.count s = Z.of_nat (List.length (TransactionStack.nodes s))
  /\ TransactionStack.count s <= Z.max 1 (TransactionStack.maxSize s).

(** A run of [loadTransaction] calls, first transaction first. *)
Definition loadAll (xs : list Transaction) (e : FinanceEngine)
  : FinanceEngine :=
  fold_left
    (fun e x =>
       Engine.loadTransaction (id x) (type x) (amount x) (category x)
         (description x) (date x) e)
    xs e.

(** The members of the engine that [updateExpenseTracking],
    [deleteTransaction] and [undo] do not write. *)
Definition untracked_members (e : FinanceEngine) :=
  (billQueue e, recentStack e, expenseHeap e, categoryHeap e,
   categoryTrie e, payeeTrie e, txnCounter e, billCounter e).

(* ------------------------------------------------------------------ *)
(** ** Listings by date *)

(** Dates never increase along [l]. *)
Definition descending (l : list Transaction) : Prop :=
  StronglySorted (fun a b => str_le (date b) (date a) = true) l.

(** The transactions dated [d]. *)
Definition dated (d : string) (x : Transaction) : bool := str_eq (date x) d.

(** The date is [yearMonth], a dash, and a day part that compares, as a
    string, between "01" and "31". *)
Definition in_month (yearMonth : string) (x : Transaction) : Prop :=
  exists day,
    date x = (yearMonth ++ "-" ++ day)%string /\
    str_le "01" day = true /\ str_le day "31" = true.

(** Scenario 3 with a second transaction on the 15th. *)
Definition log_four_dates : list Transaction :=
  log_three_dates ++ [mkTransaction "d" "income" 4 "Salary" "" "2024-01-15"].

Definition engine_four_dates : FinanceEngine :=
  Engine.loadTransaction "d" "income" 4 "Salary" "" "2024-01-15"
    engine_three_dates.

(* ------------------------------------------------------------------ *)
(** ** The vector while [heapifyUp] runs *)

Section HeapSiftUp.

Context {T : Type} (key : T -> Q).

(** The state of the vector while [heapifyUp] is at node [i]: every
    node is in order with each child other than [i], and the children of
    [i] do not exceed the parent of [i]. *)
Definition sift_up_inv (h : list T) (i : nat) : Prop :=
  (forall k x c y,
     nth_error h k = Some x ->
     c = Heap.leftChild k \/ c = Heap.rightChild k -> c <> i ->
     nth_error h c = Some y -> (key y <= key x)%Q) /\
  (forall p x c y,
     i = Heap.leftChild p \/ i = Heap.rightChild p ->
     nth_error h p = Some x ->
     c = Heap.leftChild i \/ c = Heap.rightChild i ->
     nth_error h c = Some y -> (key y <= key x)%Q).

End HeapSiftUp.

(** Five expenses as a vector, in the order of scenario 4. *)
Definition five_amounts : list Transaction :=
  map (fun p => mkTransaction (fst p) "expense" (snd p) "Food" "" "2024-03-01")
      [("t1", 10%Q); ("t2", 50%Q); ("t3", 30%Q); ("t4", 90%Q); ("t5", 20%Q)].

(* ------------------------------------------------------------------ *)
(** ** Sums over the ledger *)

Definition is_income (x : Transaction) : bool := str_eq (type x) "income".

Definition is_expense (x : Transaction) : bool := str_eq (type x) "expense".

(** [x] is not an income and belongs to category [c]. *)
Definition spent_on (c : string) (x : Transaction) : bool :=
  negb (is_income x) && str_eq (category x) c.

(** The sum of the values of an association list. *)
Fixpoint sum_values (m : list (string * Q)) : Q :=
  match m with
  | [] => 0%Q
  | p :: rest => (snd p + sum_values rest)%Q
  end.

(** The categories of [totals] are those of the non-income transactions
    of [seen], each once. *)
Definition breakdown_keys (seen : list Transaction)
  (totals : list (string * Q)) : Prop :=
  NoDup (map fst totals) /\
  (forall c, In c (map fst totals) <->
             exists x, In x seen /\ spent_on c x = true).

(** The category totals [totals] of the transactions [seen]: one entry
    for each category that a non-income transaction of [seen] has,
    holding the sum of the amounts of these transactions. *)
Definition breakdown_of (seen : list Transaction)
  (totals : list (string * Q)) : Prop :=
  NoDup (map fst totals) /\
  (forall c, In c (map fst totals) <->
             exists x, In x seen /\ spent_on c x = true) /\
  (forall c v, In (c, v) totals ->
               (v == sum_amounts (filter (spent_on c) seen))%Q).

(** The sums kept by the loop of [getMonthlySummary] after the
    transactions [seen], when the amounts add up without rounding. *)
Definition summed (seen : list Transaction) (income expenses : Q)
  (totals : list (string * Q)) : Prop :=
  (income == sum_amounts (filter is_income seen))%Q /\
  (expenses == sum_amounts (filter (fun x => negb (is_income x)) seen))%Q /\
  (sum_values totals == expenses)%Q /\
  breakdown_of seen totals.

(** The budget has used at least half of its limit: its level is not
    "normal". *)
Definition over_half (b : Budget) : bool :=
  negb (str_eq (getAlertLevel b) "normal").

(** The amounts that an "exceeded" alert prints are within the range of
    an [int]. *)
Definition alert_amounts_fit (b : Budget) : Prop :=
  getAlertLevel b = "exceeded" ->
  (exists s, Double.to_int (spent b) = Some s) /\
  (exists l, Double.to_int (limit b) = Some l).

(** [a] is the alert of budget [b]. *)
Definition alert_for (b : Budget) (a : BudgetAlert) : Prop :=
  alert_category a = budget_category b /\
  level a = getAlertLevel b /\
  percentUsed a = getPercentUsed b /\
  alert_spent a = spent b /\
  alert_limit a = limit b /\
  Engine.alertMessage b (getAlertLevel b) = Some (message a).

(** Scenario 3 with an income in January and a transfer in February. *)
Definition engine_mixed_types : FinanceEngine :=
  Engine.loadTransaction "f" "transfer" 5 "Savings" "" "2024-02-03"
    engine_four_dates.

(** An income of 0.1, an expense of 0.3 and an income of 0.2, each the
    [double] nearest to it. *)
Definition engine_tenths : FinanceEngine :=
  Engine.loadTransaction "c" "income" (Double.round (2 # 10)) "Salary" ""
    "2024-01-03"
    (Engine.loadTransaction "b" "expense" (Double.round (3 # 10)) "Food" ""
       "2024-01-02"
       (Engine.loadTransaction "a" "income" (Double.round (1 # 10)) "Salary"
          "" "2024-01-01" Engine.new)).

(** Expenses of 0.1 for Food and of 0.2 and 0.3 for Rent in one month. *)
Definition engine_three_tenths : FinanceEngine :=
  Engine.loadTransaction "c" "expense" (Double.round (3 # 10)) "Rent" ""
    "2024-01-03"
    (Engine.loadTransaction "b" "expense" (Double.round (2 # 10)) "Rent" ""
       "2024-01-02"
       (Engine.loadTransaction "a" "expense" (Double.round (1 # 10)) "Food"
          "" "2024-01-01" Engine.new)).

(** A budget of 100 for Food, Food expenses of 0.1 and of 0.2, then the
    first of them deleted. *)
Definition engine_food_two_tenths : FinanceEngine :=
  match Engine.deleteTransaction "a"
          (Engine.loadTransaction "b" "expense" (Double.round (2 # 10))
             "Food" "" "2024-02-02"
             (Engine.loadTransaction "a" "expense" (Double.round (1 # 10))
                "Food" "" "2024-02-01"
                (Engine.loadBudget "Food" 100 Engine.new))) with
  | Some (_, e) => e
  | None => Engine.new
  end.

(** Scenario 2 after a second Food expense, of 40: the budget of 100 is
    exceeded. *)
Definition engine_food_120 : FinanceEngine :=
  Engine.loadTransaction "t9" "expense" 40 "Food" "" "2024-02-05"
    engine_food_80.

(* ------------------------------------------------------------------ *)
(** ** Words of a trie *)

(** Whether the node reached is the end of a word. *)
Definition ends_word (o : option TrieNode) : bool :=
  match o with
  | Some (TNode _ e _) => e
  | None => false
  end.

(** The word kept at the end of [path] below [node]. *)
Definition stored (path : string) (node : TrieNode) : option string :=
  match Trie.walk path node with
  | Some (TNode _ true w) => Some w
  | _ => None
  end.

(** A trie as [insert] builds it: the keys of the children of a node
    are distinct, and a node that ends a word keeps a word whose
    lower-case form is the path to the node. *)
Fixpoint trie_ok (path : string) (node : TrieNode) : Prop :=
  match node with
  | TNode ch e w =>
      (e = true -> Trie.toLower w = path) /\
      NoDup (map fst ch) /\
      fold_right
        (fun p acc =>
           trie_ok (path ++ String (fst p) EmptyString) (snd p) /\ acc)
        True ch
  end.

(** Induction on a trie node with the hypothesis for every child. *)
Fixpoint TrieNode_children_ind (P : TrieNode -> Prop)
  (H : forall ch e w, (forall p, In p ch -> P (snd p)) -> P (TNode ch e w))
  (n : TrieNode) : P n :=
  match n with
  | TNode ch e w =>
      H ch e w
        ((fix children (l : list (ascii * TrieNode))
            : forall p, In p l -> P (snd p) :=
            match l with
            | [] => fun p (i : In p []) => match i with end
            | a :: rest =>
                fun p (i : In p (a :: rest)) =>
                  match i with
                  | or_introl E =>
                      eq_ind a (fun z => P (snd z))
                             (TrieNode_children_ind P H (snd a)) p E
                  | or_intror i' => children rest p i'
                  end
            end) ch)
  end.

(** The tries of an engine as built by its constructor. *)
Definition trie_of (ws : list string) : Trie.t :=
  fold_left (fun tr w => Trie.insert w tr) ws Trie.new.

(* ------------------------------------------------------------------ *)
(** ** The text of a number *)






(** The six digits [m] and the decimal exponent [x] that [put_double]
    prints for [a > 0]: [a] is [m * 10^(x-5)] rounded to six digits. *)
Definition six_digit_mantissa (a : Q) : Z * Z :=
  let x0 := Stream.decimal_exponent a in
  let m0 := Double.round_half_even (Stream.scale10 a (x0 - 5)) in
  if m0 =? 10 ^ 6 then (10 ^ 5, x0 + 1) else (m0, x0).

(** The number that the printed form of [d] spells. *)
Definition printed_value (d : Q) : Q :=
  if Qeq_bool d 0 then 0%Q
  else
    let '(m, x) := six_digit_mantissa (Qabs d) in
    let v := (inject_Z m * 10 ^ (x - 5))%Q in
    if Qle_bool 0 d then v else (- v)%Q.

(** [d] has at most six significant digits: it is [M * 10^k] for an
    integer [M] of at most six digits. *)
Definition six_digits (d : Q) : Prop :=
  exists M k : Z, Z.abs M < 10 ^ 6 /\ (d == inject_Z M * 10 ^ k)%Q.

(* ================================================================== *)
(** * Properties *)

(* ------------------------------------------------------------------ *)
(** ** Comparisons *)

Lemma Double_ltb_lt (a b : Q) : Double.ltb a b = true <-> (a < b)%Q.
Proof.
  unfold Double.ltb. rewrite negb_true_iff.
  split; intro H.
  - apply Qnot_le_lt. intro L. apply Qle_bool_iff in L. congruence.
  - destruct (Qle_bool b a) eqn:E; [|reflexivity].
    apply Qle_bool_iff in E. exfalso. apply (Qlt_not_le _ _ H E).
Qed.

Lemma Double_ltb_ge (a b : Q) : Double.ltb a b = false <-> (b <= a)%Q.
Proof.
  unfold Double.ltb. rewrite negb_false_iff. apply Qle_bool_iff.
Qed.

Lemma Double_leb_le (a b : Q) : Double.leb a b = true <-> (a <= b)%Q.
Proof. apply Qle_bool_iff. Qed.


Lemma Double_eqb_eq (a b : Q) : Double.eqb a b = true <-> (a == b)%Q.
Proof. apply Qeq_bool_iff. Qed.

Lemma Double_max_nonneg (x : Q) : (0 <= x)%Q -> (Double.max 0 x == x)%Q.
Proof.
  intro H. unfold Double.max. destruct (Double.ltb 0 x) eqn:E.
  - reflexivity.
  - apply Double_ltb_ge in E. lra.
Qed.

Lemma Double_max_ge0 (x : Q) : (0 <= Double.max 0 x)%Q.
Proof.
  unfold Double.max. destruct (Double.ltb 0 x) eqn:E.
  - apply Double_ltb_lt in E. lra.
  - lra.
Qed.

(* ------------------------------------------------------------------ *)
(** ** Rounding to a [double] *)

Lemma pow2_pos (e : Z) : (0 < 2 ^ e)%Q.
Proof. apply Qpower_0_lt. reflexivity. Qed.

Lemma pow2_add (a b : Z) : (2 ^ (a + b) == 2 ^ a * 2 ^ b)%Q.
Proof. apply Qpower_plus. discriminate. Qed.

Lemma pow2_Z (e : Z) : 0 <= e -> (inject_Z (2 ^ e) == 2 ^ e)%Q.
Proof. intro H. apply (Zpower_Qpower 2 e H). Qed.

Lemma pow2_cancel (e : Z) : (2 ^ e * 2 ^ (- e) == 1)%Q.
Proof. rewrite <- pow2_add. replace (e + - e) with 0 by lia. reflexivity. Qed.

Lemma round_half_even_Z (q : Q) (z : Z) :
  (q == inject_Z z)%Q -> Double.round_half_even q = z.
Proof.
  intro E. unfold Double.round_half_even.
  rewrite (Qfloor_comp q (inject_Z z) E), Qfloor_Z.
  assert (E0 : (q - inject_Z z == 0)%Q) by (rewrite E; ring).
  rewrite E0. reflexivity.
Qed.

Lemma round_half_even_nonneg (q : Q) :
  (0 <= q)%Q -> 0 <= Double.round_half_even q.
Proof.
  intro H. unfold Double.round_half_even.
  assert (F : 0 <= Qfloor q).
  { change 0 with (Qfloor 0). apply Qfloor_resp_le. exact H. }
  destruct (Qcompare _ _); [destruct (Z.even _)| |]; lia.
Qed.

Lemma round_half_even_comp (q q' : Q) :
  (q == q')%Q -> Double.round_half_even q = Double.round_half_even q'.
Proof.
  intro E. unfold Double.round_half_even.
  rewrite (Qfloor_comp q q' E).
  assert (E0 : (q - inject_Z (Qfloor q') == q' - inject_Z (Qfloor q'))%Q)
    by (rewrite E; reflexivity).
  rewrite E0. reflexivity.
Qed.

Lemma log2_bounds (n : Z) :
  0 < n -> 2 ^ Z.log2 n <= n < 2 ^ (Z.log2 n + 1).
Proof.
  intro H. pose proof (Z.log2_spec n H) as [L U].
  rewrite <- Z.add_1_r in U. lia.
Qed.

(** [binary_exponent a] is the exponent of the power of two at or below
    [a]. *)
Lemma binary_exponent_spec (a : Q) :
  (0 < a)%Q ->
  (2 ^ Double.binary_exponent a <= a)%Q /\
  (a < 2 ^ (Double.binary_exponent a + 1))%Q.
Proof.
  intro Ha. unfold Double.binary_exponent. cbv zeta.
  set (k := Z.log2 (Qnum a) - Z.log2 (Z.pos (Qden a))).
  destruct a as [n d]. cbn [Qnum Qden] in *.
  assert (Hn : 0 < n) by (unfold Qlt in Ha; simpl in Ha; lia).
  pose proof (log2_bounds n Hn) as [Ln Un].
  pose proof (log2_bounds (Z.pos d) ltac:(lia)) as [Ld Ud].
  pose proof (Z.log2_nonneg n) as N0.
  pose proof (Z.log2_nonneg (Z.pos d)) as D0.
  set (ln := Z.log2 n) in *. set (ld := Z.log2 (Z.pos d)) in *.
  assert (Q1 : (n # d == inject_Z n * / inject_Z (Z.pos d))%Q).
  { unfold Qeq, Qmult, Qinv, inject_Z. simpl. lia. }
  assert (Pn : (2 ^ ln <= inject_Z n)%Q).
  { rewrite <- pow2_Z by lia. rewrite <- Zle_Qle. exact Ln. }
  assert (Pn' : (inject_Z n < 2 ^ (ln + 1))%Q).
  { rewrite <- pow2_Z by lia. rewrite <- Zlt_Qlt. exact Un. }
  assert (Pd : (2 ^ ld <= inject_Z (Z.pos d))%Q).
  { rewrite <- pow2_Z by lia. rewrite <- Zle_Qle. exact Ld. }
  assert (Pd' : (inject_Z (Z.pos d) < 2 ^ (ld + 1))%Q).
  { rewrite <- pow2_Z by lia. rewrite <- Zlt_Qlt. exact Ud. }
  assert (Dpos : (0 < inject_Z (Z.pos d))%Q) by reflexivity.
  (* a < 2^(k+1) *)
  assert (Up : (n # d < 2 ^ (k + 1))%Q).
  { rewrite Q1. apply Qlt_shift_div_r; [exact Dpos|].
    apply (Qlt_le_trans _ (2 ^ (ln + 1))%Q); [exact Pn'|].
    replace (ln + 1) with ((k + 1) + ld) by (unfold k; lia).
    rewrite (pow2_add (k + 1) ld).
    apply (proj2 (Qmult_le_l _ _ _ (pow2_pos (k + 1)))). exact Pd. }
  (* 2^(k-1) <= a *)
  assert (Lo : (2 ^ (k - 1) <= n # d)%Q).
  { rewrite Q1. apply Qle_shift_div_l; [exact Dpos|].
    apply (Qle_trans _ (2 ^ ln)%Q); [|exact Pn].
    replace (2 ^ ln)%Q with (2 ^ ((k - 1) + (ld + 1)))%Q
      by (f_equal; unfold k; lia).
    rewrite (pow2_add (k - 1) (ld + 1)).
    apply (proj2 (Qmult_le_l _ _ _ (pow2_pos (k - 1)))).
    apply Qlt_le_weak. exact Pd'. }
  destruct (Qle_bool (2 ^ k)%Q (n # d)) eqn:T.
  - apply Qle_bool_iff in T. split; assumption.
  - split; [exact Lo|].
    replace (k - 1 + 1) with k by lia.
    apply Qnot_le_lt. intro H. apply Qle_bool_iff in H. congruence.
Qed.

(** The exponent is that of the number, not of the fraction that
    writes it. *)
Lemma binary_exponent_unique (a : Q) (x : Z) :
  (2 ^ x <= a)%Q -> (a < 2 ^ (x + 1))%Q -> Double.binary_exponent a = x.
Proof.
  intros Lo Hi.
  assert (Ha : (0 < a)%Q)
    by (apply (Qlt_le_trans _ (2 ^ x)%Q); [apply pow2_pos|exact Lo]).
  destruct (binary_exponent_spec a Ha) as [Lo' Hi'].
  set (y := Double.binary_exponent a) in *.
  assert (H1 : x < y + 1).
  { apply (Qpower_lt_compat_l_inv 2); [|reflexivity].
    apply (Qle_lt_trans _ a); assumption. }
  assert (H2 : y < x + 1).
  { apply (Qpower_lt_compat_l_inv 2); [|reflexivity].
    apply (Qle_lt_trans _ a); assumption. }
  lia.
Qed.

Lemma binary_exponent_comp (a a' : Q) :
  (0 < a)%Q -> (a == a')%Q ->
  Double.binary_exponent a = Double.binary_exponent a'.
Proof.
  intros Ha E. symmetry. apply binary_exponent_unique.
  - rewrite <- E. apply binary_exponent_spec. exact Ha.
  - rewrite <- E. apply binary_exponent_spec. exact Ha.
Qed.

Lemma Qabs_nonzero (d : Q) : ~ (d == 0)%Q -> (0 < Qabs d)%Q.
Proof.
  intro N. apply Qabs_case; intro H.
  - apply Qle_lteq in H. destruct H as [H|H]; [exact H|].
    exfalso. apply N. symmetry. exact H.
  - apply Qle_lteq in H. destruct H as [H|H]; [lra|].
    exfalso. apply N. exact H.
Qed.

Lemma Qeq_bool_comp (a a' b : Q) :
  (a == a')%Q -> Qeq_bool a b = Qeq_bool a' b.
Proof.
  intro E. destruct (Qeq_bool a b) eqn:A; destruct (Qeq_bool a' b) eqn:B;
    try reflexivity.
  - apply Qeq_bool_iff in A. apply Qeq_bool_neq in B. exfalso. apply B.
    rewrite <- E. exact A.
  - apply Qeq_bool_iff in B. apply Qeq_bool_neq in A. exfalso. apply A.
    rewrite E. exact B.
Qed.

Lemma Qle_bool_comp (a b b' : Q) :
  (b == b')%Q -> Qle_bool a b = Qle_bool a b'.
Proof.
  intro E. destruct (Qle_bool a b) eqn:A; destruct (Qle_bool a b') eqn:B;
    try reflexivity.
  - apply Qle_bool_iff in A. rewrite E in A. apply Qle_bool_iff in A.
    congruence.
  - apply Qle_bool_iff in B. rewrite <- E in B. apply Qle_bool_iff in B.
    congruence.
Qed.

(** Equal numbers round to the same fraction. *)
Lemma round_comp (q q' : Q) : (q == q')%Q -> Double.round q = Double.round q'.
Proof.
  intro E. unfold Double.round.
  rewrite (Qeq_bool_comp q q' 0 E).
  destruct (Qeq_bool q' 0) eqn:Z0; [reflexivity|].
  apply Qeq_bool_neq in Z0.
  assert (Ea : (Qabs q == Qabs q')%Q) by (rewrite E; reflexivity).
  assert (Ha : (0 < Qabs q)%Q)
    by (apply Qabs_nonzero; rewrite E; exact Z0).
  cbv zeta.
  rewrite (binary_exponent_comp _ _ Ha Ea).
  set (e := Z.max (Double.binary_exponent (Qabs q') - 52) (- 1074)).
  rewrite (round_half_even_comp (Qabs q * 2 ^ (- e)) (Qabs q' * 2 ^ (- e)))
    by (rewrite Ea; reflexivity).
  rewrite (Qle_bool_comp 0 q q' E). reflexivity.
Qed.

#[global] Instance round_proper : Proper (Qeq ==> Qeq) Double.round.
Proof. intros a b E. rewrite (round_comp a b E). reflexivity. Qed.

#[global] Instance add_proper : Proper (Qeq ==> Qeq ==> Qeq) Double.add.
Proof.
  intros a b E c d F. unfold Double.add. rewrite E, F. reflexivity.
Qed.

#[global] Instance sub_proper : Proper (Qeq ==> Qeq ==> Qeq) Double.sub.
Proof.
  intros a b E c d F. unfold Double.sub. rewrite E, F. reflexivity.
Qed.

Lemma round_zero : Double.round 0 = 0%Q.
Proof. reflexivity. Qed.

Lemma round_nonneg (q : Q) : (0 <= q)%Q -> (0 <= Double.round q)%Q.
Proof.
  intro H. unfold Double.round.
  destruct (Qeq_bool q 0); [lra|]. cbv zeta.
  assert (L : Qle_bool 0 q = true) by (apply Qle_bool_iff; exact H).
  rewrite L. rewrite Qred_correct.
  apply Qmult_le_0_compat; [|apply Qlt_le_weak, pow2_pos].
  change (inject_Z 0 <= inject_Z
            (Double.round_half_even
               (Qabs q * 2 ^ (- Z.max (Double.binary_exponent (Qabs q) - 52)
                                     (- 1074)))))%Q.
  rewrite <- Zle_Qle. apply round_half_even_nonneg.
  apply Qmult_le_0_compat; [apply Qabs_nonneg|apply Qlt_le_weak, pow2_pos].
Qed.

(** A [double] is its own rounding. *)
Lemma round_exact (q : Q) : representable q -> (Double.round q == q)%Q.
Proof.
  intros (M & k & HM & Hk & Eq). unfold Double.round.
  destruct (Qeq_bool q 0) eqn:Z0.
  { apply Qeq_bool_iff in Z0. symmetry. exact Z0. }
  apply Qeq_bool_neq in Z0. pose proof (Qabs_nonzero q Z0) as Ha.
  cbv zeta.
  set (a := Qabs q) in *. set (A := Z.abs M) in *.
  assert (Ea : (a == inject_Z A * 2 ^ k)%Q).
  { unfold a. rewrite Eq, Qabs_Qmult.
    rewrite (Qabs_pos (2 ^ k)%Q) by (apply Qlt_le_weak, pow2_pos).
    reflexivity. }
  destruct (binary_exponent_spec a Ha) as [Lo _].
  set (x := Double.binary_exponent a) in *.
  set (e := Z.max (x - 52) (- 1074)).
  assert (J : 0 <= k - e).
  { assert (X : x < 53 + k).
    { apply (Qpower_lt_compat_l_inv 2); [|reflexivity].
      apply (Qle_lt_trans _ a); [exact Lo|].
      rewrite Ea, pow2_add.
      apply Qmult_lt_r; [apply pow2_pos|].
      rewrite <- pow2_Z by lia. rewrite <- Zlt_Qlt. exact HM. }
    unfold e. lia. }
  assert (Es : (a * 2 ^ (- e) == inject_Z (A * 2 ^ (k - e)))%Q).
  { rewrite Ea, inject_Z_mult, pow2_Z by exact J.
    rewrite <- Qmult_assoc, <- pow2_add.
    replace (k + - e) with (k - e) by lia. reflexivity. }
  rewrite (round_half_even_Z _ _ Es).
  assert (Ev : (inject_Z (A * 2 ^ (k - e)) * 2 ^ e == a)%Q).
  { rewrite Ea, inject_Z_mult, pow2_Z by exact J.
    rewrite <- Qmult_assoc, <- pow2_add.
    replace (k - e + e) with k by lia. reflexivity. }
  destruct (Qle_bool 0 q) eqn:S; rewrite Qred_correct, Ev; unfold a.
  - apply Qle_bool_iff in S. apply Qabs_pos. exact S.
  - assert (N : (q <= 0)%Q).
    { apply Qlt_le_weak, Qnot_le_lt. intro H.
      apply Qle_bool_iff in H. congruence. }
    rewrite (Qabs_neg q N). ring.
Qed.

(** Numbers on one grid of powers of two. *)

Lemma on_grid_comp (k : Z) (q q' : Q) :
  (q == q')%Q -> on_grid k q -> on_grid k q'.
Proof. intros E [n H]. exists n. rewrite <- E. exact H. Qed.

Lemma on_grid_zero (k : Z) : on_grid k 0.
Proof. exists 0. ring. Qed.

Lemma on_grid_add (k : Z) (a b : Q) :
  on_grid k a -> on_grid k b -> on_grid k (a + b).
Proof.
  intros [n Hn] [m Hm]. exists (n + m).
  rewrite Hn, Hm, inject_Z_plus. ring.
Qed.

Lemma on_grid_opp (k : Z) (a : Q) : on_grid k a -> on_grid k (- a).
Proof.
  intros [n Hn]. exists (- n). rewrite Hn, inject_Z_opp. ring.
Qed.

Lemma on_grid_sub (k : Z) (a b : Q) :
  on_grid k a -> on_grid k b -> on_grid k (a - b).
Proof.
  intros Ha Hb. apply on_grid_add; [exact Ha|apply on_grid_opp; exact Hb].
Qed.

(** A multiple of [2^k] below [2^(k+53)] is a [double]. *)
Lemma grid_representable (k : Z) (q : Q) :
  - 1074 <= k -> on_grid k q -> (Qabs q < 2 ^ (k + 53))%Q ->
  representable q.
Proof.
  intros Hk [n Hn] B. exists n, k. split; [|split; [exact Hk|exact Hn]].
  rewrite Hn, Qabs_Qmult in B.
  rewrite (Qabs_pos (2 ^ k)) in B by (apply Qlt_le_weak, pow2_pos).
  rewrite (Qmult_comm _ (2 ^ k)), pow2_add in B.
  apply (proj1 (Qmult_lt_l _ _ _ (pow2_pos k))) in B.
  rewrite <- pow2_Z in B by lia.
  change (Qabs (inject_Z n)) with (inject_Z (Z.abs n)) in B.
  rewrite <- Zlt_Qlt in B. exact B.
Qed.

Lemma round_on_grid (k : Z) (q : Q) :
  - 1074 <= k -> on_grid k q -> (Qabs q < 2 ^ (k + 53))%Q ->
  (Double.round q == q)%Q.
Proof.
  intros Hk G B. apply round_exact. apply (grid_representable k); assumption.
Qed.

(** Rounding at work: 0.1 is the [double] [3602879701896397 / 2^55];
    0.1 + 0.2 is 0.30000000000000004; a tie goes to the even
    significand, and below [2^-1074] to zero or to [2^-1073]. *)
Example round_examples :
  Double.round (1 # 10) = (3602879701896397 # 2 ^ 55)%Q /\
  Double.add (Double.round (1 # 10)) (Double.round (2 # 10))
    = (1351079888211149 # 2 ^ 52)%Q /\
  Double.round (- (1 # 3)) = (- (6004799503160661 # 2 ^ 54))%Q /\
  Double.round (2 ^ 53 + 1) = (2 ^ 53)%Q /\
  Double.round (2 ^ 53 + 3) = (2 ^ 53 + 4)%Q /\
  Double.round (1 # 2 ^ 1075) = 0%Q /\
  Double.round (3 # 2 ^ 1075) = (1 # 2 ^ 1073)%Q /\
  Double.add 80 50 = 130%Q.
Proof. vm_compute. repeat split; reflexivity. Qed.

(** [std::string] order: [String.compare] is a strict total order. *)

Lemma ascii_compare_refl (a : ascii) : Ascii.compare a a = Eq.
Proof. unfold Ascii.compare. apply N.compare_refl. Qed.

Lemma ascii_compare_lt_trans (a b c : ascii) :
  Ascii.compare a b = Lt -> Ascii.compare b c = Lt -> Ascii.compare a c = Lt.
Proof.
  unfold Ascii.compare. rewrite !N.compare_lt_iff. apply N.lt_trans.
Qed.

Lemma string_compare_refl (s : string) : String.compare s s = Eq.
Proof.
  induction s as [|c s IH]; simpl; [reflexivity|].
  rewrite ascii_compare_refl. exact IH.
Qed.

Lemma string_compare_lt_trans (a b c : string) :
  String.compare a b = Lt -> String.compare b c = Lt ->
  String.compare a c = Lt.
Proof.
  revert b c. induction a as [|x a IH]; intros [|y b] [|z c]; simpl;
    try congruence.
  destruct (Ascii.compare x y) eqn:Exy; try discriminate.
  - apply Ascii.compare_eq_iff in Exy. subst y.
    destruct (Ascii.compare x z) eqn:Exz; try congruence.
    apply IH.
  - destruct (Ascii.compare y z) eqn:Eyz; try discriminate.
    + apply Ascii.compare_eq_iff in Eyz. subst z. rewrite Exy. reflexivity.
    + rewrite (ascii_compare_lt_trans _ _ _ Exy Eyz). reflexivity.
Qed.

Lemma str_lt_iff (a b : string) :
  str_lt a b = true <-> String.compare a b = Lt.
Proof.
  unfold str_lt, String.ltb. destruct (String.compare a b); split;
    congruence.
Qed.

Lemma str_lt_irrefl (a : string) : str_lt a a = false.
Proof. unfold str_lt, String.ltb. rewrite string_compare_refl. reflexivity. Qed.

Lemma str_lt_trans (a b c : string) :
  str_lt a b = true -> str_lt b c = true -> str_lt a c = true.
Proof. rewrite !str_lt_iff. apply string_compare_lt_trans. Qed.

Lemma str_lt_asym (a b : string) : str_lt a b = true -> str_lt b a = false.
Proof.
  intro H. destruct (str_lt b a) eqn:E; [|reflexivity].
  pose proof (str_lt_trans _ _ _ H E) as T.
  rewrite str_lt_irrefl in T. discriminate.
Qed.

Lemma str_lt_total (a b : string) :
  str_lt a b = false -> str_lt b a = false -> a = b.
Proof.
  unfold str_lt, String.ltb. intros H1 H2.
  rewrite String.compare_antisym in H2.
  destruct (String.compare a b) eqn:E; simpl in *; try discriminate.
  apply String.compare_eq_iff. exact E.
Qed.

Lemma str_eq_iff (a b : string) : str_eq a b = true <-> a = b.
Proof. apply String.eqb_eq. Qed.

Lemma str_eq_refl (a : string) : str_eq a a = true.
Proof. apply String.eqb_refl. Qed.

Lemma str_eq_neq (a b : string) : str_eq a b = false <-> a <> b.
Proof. apply String.eqb_neq. Qed.

(* ------------------------------------------------------------------ *)
(** ** Budget alert levels *)



(* ------------------------------------------------------------------ *)
(** ** Bills *)

Lemma markAsPaid_split (i : string) (q : BillQueue.t) (q' : BillQueue.t) :
  BillQueue.markAsPaid i q = (true, q') ->
  exists l1 b l2,
    q = l1 ++ b :: l2 /\ bill_id b = i /\
    (forall x, In x l1 -> bill_id x <> i) /\
    q' = l1 ++ setPaid b true :: l2.
Proof.
  revert q'. induction q as [|b q IH]; intros q' H; simpl in H.
  - discriminate.
  - destruct (str_eq (bill_id b) i) eqn:E.
    + inversion H; subst. apply str_eq_iff in E.
      exists [], b, q. repeat split; auto.
    + destruct (BillQueue.markAsPaid i q) as [found rest] eqn:M.
      inversion H; subst found q'.
      destruct (IH rest eq_refl) as (l1 & b0 & l2 & Hq & Hid & Hl1 & Hr).
      exists (b :: l1), b0, l2. subst. repeat split; auto.
      intros x [<-|Hx]; [apply str_eq_neq; exact E|auto].
Qed.

Lemma markAsPaid_found (i : string) (q : BillQueue.t) :
  fst (BillQueue.markAsPaid i q) = true <->
  exists b, BillQueue.findById i q = Some b.
Proof.
  induction q as [|b q IH]; simpl.
  - split; [discriminate|intros [b H]; discriminate].
  - destruct (str_eq (bill_id b) i).
    + simpl. split; eauto.
    + destruct (BillQueue.markAsPaid i q) as [found rest]. exact IH.
Qed.

(** C8.  The overdue bills as of a date are exactly the bills of the
    queue, in queue order, that are unpaid and due strictly before that
    date; a bill due on the date itself is not overdue; and after a
    successful [payBill] the bill it marked is not returned, nor is, when
    ids are unique, any bill with that id. *)
Theorem overdue_bills_exact (asOfDate : string) (e : FinanceEngine) :
  Engine.getOverdueBills asOfDate e
    = filter (fun b => negb (isPaid b) && str_lt (dueDate b) asOfDate)
             (Engine.getAllBills e) /\
  (forall b, In b (Engine.getOverdueBills asOfDate e) <->
             In b (Engine.getAllBills e) /\ isPaid b = false /\
             String.compare (dueDate b) asOfDate = Lt) /\
  (forall b, dueDate b = asOfDate ->
             ~ In b (Engine.getOverdueBills asOfDate e)) /\
  (forall i e', Engine.payBill i e = Some (true, e') ->
     exists l1 b l2,
       Engine.getAllBills e = l1 ++ b :: l2 /\ bill_id b = i /\
       Engine.getAllBills e' = l1 ++ setPaid b true :: l2 /\
       Engine.getOverdueBills asOfDate e'
         = BillQueue.getOverdueBills asOfDate l1
             ++ BillQueue.getOverdueBills asOfDate l2 /\
       (NoDup (map bill_id (Engine.getAllBills e)) ->
        forall x, In x (Engine.getOverdueBills asOfDate e') ->
                  bill_id x <> i)).
Proof.
  split; [reflexivity|]. split; [|split].
  - intro b. unfold Engine.getOverdueBills, BillQueue.getOverdueBills,
      Engine.getAllBills, BillQueue.getAllBills.
    rewrite filter_In, andb_true_iff, negb_true_iff, str_lt_iff. tauto.
  - intros b Hd Hin.
    unfold Engine.getOverdueBills, BillQueue.getOverdueBills in Hin.
    apply filter_In in Hin. destruct Hin as [_ Hin].
    apply andb_true_iff in Hin. destruct Hin as [_ Hlt].
    rewrite Hd, str_lt_irrefl in Hlt. discriminate.
  - intros i e' Hpay. unfold Engine.payBill in Hpay.
    destruct (BillQueue.findById i (billQueue e)) as [b0|] eqn:F;
      [|inversion Hpay].
    unfold Engine.pushUndo, bind in Hpay.
    destruct (UndoStack.push _ _) as [s|]; [|discriminate].
    simpl in Hpay.
    destruct (BillQueue.markAsPaid i (billQueue e)) as [r q'] eqn:M.
    inversion Hpay; subst r e'. clear Hpay.
    destruct (markAsPaid_split _ _ _ M) as (l1 & b & l2 & Hq & Hid & Hl1 & Hq').
    exists l1, b, l2.
    unfold Engine.getAllBills, BillQueue.getAllBills,
      Engine.getOverdueBills. simpl.
    repeat split; auto.
    + rewrite Hq'. unfold BillQueue.getOverdueBills.
      rewrite filter_app. simpl. reflexivity.
    + intros ND x Hx. rewrite Hq' in Hx.
      unfold BillQueue.getOverdueBills in Hx.
      rewrite filter_app in Hx. simpl in Hx.
      rewrite Hq, map_app in ND. simpl in ND.
      apply NoDup_remove_2 in ND.
      intro Hxi. apply ND. apply in_or_app.
      apply in_app_or in Hx. destruct Hx as [Hx|Hx];
        apply filter_In in Hx; destruct Hx as [Hx _].
      * left. rewrite Hid, <- Hxi. apply in_map. exact Hx.
      * right. rewrite Hid, <- Hxi. apply in_map. exact Hx.
Qed.

Lemma overdue_bills_exact_witness :
  Engine.payBill "bill_1" engine_one_bill = Some (true, engine_bill_paid) /\
  forall x, In x (Engine.getOverdueBills "2024-02-01" engine_bill_paid) ->
            bill_id x <> "bill_1".
Proof.
  split; [reflexivity|].
  destruct (proj2 (proj2 (proj2
              (overdue_bills_exact "2024-02-01" engine_one_bill)))
              "bill_1" engine_bill_paid eq_refl)
    as (l1 & b & l2 & _ & _ & _ & _ & H).
  apply H. vm_compute. constructor; [intros []|constructor].
Defined.

(* ------------------------------------------------------------------ *)
(** ** clearAll *)

(** C9.  [clearAll] empties the transaction list, the date index, the
    expense heap, the recent-transaction cache, the undo log and the bill
    queue, and leaves the budgets with their [spent], the per-category
    expense totals and both tries as they were: [getBudget] and
    [getAllBudgets] answer as before although the ledger is empty. *)
Theorem clearAll_frame (e : FinanceEngine) :
  let e' := Engine.clearAll e in
  Engine.getAllTransactions e' = [] /\
  transactionBST e' = Leaf /\
  expenseHeap e' = [] /\
  TransactionStack.nodes (recentStack e') = [] /\
  UndoStack.nodes (undoStack e') = [] /\
  Engine.canUndo e' = false /\
  Engine.getAllBills e' = [] /\
  budgetMap e' = budgetMap e /\
  expenseMap e' = expenseMap e /\
  categoryTrie e' = categoryTrie e /\
  payeeTrie e' = payeeTrie e /\
  (forall c, Engine.getBudget c e' = Engine.getBudget c e) /\
  Engine.getAllBudgets e' = Engine.getAllBudgets e.
Proof.
  simpl. repeat split; reflexivity.
Qed.

(* ------------------------------------------------------------------ *)
(** ** The undo log *)

Lemma removelast_length {A : Type} (l : list A) :
  l <> [] -> S (List.length (removelast l)) = List.length l.
Proof.
  intro H. destruct (exists_last H) as (l' & a & ->).
  rewrite removelast_last, length_app. simpl. lia.
Qed.

(** With a capacity of at least two, [push] keeps the log within its
    bound, and at capacity drops the bottom entry before linking the new
    one. *)
Lemma push_within_bound (a : Action) (s : UndoStack.t) :
  2 <= UndoStack.maxSize s -> undo_stack_ok s ->
  exists s',
    UndoStack.push a s = Some s' /\ undo_stack_ok s' /\
    UndoStack.maxSize s' = UndoStack.maxSize s /\
    UndoStack.nodes s' =
      (if UndoStack.count s <? UndoStack.maxSize s
       then a :: UndoStack.nodes s
       else a :: removelast (UndoStack.nodes s)).
Proof.
  intros Hm [Hc Hb]. unfold UndoStack.push.
  destruct (UndoStack.count s >=? UndoStack.maxSize s) eqn:E.
  - assert (Heq : UndoStack.count s = UndoStack.maxSize s) by lia.
    assert (Hlt : (UndoStack.count s <? UndoStack.maxSize s) = false) by lia.
    rewrite Hlt.
    destruct s as [l c m]. simpl in *.
    destruct l as [|x [|y l]]; simpl in Hc; try lia.
    eexists. split; [reflexivity|].
    unfold undo_stack_ok. cbn [UndoStack.nodes UndoStack.count UndoStack.maxSize].
    repeat split; try reflexivity; try lia.
    cbn [List.length].
    pose proof (removelast_length (x :: y :: l)) as R.
    cbn [List.length] in R.
    assert (x :: y :: l <> []) as N by discriminate.
    specialize (R N). lia.
  - assert (Hlt : (UndoStack.count s <? UndoStack.maxSize s) = true) by lia.
    rewrite Hlt. eexists. split; [reflexivity|].
    unfold undo_stack_ok. simpl. repeat split; lia.
Qed.

Lemma pushAll_within_bound (l : list Action) (s : UndoStack.t) :
  2 <= UndoStack.maxSize s -> undo_stack_ok s ->
  exists s', pushAll l s = Some s' /\ undo_stack_ok s' /\
             UndoStack.maxSize s' = UndoStack.maxSize s.
Proof.
  revert s. induction l as [|a l IH]; intros s Hm Hok; simpl.
  - eauto.
  - destruct (push_within_bound a s Hm Hok) as (s1 & P & Ok1 & M1 & _).
    rewrite P. simpl.
    destruct (IH s1) as (s2 & P2 & Ok2 & M2); [lia|exact Ok1|].
    exists s2. repeat split; try apply Ok2; auto. congruence.
Qed.

(** C4, at the capacity where the code departs from the claim.  A log
    configured with capacity 1 holds two entries after two pushes: the
    trimming walk finds no [next] behind the single node and unlinks
    nothing.  With capacity 0 the walk starts from a null [top]. *)
Theorem undo_stack_capacity_one_overflows (a b : Action) :
  (exists s, pushAll [a; b] (UndoStack.new 1) = Some s /\
             UndoStack.nodes s = [b; a] /\
             UndoStack.size s = 2 /\ UndoStack.maxSize s = 1) /\
  UndoStack.push a (UndoStack.new 0) = None.
Proof.
  split; [|reflexivity].
  eexists. split; [reflexivity|]. repeat split.
Qed.

(** The bound of C4 for every capacity of at least two and every run of
    pushes on a fresh log. *)
Lemma undo_stack_bound_from_two (maxSz : Z) (l : list Action) :
  2 <= maxSz ->
  exists s, pushAll l (UndoStack.new maxSz) = Some s /\
            UndoStack.size s <= maxSz /\
            UndoStack.size s = Z.of_nat (List.length (UndoStack.nodes s)).
Proof.
  intro H.
  destruct (pushAll_within_bound l (UndoStack.new maxSz)) as (s & P & [C B] & M).
  - exact H.
  - unfold undo_stack_ok. simpl. lia.
  - exists s. simpl in M. unfold UndoStack.size. repeat split; auto. lia.
Qed.

(* ------------------------------------------------------------------ *)
(** ** undo on a bill action *)

Lemma set_undoStack_back (e : FinanceEngine) (s : UndoStack.t) :
  Engine.set_undoStack (Engine.set_undoStack e s) (undoStack e) = e.
Proof. destruct e. reflexivity. Qed.

(** C3, amended.  When the popped action is an [ADD_BILL], [DELETE_BILL]
    or [PAY_BILL] record, [undo] changes nothing but the log, from which
    the record is gone, and returns [true] all the same: the result tells
    that an action was popped, not that something was reversed. *)
Theorem undo_bill_action_only_pops (e : FinanceEngine) (a : Action)
  (s : UndoStack.t) :
  UndoStack.pop (undoStack e) = Some (a, s) ->
  is_bill_action a = true ->
  Engine.undo e = Some (true, Engine.set_undoStack e s) /\
  ~ reversed_something e (Engine.set_undoStack e s).
Proof.
  intros Hpop Hbill. split.
  - unfold Engine.undo. rewrite Hpop.
    unfold is_bill_action in Hbill.
    destruct (action_type a); try discriminate; reflexivity.
  - unfold reversed_something. rewrite set_undoStack_back. auto.
Qed.

Lemma undo_bill_action_only_pops_witness :
  Engine.undo engine_bill_added
    = Some (true, Engine.set_undoStack engine_bill_added
                    (UndoStack.mk [] 0 50)) /\
  ~ reversed_something engine_bill_added
      (Engine.set_undoStack engine_bill_added (UndoStack.mk [] 0 50)).
Proof.
  apply (undo_bill_action_only_pops engine_bill_added
           (mkAction ADD_BILL
              "bill_1700000000_1|Rent|1000|2024-01-01|Bills")).
  - reflexivity.
  - reflexivity.
Defined.

(** C3 as worded fails on the engine that has just added a bill: [undo]
    returns [true] and has reversed nothing. *)
Lemma undo_on_bill_action_counterexample :
  ~ undo_on_bill_action_as_claimed engine_bill_added.
Proof.
  intro H.
  destruct (H (mkAction ADD_BILL
                 "bill_1700000000_1|Rent|1000|2024-01-01|Bills")
              (UndoStack.mk [] 0 50) eq_refl eq_refl)
    as (r & e' & Hu & He' & Hr).
  assert (r = true) as -> by (vm_compute in Hu; congruence).
  apply (proj1 Hr eq_refl). subst e'. apply set_undoStack_back.
Qed.

(* ------------------------------------------------------------------ *)
(** ** Vectors updated in place *)

Lemma upd_length {A : Type} (i : nat) (x : A) (l : list A) :
  List.length (upd i x l) = List.length l.
Proof.
  revert i. induction l as [|y l IH]; intros [|i]; simpl; auto.
Qed.

Lemma nth_error_upd_eq {A : Type} (i : nat) (x : A) (l : list A) :
  (i < List.length l)%nat -> nth_error (upd i x l) i = Some x.
Proof.
  revert i. induction l as [|y l IH]; intros [|i] H; simpl in *;
    try lia; auto. apply IH. lia.
Qed.

Lemma nth_error_upd_neq {A : Type} (i j : nat) (x : A) (l : list A) :
  i <> j -> nth_error (upd i x l) j = nth_error l j.
Proof.
  revert i j. induction l as [|y l IH]; intros [|i] [|j] H; simpl;
    try congruence; auto.
Qed.

Lemma upd_same {A : Type} (i : nat) (x : A) (l : list A) :
  nth_error l i = Some x -> upd i x l = l.
Proof.
  revert i. induction l as [|y l IH]; intros [|i] H; simpl in *;
    try congruence.
  f_equal. auto.
Qed.

Lemma upd_Permutation {A : Type} (i : nat) (x y : A) (l : list A) :
  nth_error l i = Some x -> Permutation (x :: upd i y l) (y :: l).
Proof.
  revert i. induction l as [|z l IH]; intros [|i] H; simpl in *;
    try discriminate.
  - inversion H; subst. apply perm_swap.
  - eapply perm_trans; [apply perm_swap|].
    eapply perm_trans; [|apply perm_swap].
    apply perm_skip. apply IH. exact H.
Qed.

Lemma nth_error_removelast {A : Type} (l : list A) (k : nat) :
  nth_error (removelast l) k
    = if (S k <? List.length l)%nat then nth_error l k else None.
Proof.
  revert k. induction l as [|x l IH]; intro k.
  - destruct k; reflexivity.
  - destruct l as [|y l].
    + destruct k; reflexivity.
    + change (removelast (x :: y :: l)) with (x :: removelast (y :: l)).
      destruct k as [|k].
      * reflexivity.
      * simpl nth_error. rewrite IH. reflexivity.
Qed.

(* ------------------------------------------------------------------ *)
(** ** The binary max-heap *)

Section HeapFacts.

Context {T : Type} (key : T -> Q).

Abbreviation heap := (list T).

Lemma swap_length (h : heap) (i j : nat) :
  List.length (Heap.swap h i j) = List.length h.
Proof.
  unfold Heap.swap.
  destruct (nth_error h i), (nth_error h j); auto.
  rewrite !upd_length. reflexivity.
Qed.

Lemma swap_Permutation (h : heap) (i j : nat) :
  Permutation (Heap.swap h i j) h.
Proof.
  unfold Heap.swap.
  destruct (nth_error h i) as [x|] eqn:Ei; [|reflexivity].
  destruct (nth_error h j) as [y|] eqn:Ej; [|reflexivity].
  destruct (Nat.eq_dec i j) as [->|N].
  - assert (x = y) by congruence. subst y.
    rewrite (upd_same j x h Ej). rewrite (upd_same j x h Ej). reflexivity.
  - apply (Permutation_cons_inv (a := y)).
    eapply perm_trans.
    + apply upd_Permutation. rewrite nth_error_upd_neq; [exact Ej|exact N].
    + apply upd_Permutation. exact Ei.
Qed.

Lemma nth_error_swap (h : heap) (i j k : nat) (x y : T) :
  nth_error h i = Some x -> nth_error h j = Some y -> i <> j ->
  nth_error (Heap.swap h i j) k
    = if (k =? i)%nat then Some y
      else if (k =? j)%nat then Some x
      else nth_error h k.
Proof.
  intros Ei Ej N. unfold Heap.swap. rewrite Ei, Ej.
  assert (Li : (i < List.length h)%nat)
    by (apply nth_error_Some; congruence).
  assert (Lj : (j < List.length h)%nat)
    by (apply nth_error_Some; congruence).
  destruct (Nat.eqb_spec k i) as [->|Nki].
  - rewrite nth_error_upd_neq by auto. apply nth_error_upd_eq. exact Li.
  - destruct (Nat.eqb_spec k j) as [->|Nkj].
    + apply nth_error_upd_eq. rewrite upd_length. exact Lj.
    + rewrite !nth_error_upd_neq by auto. reflexivity.
Qed.

Lemma gt_at_true (h : heap) (a b : nat) :
  Heap.gt_at key h a b = true ->
  exists x y, nth_error h a = Some x /\ nth_error h b = Some y /\
              (key y < key x)%Q.
Proof.
  unfold Heap.gt_at.
  destruct (nth_error h a) as [x|]; [|discriminate].
  destruct (nth_error h b) as [y|]; [|discriminate].
  intro H. apply Double_ltb_lt in H. eauto.
Qed.

Lemma gt_at_false (h : heap) (a b : nat) (x y : T) :
  Heap.gt_at key h a b = false ->
  nth_error h a = Some x -> nth_error h b = Some y ->
  (key x <= key y)%Q.
Proof.
  unfold Heap.gt_at. intros H Ea Eb. rewrite Ea, Eb in H.
  apply Double_ltb_ge in H. exact H.
Qed.

(** What one activation of [heapifyDown] selects: one of [i] and its two
    children, holding a key that none of the three exceeds. *)
Lemma largestOf_spec (h : heap) (i : nat) (x : T) :
  nth_error h i = Some x ->
  let L := Heap.largestOf key h i in
  (L = i \/ L = Heap.leftChild i \/ L = Heap.rightChild i) /\
  exists m,
    nth_error h L = Some m /\
    forall c y,
      c = i \/ c = Heap.leftChild i \/ c = Heap.rightChild i ->
      nth_error h c = Some y -> (key y <= key m)%Q.
Proof.
  intros Ei. unfold Heap.largestOf.
  set (l := Heap.leftChild i). set (r := Heap.rightChild i).
  destruct ((l <? List.length h)%nat && Heap.gt_at key h l i) eqn:E1.
  - apply andb_true_iff in E1. destruct E1 as [_ G1].
    destruct (gt_at_true _ _ _ G1) as (xl & xi & El & Ei' & Hlt).
    assert (xi = x) by congruence. subst xi.
    destruct ((r <? List.length h)%nat && Heap.gt_at key h r l) eqn:E2.
    + apply andb_true_iff in E2. destruct E2 as [_ G2].
      destruct (gt_at_true _ _ _ G2) as (xr & xl' & Er & El' & Hlt2).
      assert (xl' = xl) by congruence. subst xl'.
      split; [auto|]. exists xr. split; [exact Er|].
      intros c y [-> | [-> | ->]] Hc.
      * assert (y = x) by congruence. subst. lra.
      * fold l in Hc. assert (y = xl) by congruence. subst. lra.
      * fold r in Hc. assert (y = xr) by congruence. subst. lra.
    + split; [auto|]. exists xl. split; [exact El|].
      intros c y [-> | [-> | ->]] Hc.
      * assert (y = x) by congruence. subst. lra.
      * fold l in Hc. assert (y = xl) by congruence. subst. lra.
      * fold r in Hc. apply andb_false_iff in E2.
        destruct E2 as [E2|E2].
        -- apply Nat.ltb_ge in E2.
           assert (nth_error h r = None) by (apply nth_error_None; exact E2).
           congruence.
        -- apply (gt_at_false _ _ _ _ _ E2 Hc El).
  - assert (Hl : forall y, nth_error h l = Some y -> (key y <= key x)%Q).
    { intros y Hy. apply andb_false_iff in E1. destruct E1 as [E1|E1].
      - apply Nat.ltb_ge in E1.
        assert (nth_error h l = None) by (apply nth_error_None; exact E1).
        congruence.
      - apply (gt_at_false _ _ _ _ _ E1 Hy Ei). }
    destruct ((r <? List.length h)%nat && Heap.gt_at key h r i) eqn:E2.
    + apply andb_true_iff in E2. destruct E2 as [_ G2].
      destruct (gt_at_true _ _ _ G2) as (xr & xi & Er & Ei' & Hlt2).
      assert (xi = x) by congruence. subst xi.
      split; [auto|]. exists xr. split; [exact Er|].
      intros c y [-> | [-> | ->]] Hc.
      * assert (y = x) by congruence. subst. lra.
      * fold l in Hc. specialize (Hl y Hc). lra.
      * fold r in Hc. assert (y = xr) by congruence. subst. lra.
    + split; [auto|]. exists x. split; [exact Ei|].
      intros c y [-> | [-> | ->]] Hc.
      * assert (y = x) by congruence. subst. lra.
      * apply Hl. exact Hc.
      * fold r in Hc. apply andb_false_iff in E2.
        destruct E2 as [E2|E2].
        -- apply Nat.ltb_ge in E2.
           assert (nth_error h r = None) by (apply nth_error_None; exact E2).
           congruence.
        -- apply (gt_at_false _ _ _ _ _ E2 Hc Ei).
Qed.

Lemma largestOf_none (h : heap) (i : nat) :
  nth_error h i = None -> Heap.largestOf key h i = i.
Proof.
  intro Ei. unfold Heap.largestOf, Heap.gt_at. rewrite Ei.
  destruct (nth_error h (Heap.leftChild i));
    rewrite ?andb_false_r; rewrite Ei;
    destruct (nth_error h (Heap.rightChild i));
    rewrite ?andb_false_r; reflexivity.
Qed.

(** [largest] is [i] itself or a larger index inside the vector. *)
Lemma largestOf_range (h : heap) (i : nat) :
  Heap.largestOf key h i = i \/
  (i < Heap.largestOf key h i < List.length h)%nat.
Proof.
  unfold Heap.largestOf, Heap.leftChild, Heap.rightChild.
  destruct ((2 * i + 1 <? List.length h)%nat
            && Heap.gt_at key h (2 * i + 1) i) eqn:E1;
    [apply andb_true_iff in E1; destruct E1 as [E1 _];
     apply Nat.ltb_lt in E1|];
    match goal with
    | |- context [if ?c then _ else _] => destruct c eqn:E2
    end;
    try (apply andb_true_iff in E2; destruct E2 as [E2 _];
         apply Nat.ltb_lt in E2);
    try (left; reflexivity); right; lia.
Qed.

(** The fuel given by [heapifyDown] is never used up: any two amounts
    that cover the indices left below the size give the same result. *)
Lemma heapifyDown_fuel_enough (f1 : nat) :
  forall (f2 : nat) (h : heap) (i : nat),
    (List.length h - i <= f1)%nat -> (List.length h - i <= f2)%nat ->
    Heap.heapifyDown_fuel key f1 h i = Heap.heapifyDown_fuel key f2 h i.
Proof.
  induction f1 as [|f1 IH]; intros f2 h i H1 H2.
  - destruct f2 as [|f2]; [reflexivity|]. simpl.
    destruct (largestOf_range h i) as [E|E]; [|lia].
    rewrite E, Nat.eqb_refl. reflexivity.
  - destruct f2 as [|f2].
    + simpl. destruct (largestOf_range h i) as [E|E]; [|lia].
      rewrite E, Nat.eqb_refl. reflexivity.
    + simpl. destruct (largestOf_range h i) as [E|E].
      * rewrite E, Nat.eqb_refl. reflexivity.
      * destruct (Nat.eqb_spec (Heap.largestOf key h i) i) as [N|N]; [lia|].
        apply IH; rewrite swap_length; lia.
Qed.

(** The equation of the recursive [heapifyDown] of the source. *)
Lemma heapifyDown_equation (h : heap) (i : nat) :
  Heap.heapifyDown key h i
    = let largest := Heap.largestOf key h i in
      if (largest =? i)%nat then h
      else Heap.heapifyDown key (Heap.swap h i largest) largest.
Proof.
  cbv zeta. unfold Heap.heapifyDown.
  destruct (largestOf_range h i) as [E|E].
  - rewrite E, Nat.eqb_refl.
    destruct (List.length h); simpl; rewrite ?E, ?Nat.eqb_refl; reflexivity.
  - destruct (Nat.eqb_spec (Heap.largestOf key h i) i) as [N|N]; [lia|].
    destruct (List.length h) as [|n] eqn:L; [lia|].
    simpl. destruct (Nat.eqb_spec (Heap.largestOf key h i) i); [lia|].
    apply heapifyDown_fuel_enough; rewrite swap_length; lia.
Qed.

Lemma parent_lt (i : nat) : (0 < i)%nat -> (Heap.parent i < i)%nat.
Proof.
  intro H. unfold Heap.parent.
  pose proof (Nat.div_mod_eq (i - 1) 2) as D.
  pose proof (Nat.mod_upper_bound (i - 1) 2) as U. lia.
Qed.

(** Likewise for the loop of [heapifyUp], which climbs to a strictly
    smaller index at each turn. *)
Lemma heapifyUp_fuel_enough (f1 : nat) :
  forall (f2 : nat) (h : heap) (i : nat),
    (i <= f1)%nat -> (i <= f2)%nat ->
    Heap.heapifyUp_fuel key f1 h i = Heap.heapifyUp_fuel key f2 h i.
Proof.
  induction f1 as [|f1 IH]; intros f2 h i H1 H2.
  - assert (i = 0)%nat by lia. subst i.
    destruct f2; reflexivity.
  - destruct f2 as [|f2].
    + assert (i = 0)%nat by lia. subst i. reflexivity.
    + simpl. destruct (Nat.ltb_spec 0 i) as [P|P]; [|reflexivity].
      simpl. destruct (Heap.gt_at key h i (Heap.parent i)); [|reflexivity].
      pose proof (parent_lt i P). apply IH; lia.
Qed.

Lemma heapifyUp_equation (h : heap) (i : nat) :
  (i < List.length h)%nat ->
  Heap.heapifyUp key h i
    = if (0 <? i)%nat && Heap.gt_at key h i (Heap.parent i)
      then Heap.heapifyUp key (Heap.swap h (Heap.parent i) i) (Heap.parent i)
      else h.
Proof.
  intro H. unfold Heap.heapifyUp.
  destruct (List.length h) as [|n] eqn:L; [lia|]. simpl.
  destruct (Nat.ltb_spec 0 i) as [P|P]; [|reflexivity].
  simpl. destruct (Heap.gt_at key h i (Heap.parent i)); [|reflexivity].
  pose proof (parent_lt i P).
  apply heapifyUp_fuel_enough; rewrite ?swap_length; lia.
Qed.

Lemma heapifyDown_fuel_length (fuel : nat) (h : heap) (i : nat) :
  List.length (Heap.heapifyDown_fuel key fuel h i) = List.length h.
Proof.
  revert h i. induction fuel as [|fuel IH]; intros h i; simpl; auto.
  destruct (Heap.largestOf key h i =? i)%nat; auto.
  rewrite IH. apply swap_length.
Qed.

Lemma heapifyDown_fuel_Permutation (fuel : nat) (h : heap) (i : nat) :
  Permutation (Heap.heapifyDown_fuel key fuel h i) h.
Proof.
  revert h i. induction fuel as [|fuel IH]; intros h i; simpl; auto.
  destruct (Heap.largestOf key h i =? i)%nat; auto.
  eapply perm_trans; [apply IH|apply swap_Permutation].
Qed.

(** [heapifyDown] restores the order below [lo] when node [i] is the
    only one that may be out of place. *)
Lemma heapifyDown_fuel_heap (fuel : nat) :
  forall (h : heap) (lo i : nat),
    (lo <= i)%nat -> (List.length h - i <= fuel)%nat ->
    sift_inv key h lo i ->
    heap_from key (Heap.heapifyDown_fuel key fuel h i) lo.
Proof.
  induction fuel as [|fuel IH]; intros h lo i Hlo Hfuel [Hothers Hgrand].
  - simpl. intros k Hk. destruct (Nat.eq_dec k i) as [->|N]; auto.
    intros x c y Hx. exfalso.
    assert (nth_error h i = None) by (apply nth_error_None; lia).
    congruence.
  - simpl. destruct (nth_error h i) as [x|] eqn:Ei.
    + destruct (largestOf_spec h i x Ei) as (Hwhich & m & Em & Hmax).
      set (L := Heap.largestOf key h i) in *.
      destruct (Nat.eqb_spec L i) as [HL|HL].
      * intros k Hk. destruct (Nat.eq_dec k i) as [->|N]; auto.
        intros x' c y Hx' Hc Hy.
        assert (m = x') by congruence. subst x'.
        apply (Hmax c y); tauto.
      * assert (HLc : L = Heap.leftChild i \/ L = Heap.rightChild i) by tauto.
        assert (HLlen : (L < List.length h)%nat)
          by (apply nth_error_Some; congruence).
        assert (Hsw : forall k,
                   nth_error (Heap.swap h i L) k
                     = if (k =? i)%nat then Some m
                       else if (k =? L)%nat then Some x
                       else nth_error h k)
          by (intro k; apply nth_error_swap; auto).
        unfold Heap.leftChild, Heap.rightChild in *.
        apply IH.
        -- lia.
        -- rewrite swap_length. lia.
        -- split.
           ++ intros k Hk HkL x' c y Hx' Hc Hy.
              unfold Heap.leftChild, Heap.rightChild in Hc.
              rewrite Hsw in Hx', Hy.
              destruct (Nat.eqb_spec k i) as [->|Nki].
              ** inversion Hx'; subst x'.
                 destruct (Nat.eqb_spec c i) as [->|Nci]; [lia|].
                 destruct (Nat.eqb_spec c L) as [->|NcL].
                 --- inversion Hy; subst y. apply (Hmax i); auto.
                 --- apply (Hmax c); auto.
              ** destruct (Nat.eqb_spec k L) as [->|NkL]; [congruence|].
                 destruct (Nat.eqb_spec c i) as [->|Nci].
                 --- inversion Hy; subst y.
                     apply (Hgrand k x' L m); auto.
                 --- destruct (Nat.eqb_spec c L) as [->|NcL]; [lia|].
                     apply (Hothers k Hk Nki x' c y); auto.
           ++ intros p xp c y Hp HLp Hxp Hc Hy.
              unfold Heap.leftChild, Heap.rightChild in HLp, Hc.
              assert (p = i) by lia. subst p.
              rewrite Hsw in Hxp, Hy.
              rewrite Nat.eqb_refl in Hxp. inversion Hxp; subst xp.
              destruct (Nat.eqb_spec c i) as [->|Nci]; [lia|].
              destruct (Nat.eqb_spec c L) as [->|NcL]; [lia|].
              assert (Lne : L <> i) by exact HL.
              assert (LL : (lo <= L)%nat) by lia.
              apply (Hothers L LL Lne m c y); auto.
    + rewrite (largestOf_none h i Ei), Nat.eqb_refl.
      intros k Hk. destruct (Nat.eq_dec k i) as [->|N]; auto.
      intros x c y Hx. congruence.
Qed.

Lemma heapifyDown_heap (h : heap) (lo i : nat) :
  (lo <= i)%nat -> sift_inv key h lo i ->
  heap_from key (Heap.heapifyDown key h i) lo.
Proof.
  intros. apply heapifyDown_fuel_heap; auto. lia.
Qed.

Lemma heapifyDown_Permutation (h : heap) (i : nat) :
  Permutation (Heap.heapifyDown key h i) h.
Proof. apply heapifyDown_fuel_Permutation. Qed.

Lemma buildHeap_loop_Permutation (n : nat) (h : heap) :
  Permutation (Heap.buildHeap_loop key n h) h.
Proof.
  revert h. induction n as [|n IH]; intro h; simpl; auto.
  eapply perm_trans; [apply IH|apply heapifyDown_Permutation].
Qed.

Lemma buildHeap_loop_heap (n : nat) (h : heap) :
  heap_from key h n -> heap_from key (Heap.buildHeap_loop key n h) 0.
Proof.
  revert h. induction n as [|n IH]; intros h H; simpl; auto.
  apply IH. apply heapifyDown_heap; [lia|]. split.
  - intros k Hk Hne. apply H. lia.
  - intros p x c y Hp Hchild. exfalso.
    unfold Heap.leftChild, Heap.rightChild in Hchild. lia.
Qed.

Lemma heap_from_half (xs : heap) : heap_from key xs (List.length xs / 2).
Proof.
  intros i Hi x c y Hx Hc Hy.
  assert (c < List.length xs)%nat by (apply nth_error_Some; congruence).
  pose proof (Nat.div_mod_eq (List.length xs) 2) as D.
  pose proof (Nat.mod_upper_bound (List.length xs) 2) as U.
  unfold Heap.leftChild, Heap.rightChild in Hc. lia.
Qed.

(** [buildHeap] yields a max-heap holding the same elements. *)
Lemma buildHeap_heap (xs : heap) : heap_from key (Heap.buildHeap key xs) 0.
Proof. apply buildHeap_loop_heap, heap_from_half. Qed.

Lemma buildHeap_Permutation (xs : heap) :
  Permutation (Heap.buildHeap key xs) xs.
Proof. apply buildHeap_loop_Permutation. Qed.

(** In a max-heap no key exceeds the key at the root. *)
Lemma heap_root_max (h : heap) (r : T) :
  heap_from key h 0 -> nth_error h 0 = Some r ->
  forall j y, nth_error h j = Some y -> (key y <= key r)%Q.
Proof.
  intros Hh Hr j. induction j as [j IH] using lt_wf_ind. intros y Hy.
  destruct j as [|j].
  - assert (y = r) by congruence. subst. lra.
  - pose proof (Nat.div_mod_eq j 2) as D.
    pose proof (Nat.mod_upper_bound j 2) as U.
    set (p := (j / 2)%nat) in *.
    assert (Hp : (p < S j)%nat) by lia.
    assert (Hlen : (S j < List.length h)%nat)
      by (apply nth_error_Some; congruence).
    destruct (nth_error h p) as [xp|] eqn:Ep.
    + assert (key y <= key xp)%Q.
      { apply (Hh p (Nat.le_0_l p) xp (S j) y Ep); auto.
        unfold Heap.leftChild, Heap.rightChild. lia. }
      specialize (IH p Hp xp Ep). lra.
    + apply nth_error_None in Ep. lia.
Qed.

Lemma extractMax_one (r : T) : Heap.extractMax key [r] = Some (r, []).
Proof. reflexivity. Qed.

Lemma extractMax_more (r y : T) (rest : heap) :
  Heap.extractMax key (r :: y :: rest)
    = Some (r, Heap.heapifyDown key
                 (last (y :: rest) r :: removelast (y :: rest)) 0).
Proof. reflexivity. Qed.

Lemma extractMax_Permutation (h h' : heap) (x : T) :
  Heap.extractMax key h = Some (x, h') -> Permutation (x :: h') h.
Proof.
  destruct h as [|r [|y rest]]; [discriminate| |].
  - rewrite extractMax_one. intro H. inversion H. reflexivity.
  - rewrite extractMax_more. intro H. inversion H; subst x h'.
    apply perm_skip.
    eapply perm_trans; [apply heapifyDown_Permutation|].
    assert (N : y :: rest <> []) by discriminate.
    pose proof (Permutation_cons_append (removelast (y :: rest))
                  (last (y :: rest) r)) as P.
    rewrite <- (app_removelast_last r N) in P. exact P.
Qed.

Lemma extractMax_heap (h h' : heap) (x : T) :
  heap_from key h 0 -> Heap.extractMax key h = Some (x, h') ->
  heap_from key h' 0 /\ forall y, In y h -> (key y <= key x)%Q.
Proof.
  intros Hh H.
  assert (Hmax : forall y, In y h -> (key y <= key x)%Q).
  { intros y Hy. apply In_nth_error in Hy. destruct Hy as [j Hj].
    destruct h as [|r rest]; [discriminate|].
    assert (x = r) by (unfold Heap.extractMax in H; congruence). subst x.
    apply (heap_root_max (r :: rest) r Hh eq_refl j y Hj). }
  split; [|exact Hmax].
  destruct h as [|r [|y rest]]; [discriminate| |].
  - rewrite extractMax_one in H. inversion H; subst.
    intros i _ x' c y' Hx'. destruct i; discriminate.
  - rewrite extractMax_more in H. inversion H; subst x h'. clear H.
    set (h1 := last (y :: rest) r :: removelast (y :: rest)).
    assert (Hnth : forall k v, (0 < k)%nat -> nth_error h1 k = Some v ->
                               nth_error (r :: y :: rest) k = Some v).
    { intros [|k] v Hk Hv; [lia|].
      change (nth_error h1 (S k))
        with (nth_error (removelast (y :: rest)) k) in Hv.
      rewrite nth_error_removelast in Hv.
      change (nth_error (r :: y :: rest) (S k))
        with (nth_error (y :: rest) k).
      destruct (S k <? List.length (y :: rest))%nat; [|discriminate].
      exact Hv. }
    apply heapifyDown_heap; [lia|]. split.
    + intros k _ Hk0 x' c y' Hx' Hc Hy'.
      unfold Heap.leftChild, Heap.rightChild in Hc.
      apply (Hh k (Nat.le_0_l k) x' c y'); auto.
      * apply Hnth; auto. lia.
      * apply Hnth; auto. lia.
    + intros p xp c y' _ Hchild. exfalso.
      unfold Heap.leftChild, Heap.rightChild in Hchild. lia.
Qed.

Lemma getTopK_loop_part (n : nat) (h : heap) :
  exists rest, Permutation (Heap.getTopK_loop key n h ++ rest) h.
Proof.
  revert h. induction n as [|n IH]; intro h; simpl.
  - exists h. reflexivity.
  - destruct (Heap.extractMax key h) as [[x h']|] eqn:E.
    + destruct (IH h') as [rest P]. exists rest. simpl.
      eapply perm_trans; [apply perm_skip, P|].
      apply extractMax_Permutation. exact E.
    + exists h. reflexivity.
Qed.

(** Whatever [getTopK] returns was in the heap. *)
Lemma getTopK_loop_In (n : nat) (h : heap) (x : T) :
  In x (Heap.getTopK_loop key n h) -> In x h.
Proof.
  intro H. destruct (getTopK_loop_part n h) as [rest P].
  apply (Permutation_in _ P). apply in_or_app. left. exact H.
Qed.

(** With at least as many rounds as elements, [getTopK] returns them
    all. *)
Lemma getTopK_loop_all (n : nat) (h : heap) :
  (List.length h <= n)%nat -> Permutation (Heap.getTopK_loop key n h) h.
Proof.
  revert h. induction n as [|n IH]; intros h Hn; simpl.
  - destruct h; [reflexivity|simpl in Hn; lia].
  - destruct (Heap.extractMax key h) as [[x h']|] eqn:E.
    + pose proof (extractMax_Permutation _ _ _ E) as P.
      eapply perm_trans; [apply perm_skip, IH|exact P].
      apply Permutation_length in P. simpl in P. lia.
    + destruct h; [reflexivity|discriminate].
Qed.

(** On a max-heap [getTopK] returns its elements in descending order of
    their keys. *)
Lemma getTopK_loop_sorted (n : nat) (h : heap) :
  heap_from key h 0 -> sorted_desc key (Heap.getTopK_loop key n h).
Proof.
  revert h. induction n as [|n IH]; intros h Hh; simpl.
  - constructor.
  - destruct (Heap.extractMax key h) as [[x h']|] eqn:E; [|constructor].
    destruct (extractMax_heap _ _ _ Hh E) as [Hh' Hmax].
    constructor; [apply IH; exact Hh'|].
    apply Forall_forall. intros y Hy. apply Hmax.
    apply getTopK_loop_In in Hy.
    apply (Permutation_in _ (extractMax_Permutation _ _ _ E)).
    right. exact Hy.
Qed.

Lemma getTopK_nonpositive (k : Z) (h : heap) :
  k <= 0 -> Heap.getTopK key k h = [].
Proof.
  intro H. unfold Heap.getTopK.
  replace (Z.to_nat k) with 0%nat by lia. reflexivity.
Qed.

End HeapFacts.

(* ------------------------------------------------------------------ *)
(** ** The hash map *)

Lemma nth_upd_eq {A : Type} (i : nat) (x d : A) (l : list A) :
  (i < List.length l)%nat -> nth i (upd i x l) d = x.
Proof.
  revert i. induction l as [|y l IH]; intros [|i] H; simpl in *;
    try lia; auto. apply IH. lia.
Qed.

Lemma nth_upd_neq {A : Type} (i j : nat) (x d : A) (l : list A) :
  i <> j -> nth j (upd i x l) d = nth j l d.
Proof.
  revert i j. induction l as [|y l IH]; intros [|i] [|j] H; simpl;
    try congruence; auto.
Qed.

Lemma hash_loop_range (key : string) (hashVal p_pow : Z) :
  0 <= hashVal < 100 -> 0 <= HashMap.hash_loop key hashVal p_pow < 100.
Proof.
  revert hashVal p_pow. induction key as [|c key IH]; intros hv pp H; simpl.
  - exact H.
  - apply IH. unfold HashMap.TABLE_SIZE. apply Z.mod_pos_bound. lia.
Qed.

Lemma hash_range (key : string) : (HashMap.hash key < 100)%nat.
Proof.
  unfold HashMap.hash.
  pose proof (hash_loop_range key 0 1 ltac:(lia)). lia.
Qed.

Section HashMapFacts.

Context {V : Type}.

Abbreviation hmap := (HashMap.t V).
Abbreviation chain := (HashMap.bucket V).

Lemma chain_set_keys (k : string) (v : V) (b b' : chain) :
  HashMap.chain_set k v b = Some b' -> map fst b' = map fst b.
Proof.
  revert b'. induction b as [|[k0 v0] b IH]; intros b' H; simpl in H.
  - discriminate.
  - destruct (str_eq k0 k).
    + inversion H. reflexivity.
    + destruct (HashMap.chain_set k v b) as [b1|]; [|discriminate].
      inversion H. simpl. f_equal. apply IH. reflexivity.
Qed.

Lemma chain_set_None (k : string) (v : V) (b : chain) :
  HashMap.chain_set k v b = None <-> HashMap.chain_get k b = None.
Proof.
  induction b as [|[k0 v0] b IH]; simpl.
  - tauto.
  - destruct (str_eq k0 k).
    + split; discriminate.
    + destruct (HashMap.chain_set k v b); simpl.
      * split; [discriminate|]. intro H. apply IH in H. discriminate.
      * split; auto. intros _. apply IH. reflexivity.
Qed.

Lemma chain_get_set (k k' : string) (v : V) (b b' : chain) :
  HashMap.chain_set k v b = Some b' ->
  HashMap.chain_get k' b'
    = if str_eq k k' then Some v else HashMap.chain_get k' b.
Proof.
  revert b'. induction b as [|[k0 v0] b IH]; intros b' H; simpl in H.
  - discriminate.
  - destruct (str_eq k0 k) eqn:E.
    + inversion H. apply str_eq_iff in E. subst k0. simpl.
      destruct (str_eq k k'); reflexivity.
    + destruct (HashMap.chain_set k v b) as [b1|]; [|discriminate].
      inversion H. simpl. rewrite (IH b1 eq_refl).
      destruct (str_eq k0 k') eqn:E'; [|reflexivity].
      apply str_eq_iff in E'. subst k0. rewrite String.eqb_sym in E.
      unfold str_eq. rewrite E. reflexivity.
Qed.

Lemma chain_get_In (k : string) (v : V) (b : chain) :
  HashMap.chain_get k b = Some v -> In (k, v) b.
Proof.
  induction b as [|[k0 v0] b IH]; simpl; [discriminate|].
  destruct (str_eq k0 k) eqn:E.
  - intro H. inversion H. apply str_eq_iff in E. subst. auto.
  - auto.
Qed.

Lemma chain_In_get (k : string) (v : V) (b : chain) :
  NoDup (map fst b) -> In (k, v) b -> HashMap.chain_get k b = Some v.
Proof.
  induction b as [|[k0 v0] b IH]; simpl; [tauto|].
  intros ND [H|H].
  - inversion H; subst. rewrite str_eq_refl. reflexivity.
  - inversion ND as [|? ? Hn ND']; subst.
    destruct (str_eq k0 k) eqn:E.
    + apply str_eq_iff in E. subst k0. exfalso. apply Hn.
      change k with (fst (k, v)). apply in_map. exact H.
    + auto.
Qed.

Lemma chain_get_None_keys (k : string) (b : chain) :
  HashMap.chain_get k b = None <-> ~ In k (map fst b).
Proof.
  induction b as [|[k0 v0] b IH]; simpl.
  - tauto.
  - destruct (str_eq k0 k) eqn:E.
    + apply str_eq_iff in E. split; [discriminate|]. intro H. tauto.
    + apply str_eq_neq in E. rewrite IH. tauto.
Qed.

Lemma chain_del_None (k : string) (b : chain) :
  HashMap.chain_del k b = None <-> HashMap.chain_get k b = None.
Proof.
  induction b as [|[k0 v0] b IH]; simpl.
  - tauto.
  - destruct (str_eq k0 k).
    + split; discriminate.
    + destruct (HashMap.chain_del k b); simpl.
      * split; [discriminate|]. intro H. apply IH in H. discriminate.
      * split; auto. intros _. apply IH. reflexivity.
Qed.

Lemma chain_del_spec (k : string) (b b' : chain) :
  HashMap.chain_del k b = Some b' ->
  (forall p, In p b' -> In p b) /\
  (NoDup (map fst b) -> NoDup (map fst b')) /\
  (NoDup (map fst b) -> HashMap.chain_get k b' = None) /\
  (forall k', k' <> k -> HashMap.chain_get k' b' = HashMap.chain_get k' b).
Proof.
  revert b'. induction b as [|[k0 v0] b IH]; intros b' H; simpl in H.
  - discriminate.
  - destruct (str_eq k0 k) eqn:E.
    + inversion H; subst b'. apply str_eq_iff in E. subst k0.
      repeat split.
      * intros p Hp. right. exact Hp.
      * intro ND. inversion ND. assumption.
      * intro ND. inversion ND; subst. apply chain_get_None_keys. assumption.
      * intros k' N. simpl.
        destruct (str_eq k k') eqn:E'; [|reflexivity].
        apply str_eq_iff in E'. congruence.
    + destruct (HashMap.chain_del k b) as [b1|]; [|discriminate].
      inversion H; subst b'.
      destruct (IH b1 eq_refl) as (I1 & I2 & I3 & I4).
      repeat split.
      * intros p [Hp|Hp]; [left; exact Hp|right; auto].
      * intro ND. inversion ND as [|? ? Hn ND']; subst. simpl.
        constructor; auto. intro Hin. apply Hn.
        apply in_map_iff in Hin. destruct Hin as ([k1 v1] & Hk & Hin).
        apply in_map_iff. exists (k1, v1). auto.
      * intro ND. inversion ND; subst. simpl. rewrite E. auto.
      * intros k' N. simpl. rewrite (I4 k' N). reflexivity.
Qed.

Lemma slot_upd (m : hmap) (c : Z) (i j : nat) (b : chain) :
  (i < List.length (HashMap.table m))%nat ->
  HashMap.slot (HashMap.mk (upd i b (HashMap.table m)) c) j
    = if (i =? j)%nat then b else HashMap.slot m j.
Proof.
  intro H. unfold HashMap.slot. simpl.
  destruct (Nat.eqb_spec i j) as [->|N].
  - apply nth_upd_eq. exact H.
  - apply nth_upd_neq. exact N.
Qed.

Lemma slot_new (i : nat) : HashMap.slot (@HashMap.new V) i = [].
Proof.
  unfold HashMap.slot, HashMap.new. cbn [HashMap.table].
  destruct (Nat.lt_ge_cases i (Z.to_nat HashMap.TABLE_SIZE)).
  - apply nth_repeat_lt. assumption.
  - apply nth_overflow. rewrite repeat_length. assumption.
Qed.

Lemma hashmap_ok_new : hashmap_ok (@HashMap.new V).
Proof.
  split.
  - reflexivity.
  - intro i. rewrite slot_new. split; [intros k []|constructor].
Qed.

Lemma hashmap_ok_upd (m : hmap) (c : Z) (i : nat) (b : chain) :
  hashmap_ok m ->
  (forall k, In k (map fst b) -> HashMap.hash k = i) ->
  NoDup (map fst b) ->
  hashmap_ok (HashMap.mk (upd i b (HashMap.table m)) c).
Proof.
  intros [Hlen Hslots] Hk Hnd. split.
  - simpl. rewrite upd_length. exact Hlen.
  - intro j. destruct (Nat.lt_ge_cases i (List.length (HashMap.table m))) as [L|L].
    + rewrite slot_upd by exact L.
      destruct (Nat.eqb_spec i j) as [->|N]; [split; assumption|apply Hslots].
    + assert (E : upd i b (HashMap.table m) = HashMap.table m).
      { clear -L. revert i L. induction (HashMap.table m) as [|y l IH];
          intros [|i] L; simpl in *; try lia; auto.
        f_equal. apply IH. lia. }
      unfold HashMap.slot. simpl. rewrite E. apply Hslots.
Qed.

Lemma search_insert (m : hmap) (k k' : string) (v : V) :
  hashmap_ok m ->
  HashMap.search k' (HashMap.insert k v m)
    = if str_eq k k' then Some v else HashMap.search k' m.
Proof.
  intros [Hlen Hslots]. unfold HashMap.search, HashMap.insert.
  assert (L : (HashMap.hash k < List.length (HashMap.table m))%nat)
    by (rewrite Hlen; apply hash_range).
  destruct (HashMap.chain_set k v (HashMap.slot m (HashMap.hash k)))
    as [b|] eqn:E; rewrite slot_upd by exact L;
    destruct (Nat.eqb_spec (HashMap.hash k) (HashMap.hash k')) as [Hh|Hh].
  - rewrite (chain_get_set k k' v _ b E). rewrite Hh. reflexivity.
  - destruct (str_eq k k') eqn:Ek; [|reflexivity].
    apply str_eq_iff in Ek. congruence.
  - simpl. rewrite Hh. reflexivity.
  - destruct (str_eq k k') eqn:Ek; [|reflexivity].
    apply str_eq_iff in Ek. congruence.
Qed.

Lemma hashmap_ok_insert (m : hmap) (k : string) (v : V) :
  hashmap_ok m -> hashmap_ok (HashMap.insert k v m).
Proof.
  intros Hok. pose proof Hok as [Hlen Hslots]. unfold HashMap.insert.
  destruct (Hslots (HashMap.hash k)) as [Hk Hnd].
  destruct (HashMap.chain_set k v (HashMap.slot m (HashMap.hash k)))
    as [b|] eqn:E.
  - apply hashmap_ok_upd; auto; rewrite (chain_set_keys _ _ _ _ E); auto.
  - apply hashmap_ok_upd; auto.
    + simpl. intros k0 [<-|H]; auto.
    + simpl. constructor; auto.
      apply chain_get_None_keys. apply (chain_set_None k v). exact E.
Qed.

(** [update] on a key that is present. *)
Lemma update_present (m : hmap) (k : string) (v v0 : V) :
  hashmap_ok m -> HashMap.search k m = Some v0 ->
  fst (HashMap.update k v m) = true /\
  hashmap_ok (snd (HashMap.update k v m)) /\
  forall k', HashMap.search k' (snd (HashMap.update k v m))
             = if str_eq k k' then Some v else HashMap.search k' m.
Proof.
  intros Hok Hs. pose proof Hok as [Hlen Hslots].
  unfold HashMap.update, HashMap.search in *.
  assert (L : (HashMap.hash k < List.length (HashMap.table m))%nat)
    by (rewrite Hlen; apply hash_range).
  destruct (Hslots (HashMap.hash k)) as [Hk Hnd].
  destruct (HashMap.chain_set k v (HashMap.slot m (HashMap.hash k)))
    as [b|] eqn:E.
  - simpl. split; [reflexivity|]. split.
    + apply hashmap_ok_upd; auto; rewrite (chain_set_keys _ _ _ _ E); auto.
    + intro k'. rewrite slot_upd by exact L.
      destruct (Nat.eqb_spec (HashMap.hash k) (HashMap.hash k')) as [Hh|Hh].
      * rewrite (chain_get_set k k' v _ b E). rewrite Hh. reflexivity.
      * destruct (str_eq k k') eqn:Ek; [|reflexivity].
        apply str_eq_iff in Ek. congruence.
  - apply chain_set_None in E. congruence.
Qed.

(** [update] on a key that is absent changes nothing. *)
Lemma update_absent (m : hmap) (k : string) (v : V) :
  HashMap.search k m = None -> HashMap.update k v m = (false, m).
Proof.
  unfold HashMap.update, HashMap.search. intro H.
  apply (chain_set_None k v) in H. rewrite H. reflexivity.
Qed.

Lemma remove_spec (m : hmap) (k : string) :
  hashmap_ok m ->
  hashmap_ok (snd (HashMap.remove k m)) /\
  forall k', HashMap.search k' (snd (HashMap.remove k m))
             = if str_eq k k' then None else HashMap.search k' m.
Proof.
  intros Hok. pose proof Hok as [Hlen Hslots].
  unfold HashMap.remove, HashMap.search.
  assert (L : (HashMap.hash k < List.length (HashMap.table m))%nat)
    by (rewrite Hlen; apply hash_range).
  destruct (Hslots (HashMap.hash k)) as [Hk Hnd].
  destruct (HashMap.chain_del k (HashMap.slot m (HashMap.hash k)))
    as [b|] eqn:E.
  - destruct (chain_del_spec _ _ _ E) as (I1 & I2 & I3 & I4).
    simpl. split.
    + apply hashmap_ok_upd; auto.
      intros k0 H0. apply Hk. apply in_map_iff in H0.
      destruct H0 as (p & <- & Hp). apply in_map. auto.
    + intro k'. rewrite slot_upd by exact L.
      destruct (Nat.eqb_spec (HashMap.hash k) (HashMap.hash k')) as [Hh|Hh].
      * destruct (str_eq k k') eqn:Ek.
        -- apply str_eq_iff in Ek. subst k'. auto.
        -- apply str_eq_neq in Ek. rewrite <- Hh. apply I4. congruence.
      * destruct (str_eq k k') eqn:Ek; [|reflexivity].
        apply str_eq_iff in Ek. congruence.
  - simpl. split; [exact Hok|]. intro k'.
    destruct (str_eq k k') eqn:Ek; [|reflexivity].
    apply str_eq_iff in Ek. subst k'. apply chain_del_None. exact E.
Qed.

(** The pairs listed by [getAllPairs] are the associations of the map. *)
Lemma getAllPairs_search (m : hmap) (k : string) (v : V) :
  hashmap_ok m ->
  (In (k, v) (HashMap.getAllPairs m) <-> HashMap.search k m = Some v).
Proof.
  intros [Hlen Hslots]. unfold HashMap.getAllPairs, HashMap.search.
  rewrite in_flat_map. split.
  - intros (i & Hi & Hin).
    destruct (Hslots i) as [Hk Hnd].
    assert (HashMap.hash k = i).
    { apply Hk. change k with (fst (k, v)). apply in_map. exact Hin. }
    subst i. apply chain_In_get; assumption.
  - intro H. exists (HashMap.hash k). split.
    + apply in_seq. pose proof (hash_range k).
      unfold HashMap.TABLE_SIZE. simpl. lia.
    + apply chain_get_In. exact H.
Qed.

End HashMapFacts.

(* ------------------------------------------------------------------ *)
(** ** Top-K queries *)




Lemma deleteById_In (i : string) (l : DoublyLinkedList.t) (x : Transaction) :
  In x (snd (DoublyLinkedList.deleteById i l)) -> In x l.
Proof.
  induction l as [|y l IH]; simpl; auto.
  destruct (str_eq (id y) i); simpl; auto.
  destruct (DoublyLinkedList.deleteById i l) as [f rest]. simpl in *.
  intros [H|H]; auto.
Qed.

Lemma deleteById_gone (i : string) (l : DoublyLinkedList.t) (x : Transaction) :
  NoDup (map id l) ->
  In x (snd (DoublyLinkedList.deleteById i l)) -> id x <> i.
Proof.
  induction l as [|y l IH]; simpl; auto.
  intros ND. inversion ND as [|? ? Hn ND']; subst.
  destruct (str_eq (id y) i) eqn:E; simpl.
  - apply str_eq_iff in E. intros Hx Hi. apply Hn.
    rewrite E, <- Hi. apply in_map. exact Hx.
  - destruct (DoublyLinkedList.deleteById i l) as [f rest]. simpl in *.
    intros [<-|H]; [apply str_eq_neq; exact E|auto].
Qed.

Lemma updateExpenseTracking_list (x : Transaction) (b : bool)
  (e : FinanceEngine) :
  transactionList (Engine.updateExpenseTracking x b e) = transactionList e.
Proof.
  unfold Engine.updateExpenseTracking.
  destruct (negb (str_eq (type x) "expense")); [reflexivity|].
  cbv zeta.
  match goal with
  | |- context [match ?s with Some _ => _ | None => _ end] =>
      destruct s; reflexivity
  end.
Qed.

Lemma deleteTransaction_list (i : string) (e e' : FinanceEngine) :
  Engine.deleteTransaction i e = Some (true, e') ->
  transactionList e'
    = snd (DoublyLinkedList.deleteById i (transactionList e)).
Proof.
  unfold Engine.deleteTransaction.
  destruct (BST.findById i (transactionBST e)) as [x|]; [|discriminate].
  unfold Engine.pushUndo, bind.
  destruct (UndoStack.push _ (undoStack e)) as [s|]; [|discriminate].
  intro H. inversion H. rewrite updateExpenseTracking_list. reflexivity.
Qed.

(** C6.  [getTopExpenses k] is empty for [k <= 0]; for [k] above the
    number of expenses in the ledger it is all of them; its result is in
    descending order of amount; it holds only expenses that are in the
    ledger now, so that, ids being unique, a transaction that has been
    deleted is not in it. *)
Theorem top_expenses_spec (k : Z) (e : FinanceEngine) :
  let expenses := filter (fun x => str_eq (type x) "expense")
                         (Engine.getAllTransactions e) in
  (k <= 0 -> fst (Engine.getTopExpenses k e) = []) /\
  (Z.of_nat (List.length expenses) < k ->
   Permutation (fst (Engine.getTopExpenses k e)) expenses) /\
  sorted_desc amount (fst (Engine.getTopExpenses k e)) /\
  (forall x, In x (fst (Engine.getTopExpenses k e)) ->
             In x (Engine.getAllTransactions e) /\ type x = "expense") /\
  (forall i e', NoDup (map id (Engine.getAllTransactions e)) ->
     Engine.deleteTransaction i e = Some (true, e') ->
     forall x, In x (fst (Engine.getTopExpenses k e')) -> id x <> i).
Proof.
  assert (Hin : forall e0 x, In x (fst (Engine.getTopExpenses k e0)) ->
             In x (Engine.getAllTransactions e0) /\ type x = "expense").
  { intros e0 x H. unfold Engine.getTopExpenses in H. simpl in H.
    unfold MaxHeap.getTopK, Heap.getTopK in H.
    apply getTopK_loop_In in H.
    unfold MaxHeap.buildHeap in H.
    apply (Permutation_in _ (buildHeap_Permutation amount _)) in H.
    unfold DoublyLinkedList.filterByType in H.
    apply filter_In in H. destruct H as [H1 H2].
    split; [exact H1|apply str_eq_iff; exact H2]. }
  simpl. repeat split.
  - intro Hk. apply getTopK_nonpositive. exact Hk.
  - intro Hk. unfold Engine.getTopExpenses. simpl.
    unfold MaxHeap.getTopK, Heap.getTopK, MaxHeap.buildHeap.
    eapply perm_trans; [apply getTopK_loop_all|apply buildHeap_Permutation].
    rewrite (Permutation_length (buildHeap_Permutation amount _)).
    unfold DoublyLinkedList.filterByType, Engine.getAllTransactions,
      DoublyLinkedList.traverseForward in *. lia.
  - unfold Engine.getTopExpenses. simpl.
    apply getTopK_loop_sorted. apply buildHeap_heap.
  - apply (proj1 (Hin _ _ H)).
  - apply (proj2 (Hin _ _ H)).
  - intros i e' ND Hdel x Hx.
    apply Hin in Hx. destruct Hx as [Hx _].
    unfold Engine.getAllTransactions, DoublyLinkedList.traverseForward in *.
    rewrite (deleteTransaction_list _ _ _ Hdel) in Hx.
    apply (deleteById_gone i _ x ND Hx).
Qed.

Lemma top_expenses_spec_witness :
  Permutation
    (fst (Engine.getTopExpenses 6 engine_five_expenses))
    (filter (fun x => str_eq (type x) "expense")
            (Engine.getAllTransactions engine_five_expenses)).
Proof.
  apply (proj1 (proj2 (top_expenses_spec 6 engine_five_expenses))).
  vm_compute. reflexivity.
Defined.

Example top_three_of_five :
  map amount (fst (Engine.getTopExpenses 3 engine_five_expenses))
    = [90%Q; 50%Q; 30%Q].
Proof. vm_compute. reflexivity. Qed.

(* ------------------------------------------------------------------ *)
(** ** The date index *)

Lemma inorderHelper_acc (t : BSTNode) (acc : list Transaction) :
  BST.inorderHelper t acc = acc ++ BST.inorderHelper t [].
Proof.
  revert acc. induction t as [|d txs l IHl r IHr]; intro acc; simpl.
  - rewrite app_nil_r. reflexivity.
  - rewrite IHr, (IHl acc), (IHr (_ ++ txs)), (IHl []). simpl.
    rewrite <- !app_assoc. reflexivity.
Qed.

Lemma inorder_node (d : string) (txs : list Transaction) (l r : BSTNode) :
  BST.inorderTraversal (Node d txs l r)
    = BST.inorderTraversal l ++ txs ++ BST.inorderTraversal r.
Proof.
  unfold BST.inorderTraversal. simpl.
  rewrite inorderHelper_acc. rewrite <- app_assoc. reflexivity.
Qed.

Lemma rangeQueryHelper_acc (t : BSTNode) (s e : string)
  (acc : list Transaction) :
  BST.rangeQueryHelper t s e acc = acc ++ BST.rangeQueryHelper t s e [].
Proof.
  revert acc. induction t as [|d txs l IHl r IHr]; intro acc; simpl.
  - rewrite app_nil_r. reflexivity.
  - destruct (str_lt s d); destruct (negb (str_lt d s) && negb (str_lt e d));
      destruct (str_lt d e);
      repeat first [ rewrite (IHr (_ ++ _)) | rewrite (IHl acc)
                   | rewrite (IHr acc)
                   | rewrite (IHr (BST.rangeQueryHelper l s e [])) ];
      rewrite ?app_nil_r, <- ?app_assoc; simpl; try reflexivity.
Qed.

Lemma str_lt_le_trans (a b c : string) :
  str_lt a b = true -> str_lt c b = false -> str_lt a c = true.
Proof.
  intros H1 H2. destruct (str_lt b c) eqn:E.
  - apply (str_lt_trans _ _ _ H1 E).
  - rewrite <- (str_lt_total _ _ E H2). exact H1.
Qed.

Lemma str_le_lt_trans (a b c : string) :
  str_lt b a = false -> str_lt b c = true -> str_lt a c = true.
Proof.
  intros H1 H2. destruct (str_lt a b) eqn:E.
  - apply (str_lt_trans _ _ _ E H2).
  - rewrite (str_lt_total _ _ E H1). exact H2.
Qed.

Lemma filter_all_same {A : Type} (f : A -> bool) (b : bool) (l : list A) :
  Forall (fun x => f x = b) l -> filter f l = if b then l else [].
Proof.
  induction 1 as [|x l Hx Hl IH]; simpl.
  - destruct b; reflexivity.
  - rewrite Hx, IH. destruct b; reflexivity.
Qed.

Lemma inorder_dates (P : string -> Prop) (t : BSTNode) :
  bst_ok t -> all_dates P t ->
  Forall (fun x => P (date x)) (BST.inorderTraversal t).
Proof.
  induction t as [|d txs l IHl r IHr]; simpl.
  - intros _ _. constructor.
  - intros (_ & _ & Hb & Hl & Hr) (Pd & Pl & Pr).
    rewrite inorder_node. apply Forall_app. split; [auto|].
    apply Forall_app. split; [|auto].
    eapply Forall_impl; [|exact Hb]. simpl. intros x Hx. rewrite Hx. exact Pd.
Qed.

(** The pruned walk of [rangeQuery] returns what a filter of the whole
    in-order traversal returns. *)
Lemma rangeQuery_filter (s e : string) (t : BSTNode) :
  bst_ok t ->
  BST.rangeQuery s e t = filter (in_range s e) (BST.inorderTraversal t).
Proof.
  induction t as [|d txs l IHl r IHr]; [reflexivity|].
  intros (Hl & Hr & Hb & Okl & Okr).
  rewrite inorder_node, !filter_app.
  unfold BST.rangeQuery in *. simpl.
  assert (Eb : filter (in_range s e) txs
               = if negb (str_lt d s) && negb (str_lt e d) then txs else []).
  { apply filter_all_same. eapply Forall_impl; [|exact Hb].
    simpl. intros x Hx. unfold in_range, str_le. rewrite Hx. reflexivity. }
  assert (El : (if str_lt s d then BST.rangeQueryHelper l s e [] else [])
               = filter (in_range s e) (BST.inorderTraversal l)).
  { destruct (str_lt s d) eqn:E; [apply IHl; exact Okl|].
    symmetry. rewrite (filter_all_same _ false); [reflexivity|].
    eapply Forall_impl;
      [|apply (inorder_dates (fun y => str_lt y d = true) l Okl Hl)].
    simpl. intros x Hx. unfold in_range, str_le.
    rewrite (str_lt_le_trans _ _ _ Hx E). reflexivity. }
  assert (Er : (if str_lt d e then BST.rangeQueryHelper r s e [] else [])
               = filter (in_range s e) (BST.inorderTraversal r)).
  { destruct (str_lt d e) eqn:E; [apply IHr; exact Okr|].
    symmetry. rewrite (filter_all_same _ false); [reflexivity|].
    eapply Forall_impl;
      [|apply (inorder_dates (fun y => str_lt d y = true) r Okr Hr)].
    simpl. intros x Hx. unfold in_range, str_le.
    rewrite (str_le_lt_trans _ _ _ E Hx). apply andb_false_r. }
  rewrite <- El, <- Er, Eb.
  destruct (str_lt s d); destruct (negb (str_lt d s) && negb (str_lt e d));
    destruct (str_lt d e);
    rewrite ?(rangeQueryHelper_acc r s e (_ ++ _)),
            ?(rangeQueryHelper_acc r s e (BST.rangeQueryHelper l s e []));
    rewrite ?app_nil_r, <- ?app_assoc; simpl; reflexivity.
Qed.

(** [place] and [by_date]. *)

Lemma place_front (x : Transaction) (l : list Transaction) :
  Forall (fun y => str_lt (date x) (date y) = true) l -> place x l = x :: l.
Proof.
  destruct l as [|y l]; [reflexivity|].
  intro H. inversion H as [|? ? Hy _]; subst. simpl. rewrite Hy. reflexivity.
Qed.

Lemma place_app_left (x : Transaction) (a b : list Transaction) :
  Forall (fun y => str_lt (date x) (date y) = true) b ->
  place x (a ++ b) = place x a ++ b.
Proof.
  intro H. induction a as [|y a IH]; simpl.
  - apply place_front. exact H.
  - destruct (str_lt (date x) (date y)); [reflexivity|].
    rewrite IH. reflexivity.
Qed.

Lemma place_app_right (x : Transaction) (a b : list Transaction) :
  Forall (fun y => str_lt (date x) (date y) = false) a ->
  place x (a ++ b) = a ++ place x b.
Proof.
  induction 1 as [|y a Hy Ha IH]; simpl; [reflexivity|].
  rewrite Hy, IH. reflexivity.
Qed.

Lemma place_Permutation (x : Transaction) (l : list Transaction) :
  Permutation (place x l) (x :: l).
Proof.
  induction l as [|y l IH]; simpl; [reflexivity|].
  destruct (str_lt (date x) (date y)); [reflexivity|].
  eapply perm_trans; [apply perm_skip, IH|apply perm_swap].
Qed.

Lemma by_date_snoc (log : list Transaction) (x : Transaction) :
  by_date (log ++ [x]) = place x (by_date log).
Proof. unfold by_date. rewrite fold_left_app. reflexivity. Qed.

Lemma by_date_Permutation (log : list Transaction) :
  Permutation (by_date log) log.
Proof.
  induction log as [|x log IH] using rev_ind; [reflexivity|].
  rewrite by_date_snoc.
  eapply perm_trans; [apply place_Permutation|].
  eapply perm_trans; [apply perm_skip, IH|].
  apply Permutation_cons_append.
Qed.

Lemma place_ascending (x : Transaction) (l : list Transaction) :
  ascending l -> ascending (place x l).
Proof.
  unfold ascending. induction 1 as [|y l Hs IH Hy]; simpl.
  - repeat constructor.
  - destruct (str_lt (date x) (date y)) eqn:E.
    + constructor; [constructor; assumption|].
      constructor.
      * unfold str_le. rewrite (str_lt_asym _ _ E). reflexivity.
      * eapply Forall_impl; [|exact Hy]. simpl. intros z Hz.
        unfold str_le in *. apply negb_true_iff in Hz. apply negb_true_iff.
        destruct (str_lt (date z) (date x)) eqn:Ez; [|reflexivity].
        pose proof (str_lt_trans _ _ _ Ez E). congruence.
    + constructor; [exact IH|].
      apply (Permutation_Forall (Permutation_sym (place_Permutation x l))).
      constructor; [|exact Hy].
      unfold str_le. rewrite E. reflexivity.
Qed.

Lemma by_date_ascending (log : list Transaction) : ascending (by_date log).
Proof.
  induction log as [|x log IH] using rev_ind.
  - constructor.
  - rewrite by_date_snoc. apply place_ascending. exact IH.
Qed.

(** [insert]. *)

Lemma insertHelper_all_dates (P : string -> Prop) (t : BSTNode) (d : string)
  (x : Transaction) :
  all_dates P t -> P d -> all_dates P (BST.insertHelper t d x).
Proof.
  induction t as [|d0 txs l IHl r IHr]; simpl.
  - auto.
  - intros (P0 & Pl & Pr) Pd.
    destruct (str_lt d d0); [simpl; auto|].
    destruct (str_lt d0 d); simpl; auto.
Qed.

Lemma insert_ok (x : Transaction) (t : BSTNode) :
  bst_ok t -> bst_ok (BST.insert x t).
Proof.
  unfold BST.insert. induction t as [|d0 txs l IHl r IHr]; simpl.
  - intros _. repeat split; auto.
  - intros (Hl & Hr & Hb & Okl & Okr).
    destruct (str_lt (date x) d0) eqn:E1.
    + simpl. repeat split; auto. apply insertHelper_all_dates; auto.
    + destruct (str_lt d0 (date x)) eqn:E2.
      * simpl. repeat split; auto. apply insertHelper_all_dates; auto.
      * simpl. repeat split; auto.
        apply Forall_app. split; [exact Hb|].
        constructor; [|constructor]. apply str_lt_total; assumption.
Qed.

(** A transaction enters the traversal behind those of its own date. *)
Lemma insert_inorder (x : Transaction) (t : BSTNode) :
  bst_ok t ->
  BST.inorderTraversal (BST.insert x t) = place x (BST.inorderTraversal t).
Proof.
  unfold BST.insert. induction t as [|d0 txs l IHl r IHr].
  - reflexivity.
  - intros (Hl & Hr & Hb & Okl & Okr).
    pose proof (inorder_dates _ l Okl Hl) as Dl.
    pose proof (inorder_dates _ r Okr Hr) as Dr.
    cbv beta in Dl, Dr.
    simpl BST.insertHelper.
    destruct (str_lt (date x) d0) eqn:E1.
    + rewrite !inorder_node, IHl by exact Okl.
      symmetry. apply place_app_left.
      apply Forall_app. split.
      * eapply Forall_impl; [|exact Hb]. cbv beta. intros y Hy.
        rewrite Hy. exact E1.
      * eapply Forall_impl; [|exact Dr]. cbv beta. intros y Hy.
        apply (str_lt_trans _ _ _ E1 Hy).
    + assert (Fl : Forall (fun y => str_lt (date x) (date y) = false)
                     (BST.inorderTraversal l)).
      { eapply Forall_impl; [|exact Dl]. cbv beta. intros y Hy.
        destruct (str_lt (date x) (date y)) eqn:E; [|reflexivity].
        pose proof (str_lt_trans _ _ _ E Hy). congruence. }
      assert (Fb : Forall (fun y => str_lt (date x) (date y) = false) txs).
      { eapply Forall_impl; [|exact Hb]. cbv beta. intros y Hy.
        rewrite Hy. exact E1. }
      destruct (str_lt d0 (date x)) eqn:E2.
      * rewrite !inorder_node, IHr by exact Okr.
        rewrite (place_app_right _ _ _ Fl), (place_app_right _ _ _ Fb).
        reflexivity.
      * rewrite !inorder_node.
        rewrite (place_app_right _ _ _ Fl), (place_app_right _ _ _ Fb).
        rewrite place_front.
        -- rewrite <- app_assoc. reflexivity.
        -- eapply Forall_impl; [|exact Dr]. cbv beta. intros y Hy.
           rewrite (str_lt_total _ _ E1 E2). exact Hy.
Qed.

(** Filters and the sort by date. *)

Lemma ascending_tail_later (x y : Transaction) (l : list Transaction) :
  ascending (y :: l) -> str_lt (date x) (date y) = true ->
  Forall (fun z => str_lt (date x) (date z) = true) (y :: l).
Proof.
  intros A E. inversion A as [|? ? _ Hy]; subst.
  constructor; [exact E|].
  eapply Forall_impl; [|exact Hy]. cbv beta. intros z Hz.
  unfold str_le in Hz. apply negb_true_iff in Hz.
  apply (str_lt_le_trans _ _ _ E Hz).
Qed.

Lemma filter_place (f : Transaction -> bool) (x : Transaction)
  (l : list Transaction) :
  ascending l ->
  filter f (place x l)
    = if f x then place x (filter f l) else filter f l.
Proof.
  induction l as [|y l IH]; intro A.
  - simpl. destruct (f x); reflexivity.
  - assert (Al : ascending l) by (inversion A; assumption).
    change (place x (y :: l))
      with (if str_lt (date x) (date y) then x :: y :: l
            else y :: place x l).
    destruct (str_lt (date x) (date y)) eqn:E.
    + pose proof (ascending_tail_later x y l A E) as F.
      assert (F' : Forall (fun z => str_lt (date x) (date z) = true)
                     (filter f (y :: l))).
      { apply Forall_forall. intros z Hz. apply filter_In in Hz.
        rewrite Forall_forall in F. apply F. tauto. }
      rewrite (place_front x _ F').
      simpl. destruct (f x); reflexivity.
    + simpl. rewrite (IH Al).
      destruct (f y); destruct (f x); simpl; rewrite ?E; reflexivity.
Qed.

Lemma by_date_filter (f : Transaction -> bool) (log : list Transaction) :
  filter f (by_date log) = by_date (filter f log).
Proof.
  induction log as [|x log IH] using rev_ind; [reflexivity|].
  rewrite by_date_snoc, filter_app, (filter_place f x _ (by_date_ascending log)).
  simpl. destruct (f x).
  - rewrite by_date_snoc, IH. reflexivity.
  - rewrite app_nil_r. exact IH.
Qed.

Lemma filter_date_place (d : string) (x : Transaction)
  (l : list Transaction) :
  ascending l ->
  filter (fun y => str_eq (date y) d) (place x l)
    = filter (fun y => str_eq (date y) d) l
        ++ (if str_eq (date x) d then [x] else []).
Proof.
  induction l as [|y l IH]; intro A.
  - simpl. destruct (str_eq (date x) d); reflexivity.
  - assert (Al : ascending l) by (inversion A; assumption).
    change (place x (y :: l))
      with (if str_lt (date x) (date y) then x :: y :: l
            else y :: place x l).
    destruct (str_lt (date x) (date y)) eqn:E.
    + pose proof (ascending_tail_later x y l A E) as F.
      destruct (str_eq (date x) d) eqn:Ex.
      * assert (N : filter (fun y0 => str_eq (date y0) d) (y :: l) = []).
        { apply str_eq_iff in Ex.
          rewrite (filter_all_same _ false); [reflexivity|].
          eapply Forall_impl; [|exact F]. cbv beta. intros z Hz.
          apply str_eq_neq. intro Hzd.
          rewrite Hzd, Ex, str_lt_irrefl in Hz. discriminate. }
        rewrite N.
        change (filter (fun y0 => str_eq (date y0) d) (x :: y :: l))
          with (if str_eq (date x) d
                then x :: filter (fun y0 => str_eq (date y0) d) (y :: l)
                else filter (fun y0 => str_eq (date y0) d) (y :: l)).
        rewrite Ex, N. reflexivity.
      * change (filter (fun y0 => str_eq (date y0) d) (x :: y :: l))
          with (if str_eq (date x) d
                then x :: filter (fun y0 => str_eq (date y0) d) (y :: l)
                else filter (fun y0 => str_eq (date y0) d) (y :: l)).
        rewrite Ex, app_nil_r. reflexivity.
    + simpl. rewrite (IH Al). destruct (str_eq (date y) d); reflexivity.
Qed.

(** The sort by date is stable: the transactions of one date keep the
    order they have in the log. *)
Lemma by_date_stable (d : string) (log : list Transaction) :
  filter (fun y => str_eq (date y) d) (by_date log)
    = filter (fun y => str_eq (date y) d) log.
Proof.
  induction log as [|x log IH] using rev_ind; [reflexivity|].
  rewrite by_date_snoc, (filter_date_place d x _ (by_date_ascending log)).
  rewrite filter_app, IH. reflexivity.
Qed.

Lemma filter_comm {A : Type} (f g : A -> bool) (l : list A) :
  filter f (filter g l) = filter g (filter f l).
Proof.
  induction l as [|x l IH]; simpl; [reflexivity|].
  destruct (g x) eqn:G; destruct (f x) eqn:F; simpl;
    rewrite ?G, ?F, IH; reflexivity.
Qed.

Lemma filter_Permutation {A : Type} (f : A -> bool) (l l' : list A) :
  Permutation l l' -> Permutation (filter f l) (filter f l').
Proof.
  induction 1 as [|x l l' P IH|x y l|l l' l'' P1 IH1 P2 IH2]; simpl.
  - constructor.
  - destruct (f x); auto.
  - destruct (f x); destruct (f y); auto. apply perm_swap.
  - eapply perm_trans; eassumption.
Qed.

Lemma filter_ascending (f : Transaction -> bool) (l : list Transaction) :
  ascending l -> ascending (filter f l).
Proof.
  unfold ascending. induction 1 as [|x l Hs IH Hx]; simpl.
  - constructor.
  - destruct (f x); [|exact IH].
    constructor; [exact IH|].
    apply Forall_forall. intros z Hz. apply filter_In in Hz.
    rewrite Forall_forall in Hx. apply Hx. tauto.
Qed.

(** [deleteById] and [findById]. *)

Lemma filter_other_ids_none (i : string) (l : list Transaction) :
  Forall (fun x => id x <> i) l -> filter (other_ids i) l = l.
Proof.
  intro H. rewrite (filter_all_same _ true); [reflexivity|].
  eapply Forall_impl; [|exact H]. cbv beta. intros x Hx.
  unfold other_ids. apply negb_true_iff, str_eq_neq. exact Hx.
Qed.

Lemma ids_disjoint_r (a b : list Transaction) (x : Transaction) :
  NoDup (map id (a ++ b)) -> In x a -> Forall (fun y => id y <> id x) b.
Proof.
  intros ND Hx. apply Forall_forall. intros y Hy E.
  apply in_split in Hx. destruct Hx as (a1 & a2 & ->).
  rewrite <- app_assoc in ND. simpl in ND.
  rewrite map_app in ND. simpl in ND.
  apply NoDup_remove_2 in ND. apply ND.
  rewrite <- map_app. rewrite <- E. apply in_map.
  apply in_or_app. right. apply in_or_app. right. exact Hy.
Qed.

Lemma ids_disjoint_l (a b : list Transaction) (x : Transaction) :
  NoDup (map id (a ++ b)) -> In x b -> Forall (fun y => id y <> id x) a.
Proof.
  intros ND Hx. apply Forall_forall. intros y Hy E.
  apply in_split in Hx. destruct Hx as (b1 & b2 & ->).
  rewrite app_assoc in ND. rewrite map_app in ND. simpl in ND.
  apply NoDup_remove_2 in ND. apply ND.
  rewrite <- map_app. rewrite <- E. apply in_map.
  apply in_or_app. left. apply in_or_app. left. exact Hy.
Qed.

Lemma eraseFirst_None (i : string) (txs : list Transaction) :
  BST.eraseFirst i txs = None -> Forall (fun x => id x <> i) txs.
Proof.
  induction txs as [|x txs IH]; simpl; [constructor|].
  destruct (str_eq (id x) i) eqn:E; [discriminate|].
  destruct (BST.eraseFirst i txs); [discriminate|].
  intros _. constructor; [apply str_eq_neq; exact E|auto].
Qed.

Lemma eraseFirst_Some (i : string) (txs txs' : list Transaction) :
  BST.eraseFirst i txs = Some txs' ->
  (exists x, In x txs /\ id x = i) /\
  (forall y, In y txs' -> In y txs) /\
  (NoDup (map id txs) -> txs' = filter (other_ids i) txs).
Proof.
  revert txs'. induction txs as [|x txs IH]; intros txs' H; simpl in H.
  - discriminate.
  - destruct (str_eq (id x) i) eqn:E.
    + inversion H; subst txs'. apply str_eq_iff in E.
      split; [exists x; simpl; auto|]. split; [simpl; auto|].
      intro ND. subst i. simpl. unfold other_ids at 1.
      rewrite str_eq_refl. simpl.
      symmetry. apply filter_other_ids_none.
      apply (ids_disjoint_r [x] txs x ND). simpl. auto.
    + destruct (BST.eraseFirst i txs) as [t1|]; [|discriminate].
      inversion H; subst txs'.
      destruct (IH t1 eq_refl) as ((y & Hy & Hi) & Hin & Hf).
      split; [exists y; simpl; auto|]. split.
      * intros z [Hz|Hz]; simpl; auto.
      * intro ND. simpl. unfold other_ids at 1. rewrite E. simpl.
        f_equal. apply Hf. inversion ND. assumption.
Qed.

Lemma delete_notfound (t : BSTNode) (i : string) :
  fst (BST.deleteTransactionHelper t i) = false ->
  snd (BST.deleteTransactionHelper t i) = t /\
  Forall (fun x => id x <> i) (BST.inorderTraversal t).
Proof.
  induction t as [|d txs l IHl r IHr]; simpl.
  - intros _. split; [reflexivity|constructor].
  - destruct (BST.eraseFirst i txs) as [txs'|] eqn:E; [discriminate|].
    destruct (BST.deleteTransactionHelper l i) as [fl l'].
    destruct fl; [discriminate|].
    destruct (BST.deleteTransactionHelper r i) as [fr r'].
    simpl in *. intro H. subst fr.
    destruct (IHl eq_refl) as [-> Fl]. destruct (IHr eq_refl) as [-> Fr].
    split; [reflexivity|].
    rewrite inorder_node. apply Forall_app. split; [exact Fl|].
    apply Forall_app. split; [apply eraseFirst_None; exact E|exact Fr].
Qed.

Lemma delete_found (t : BSTNode) (i : string) :
  fst (BST.deleteTransactionHelper t i) = true ->
  exists x, In x (BST.inorderTraversal t) /\ id x = i.
Proof.
  induction t as [|d txs l IHl r IHr]; simpl.
  - discriminate.
  - destruct (BST.eraseFirst i txs) as [txs'|] eqn:E.
    + intros _. destruct (eraseFirst_Some _ _ _ E) as ((x & Hx & Hi) & _).
      exists x. split; [|exact Hi]. rewrite inorder_node.
      apply in_or_app. right. apply in_or_app. left. exact Hx.
    + destruct (BST.deleteTransactionHelper l i) as [fl l'].
      destruct fl.
      * intros _. destruct (IHl eq_refl) as (x & Hx & Hi).
        exists x. split; [|exact Hi]. rewrite inorder_node.
        apply in_or_app. left. exact Hx.
      * destruct (BST.deleteTransactionHelper r i) as [fr r'].
        simpl in *. intro H. destruct (IHr H) as (x & Hx & Hi).
        exists x. split; [|exact Hi]. rewrite inorder_node.
        apply in_or_app. right. apply in_or_app. right. exact Hx.
Qed.

(** With unique ids, deleting an id from the index removes the
    transaction of that id from the traversal and moves nothing else. *)
Lemma delete_inorder (t : BSTNode) (i : string) :
  NoDup (map id (BST.inorderTraversal t)) ->
  BST.inorderTraversal (snd (BST.deleteTransactionHelper t i))
    = filter (other_ids i) (BST.inorderTraversal t).
Proof.
  induction t as [|d txs l IHl r IHr]; [reflexivity|].
  rewrite inorder_node. intro ND.
  assert (NDl : NoDup (map id (BST.inorderTraversal l))).
  { rewrite map_app in ND. apply NoDup_app_remove_r in ND. exact ND. }
  assert (NDbr : NoDup (map id (txs ++ BST.inorderTraversal r))).
  { rewrite map_app in ND. apply NoDup_app_remove_l in ND. exact ND. }
  assert (NDb : NoDup (map id txs)).
  { rewrite map_app in NDbr. apply NoDup_app_remove_r in NDbr. exact NDbr. }
  assert (NDr : NoDup (map id (BST.inorderTraversal r))).
  { rewrite map_app in NDbr. apply NoDup_app_remove_l in NDbr. exact NDbr. }
  rewrite !filter_app. simpl BST.deleteTransactionHelper.
  destruct (BST.eraseFirst i txs) as [txs'|] eqn:E.
  - destruct (eraseFirst_Some _ _ _ E) as ((x & Hx & Hi) & _ & Hf).
    simpl snd. rewrite inorder_node, (Hf NDb).
    rewrite (filter_other_ids_none i (BST.inorderTraversal l)).
    + rewrite (filter_other_ids_none i (BST.inorderTraversal r));
        [reflexivity|].
      rewrite <- Hi. apply (ids_disjoint_r txs _ x NDbr Hx).
    + rewrite <- Hi. apply (ids_disjoint_l _ _ x ND).
      apply in_or_app. left. exact Hx.
  - rewrite (filter_other_ids_none i txs) by (apply eraseFirst_None; exact E).
    specialize (IHl NDl). specialize (IHr NDr).
    destruct (BST.deleteTransactionHelper l i) as [fl l'] eqn:Dl.
    destruct fl.
    + simpl snd in *. rewrite inorder_node, IHl.
      destruct (delete_found l i) as (x & Hx & Hi); [rewrite Dl; reflexivity|].
      rewrite (filter_other_ids_none i (BST.inorderTraversal r));
        [reflexivity|].
      rewrite <- Hi.
      pose proof (ids_disjoint_r _ _ x ND Hx) as F.
      apply Forall_app in F. tauto.
    + destruct (delete_notfound l i) as [_ Fl]; [rewrite Dl; reflexivity|].
      destruct (BST.deleteTransactionHelper r i) as [fr r'] eqn:Dr.
      simpl snd in *. rewrite inorder_node, IHr.
      rewrite (filter_other_ids_none i _ Fl).
      assert (l' = l) as ->.
      { pose proof (delete_notfound l i) as N. rewrite Dl in N.
        destruct (N eq_refl) as [N1 _]. exact N1. }
      reflexivity.
Qed.

Lemma delete_all_dates (P : string -> Prop) (t : BSTNode) (i : string) :
  all_dates P t -> all_dates P (snd (BST.deleteTransactionHelper t i)).
Proof.
  induction t as [|d txs l IHl r IHr]; simpl; [auto|].
  intros (Pd & Pl & Pr).
  destruct (BST.eraseFirst i txs); [simpl; auto|].
  destruct (BST.deleteTransactionHelper l i) as [fl l'].
  destruct fl; [simpl in *; auto|].
  destruct (BST.deleteTransactionHelper r i) as [fr r'].
  simpl in *. auto.
Qed.

Lemma delete_ok (t : BSTNode) (i : string) :
  bst_ok t -> bst_ok (snd (BST.deleteTransactionHelper t i)).
Proof.
  induction t as [|d txs l IHl r IHr]; simpl; [auto|].
  intros (Hl & Hr & Hb & Okl & Okr).
  destruct (BST.eraseFirst i txs) as [txs'|] eqn:E.
  - simpl. repeat split; auto.
    destruct (eraseFirst_Some _ _ _ E) as (_ & Hin & _).
    apply Forall_forall. intros y Hy. rewrite Forall_forall in Hb. auto.
  - pose proof (delete_all_dates (fun x => str_lt x d = true) l i Hl) as Dl.
    pose proof (delete_all_dates (fun x => str_lt d x = true) r i Hr) as Dr.
    destruct (BST.deleteTransactionHelper l i) as [fl l'].
    destruct fl; [simpl in *; repeat split; auto|].
    destruct (BST.deleteTransactionHelper r i) as [fr r'].
    simpl in *. repeat split; auto.
Qed.

Lemma find_some_id (i : string) (l : list Transaction) (x : Transaction) :
  find (fun y => str_eq (id y) i) l = Some x -> In x l /\ id x = i.
Proof.
  intro H. apply find_some in H. destruct H as [H1 H2].
  split; [exact H1|apply str_eq_iff; exact H2].
Qed.

Lemma findHelper_Some (t : BSTNode) (i : string) (x : Transaction) :
  BST.findHelper t i = Some x ->
  In x (BST.inorderTraversal t) /\ id x = i.
Proof.
  induction t as [|d txs l IHl r IHr]; simpl; [discriminate|].
  rewrite inorder_node.
  destruct (find (fun y => str_eq (id y) i) txs) as [y|] eqn:F.
  - intro H. inversion H; subst y.
    destruct (find_some_id _ _ _ F) as [H1 H2].
    split; [|exact H2]. apply in_or_app. right. apply in_or_app. auto.
  - destruct (BST.findHelper l i) as [y|].
    + intro H. inversion H; subst y. destruct (IHl eq_refl) as [H1 H2].
      split; [|exact H2]. apply in_or_app. auto.
    + intro H. destruct (IHr H) as [H1 H2].
      split; [|exact H2]. apply in_or_app. right. apply in_or_app. auto.
Qed.

Lemma findHelper_None (t : BSTNode) (i : string) :
  BST.findHelper t i = None ->
  Forall (fun x => id x <> i) (BST.inorderTraversal t).
Proof.
  induction t as [|d txs l IHl r IHr]; simpl; [constructor|].
  rewrite inorder_node.
  destruct (find (fun y => str_eq (id y) i) txs) as [y|] eqn:F;
    [discriminate|].
  destruct (BST.findHelper l i) as [y|]; [discriminate|].
  intro H. apply Forall_app. split; [auto|].
  apply Forall_app. split; [|auto].
  apply Forall_forall. intros y Hy.
  apply str_eq_neq. apply (find_none _ _ F y Hy).
Qed.

Lemma list_deleteById_filter (i : string) (l : DoublyLinkedList.t) :
  NoDup (map id l) ->
  snd (DoublyLinkedList.deleteById i l) = filter (other_ids i) l.
Proof.
  induction l as [|x l IH]; [reflexivity|].
  intro ND. simpl. unfold other_ids at 1.
  destruct (str_eq (id x) i) eqn:E; simpl.
  - apply str_eq_iff in E. subst i. symmetry. apply filter_other_ids_none.
    apply (ids_disjoint_r [x] l x ND). simpl. auto.
  - destruct (DoublyLinkedList.deleteById i l) as [f rest]. simpl in *.
    f_equal. apply IH. inversion ND. assumption.
Qed.

(** The invariant of the date index under the operations of the engine. *)

Lemma date_index_ok_empty : date_index_ok [] Leaf [].
Proof. repeat split. constructor. Qed.

Lemma date_index_ok_addFront (l : DoublyLinkedList.t) (b : BST.t)
  (log : list Transaction) (x : Transaction) :
  date_index_ok l b log ->
  date_index_ok (DoublyLinkedList.addFront x l) (BST.insert x b)
                (log ++ [x]).
Proof.
  intros (Ok & In & P). split; [apply insert_ok; exact Ok|]. split.
  - rewrite insert_inorder, In, by_date_snoc by exact Ok. reflexivity.
  - unfold DoublyLinkedList.addFront.
    eapply perm_trans; [apply Permutation_sym, Permutation_cons_append|].
    apply perm_skip. exact P.
Qed.

Lemma date_index_ok_addBack (l : DoublyLinkedList.t) (b : BST.t)
  (log : list Transaction) (x : Transaction) :
  date_index_ok l b log ->
  date_index_ok (DoublyLinkedList.addBack x l) (BST.insert x b)
                (log ++ [x]).
Proof.
  intros (Ok & In & P). split; [apply insert_ok; exact Ok|]. split.
  - rewrite insert_inorder, In, by_date_snoc by exact Ok. reflexivity.
  - unfold DoublyLinkedList.addBack. apply Permutation_app_tail. exact P.
Qed.

Lemma NoDup_ids_Permutation (l l' : list Transaction) :
  Permutation l l' -> NoDup (map id l) -> NoDup (map id l').
Proof.
  intros P. apply Permutation_NoDup. apply Permutation_map. exact P.
Qed.

Lemma date_index_ok_delete (l : DoublyLinkedList.t) (b : BST.t)
  (log : list Transaction) (i : string) :
  date_index_ok l b log -> NoDup (map id log) ->
  date_index_ok (snd (DoublyLinkedList.deleteById i l))
                (snd (BST.deleteById i b))
                (filter (other_ids i) log).
Proof.
  intros (Ok & In & P) ND. unfold BST.deleteById.
  split; [apply delete_ok; exact Ok|]. split.
  - rewrite delete_inorder.
    + rewrite In. apply by_date_filter.
    + rewrite In.
      apply (NoDup_ids_Permutation _ _
               (Permutation_sym (by_date_Permutation log)) ND).
  - rewrite list_deleteById_filter.
    + apply filter_Permutation. exact P.
    + apply (NoDup_ids_Permutation _ _ P ND).
Qed.

Lemma updateExpenseTracking_bst (x : Transaction) (b : bool)
  (e : FinanceEngine) :
  transactionBST (Engine.updateExpenseTracking x b e) = transactionBST e.
Proof.
  unfold Engine.updateExpenseTracking.
  destruct (negb (str_eq (type x) "expense")); [reflexivity|].
  cbv zeta.
  match goal with
  | |- context [match ?s with Some _ => _ | None => _ end] =>
      destruct s; reflexivity
  end.
Qed.

Lemma indexTransaction_list (x : Transaction) (e : FinanceEngine) :
  transactionList (Engine.indexTransaction x e) = transactionList e.
Proof.
  unfold Engine.indexTransaction. cbv zeta.
  destruct (description x);
    destruct (str_eq (type x) "expense"); simpl;
    rewrite updateExpenseTracking_list; reflexivity.
Qed.

Lemma indexTransaction_bst (x : Transaction) (e : FinanceEngine) :
  transactionBST (Engine.indexTransaction x e)
    = BST.insert x (transactionBST e).
Proof.
  unfold Engine.indexTransaction. cbv zeta.
  destruct (description x);
    destruct (str_eq (type x) "expense"); simpl;
    rewrite updateExpenseTracking_bst; reflexivity.
Qed.

Lemma engine_indexed_new : engine_indexed Engine.new [].
Proof. exact date_index_ok_empty. Qed.

Lemma loadTransaction_indexed (i ty : string) (amt : Q)
  (cat desc dt : string) (e : FinanceEngine) (log : list Transaction) :
  engine_indexed e log ->
  engine_indexed (Engine.loadTransaction i ty amt cat desc dt e)
                 (log ++ [mkTransaction i ty amt cat desc dt]).
Proof.
  unfold engine_indexed, Engine.loadTransaction. cbv zeta. intro H.
  rewrite indexTransaction_list, indexTransaction_bst.
  apply date_index_ok_addBack. exact H.
Qed.

Lemma addTransaction_indexed (now : Z) (ty : string) (amt : Q)
  (cat desc dt : string) (e e' : FinanceEngine) (x : Transaction)
  (log : list Transaction) :
  engine_indexed e log ->
  Engine.addTransaction now ty amt cat desc dt e = Some (x, e') ->
  engine_indexed e' (log ++ [x]).
Proof.
  unfold engine_indexed, Engine.addTransaction, Engine.generateId.
  cbv zeta. unfold Engine.pushUndo, bind. intros H A.
  destruct (UndoStack.push _ _) as [s|]; [|discriminate].
  inversion A; subst x e'. clear A.
  cbn [transactionList transactionBST Engine.set_undoStack].
  rewrite indexTransaction_list, indexTransaction_bst.
  apply date_index_ok_addFront. exact H.
Qed.

Lemma deleteTransaction_indexed (i : string) (e e' : FinanceEngine)
  (r : bool) (log : list Transaction) :
  engine_indexed e log -> NoDup (map id log) ->
  Engine.deleteTransaction i e = Some (r, e') ->
  engine_indexed e' (filter (other_ids i) log).
Proof.
  unfold engine_indexed, Engine.deleteTransaction. intros H ND D.
  destruct (BST.findById i (transactionBST e)) as [x|] eqn:F.
  - unfold Engine.pushUndo, bind in D.
    destruct (UndoStack.push _ _) as [s|]; [|discriminate].
    inversion D; subst r e'. clear D.
    rewrite updateExpenseTracking_list, updateExpenseTracking_bst.
    cbn [transactionList transactionBST Engine.set_undoStack
         Engine.set_transactionList Engine.set_transactionBST].
    apply date_index_ok_delete; assumption.
  - inversion D; subst r e'. clear D.
    rewrite filter_other_ids_none; [exact H|].
    destruct H as (Ok & In & P).
    apply findHelper_None in F. rewrite In in F.
    apply (Permutation_Forall (by_date_Permutation log)). exact F.
Qed.

Lemma clearAll_indexed (e : FinanceEngine) :
  engine_indexed (Engine.clearAll e) [].
Proof. exact date_index_ok_empty. Qed.

(** C5.  On an engine whose date index and ledger hold the transactions
    of [log] in the order they were indexed, [getTransactionsInRange]
    returns the stable sort by date of the log, cut to the dates from
    [startDate] to [endDate] inclusive: exactly the transactions of
    [getAllTransactions] in that range, in ascending date order, those of
    one date in their insertion order. *)
Theorem range_query_exact (startDate endDate : string) (e : FinanceEngine)
  (log : list Transaction) :
  engine_indexed e log ->
  let res := Engine.getTransactionsInRange startDate endDate e in
  res = filter (in_range startDate endDate) (by_date log) /\
  Permutation res (filter (in_range startDate endDate)
                          (Engine.getAllTransactions e)) /\
  (forall x, In x res <->
             In x (Engine.getAllTransactions e) /\
             str_le startDate (date x) = true /\
             str_le (date x) endDate = true) /\
  ascending res /\
  (forall d, filter (fun x => str_eq (date x) d) res
             = filter (fun x => str_eq (date x) d)
                      (filter (in_range startDate endDate) log)).
Proof.
  intros (Ok & In & P). cbv zeta.
  assert (E : Engine.getTransactionsInRange startDate endDate e
              = filter (in_range startDate endDate) (by_date log)).
  { unfold Engine.getTransactionsInRange.
    rewrite rangeQuery_filter by exact Ok. rewrite In. reflexivity. }
  assert (PR : Permutation
                 (Engine.getTransactionsInRange startDate endDate e)
                 (filter (in_range startDate endDate)
                         (Engine.getAllTransactions e))).
  { rewrite E. apply filter_Permutation.
    eapply perm_trans; [apply by_date_Permutation|exact P]. }
  split; [exact E|]. split; [exact PR|]. split; [|split].
  - intro x. split.
    + intro H. apply (Permutation_in _ PR) in H.
      apply filter_In in H. unfold in_range in H.
      rewrite andb_true_iff in H. tauto.
    + intros (H1 & H2 & H3).
      apply (Permutation_in _ (Permutation_sym PR)).
      apply filter_In. unfold in_range. rewrite H2, H3. auto.
  - rewrite E. apply filter_ascending, by_date_ascending.
  - intro d. rewrite E, filter_comm, by_date_stable, filter_comm.
    reflexivity.
Qed.

Lemma range_query_exact_witness :
  Engine.getTransactionsInRange "2024-01-10" "2024-01-20" engine_three_dates
    = filter (in_range "2024-01-10" "2024-01-20") (by_date log_three_dates).
Proof.
  assert (I : engine_indexed engine_three_dates log_three_dates).
  { split; [|split].
    - vm_compute. repeat split; repeat constructor.
    - vm_compute. reflexivity.
    - vm_compute. apply Permutation_refl. }
  apply (proj1 (range_query_exact "2024-01-10" "2024-01-20"
                  engine_three_dates log_three_dates I)).
Defined.

Example range_of_three_dates :
  Engine.getTransactionsInRange "2024-01-10" "2024-01-20" engine_three_dates
    = [mkTransaction "b" "expense" 2 "Food" "" "2024-01-15"].
Proof. vm_compute. reflexivity. Qed.

(* ------------------------------------------------------------------ *)
(** ** Expense tracking *)

Lemma updateExpenseTracking_expenseMap (x : Transaction) (b : bool)
  (e : FinanceEngine) :
  expenseMap (Engine.updateExpenseTracking x b e)
    = track_expenses x b (expenseMap e).
Proof.
  unfold Engine.updateExpenseTracking, track_expenses, tracked_total,
    current_total.
  destruct (negb (str_eq (type x) "expense")); [reflexivity|].
  cbv zeta. cbn [budgetMap Engine.set_expenseMap].
  destruct (HashMap.search (category x) (budgetMap e));
    destruct b; reflexivity.
Qed.

Lemma updateExpenseTracking_budgetMap (x : Transaction) (b : bool)
  (e : FinanceEngine) :
  budgetMap (Engine.updateExpenseTracking x b e)
    = track_budgets x b (budgetMap e) (expenseMap e).
Proof.
  unfold Engine.updateExpenseTracking, track_budgets, tracked_total,
    current_total.
  destruct (negb (str_eq (type x) "expense")); [reflexivity|].
  cbv zeta. cbn [budgetMap Engine.set_expenseMap].
  destruct (HashMap.search (category x) (budgetMap e));
    destruct b; reflexivity.
Qed.

Lemma updateExpenseTracking_undoStack (x : Transaction) (b : bool)
  (e : FinanceEngine) :
  undoStack (Engine.updateExpenseTracking x b e) = undoStack e.
Proof.
  unfold Engine.updateExpenseTracking.
  destruct (negb (str_eq (type x) "expense")); [reflexivity|].
  cbv zeta.
  match goal with
  | |- context [match ?s with Some _ => _ | None => _ end] =>
      destruct s; reflexivity
  end.
Qed.

Lemma indexTransaction_expenseMap (x : Transaction) (e : FinanceEngine) :
  expenseMap (Engine.indexTransaction x e)
    = track_expenses x true (expenseMap e).
Proof.
  unfold Engine.indexTransaction. cbv zeta.
  destruct (description x);
    destruct (str_eq (type x) "expense"); simpl;
    rewrite updateExpenseTracking_expenseMap; reflexivity.
Qed.

Lemma indexTransaction_budgetMap (x : Transaction) (e : FinanceEngine) :
  budgetMap (Engine.indexTransaction x e)
    = track_budgets x true (budgetMap e) (expenseMap e).
Proof.
  unfold Engine.indexTransaction. cbv zeta.
  destruct (description x);
    destruct (str_eq (type x) "expense"); simpl;
    rewrite updateExpenseTracking_budgetMap; reflexivity.
Qed.

Lemma indexTransaction_undoStack (x : Transaction) (e : FinanceEngine) :
  undoStack (Engine.indexTransaction x e) = undoStack e.
Proof.
  unfold Engine.indexTransaction. cbv zeta.
  destruct (description x);
    destruct (str_eq (type x) "expense"); simpl;
    rewrite updateExpenseTracking_undoStack; reflexivity.
Qed.

Lemma current_total_nonneg (c : string) (em : HashMap.t Q) :
  totals_nonneg em -> (0 <= current_total c em)%Q.
Proof.
  intro H. unfold current_total.
  destruct (HashMap.search c em) as [v|] eqn:E; [apply (H c v E)|lra].
Qed.

Lemma current_total_insert (c c' : string) (v : Q) (em : HashMap.t Q) :
  hashmap_ok em ->
  current_total c' (HashMap.insert c v em)
    = if str_eq c c' then v else current_total c' em.
Proof.
  intro H. unfold current_total. rewrite (search_insert em c c' v H).
  destruct (str_eq c c'); reflexivity.
Qed.

Lemma search_track_budgets (x : Transaction) (isAdd : bool)
  (bm : HashMap.t Budget) (em : HashMap.t Q) (c : string) :
  hashmap_ok bm ->
  HashMap.search c (track_budgets x isAdd bm em)
    = if str_eq (type x) "expense" && str_eq (category x) c
      then option_map (fun b => with_spent b (tracked_total x isAdd em))
                      (HashMap.search c bm)
      else HashMap.search c bm.
Proof.
  intro Ok. unfold track_budgets.
  destruct (str_eq (type x) "expense"); simpl; [|reflexivity].
  destruct (HashMap.search (category x) bm) as [b|] eqn:E.
  - destruct (update_present bm (category x)
                (with_spent b (tracked_total x isAdd em)) b Ok E)
      as (_ & _ & Hs).
    rewrite Hs. destruct (str_eq (category x) c) eqn:Ec; [|reflexivity].
    apply str_eq_iff in Ec. subst c. rewrite E. reflexivity.
  - destruct (str_eq (category x) c) eqn:Ec; [|reflexivity].
    apply str_eq_iff in Ec. subst c. rewrite E. reflexivity.
Qed.

Lemma track_budgets_ok (x : Transaction) (isAdd : bool)
  (bm : HashMap.t Budget) (em : HashMap.t Q) :
  hashmap_ok bm -> hashmap_ok (track_budgets x isAdd bm em).
Proof.
  intro Ok. unfold track_budgets.
  destruct (negb (str_eq (type x) "expense")); [exact Ok|].
  destruct (HashMap.search (category x) bm) as [b|] eqn:E; [|exact Ok].
  apply (update_present bm (category x) _ b Ok E).
Qed.

Lemma track_expenses_ok (x : Transaction) (isAdd : bool)
  (em : HashMap.t Q) :
  hashmap_ok em -> hashmap_ok (track_expenses x isAdd em).
Proof.
  intro Ok. unfold track_expenses.
  destruct (negb (str_eq (type x) "expense")); [exact Ok|].
  apply hashmap_ok_insert. exact Ok.
Qed.

Lemma current_total_track (x : Transaction) (isAdd : bool)
  (em : HashMap.t Q) (c : string) :
  hashmap_ok em ->
  current_total c (track_expenses x isAdd em)
    = if str_eq (type x) "expense" && str_eq (category x) c
      then tracked_total x isAdd em
      else current_total c em.
Proof.
  intro Ok. unfold track_expenses.
  destruct (str_eq (type x) "expense"); simpl; [|reflexivity].
  apply current_total_insert. exact Ok.
Qed.

(** [updateExpenseTracking] keeps the maps in that state, whatever the
    transaction when it is removed, and for a non-negative amount when it
    is added. *)
Lemma maps_ok_track (x : Transaction) (isAdd : bool)
  (bm : HashMap.t Budget) (em : HashMap.t Q) :
  maps_ok bm em -> (isAdd = true -> (0 <= amount x)%Q) ->
  maps_ok (track_budgets x isAdd bm em) (track_expenses x isAdd em).
Proof.
  intros (Okb & Oke & Hm & Hn) Hamt.
  assert (Ht : (0 <= tracked_total x isAdd em)%Q).
  { unfold tracked_total. destruct isAdd.
    - pose proof (current_total_nonneg (category x) em Hn).
      specialize (Hamt eq_refl). apply round_nonneg. lra.
    - apply Double_max_ge0. }
  split; [apply track_budgets_ok; exact Okb|].
  split; [apply track_expenses_ok; exact Oke|]. split.
  - intros c b Hs. rewrite (search_track_budgets _ _ _ _ _ Okb) in Hs.
    rewrite (current_total_track _ _ _ _ Oke).
    destruct (str_eq (type x) "expense" && str_eq (category x) c).
    + destruct (HashMap.search c bm) as [b0|]; [|discriminate].
      simpl in Hs. inversion Hs. simpl. reflexivity.
    + apply Hm. exact Hs.
  - intros c v Hs. unfold track_expenses in Hs.
    destruct (negb (str_eq (type x) "expense")); [apply (Hn c v Hs)|].
    rewrite (search_insert em _ c _ Oke) in Hs.
    destruct (str_eq (category x) c).
    + inversion Hs; subst v. exact Ht.
    + apply (Hn c v Hs).
Qed.

(* ------------------------------------------------------------------ *)
(** ** Generated ids and undo records *)

Lemma lacks_append (c : ascii) (a b : string) :
  lacks c (a ++ b)%string = lacks c a && lacks c b.
Proof.
  induction a as [|x a IH]; simpl; [reflexivity|].
  rewrite IH, andb_assoc. reflexivity.
Qed.

Lemma uint_lacks_bar (d : Decimal.uint) :
  lacks "|" (NilEmpty.string_of_uint d) = true.
Proof. induction d; simpl; auto. Qed.

Lemma show_Z_lacks_bar (z : Z) : lacks "|" (Stream.show_Z z) = true.
Proof.
  unfold Stream.show_Z, NilZero.string_of_int.
  destruct (Z.to_int z) as [d|d]; unfold NilZero.string_of_uint;
    destruct d; simpl; rewrite ?uint_lacks_bar; reflexivity.
Qed.

Lemma generateId_lacks_bar (now : Z) (e : FinanceEngine) :
  lacks "|" (fst (Engine.generateId now e)) = true.
Proof.
  unfold Engine.generateId. cbn [fst].
  rewrite !lacks_append, !show_Z_lacks_bar. reflexivity.
Qed.

Lemma take_until_prefix (d : ascii) (a rest : string) :
  lacks d a = true ->
  Stream.take_until d (a ++ String d rest)%string
    = (a, Stream.mk rest true).
Proof.
  induction a as [|x a IH]; simpl.
  - intros _. rewrite Ascii.eqb_refl. reflexivity.
  - intro H. apply andb_true_iff in H. destruct H as [H1 H2].
    apply negb_true_iff in H1. rewrite H1, (IH H2). reflexivity.
Qed.

(** The first field read back from the record of a transaction is its
    id, when the id has no ['|'] in it. *)
Lemma record_first_field (x : Transaction) :
  lacks "|" (id x) = true ->
  fst (Stream.getline "|" (Stream.open (Engine.transactionRecord x))) = id x.
Proof.
  intro H. unfold Stream.getline, Stream.open. cbn [Stream.good Stream.buf].
  unfold Engine.transactionRecord.
  change (id x ++ "|" ++ type x ++ "|" ++ Stream.put_double (amount x)
            ++ "|" ++ category x ++ "|" ++ description x ++ "|" ++ date x)%string
    with (id x ++ String "|" (type x ++ "|" ++ Stream.put_double (amount x)
            ++ "|" ++ category x ++ "|" ++ description x ++ "|" ++ date x))%string.
  rewrite (take_until_prefix _ _ _ H). reflexivity.
Qed.

(** A fresh id is found again right after its transaction is indexed. *)
Lemma find_app_new (i : string) (txs : list Transaction) (x : Transaction) :
  find (fun y => str_eq (id y) i) txs = None -> id x = i ->
  find (fun y => str_eq (id y) i) (txs ++ [x]) = Some x.
Proof.
  intros F Hi. induction txs as [|y txs IH]; simpl in *.
  - rewrite Hi, str_eq_refl. reflexivity.
  - destruct (str_eq (id y) i); [discriminate|auto].
Qed.

Lemma findHelper_insert_fresh (t : BSTNode) (x : Transaction) (d : string) :
  BST.findHelper t (id x) = None ->
  BST.findHelper (BST.insertHelper t d x) (id x) = Some x.
Proof.
  induction t as [|d0 txs l IHl r IHr]; simpl.
  - intros _. rewrite str_eq_refl. reflexivity.
  - destruct (find (fun y => str_eq (id y) (id x)) txs) eqn:F;
      [discriminate|].
    destruct (BST.findHelper l (id x)) eqn:Fl; [discriminate|].
    intro Fr.
    destruct (str_lt d d0); [simpl; rewrite F, IHl; auto|].
    destruct (str_lt d0 d); simpl.
    + rewrite F, Fl. auto.
    + rewrite (find_app_new _ _ _ F eq_refl). reflexivity.
Qed.

(** The undo log across a push that is popped again. *)
Lemma push_pop (a : Action) (s : UndoStack.t) :
  undo_stack_ok s -> UndoStack.count s < UndoStack.maxSize s ->
  exists s', UndoStack.push a s = Some s' /\
             UndoStack.pop s' = Some (a, s).
Proof.
  intros [Hc Hb] Hlt. unfold UndoStack.push.
  assert (E : (UndoStack.count s >=? UndoStack.maxSize s) = false) by lia.
  rewrite E. eexists. split; [reflexivity|].
  unfold UndoStack.pop. simpl. destruct s as [l c m]. simpl.
  repeat f_equal. lia.
Qed.

(* ------------------------------------------------------------------ *)
(** ** addTransaction followed by undo *)

Lemma push_then_pop_back (a : Action) (s : UndoStack.t) :
  undo_stack_ok s -> 2 <= UndoStack.maxSize s ->
  exists s1 s1',
    UndoStack.push a s = Some s1 /\
    UndoStack.pop s1 = Some (a, s1') /\
    undo_stack_ok s1' /\
    UndoStack.count s1' < UndoStack.maxSize s1' /\
    UndoStack.isEmpty s1' = UndoStack.isEmpty s /\
    UndoStack.nodes s1' =
      (if UndoStack.count s <? UndoStack.maxSize s
       then UndoStack.nodes s else removelast (UndoStack.nodes s)) /\
    (UndoStack.count s < UndoStack.maxSize s -> s1' = s).
Proof.
  intros Ok Hm.
  destruct (push_within_bound a s Hm Ok) as (s1 & P & [C1 B1] & M1 & N1).
  exists s1. unfold UndoStack.pop. rewrite N1.
  pose proof Ok as [C0 B0].
  destruct (UndoStack.count s <? UndoStack.maxSize s) eqn:E.
  - eexists. split; [exact P|]. split; [reflexivity|].
    rewrite N1 in C1. simpl in C1.
    unfold undo_stack_ok, UndoStack.isEmpty. simpl.
    assert (Hc : UndoStack.count s1 - 1 = UndoStack.count s) by lia.
    rewrite Hc, M1. repeat split; auto; try lia.
    intros _. destruct s as [l c m]. simpl in *. subst. reflexivity.
  - eexists. split; [exact P|]. split; [reflexivity|].
    rewrite N1 in C1. simpl in C1.
    unfold undo_stack_ok, UndoStack.isEmpty. simpl.
    assert (Hne : UndoStack.nodes s <> []).
    { intro H0. rewrite H0 in C0. simpl in C0. lia. }
    pose proof (removelast_length _ Hne) as R.
    assert (U : (UndoStack.count s1 - 1 =? 0) = false) by lia.
    assert (U0 : (UndoStack.count s =? 0) = false) by lia.
    rewrite U, U0, M1. repeat split; auto; try lia.
Qed.

Lemma deleteTransaction_found (i : string) (e : FinanceEngine)
  (x : Transaction) (s2 : UndoStack.t) :
  BST.findById i (transactionBST e) = Some x ->
  UndoStack.push (mkAction DELETE_TRANSACTION (Engine.transactionRecord x))
                 (undoStack e) = Some s2 ->
  Engine.deleteTransaction i e
    = Some (true,
            Engine.updateExpenseTracking x false
              (Engine.set_transactionBST
                 (Engine.set_transactionList (Engine.set_undoStack e s2)
                    (snd (DoublyLinkedList.deleteById i (transactionList e))))
                 (snd (BST.deleteById i (transactionBST e))))).
Proof.
  intros F P. unfold Engine.deleteTransaction, Engine.pushUndo, bind.
  rewrite F, P. reflexivity.
Qed.

Lemma undo_add_record (i : string) (e : FinanceEngine) (a : Action)
  (s : UndoStack.t) :
  UndoStack.pop (undoStack e) = Some (a, s) ->
  action_type a = ADD_TRANSACTION ->
  fst (Stream.getline "|" (Stream.open (action_data a))) = i ->
  Engine.undo e
    = match Engine.deleteTransaction i (Engine.set_undoStack e s) with
      | Some (_, e') =>
          Some (true,
                match UndoStack.pop (undoStack e') with
                | Some (_, s') => Engine.set_undoStack e' s'
                | None => e'
                end)
      | None => None
      end.
Proof.
  intros P T G. unfold Engine.undo. rewrite P, T.
  destruct (Stream.getline "|" (Stream.open (action_data a))) as [tok st].
  simpl in G. subst tok. unfold bind.
  destruct (Engine.deleteTransaction i (Engine.set_undoStack e s))
    as [[r e']|]; reflexivity.
Qed.

Lemma deleteById_front (x : Transaction) (l : DoublyLinkedList.t) :
  snd (DoublyLinkedList.deleteById (id x) (DoublyLinkedList.addFront x l))
    = l.
Proof.
  unfold DoublyLinkedList.addFront. simpl. rewrite str_eq_refl. reflexivity.
Qed.

(** An amount added and subtracted again leaves the total it was added
    to when the sum is a [double]. *)
Lemma add_sub_exact (s a : Q) :
  (0 <= s)%Q -> representable s -> representable (s + a) ->
  (Double.max 0 (Double.sub (Double.add s a) a) == s)%Q.
Proof.
  intros Hs Rs Ra. unfold Double.sub, Double.add.
  assert (E : (Double.round (s + a) - a == s)%Q)
    by (rewrite (round_exact _ Ra); ring).
  rewrite (round_comp _ _ E).
  rewrite Double_max_nonneg; rewrite (round_exact _ Rs);
    [reflexivity|exact Hs].
Qed.

(** The maps after a transaction is tracked and untracked again. *)
Lemma track_untrack_budget (x : Transaction) (bm : HashMap.t Budget)
  (em : HashMap.t Q) :
  maps_ok bm em ->
  budget_after_add_undo (type x) (amount x)
    (HashMap.search (category x) bm)
    (HashMap.search (category x)
       (track_budgets x false (track_budgets x true bm em)
          (track_expenses x true em))).
Proof.
  intros (Okb & Oke & Hm & Hn).
  rewrite (search_track_budgets x false _ _ _ (track_budgets_ok x true bm em Okb)).
  rewrite (search_track_budgets x true _ _ _ Okb).
  rewrite str_eq_refl, andb_true_r. unfold budget_after_add_undo.
  destruct (HashMap.search (category x) bm) as [b|] eqn:S.
  - destruct (str_eq (type x) "expense") eqn:Et.
    + cbn [option_map with_spent budget_category limit spent].
      split; [reflexivity|]. split; [reflexivity|].
      unfold tracked_total at 1.
      rewrite (current_total_track x true em (category x) Oke).
      rewrite Et, str_eq_refl. cbn [andb]. unfold tracked_total.
      unfold Double.add.
      rewrite (round_comp (spent b + amount x)
                 (current_total (category x) em + amount x))
        by (rewrite (Hm _ _ S); reflexivity).
      reflexivity.
    + repeat split; reflexivity.
  - destruct (str_eq (type x) "expense"); exact I.
Qed.

(** C2, amended.  On an engine in its consistent state, [addTransaction]
    with a fresh generated id followed at once by [undo] succeeds and
    restores [getAllTransactions] and [getTotalBalance]; [canUndo]
    answers as before the add and the log holds none of the two records
    pushed meanwhile: it is the log from before the add, less its oldest
    entry when it was full.  The budget of the category keeps its
    category and limit; for an expense its [spent] is the old [spent]
    with the amount added and subtracted again, each result rounded to a
    [double] and the difference clamped at 0.  That is the old [spent]
    when the sum of the two is a [double], and can differ from it
    otherwise. *)
Theorem add_then_undo_restores (now : Z) (ty : string) (amt : Q)
  (cat desc dt : string) (e : FinanceEngine) :
  engine_consistent e ->
  BST.findById (fst (Engine.generateId now e)) (transactionBST e) = None ->
  exists x e1 e2,
    Engine.addTransaction now ty amt cat desc dt e = Some (x, e1) /\
    Engine.undo e1 = Some (true, e2) /\
    Engine.getAllTransactions e2 = Engine.getAllTransactions e /\
    Engine.getTotalBalance e2 = Engine.getTotalBalance e /\
    budget_after_add_undo ty amt (Engine.getBudget cat e)
      (Engine.getBudget cat e2) /\
    ((forall b, ty = "expense" -> Engine.getBudget cat e = Some b ->
                representable (spent b) /\ representable (spent b + amt)) ->
     same_budget (Engine.getBudget cat e2) (Engine.getBudget cat e)) /\
    Engine.canUndo e2 = Engine.canUndo e /\
    UndoStack.nodes (undoStack e2) =
      (if UndoStack.count (undoStack e) <? UndoStack.maxSize (undoStack e)
       then UndoStack.nodes (undoStack e)
       else removelast (UndoStack.nodes (undoStack e))).
Proof.
  intros (Hmaps & Hstack & Hcap) Hfresh.
  set (i := fst (Engine.generateId now e)) in *.
  set (x := mkTransaction i ty amt cat desc dt).
  set (ea := Engine.set_transactionList (snd (Engine.generateId now e))
               (DoublyLinkedList.addFront x
                  (transactionList (snd (Engine.generateId now e))))).
  set (eb := Engine.indexTransaction x ea).
  set (A := mkAction ADD_TRANSACTION (Engine.transactionRecord x)).
  assert (Ueb : undoStack eb = undoStack e)
    by (unfold eb; rewrite indexTransaction_undoStack; reflexivity).
  destruct (push_then_pop_back A (undoStack e) Hstack Hcap)
    as (s1 & s1' & P1 & Pop1 & Ok1' & Lt1' & Emp & Nodes & _).
  assert (Hadd : Engine.addTransaction now ty amt cat desc dt e
                 = Some (x, Engine.set_undoStack eb s1)).
  { unfold Engine.addTransaction.
    change (Engine.generateId now e)
      with (i, snd (Engine.generateId now e)).
    cbv beta iota zeta. fold x. fold ea. fold eb. fold A.
    unfold Engine.pushUndo, bind. rewrite Ueb, P1. reflexivity. }
  set (e1 := Engine.set_undoStack eb s1) in *.
  set (e1' := Engine.set_undoStack e1 s1').
  assert (Hfind : BST.findById i (transactionBST e1') = Some x).
  { unfold e1', e1, eb.
    cbn [transactionBST Engine.set_undoStack].
    rewrite indexTransaction_bst. unfold ea.
    cbn [transactionBST Engine.set_transactionList Engine.generateId snd
         Engine.set_txnCounter].
    unfold BST.findById, BST.insert.
    apply (findHelper_insert_fresh (transactionBST e) x). exact Hfresh. }
  set (D := mkAction DELETE_TRANSACTION (Engine.transactionRecord x)).
  assert (Ok1'' : undo_stack_ok (undoStack e1')) by exact Ok1'.
  destruct (push_pop D (undoStack e1') Ok1'' Lt1') as (s2 & P2 & Pop2).
  pose proof (deleteTransaction_found i e1' x s2 Hfind P2) as Hdel.
  set (ed := Engine.updateExpenseTracking x false
               (Engine.set_transactionBST
                  (Engine.set_transactionList (Engine.set_undoStack e1' s2)
                     (snd (DoublyLinkedList.deleteById i
                             (transactionList e1'))))
                  (snd (BST.deleteById i (transactionBST e1'))))) in *.
  assert (Hundo : Engine.undo e1
                  = Some (true, Engine.set_undoStack ed s1')).
  { rewrite (undo_add_record i e1 A s1').
    - fold e1'. rewrite Hdel.
      assert (Ued : undoStack ed = s2)
        by (unfold ed; rewrite updateExpenseTracking_undoStack; reflexivity).
      rewrite Ued, Pop2. reflexivity.
    - exact Pop1.
    - reflexivity.
    - apply (record_first_field x). apply generateId_lacks_bar. }
  exists x, e1, (Engine.set_undoStack ed s1').
  split; [exact Hadd|]. split; [exact Hundo|].
  assert (Hlist : transactionList (Engine.set_undoStack ed s1')
                  = transactionList e).
  { cbn [transactionList Engine.set_undoStack]. unfold ed.
    rewrite updateExpenseTracking_list.
    cbn [transactionList Engine.set_transactionBST
         Engine.set_transactionList].
    unfold e1', e1, eb. cbn [transactionList Engine.set_undoStack].
    rewrite indexTransaction_list. unfold ea.
    cbn [transactionList Engine.set_transactionList].
    apply (deleteById_front x). }
  split; [exact Hlist|].
  split; [unfold Engine.getTotalBalance; rewrite Hlist; reflexivity|].
  assert (Hbud : budget_after_add_undo ty amt (Engine.getBudget cat e)
                   (Engine.getBudget cat (Engine.set_undoStack ed s1'))).
  { unfold Engine.getBudget.
    cbn [budgetMap Engine.set_undoStack]. unfold ed.
    rewrite updateExpenseTracking_budgetMap.
    cbn [budgetMap expenseMap Engine.set_transactionBST
         Engine.set_transactionList Engine.set_undoStack].
    unfold e1', e1, eb. cbn [budgetMap expenseMap Engine.set_undoStack].
    rewrite indexTransaction_budgetMap, indexTransaction_expenseMap.
    apply (track_untrack_budget x). exact Hmaps. }
  split; [exact Hbud|]. split; [|split].
  - intro Hex. unfold budget_after_add_undo in Hbud.
    destruct Hmaps as (_ & _ & Hm & Hn).
    unfold Engine.getBudget in *.
    destruct (HashMap.search cat (budgetMap e)) as [b|] eqn:Sb;
      destruct (HashMap.search cat
                  (budgetMap (Engine.set_undoStack ed s1'))) as [b'|];
      try exact Hbud.
    destruct Hbud as (Hc & Hl & Hsp).
    split; [exact Hc|]. split; [exact Hl|]. rewrite Hsp.
    destruct (str_eq ty "expense") eqn:Et; [|reflexivity].
    apply str_eq_iff in Et.
    destruct (Hex b Et eq_refl) as [Rs Ra].
    apply add_sub_exact; try assumption.
    rewrite (Hm _ _ Sb). apply current_total_nonneg. exact Hn.
  - unfold Engine.canUndo. cbn [undoStack Engine.set_undoStack].
    rewrite Emp. reflexivity.
  - cbn [undoStack Engine.set_undoStack]. exact Nodes.
Qed.

(** The consistent state is set up by the constructor and kept by the
    mutating calls. *)

Lemma maps_ok_new : maps_ok (@HashMap.new Budget) (@HashMap.new Q).
Proof.
  split; [apply hashmap_ok_new|]. split; [apply hashmap_ok_new|].
  split.
  - intros c b H. unfold HashMap.search in H. rewrite slot_new in H.
    discriminate.
  - intros c v H. unfold HashMap.search in H. rewrite slot_new in H.
    discriminate.
Qed.

Lemma engine_consistent_new : engine_consistent Engine.new.
Proof.
  split; [exact maps_ok_new|]. split.
  - split; simpl; lia.
  - simpl. lia.
Qed.

Lemma engine_consistent_frame (e e' : FinanceEngine) :
  budgetMap e' = budgetMap e -> expenseMap e' = expenseMap e ->
  undoStack e' = undoStack e ->
  engine_consistent e -> engine_consistent e'.
Proof.
  unfold engine_consistent. intros -> -> ->. auto.
Qed.

Lemma pushUndo_consistent (a : Action) (e : FinanceEngine) :
  engine_consistent e ->
  exists s, Engine.pushUndo a e = Some (Engine.set_undoStack e s) /\
            engine_consistent (Engine.set_undoStack e s).
Proof.
  intros (Hm & Hs & Hc).
  destruct (push_within_bound a (undoStack e) Hc Hs) as (s & P & Ok & M & _).
  exists s. split.
  - unfold Engine.pushUndo, bind. rewrite P. reflexivity.
  - split; [exact Hm|]. split; [exact Ok|].
    cbn [undoStack Engine.set_undoStack]. rewrite M. exact Hc.
Qed.

Lemma engine_consistent_tracked (x : Transaction) (isAdd : bool)
  (e e' : FinanceEngine) :
  budgetMap e' = track_budgets x isAdd (budgetMap e) (expenseMap e) ->
  expenseMap e' = track_expenses x isAdd (expenseMap e) ->
  undoStack e' = undoStack e ->
  (isAdd = true -> (0 <= amount x)%Q) ->
  engine_consistent e -> engine_consistent e'.
Proof.
  intros Hb He Hu Hamt (Hm & Hs & Hc). unfold engine_consistent.
  rewrite Hb, He, Hu. split; [|auto].
  apply maps_ok_track; assumption.
Qed.

Lemma addTransaction_consistent (now : Z) (ty : string) (amt : Q)
  (cat desc dt : string) (e : FinanceEngine) :
  engine_consistent e -> (0 <= amt)%Q ->
  exists x e',
    Engine.addTransaction now ty amt cat desc dt e = Some (x, e') /\
    engine_consistent e'.
Proof.
  intros Hc Hamt. unfold Engine.addTransaction.
  destruct (Engine.generateId now e) as [i e0] eqn:G.
  assert (He0 : e0 = Engine.set_txnCounter e (txnCounter e + 1))
    by (unfold Engine.generateId in G; inversion G; reflexivity).
  cbv zeta.
  set (x := mkTransaction i ty amt cat desc dt).
  set (eb := Engine.indexTransaction x _).
  assert (Cb : engine_consistent eb).
  { apply (engine_consistent_tracked x true e eb).
    - unfold eb. rewrite indexTransaction_budgetMap. subst e0. reflexivity.
    - unfold eb. rewrite indexTransaction_expenseMap. subst e0. reflexivity.
    - unfold eb. rewrite indexTransaction_undoStack. subst e0. reflexivity.
    - intros _. exact Hamt.
    - exact Hc. }
  destruct (pushUndo_consistent
              (mkAction ADD_TRANSACTION (Engine.transactionRecord x)) eb Cb)
    as (s & P & Cs).
  rewrite P. simpl. eauto.
Qed.

Lemma loadTransaction_consistent (i ty : string) (amt : Q)
  (cat desc dt : string) (e : FinanceEngine) :
  engine_consistent e -> (0 <= amt)%Q ->
  engine_consistent (Engine.loadTransaction i ty amt cat desc dt e).
Proof.
  intros Hc Hamt. unfold Engine.loadTransaction. cbv zeta.
  apply (engine_consistent_tracked
           (mkTransaction i ty amt cat desc dt) true e).
  - rewrite indexTransaction_budgetMap. reflexivity.
  - rewrite indexTransaction_expenseMap. reflexivity.
  - rewrite indexTransaction_undoStack. reflexivity.
  - intros _. exact Hamt.
  - exact Hc.
Qed.

Lemma deleteTransaction_consistent (i : string) (e : FinanceEngine) :
  engine_consistent e ->
  exists r e', Engine.deleteTransaction i e = Some (r, e') /\
               engine_consistent e'.
Proof.
  intro Hc. unfold Engine.deleteTransaction.
  destruct (BST.findById i (transactionBST e)) as [x|]; [|eauto].
  destruct (pushUndo_consistent
              (mkAction DELETE_TRANSACTION (Engine.transactionRecord x)) e Hc)
    as (s & P & Cs).
  rewrite P. simpl. eexists. eexists. split; [reflexivity|].
  apply (engine_consistent_tracked x false (Engine.set_undoStack e s)).
  - rewrite updateExpenseTracking_budgetMap. reflexivity.
  - rewrite updateExpenseTracking_expenseMap. reflexivity.
  - rewrite updateExpenseTracking_undoStack. reflexivity.
  - discriminate.
  - exact Cs.
Qed.

Lemma maps_ok_new_budget (bm : HashMap.t Budget) (em : HashMap.t Q)
  (cat : string) (lim : Q) :
  maps_ok bm em ->
  maps_ok (HashMap.insert cat (mkBudget cat lim (current_total cat em)) bm)
          em.
Proof.
  intros (Okb & Oke & Hm & Hn).
  split; [apply hashmap_ok_insert; exact Okb|]. split; [exact Oke|].
  split; [|exact Hn].
  intros c b Hs. rewrite (search_insert bm cat c _ Okb) in Hs.
  destruct (str_eq cat c) eqn:E.
  - apply str_eq_iff in E. subst c. inversion Hs. simpl. reflexivity.
  - apply Hm. exact Hs.
Qed.

Lemma maps_ok_new_limit (bm : HashMap.t Budget) (em : HashMap.t Q)
  (cat : string) (lim : Q) (b : Budget) :
  maps_ok bm em -> HashMap.search cat bm = Some b ->
  maps_ok (snd (HashMap.update cat (with_limit b lim) bm)) em.
Proof.
  intros (Okb & Oke & Hm & Hn) Hb.
  destruct (update_present bm cat (with_limit b lim) b Okb Hb)
    as (_ & Ok' & Hs).
  split; [exact Ok'|]. split; [exact Oke|]. split; [|exact Hn].
  intros c b' Hc. rewrite Hs in Hc.
  destruct (str_eq cat c) eqn:E.
  - apply str_eq_iff in E. subst c. inversion Hc. simpl.
    apply (Hm cat b Hb).
  - apply Hm. exact Hc.
Qed.

Lemma setBudget_consistent (cat : string) (lim : Q) (e : FinanceEngine) :
  engine_consistent e ->
  exists e', Engine.setBudget cat lim e = Some e' /\ engine_consistent e'.
Proof.
  intro Hc. unfold Engine.setBudget.
  fold (current_total cat (expenseMap e)). cbv zeta.
  destruct (HashMap.search cat (budgetMap e)) as [b|] eqn:S.
  - destruct (pushUndo_consistent
                (mkAction UPDATE_BUDGET
                   (cat ++ "|" ++ Stream.put_double (limit b))%string) e Hc)
      as (s & P & (Hm & Hs & Hcap)).
    rewrite P. simpl. eexists. split; [reflexivity|].
    split; [|split; assumption].
    apply maps_ok_new_limit; assumption.
  - destruct (pushUndo_consistent
                (mkAction ADD_BUDGET
                   (cat ++ "|" ++ Stream.put_double lim)%string) e Hc)
      as (s & P & (Hm & Hs & Hcap)).
    rewrite P. simpl. eexists. split; [reflexivity|].
    split; [|split; assumption].
    apply maps_ok_new_budget. exact Hm.
Qed.

Lemma loadBudget_consistent (cat : string) (lim : Q) (e : FinanceEngine) :
  engine_consistent e -> engine_consistent (Engine.loadBudget cat lim e).
Proof.
  intros (Hm & Hs & Hcap). unfold Engine.loadBudget.
  fold (current_total cat (expenseMap e)). cbv zeta.
  split; [|split; assumption].
  apply maps_ok_new_budget. exact Hm.
Qed.

Lemma clearAll_consistent (e : FinanceEngine) :
  engine_consistent e -> engine_consistent (Engine.clearAll e).
Proof.
  intros (Hm & Hs & Hcap). split; [exact Hm|]. split.
  - split; simpl; lia.
  - exact Hcap.
Qed.

Lemma engine_food_80_consistent : engine_consistent engine_food_80.
Proof.
  unfold engine_food_80.
  destruct (setBudget_consistent "Food" 100 Engine.new engine_consistent_new)
    as (e1 & H1 & C1).
  rewrite H1.
  destruct (addTransaction_consistent 1700000000 "expense" 80 "Food" ""
              "2024-02-01" e1 C1) as (x & e2 & H2 & C2).
  - lra.
  - rewrite H2. exact C2.
Qed.

Lemma engine_food_tenth_consistent : engine_consistent engine_food_tenth.
Proof.
  unfold engine_food_tenth.
  destruct (setBudget_consistent "Food" 100 Engine.new engine_consistent_new)
    as (e1 & H1 & C1).
  rewrite H1.
  destruct (addTransaction_consistent 1700000000 "expense"
              (Double.round (1 # 10)) "Food" "" "2024-02-01" e1 C1)
    as (x & e2 & H2 & C2).
  - vm_compute. discriminate.
  - rewrite H2. exact C2.
Qed.

Lemma add_then_undo_restores_witness :
  exists x e1 e2,
    Engine.addTransaction 1700000000 "expense" 50 "Food" "Lunch"
      "2024-02-02" engine_food_80 = Some (x, e1) /\
    Engine.undo e1 = Some (true, e2) /\
    Engine.getAllTransactions e2 = Engine.getAllTransactions engine_food_80 /\
    Engine.getTotalBalance e2 = Engine.getTotalBalance engine_food_80 /\
    budget_after_add_undo "expense" 50 (Engine.getBudget "Food" engine_food_80)
      (Engine.getBudget "Food" e2) /\
    same_budget (Engine.getBudget "Food" e2)
                (Engine.getBudget "Food" engine_food_80) /\
    Engine.canUndo e2 = Engine.canUndo engine_food_80 /\
    UndoStack.nodes (undoStack e2) =
      (if UndoStack.count (undoStack engine_food_80)
          <? UndoStack.maxSize (undoStack engine_food_80)
       then UndoStack.nodes (undoStack engine_food_80)
       else removelast (UndoStack.nodes (undoStack engine_food_80))).
Proof.
  assert (F : BST.findById (fst (Engine.generateId 1700000000 engine_food_80))
                (transactionBST engine_food_80) = None)
    by (vm_compute; reflexivity).
  destruct (add_then_undo_restores 1700000000 "expense" 50 "Food" "Lunch"
              "2024-02-02" engine_food_80 engine_food_80_consistent F)
    as (x & e1 & e2 & A & U & L & B & Bu & Same & Cu & N).
  exists x, e1, e2.
  split; [exact A|]. split; [exact U|]. split; [exact L|].
  split; [exact B|]. split; [exact Bu|].
  split; [|split; [exact Cu|exact N]].
  apply Same. intros b _ Hb.
  assert (G : Engine.getBudget "Food" engine_food_80
              = Some (mkBudget "Food" 100 80)) by (vm_compute; reflexivity).
  rewrite G in Hb. injection Hb as Hb. subst b. cbn [spent].
  split.
  - exists 80, 0. split; [vm_compute; reflexivity|].
    split; [lia|vm_compute; reflexivity].
  - exists 130, 0. split; [vm_compute; reflexivity|].
    split; [lia|vm_compute; reflexivity].
Defined.

(** C2 as the claim words it fails on doubles.  The engine with a budget
    for Food and 0.1 spent is in its consistent state and the next
    generated id is fresh, yet adding an expense of 0.2 and undoing it
    leaves 0.10000000000000003 spent: [(0.1 + 0.2) - 0.2] is not [0.1]
    in [double] arithmetic. *)
Lemma add_then_undo_spent_counterexample :
  engine_consistent engine_food_tenth /\
  BST.findById (fst (Engine.generateId 1700000001 engine_food_tenth))
    (transactionBST engine_food_tenth) = None /\
  exists x e1 e2,
    Engine.addTransaction 1700000001 "expense" (Double.round (2 # 10))
      "Food" "Tea" "2024-02-02" engine_food_tenth = Some (x, e1) /\
    Engine.undo e1 = Some (true, e2) /\
    Engine.getBudget "Food" engine_food_tenth
      = Some (mkBudget "Food" 100 (3602879701896397 # 36028797018963968)) /\
    Engine.getBudget "Food" e2
      = Some (mkBudget "Food" 100 (1801439850948199 # 18014398509481984)) /\
    ~ same_budget (Engine.getBudget "Food" e2)
                  (Engine.getBudget "Food" engine_food_tenth).
Proof.
  split; [exact engine_food_tenth_consistent|].
  split; [vm_compute; reflexivity|].
  eexists. eexists. eexists.
  split; [vm_compute; reflexivity|].
  split; [vm_compute; reflexivity|].
  split; [vm_compute; reflexivity|].
  split; [vm_compute; reflexivity|].
  vm_compute. intros (_ & _ & H). discriminate H.
Qed.

(** Scenario 6: one add on a fresh engine, then undo. *)
Example add_undo_on_fresh_engine :
  match Engine.addTransaction 1700000000 "expense" 50 "Food" "Lunch"
          "2024-01-10" Engine.new with
  | Some (_, e1) =>
      match Engine.undo e1 with
      | Some (r, e2) =>
          r = true /\ Engine.getAllTransactions e2 = [] /\
          Engine.canUndo e2 = false
      | None => False
      end
  | None => False
  end.
Proof. vm_compute. repeat split. Qed.

(* ------------------------------------------------------------------ *)
(** ** Budget sync *)

Lemma ledger_total_app (c : string) (a b : list Transaction) :
  (ledger_total c (a ++ b) == ledger_total c a + ledger_total c b)%Q.
Proof.
  induction a as [|x a IH]; simpl.
  - lra.
  - destruct (counts_for c x); rewrite IH; lra.
Qed.

Lemma ledger_total_Permutation (c : string) (l l' : list Transaction) :
  Permutation l l' -> (ledger_total c l == ledger_total c l')%Q.
Proof.
  induction 1 as [|x l l' P IH|x y l|l l' l'' P1 IH1 P2 IH2]; simpl.
  - reflexivity.
  - destruct (counts_for c x); rewrite IH; reflexivity.
  - destruct (counts_for c x); destruct (counts_for c y); lra.
  - rewrite IH1. exact IH2.
Qed.

Lemma ledger_total_nonneg (c : string) (l : list Transaction) :
  Forall (fun x => (0 <= amount x)%Q) l -> (0 <= ledger_total c l)%Q.
Proof.
  induction 1 as [|x l Hx Hl IH]; simpl.
  - lra.
  - destruct (counts_for c x); lra.
Qed.

Lemma ledger_total_others (c : string) (l : list Transaction) (i : string) :
  Forall (fun x => id x <> i) l ->
  ledger_total c (filter (other_ids i) l) = ledger_total c l.
Proof.
  intro H. rewrite filter_other_ids_none by exact H. reflexivity.
Qed.

(** With unique ids, the total splits into the transaction of one id and
    the rest. *)
Lemma ledger_total_split (c : string) (l : list Transaction)
  (x : Transaction) :
  NoDup (map id l) -> In x l ->
  (ledger_total c l
   == (if counts_for c x then amount x else 0)
      + ledger_total c (filter (other_ids (id x)) l))%Q.
Proof.
  intros ND Hin. apply in_split in Hin. destruct Hin as (a & b & ->).
  assert (Fa : Forall (fun y => id y <> id x) a).
  { apply (ids_disjoint_l a (x :: b) x ND). simpl. auto. }
  assert (Fb : Forall (fun y => id y <> id x) b).
  { rewrite map_app in ND. apply NoDup_app_remove_l in ND.
    apply (ids_disjoint_r [x] b x ND). simpl. auto. }
  rewrite filter_app. simpl filter. unfold other_ids at 2.
  rewrite str_eq_refl. simpl negb. cbv iota.
  rewrite !ledger_total_app.
  rewrite (filter_other_ids_none _ a Fa), (filter_other_ids_none _ b Fb).
  simpl. destruct (counts_for c x); lra.
Qed.

(** Sums of amounts that add up without rounding. *)

Lemma sum_amounts_app (a b : list Transaction) :
  (sum_amounts (a ++ b) == sum_amounts a + sum_amounts b)%Q.
Proof. induction a as [|x a IH]; simpl; [lra|rewrite IH; lra]. Qed.

Lemma sum_amounts_nonneg (l : list Transaction) :
  Forall (fun x => (0 <= amount x)%Q) l -> (0 <= sum_amounts l)%Q.
Proof. induction 1 as [|x l Hx Hl IH]; simpl; lra. Qed.

Lemma sum_amounts_filter_le (f : Transaction -> bool)
  (l : list Transaction) :
  Forall (fun x => (0 <= amount x)%Q) l ->
  (0 <= sum_amounts (filter f l) <= sum_amounts l)%Q.
Proof.
  induction 1 as [|x l Hx Hl IH]; simpl; [lra|].
  destruct (f x); simpl; lra.
Qed.

Lemma sum_amounts_grid (k : Z) (l : list Transaction) :
  Forall (fun x => on_grid k (amount x)) l -> on_grid k (sum_amounts l).
Proof.
  induction 1 as [|x l Hx Hl IH]; simpl;
    [apply on_grid_zero|apply on_grid_add; assumption].
Qed.

Lemma exact_amounts_nonneg (k : Z) (l : list Transaction) :
  exact_amounts k l -> Forall (fun x => (0 <= amount x)%Q) l.
Proof.
  intros (_ & F & _). apply (Forall_impl _ (P := fun x =>
    (0 <= amount x)%Q /\ on_grid k (amount x))); [tauto|exact F].
Qed.

Lemma exact_amounts_grid (k : Z) (l : list Transaction) :
  exact_amounts k l -> Forall (fun x => on_grid k (amount x)) l.
Proof.
  intros (_ & F & _). apply (Forall_impl _ (P := fun x =>
    (0 <= amount x)%Q /\ on_grid k (amount x))); [tauto|exact F].
Qed.

Lemma exact_amounts_nil (k : Z) : - 1074 <= k -> exact_amounts k [].
Proof.
  intro H. split; [exact H|]. split; [constructor|]. apply pow2_pos.
Qed.

Lemma exact_amounts_filter (k : Z) (f : Transaction -> bool)
  (l : list Transaction) :
  exact_amounts k l -> exact_amounts k (filter f l).
Proof.
  intro E. pose proof (exact_amounts_nonneg k l E) as Pos.
  destruct E as (Hk & F & B). split; [exact Hk|]. split.
  - apply Forall_forall. intros x Hx. apply filter_In in Hx.
    rewrite Forall_forall in F. apply F. tauto.
  - pose proof (sum_amounts_filter_le f l Pos). lra.
Qed.

Lemma exact_amounts_app (k : Z) (a b : list Transaction) :
  exact_amounts k (a ++ b) -> exact_amounts k a /\ exact_amounts k b.
Proof.
  intro E. pose proof (exact_amounts_nonneg k _ E) as Pos.
  destruct E as (Hk & F & B). apply Forall_app in F. destruct F as [Fa Fb].
  apply Forall_app in Pos. destruct Pos as [Pa Pb].
  rewrite sum_amounts_app in B.
  pose proof (sum_amounts_nonneg a Pa). pose proof (sum_amounts_nonneg b Pb).
  split; (split; [exact Hk|split; [assumption|lra]]).
Qed.

Lemma exact_amounts_last (log : list Transaction) (x : Transaction) :
  (exists k, exact_amounts k (log ++ [x])) -> (0 <= amount x)%Q.
Proof.
  intros [k E]. pose proof (exact_amounts_nonneg k _ E) as F.
  apply Forall_app in F. destruct F as [_ F].
  inversion F; assumption.
Qed.

(** A number made of amounts of [l], each taken at most once, added or
    subtracted, is a [double]. *)
Lemma round_within (k : Z) (l : list Transaction) (q : Q) :
  exact_amounts k l -> on_grid k q -> (Qabs q <= sum_amounts l)%Q ->
  (Double.round q == q)%Q.
Proof.
  intros (Hk & _ & B) G L. apply (round_on_grid k); [exact Hk|exact G|].
  apply (Qle_lt_trans _ (sum_amounts l)); assumption.
Qed.

Lemma ledger_total_le_sum (c : string) (l : list Transaction) :
  Forall (fun x => (0 <= amount x)%Q) l ->
  (0 <= ledger_total c l <= sum_amounts l)%Q.
Proof.
  induction 1 as [|x l Hx Hl IH]; simpl; [lra|].
  destruct (counts_for c x); lra.
Qed.

Lemma ledger_total_grid (k : Z) (c : string) (l : list Transaction) :
  Forall (fun x => on_grid k (amount x)) l -> on_grid k (ledger_total c l).
Proof.
  induction 1 as [|x l Hx Hl IH]; simpl; [apply on_grid_zero|].
  destruct (counts_for c x); [apply on_grid_add; assumption|exact IH].
Qed.

Lemma ledger_total_round (k : Z) (c : string) (l : list Transaction) :
  exact_amounts k l ->
  (Double.round (ledger_total c l) == ledger_total c l)%Q.
Proof.
  intro E. apply (round_within k l); [exact E| |].
  - apply ledger_total_grid. apply (exact_amounts_grid k). exact E.
  - pose proof (ledger_total_le_sum c l (exact_amounts_nonneg k l E)) as B.
    rewrite Qabs_pos; lra.
Qed.

(** From the synced state, C1's predicate. *)
Lemma synced_budget_sync (e : FinanceEngine) (log : list Transaction) :
  engine_synced e log -> budget_sync e.
Proof.
  intros (((Okb & Oke & Hm & Hn) & _) & (_ & _ & P) & _ & Hpos & _ & Htot)
    c b Hb.
  unfold Engine.getBudget in Hb.
  unfold Engine.getAllTransactions, DoublyLinkedList.traverseForward.
  pose proof (ledger_total_Permutation c _ _ P) as E1.
  pose proof (ledger_total_nonneg c log Hpos) as E2.
  pose proof (Hm c b Hb) as E3. pose proof (Htot c) as E4.
  assert (E5 : (0 <= ledger_total c (transactionList e))%Q) by lra.
  pose proof (Double_max_nonneg _ E5) as E6. lra.
Qed.

Lemma engine_synced_new : engine_synced Engine.new [].
Proof.
  split; [exact engine_consistent_new|].
  split; [exact engine_indexed_new|].
  split; [constructor|]. split; [constructor|].
  split; [exists 0; apply exact_amounts_nil; lia|].
  intro c. unfold current_total, HashMap.search. simpl expenseMap.
  rewrite slot_new. reflexivity.
Qed.

Lemma engine_synced_frame (e e' : FinanceEngine) (log : list Transaction) :
  engine_consistent e' ->
  transactionList e' = transactionList e ->
  transactionBST e' = transactionBST e ->
  expenseMap e' = expenseMap e ->
  engine_synced e log -> engine_synced e' log.
Proof.
  intros C L B M (_ & I & ND & Pos & Ex & Tot).
  unfold engine_synced, engine_indexed. rewrite L, B, M.
  repeat (split; [assumption|]). exact Tot.
Qed.

Lemma engine_synced_inserted (e e' : FinanceEngine)
  (log : list Transaction) (x : Transaction) :
  engine_synced e log ->
  engine_consistent e' -> engine_indexed e' (log ++ [x]) ->
  expenseMap e' = track_expenses x true (expenseMap e) ->
  ~ In (id x) (map id log) -> (exists k, exact_amounts k (log ++ [x])) ->
  engine_synced e' (log ++ [x]).
Proof.
  intros (((_ & Oke & _) & _) & _ & ND & Pos & _ & Tot) C I M Fresh [k Ex].
  split; [exact C|]. split; [exact I|]. split; [|split; [|split]].
  - apply (Permutation_NoDup (l := map id (x :: log))).
    + rewrite map_app. simpl. apply Permutation_cons_append.
    + simpl. constructor; assumption.
  - apply (exact_amounts_nonneg k). exact Ex.
  - exists k. exact Ex.
  - intro c. rewrite M, (current_total_track x true _ c Oke).
    pose proof (ledger_total_app c log [x]) as A. simpl in A.
    pose proof (Tot c) as Tc.
    unfold counts_for in A.
    destruct (str_eq (type x) "expense" && str_eq (category x) c) eqn:E.
    + apply andb_true_iff in E. destruct E as [_ Ec].
      apply str_eq_iff in Ec. unfold tracked_total, Double.add. rewrite Ec.
      rewrite (round_comp _ (ledger_total c (log ++ [x]))) by lra.
      apply (ledger_total_round k). exact Ex.
    + lra.
Qed.

Lemma engine_synced_removed (e e' : FinanceEngine)
  (log : list Transaction) (x : Transaction) :
  engine_synced e log ->
  engine_consistent e' ->
  engine_indexed e' (filter (other_ids (id x)) log) ->
  expenseMap e' = track_expenses x false (expenseMap e) ->
  In x log ->
  engine_synced e' (filter (other_ids (id x)) log).
Proof.
  intros (((_ & Oke & _) & _) & _ & ND & Pos & [k Ex] & Tot) C I M Hin.
  split; [exact C|]. split; [exact I|]. split; [|split; [|split]].
  - assert (E : map id (filter (other_ids (id x)) log)
                = filter (fun j => negb (str_eq j (id x))) (map id log)).
    { clear. induction log as [|y l IH]; simpl; [reflexivity|].
      unfold other_ids at 1. destruct (negb (str_eq (id y) (id x)));
        simpl; rewrite IH; reflexivity. }
    rewrite E. apply NoDup_filter. exact ND.
  - apply Forall_forall. intros y Hy. apply filter_In in Hy.
    rewrite Forall_forall in Pos. apply Pos. tauto.
  - exists k. apply exact_amounts_filter. exact Ex.
  - intro c. rewrite M, (current_total_track x false _ c Oke).
    pose proof (ledger_total_split c log x ND Hin) as S.
    pose proof (Tot c) as Tc.
    assert (Hrest : (0 <= ledger_total c (filter (other_ids (id x)) log))%Q).
    { apply ledger_total_nonneg. apply Forall_forall. intros y Hy.
      apply filter_In in Hy. rewrite Forall_forall in Pos. apply Pos. tauto. }
    unfold counts_for in S.
    destruct (str_eq (type x) "expense" && str_eq (category x) c) eqn:E.
    + apply andb_true_iff in E. destruct E as [_ Ec].
      apply str_eq_iff in Ec. unfold tracked_total, Double.sub. rewrite Ec.
      assert (D : (current_total c (expenseMap e) - amount x
                   == ledger_total c (filter (other_ids (id x)) log))%Q)
        by lra.
      rewrite (round_comp _ _ D).
      pose proof (ledger_total_round k c _
                    (exact_amounts_filter k (other_ids (id x)) log Ex)) as R.
      rewrite Double_max_nonneg; lra.
    + lra.
Qed.

Lemma loadTransaction_synced (i ty : string) (amt : Q)
  (cat desc dt : string) (e : FinanceEngine) (log : list Transaction) :
  engine_synced e log -> ~ In i (map id log) ->
  (exists k, exact_amounts k (log ++ [mkTransaction i ty amt cat desc dt])) ->
  engine_synced (Engine.loadTransaction i ty amt cat desc dt e)
                (log ++ [mkTransaction i ty amt cat desc dt]).
Proof.
  intros S Fresh Ex. pose proof S as (C & I & _).
  pose proof (exact_amounts_last _ _ Ex) as Hamt. simpl in Hamt.
  apply (engine_synced_inserted e); auto.
  - apply loadTransaction_consistent; assumption.
  - apply loadTransaction_indexed. exact I.
  - unfold Engine.loadTransaction. cbv zeta.
    rewrite indexTransaction_expenseMap. reflexivity.
Qed.

Lemma addTransaction_synced (now : Z) (ty : string) (amt : Q)
  (cat desc dt : string) (e : FinanceEngine) (log : list Transaction) :
  engine_synced e log ->
  ~ In (fst (Engine.generateId now e)) (map id log) ->
  (exists k,
     exact_amounts k
       (log ++ [mkTransaction (fst (Engine.generateId now e)) ty amt cat
                  desc dt])) ->
  exists x e',
    Engine.addTransaction now ty amt cat desc dt e = Some (x, e') /\
    engine_synced e' (log ++ [x]).
Proof.
  intros S Fresh Ex. pose proof S as (C & I & _).
  pose proof (exact_amounts_last _ _ Ex) as Hamt. simpl in Hamt.
  destruct (addTransaction_consistent now ty amt cat desc dt e C Hamt)
    as (x & e' & A & C').
  exists x, e'. split; [exact A|].
  pose proof (addTransaction_indexed _ _ _ _ _ _ _ _ _ _ I A) as I'.
  unfold Engine.addTransaction, Engine.pushUndo, bind in A.
  change (Engine.generateId now e)
    with (fst (Engine.generateId now e), snd (Engine.generateId now e)) in A.
  cbv beta iota zeta in A.
  destruct (UndoStack.push _ _) as [s|]; [|discriminate].
  inversion A as [[Hx He']]. subst x e'. clear A.
  apply (engine_synced_inserted e); auto.
  cbn [expenseMap Engine.set_undoStack].
  rewrite indexTransaction_expenseMap. reflexivity.
Qed.

Lemma deleteTransaction_synced (i : string) (e : FinanceEngine)
  (log : list Transaction) :
  engine_synced e log ->
  exists r e',
    Engine.deleteTransaction i e = Some (r, e') /\
    engine_synced e' (filter (other_ids i) log).
Proof.
  intros S. pose proof S as (C & I & ND & _).
  destruct (deleteTransaction_consistent i e C) as (r & e' & D & C').
  exists r, e'. split; [exact D|].
  pose proof (deleteTransaction_indexed i e e' r log I ND D) as I'.
  unfold Engine.deleteTransaction in D.
  destruct (BST.findById i (transactionBST e)) as [x|] eqn:F.
  - unfold Engine.pushUndo, bind in D.
    destruct (UndoStack.push _ _) as [s|]; [|discriminate].
    inversion D as [[Hr He']]. subst r e'. clear D.
    destruct (findHelper_Some _ _ _ F) as [Hin Hid].
    destruct I as (_ & In & _). rewrite In in Hin.
    apply (Permutation_in _ (by_date_Permutation log)) in Hin.
    subst i. apply (engine_synced_removed e); auto.
    rewrite updateExpenseTracking_expenseMap. reflexivity.
  - inversion D; subst r e'.
    destruct I as (_ & In & _).
    apply findHelper_None in F. rewrite In in F.
    apply (Permutation_Forall (by_date_Permutation log)) in F.
    rewrite filter_other_ids_none by exact F. exact S.
Qed.

Lemma setBudget_synced (cat : string) (lim : Q) (e : FinanceEngine)
  (log : list Transaction) :
  engine_synced e log ->
  exists e', Engine.setBudget cat lim e = Some e' /\ engine_synced e' log.
Proof.
  intros S. pose proof S as (C & _).
  destruct (setBudget_consistent cat lim e C) as (e' & B & C').
  exists e'. split; [exact B|].
  unfold Engine.setBudget, Engine.pushUndo, bind in B.
  destruct (HashMap.search cat (budgetMap e));
    destruct (UndoStack.push _ _) as [s|]; try discriminate;
    inversion B; subst e';
    apply (engine_synced_frame e); auto.
Qed.

Lemma loadBudget_synced (cat : string) (lim : Q) (e : FinanceEngine)
  (log : list Transaction) :
  engine_synced e log -> engine_synced (Engine.loadBudget cat lim e) log.
Proof.
  intros S. pose proof S as (C & _).
  apply (engine_synced_frame e); auto.
  apply loadBudget_consistent. exact C.
Qed.

(** The transaction that [addTransaction] returns. *)
Lemma addTransaction_returns (now : Z) (ty : string) (amt : Q)
  (cat desc dt : string) (e e' : FinanceEngine) (x : Transaction) :
  Engine.addTransaction now ty amt cat desc dt e = Some (x, e') ->
  x = mkTransaction (fst (Engine.generateId now e)) ty amt cat desc dt.
Proof.
  unfold Engine.addTransaction, Engine.pushUndo, bind.
  change (Engine.generateId now e)
    with (fst (Engine.generateId now e), snd (Engine.generateId now e)).
  cbv beta iota zeta.
  destruct (UndoStack.push _ _) as [s|]; [|discriminate].
  intro H. inversion H. reflexivity.
Qed.

(** Whole amounts add up without rounding. *)
Ltac whole_amounts_at :=
  match goal with
  | |- exact_amounts ?k ?l =>
      let l' := eval vm_compute in l in change (exact_amounts k l')
  end;
  split; [lia|];
  split;
  [ repeat (apply Forall_cons;
            [split;
             [vm_compute; discriminate
             |match goal with
              | |- on_grid _ ?q => exists (Qnum q); vm_compute; reflexivity
              end]|]);
    apply Forall_nil
  | vm_compute; reflexivity ].

Ltac whole_amounts := exists 0; whole_amounts_at.

(** X1.  Budget sync holds on a synced engine, one whose ledger has
    unique ids and amounts that add up without rounding, and after
    [addTransaction], [loadTransaction], [deleteTransaction], [setBudget]
    and [loadBudget] on it, the new transaction having a fresh id and an
    amount that adds to the others without rounding. *)
Lemma budget_sync_kept (e : FinanceEngine) (log : list Transaction) :
  engine_synced e log ->
  budget_sync e /\
  (forall now ty amt cat desc dt,
     ~ In (fst (Engine.generateId now e)) (map id log) ->
     (exists k,
        exact_amounts k
          (log ++ [mkTransaction (fst (Engine.generateId now e)) ty amt cat
                     desc dt])) ->
     exists x e',
       Engine.addTransaction now ty amt cat desc dt e = Some (x, e') /\
       budget_sync e') /\
  (forall i ty amt cat desc dt,
     ~ In i (map id log) ->
     (exists k,
        exact_amounts k (log ++ [mkTransaction i ty amt cat desc dt])) ->
     budget_sync (Engine.loadTransaction i ty amt cat desc dt e)) /\
  (forall i, exists r e',
     Engine.deleteTransaction i e = Some (r, e') /\ budget_sync e') /\
  (forall cat lim, exists e',
     Engine.setBudget cat lim e = Some e' /\ budget_sync e') /\
  (forall cat lim, budget_sync (Engine.loadBudget cat lim e)).
Proof.
  intro S. split; [apply (synced_budget_sync e log S)|].
  split; [|split; [|split; [|split]]].
  - intros now ty amt cat desc dt F A.
    destruct (addTransaction_synced now ty amt cat desc dt e log S F A)
      as (x & e' & H & S').
    exists x, e'. split; [exact H|apply (synced_budget_sync _ _ S')].
  - intros i ty amt cat desc dt F A.
    apply (synced_budget_sync _ _
             (loadTransaction_synced i ty amt cat desc dt e log S F A)).
  - intro i. destruct (deleteTransaction_synced i e log S)
      as (r & e' & H & S').
    exists r, e'. split; [exact H|apply (synced_budget_sync _ _ S')].
  - intros cat lim. destruct (setBudget_synced cat lim e log S)
      as (e' & H & S').
    exists e'. split; [exact H|apply (synced_budget_sync _ _ S')].
  - intros cat lim.
    apply (synced_budget_sync _ _ (loadBudget_synced cat lim e log S)).
Qed.

(** The engine with a budget of 100 for Food and one Food expense of 80
    is synced with the ledger of that one expense. *)
Lemma engine_food_80_synced :
  engine_synced engine_food_80
    [mkTransaction "txn_1700000000_1" "expense" 80 "Food" "" "2024-02-01"].
Proof.
  destruct (setBudget_synced "Food" 100 Engine.new [] engine_synced_new)
    as (e1 & H1 & S1).
  destruct (addTransaction_synced 1700000000 "expense" 80 "Food" ""
              "2024-02-01" e1 [] S1) as (x & e2 & H2 & S2).
  - intros [].
  - whole_amounts.
  - assert (X : match Engine.setBudget "Food" 100 Engine.new with
                | Some e =>
                    match Engine.addTransaction 1700000000 "expense" 80
                            "Food" "" "2024-02-01" e with
                    | Some (y, _) => Some y
                    | None => None
                    end
                | None => None
                end
                = Some (mkTransaction "txn_1700000000_1" "expense" 80 "Food"
                          "" "2024-02-01"))
      by (vm_compute; reflexivity).
    rewrite H1, H2 in X. inversion X as [Hx]. clear X.
    unfold engine_food_80. rewrite H1, H2.
    rewrite Hx in S2. exact S2.
Qed.

Lemma budget_sync_kept_witness :
  budget_sync engine_food_80 /\
  (exists x e',
     Engine.addTransaction 1700000001 "expense" 50 "Food" "Lunch"
       "2024-02-02" engine_food_80 = Some (x, e') /\
     budget_sync e') /\
  (exists r e',
     Engine.deleteTransaction "txn_1700000000_1" engine_food_80
       = Some (r, e') /\
     budget_sync e').
Proof.
  pose proof (budget_sync_kept engine_food_80 _ engine_food_80_synced)
    as (H0 & Ha & _ & Hd & _).
  split; [exact H0|]. split; [|apply Hd].
  apply Ha.
  - vm_compute. intros [H|[]]. discriminate H.
  - whole_amounts.
Defined.

(** With amounts that do not add up without rounding budget sync need
    not hold: after expenses of 0.1 and 0.2 and the deletion of the
    first, the ledger holds the expense of 0.2 and the budget reports
    0.20000000000000004 spent. *)
Example budget_sync_rounds :
  map id (Engine.getAllTransactions engine_food_two_tenths) = ["b"] /\
  ledger_total "Food" (Engine.getAllTransactions engine_food_two_tenths)
    = (3602879701896397 # 18014398509481984)%Q /\
  Engine.getBudget "Food" engine_food_two_tenths
    = Some (mkBudget "Food" 100 (7205759403792795 # 36028797018963968)) /\
  ~ budget_sync engine_food_two_tenths.
Proof.
  split; [vm_compute; reflexivity|].
  split; [vm_compute; reflexivity|].
  split; [vm_compute; reflexivity|].
  intro H.
  specialize (H "Food"
                (mkBudget "Food" 100 (7205759403792795 # 36028797018963968))).
  assert (G : Engine.getBudget "Food" engine_food_two_tenths
              = Some (mkBudget "Food" 100
                        (7205759403792795 # 36028797018963968)))
    by (vm_compute; reflexivity).
  specialize (H G). clear G. vm_compute in H. discriminate H.
Qed.

Lemma pop_ok (s s' : UndoStack.t) (a : Action) :
  undo_stack_ok s -> UndoStack.pop s = Some (a, s') ->
  undo_stack_ok s' /\ UndoStack.maxSize s' = UndoStack.maxSize s.
Proof.
  intros [C B]. unfold UndoStack.pop.
  destruct (UndoStack.nodes s) as [|x rest] eqn:N; [discriminate|].
  intro H. inversion H; subst. simpl in C.
  unfold undo_stack_ok. simpl. repeat split; lia.
Qed.

Lemma engine_consistent_popped (e : FinanceEngine) (a : Action)
  (s : UndoStack.t) :
  engine_consistent e -> UndoStack.pop (undoStack e) = Some (a, s) ->
  engine_consistent (Engine.set_undoStack e s).
Proof.
  intros (Hm & Hs & Hc) P. destruct (pop_ok _ _ _ Hs P) as [Ok M].
  split; [exact Hm|]. split; [exact Ok|].
  cbn [undoStack Engine.set_undoStack]. rewrite M. exact Hc.
Qed.

Lemma engine_synced_popped (e : FinanceEngine) (log : list Transaction)
  (a : Action) (s : UndoStack.t) :
  engine_synced e log -> UndoStack.pop (undoStack e) = Some (a, s) ->
  engine_synced (Engine.set_undoStack e s) log.
Proof.
  intros S P. pose proof S as (C & _).
  apply (engine_synced_frame e); auto.
  apply (engine_consistent_popped e a s C P).
Qed.

Lemma maps_ok_removed (bm : HashMap.t Budget) (em : HashMap.t Q)
  (c : string) :
  maps_ok bm em -> maps_ok (snd (HashMap.remove c bm)) em.
Proof.
  intros (Okb & Oke & Hm & Hn).
  destruct (remove_spec bm c Okb) as [Ok' Hs].
  split; [exact Ok'|]. split; [exact Oke|]. split; [|exact Hn].
  intros c' b Hb. rewrite Hs in Hb.
  destruct (str_eq c c'); [discriminate|]. apply Hm. exact Hb.
Qed.

(** [undo] keeps the synced state, provided the transaction read back
    from a [DELETE_TRANSACTION] record has an id not in the ledger and an
    amount that adds to the others without rounding. *)
Lemma undo_synced (e : FinanceEngine) (log : list Transaction) :
  engine_synced e log ->
  (forall a s x,
     UndoStack.pop (undoStack e) = Some (a, s) ->
     action_type a = DELETE_TRANSACTION ->
     Engine.parseTransaction (action_data a) = Some x ->
     ~ In (id x) (map id log) /\ exists k, exact_amounts k (log ++ [x])) ->
  forall r e', Engine.undo e = Some (r, e') ->
  exists log', engine_synced e' log'.
Proof.
  intros S Hparse r e' U. unfold Engine.undo in U.
  destruct (UndoStack.pop (undoStack e)) as [[a s]|] eqn:P.
  2:{ inversion U; subst. exists log. exact S. }
  pose proof (engine_synced_popped e log a s S P) as S0.
  set (e0 := Engine.set_undoStack e s) in *.
  destruct (action_type a) eqn:T.
  - destruct (Stream.getline "|" (Stream.open (action_data a)))
      as [token st].
    destruct (deleteTransaction_synced token e0 log S0)
      as (r1 & e1 & D & S1).
    rewrite D in U. simpl in U.
    destruct (UndoStack.pop (undoStack e1)) as [[a1 s1]|] eqn:P1;
      inversion U; subst; eexists.
    + apply (engine_synced_popped _ _ _ _ S1 P1).
    + exact S1.
  - destruct (Engine.parseTransaction (action_data a)) as [x|] eqn:X;
      [|discriminate].
    simpl in U. inversion U; subst r e'. clear U.
    destruct (Hparse a s x eq_refl T X) as [Fresh Ex].
    pose proof (exact_amounts_last _ _ Ex) as Hamt.
    pose proof S0 as (C0 & I0 & _).
    exists (log ++ [x]). apply (engine_synced_inserted e0); auto.
    + apply (engine_consistent_tracked x true e0); auto.
      * rewrite updateExpenseTracking_budgetMap. reflexivity.
      * rewrite updateExpenseTracking_expenseMap. reflexivity.
      * rewrite updateExpenseTracking_undoStack. reflexivity.
    + unfold engine_indexed.
      rewrite updateExpenseTracking_list, updateExpenseTracking_bst.
      cbn [transactionList transactionBST Engine.set_transactionList
           Engine.set_transactionBST].
      apply date_index_ok_addFront. exact I0.
    + rewrite updateExpenseTracking_expenseMap. reflexivity.
  - destruct (Stream.getline "|" (Stream.open (action_data a)))
      as [token st].
    inversion U; subst r e'. clear U. exists log.
    pose proof S0 as ((Hm & Hs & Hc) & _).
    apply (engine_synced_frame e0); auto.
    split; [|split; assumption].
    apply maps_ok_removed. exact Hm.
  - destruct (Stream.getline "|" (Stream.open (action_data a)))
      as [cat ss].
    destruct (Stream.get_double ss) as [oldLimit st].
    pose proof S0 as ((Hm & Hs & Hc) & _).
    destruct (HashMap.search cat (budgetMap e0)) as [b|] eqn:B.
    + destruct oldLimit as [l|]; [|discriminate].
      simpl in U. inversion U; subst r e'. clear U. exists log.
      apply (engine_synced_frame e0); auto.
      split; [|split; assumption].
      apply maps_ok_new_limit; assumption.
    + inversion U; subst. exists log. exact S0.
  - inversion U; subst. exists log. exact S0.
  - inversion U; subst. exists log. exact S0.
  - inversion U; subst. exists log. exact S0.
Qed.

(** C1, where the code departs from it.  On the engine with a budget of
    100 for Food and one Food expense of 80, budget sync holds; after
    [clearAll] the ledger is empty and the budget still reports 80 spent,
    so budget sync no longer holds. *)
Theorem clearAll_breaks_budget_sync :
  budget_sync engine_food_80 /\
  Engine.getAllTransactions (Engine.clearAll engine_food_80) = [] /\
  Engine.getBudget "Food" (Engine.clearAll engine_food_80)
    = Some (mkBudget "Food" 100 80) /\
  ~ budget_sync (Engine.clearAll engine_food_80).
Proof.
  split; [|split; [reflexivity|split; [vm_compute; reflexivity|]]].
  - apply (synced_budget_sync _ _ engine_food_80_synced).
  - intro H.
    specialize (H "Food" (mkBudget "Food" 100 80)).
    assert (G : Engine.getBudget "Food" (Engine.clearAll engine_food_80)
                = Some (mkBudget "Food" 100 80))
      by (vm_compute; reflexivity).
    specialize (H G). clear G. vm_compute in H. discriminate H.
Qed.

(* ================================================================== *)
(** * Further properties

    Properties of the operations beside those above, container by
    container, then of the engine. *)

(* ------------------------------------------------------------------ *)
(** ** hashmap.h: lookups after updates *)


Lemma map_one_entry_ok : hashmap_ok map_one_entry.
Proof. apply hashmap_ok_insert, hashmap_ok_new. Qed.

Lemma map_one_entry_counted : hashmap_counted map_one_entry.
Proof. vm_compute. reflexivity. Qed.

Section HashMapLaws.

Context {V : Type}.

Abbreviation hmap := (HashMap.t V).
Abbreviation chain := (HashMap.bucket V).

Lemma hashmap_counted_new : hashmap_counted (@HashMap.new V).
Proof. reflexivity. Qed.

Lemma contains_search (m : hmap) (k : string) :
  HashMap.contains k m = true <-> exists v, HashMap.search k m = Some v.
Proof.
  unfold HashMap.contains. destruct (HashMap.search k m) as [v|].
  - split; [eauto|reflexivity].
  - split; [discriminate|intros [v H]; discriminate].
Qed.

Lemma contains_false (m : hmap) (k : string) :
  HashMap.contains k m = false <-> HashMap.search k m = None.
Proof.
  unfold HashMap.contains. destruct (HashMap.search k m) as [v|].
  - split; discriminate.
  - split; reflexivity.
Qed.

Lemma getAllPairs_concat (m : hmap) :
  List.length (HashMap.table m) = 100%nat ->
  HashMap.getAllPairs m = List.concat (HashMap.table m).
Proof.
  intro H. unfold HashMap.getAllPairs, HashMap.slot.
  change (Z.to_nat HashMap.TABLE_SIZE) with 100%nat. rewrite <- H.
  generalize (HashMap.table m) as t. clear. intro t.
  assert (G : forall (pre : list (HashMap.bucket V)),
             flat_map (fun i => nth i (pre ++ t) []) (seq (List.length pre) (List.length t))
             = List.concat t).
  { induction t as [|b t IH]; intro pre; simpl; [reflexivity|].
    rewrite app_nth2 by lia. rewrite Nat.sub_diag. simpl. f_equal.
    specialize (IH (pre ++ [b])). rewrite <- app_assoc in IH. simpl in IH.
    rewrite length_app in IH. simpl in IH.
    rewrite Nat.add_1_r in IH. exact IH. }
  apply (G []).
Qed.

Lemma concat_upd_length (t : list chain) (i : nat) (b : chain) :
  (i < List.length t)%nat ->
  (List.length (List.concat (upd i b t)) + List.length (nth i t [])
   = List.length (List.concat t) + List.length b)%nat.
Proof.
  revert i. induction t as [|c t IH]; intros [|i] H; simpl in *; try lia.
  - rewrite !length_app. lia.
  - rewrite !length_app. specialize (IH i ltac:(lia)). lia.
Qed.

Lemma pairs_upd_length (m : hmap) (c : Z) (i : nat) (b : chain) :
  List.length (HashMap.table m) = 100%nat -> (i < 100)%nat ->
  (List.length (HashMap.getAllPairs (HashMap.mk (upd i b (HashMap.table m)) c))
   + List.length (HashMap.slot m i)
   = List.length (HashMap.getAllPairs m) + List.length b)%nat.
Proof.
  intros H L. rewrite !getAllPairs_concat; simpl; try rewrite upd_length; auto.
  apply concat_upd_length. lia.
Qed.

Lemma chain_set_length (k : string) (v : V) (b b' : chain) :
  HashMap.chain_set k v b = Some b' -> List.length b' = List.length b.
Proof.
  intro H. apply chain_set_keys in H.
  rewrite <- (length_map fst b'), H, length_map. reflexivity.
Qed.

Lemma chain_del_length (k : string) (b b' : chain) :
  HashMap.chain_del k b = Some b' -> S (List.length b') = List.length b.
Proof.
  revert b'. induction b as [|[k0 v0] b IH]; intros b' H; simpl in H.
  - discriminate.
  - destruct (str_eq k0 k).
    + inversion H. reflexivity.
    + destruct (HashMap.chain_del k b) as [b0|]; [|discriminate].
      inversion H. simpl. f_equal. apply IH. reflexivity.
Qed.

(** The index computed by [hash] is a slot of the table for every key,
    also one with bytes of 128 and above, whose [char] value is negative:
    the running sum is an [unsigned long], so the remainder is never
    negative. *)
Lemma hash_index_in_table (key : string) :
  (HashMap.hash key < Z.to_nat HashMap.TABLE_SIZE)%nat.
Proof.
  unfold HashMap.hash.
  assert (R : 0 <= 0 < 100) by lia.
  pose proof (hash_loop_range key 0 1 R) as H.
  change (Z.to_nat HashMap.TABLE_SIZE) with 100%nat. lia.
Qed.

(** X2.  [insert] followed by [search]: the key maps to the value just
    inserted, every other key maps to what it did, and [size] grows by
    one exactly when the key was new. *)
Theorem hashmap_insert_then_search (m : hmap) (k : string) (v : V) :
  hashmap_ok m -> hashmap_counted m ->
  HashMap.search k (HashMap.insert k v m) = Some v /\
  (forall k', k' <> k ->
     HashMap.search k' (HashMap.insert k v m) = HashMap.search k' m) /\
  HashMap.size (HashMap.insert k v m)
    = (if HashMap.contains k m then HashMap.size m else HashMap.size m + 1) /\
  hashmap_ok (HashMap.insert k v m) /\ hashmap_counted (HashMap.insert k v m).
Proof.
  intros Hok Hc. split; [|split; [|split; [|split]]].
  - rewrite search_insert by exact Hok. rewrite str_eq_refl. reflexivity.
  - intros k' N. rewrite search_insert by exact Hok.
    destruct (str_eq k k') eqn:E; [|reflexivity].
    apply str_eq_iff in E. congruence.
  - unfold HashMap.size, HashMap.insert, HashMap.contains, HashMap.search.
    destruct (HashMap.chain_set k v (HashMap.slot m (HashMap.hash k)))
      as [b|] eqn:E.
    + destruct (HashMap.chain_get k (HashMap.slot m (HashMap.hash k))) eqn:G.
      * reflexivity.
      * apply (chain_set_None k v) in G. congruence.
    + apply chain_set_None in E. rewrite E. reflexivity.
  - apply hashmap_ok_insert. exact Hok.
  - unfold hashmap_counted in *. destruct Hok as [Hlen _].
    pose proof (hash_range k) as L.
    unfold HashMap.insert.
    destruct (HashMap.chain_set k v (HashMap.slot m (HashMap.hash k)))
      as [b|] eqn:E.
    + pose proof (pairs_upd_length m (HashMap.count m) _ b Hlen L) as P.
      apply chain_set_length in E. cbn [HashMap.count].
      set (n := List.length (HashMap.getAllPairs _)) in P |- *.
      rewrite Hc. lia.
    + pose proof (pairs_upd_length m (HashMap.count m + 1) _
                    ((k, v) :: HashMap.slot m (HashMap.hash k)) Hlen L) as P.
      cbn [HashMap.count]. cbn [List.length] in P.
      set (n := List.length (HashMap.getAllPairs _)) in P |- *.
      rewrite Hc. lia.
Qed.

(** X3.  [remove] answers whether the key was present; afterwards the
    key is absent, every other key maps to what it did, and [size] has
    dropped by one exactly when the key was present.  Removing an absent
    key changes nothing. *)
Theorem hashmap_remove_then_search (m : hmap) (k : string) :
  hashmap_ok m -> hashmap_counted m ->
  fst (HashMap.remove k m) = HashMap.contains k m /\
  HashMap.search k (snd (HashMap.remove k m)) = None /\
  (forall k', k' <> k ->
     HashMap.search k' (snd (HashMap.remove k m)) = HashMap.search k' m) /\
  HashMap.size (snd (HashMap.remove k m))
    = (if HashMap.contains k m then HashMap.size m - 1 else HashMap.size m) /\
  (HashMap.contains k m = false -> snd (HashMap.remove k m) = m) /\
  hashmap_ok (snd (HashMap.remove k m)) /\
  hashmap_counted (snd (HashMap.remove k m)).
Proof.
  intros Hok Hc. destruct (remove_spec m k Hok) as [Hok' Hs].
  assert (F : fst (HashMap.remove k m) = HashMap.contains k m).
  { unfold HashMap.remove, HashMap.contains, HashMap.search.
    destruct (HashMap.chain_del k (HashMap.slot m (HashMap.hash k)))
      as [b|] eqn:E.
    - destruct (HashMap.chain_get k (HashMap.slot m (HashMap.hash k))) eqn:G;
        [reflexivity|].
      apply chain_del_None in G. congruence.
    - apply chain_del_None in E. rewrite E. reflexivity. }
  split; [exact F|]. split; [|split; [|split; [|split; [|split]]]].
  - rewrite Hs, str_eq_refl. reflexivity.
  - intros k' N. rewrite Hs. destruct (str_eq k k') eqn:E; [|reflexivity].
    apply str_eq_iff in E. congruence.
  - rewrite <- F. unfold HashMap.size, HashMap.remove.
    destruct (HashMap.chain_del k (HashMap.slot m (HashMap.hash k)));
      reflexivity.
  - rewrite <- F. unfold HashMap.remove.
    destruct (HashMap.chain_del k (HashMap.slot m (HashMap.hash k)));
      [discriminate|reflexivity].
  - exact Hok'.
  - unfold hashmap_counted in *. destruct Hok as [Hlen _].
    pose proof (hash_range k) as L. unfold HashMap.remove.
    destruct (HashMap.chain_del k (HashMap.slot m (HashMap.hash k)))
      as [b|] eqn:E; [|exact Hc].
    pose proof (pairs_upd_length m (HashMap.count m - 1) _ b Hlen L) as P.
    apply chain_del_length in E. cbn [snd HashMap.count]. lia.
Qed.

(** X4.  [update] writes only a key that is present: it answers whether
    the key was present, leaves the map as it was when it was not, and
    otherwise replaces the value of that key alone; [size] never
    changes. *)
Theorem hashmap_update_only_present (m : hmap) (k : string) (v : V) :
  hashmap_ok m -> hashmap_counted m ->
  fst (HashMap.update k v m) = HashMap.contains k m /\
  (HashMap.contains k m = false -> snd (HashMap.update k v m) = m) /\
  (HashMap.contains k m = true ->
   HashMap.search k (snd (HashMap.update k v m)) = Some v) /\
  (forall k', k' <> k ->
     HashMap.search k' (snd (HashMap.update k v m)) = HashMap.search k' m) /\
  HashMap.size (snd (HashMap.update k v m)) = HashMap.size m /\
  hashmap_ok (snd (HashMap.update k v m)) /\
  hashmap_counted (snd (HashMap.update k v m)).
Proof.
  intros Hok Hc.
  destruct (HashMap.contains k m) eqn:C.
  - apply contains_search in C. destruct C as [v0 S0].
    destruct (update_present m k v v0 Hok S0) as (F & Hok' & Hs).
    split; [exact F|]. split; [discriminate|]. split; [|split; [|split; [|split]]].
    + intros _. rewrite Hs, str_eq_refl. reflexivity.
    + intros k' N. rewrite Hs. destruct (str_eq k k') eqn:E; [|reflexivity].
      apply str_eq_iff in E. congruence.
    + unfold HashMap.size, HashMap.update.
      destruct (HashMap.chain_set k v (HashMap.slot m (HashMap.hash k)));
        reflexivity.
    + exact Hok'.
    + unfold hashmap_counted in *. destruct Hok as [Hlen _].
      pose proof (hash_range k) as L. unfold HashMap.update.
      destruct (HashMap.chain_set k v (HashMap.slot m (HashMap.hash k)))
        as [b|] eqn:E; [|exact Hc].
      pose proof (pairs_upd_length m (HashMap.count m) _ b Hlen L) as P.
      apply chain_set_length in E. cbn [snd HashMap.count]. lia.
  - apply contains_false in C. rewrite (update_absent m k v C). simpl.
    split; [reflexivity|]. split; [reflexivity|]. split; [discriminate|].
    split; [reflexivity|]. split; [reflexivity|]. split; assumption.
Qed.

Lemma flat_map_keys_NoDup (m : hmap) (l : list nat) :
  hashmap_ok m -> NoDup l ->
  NoDup (map fst (flat_map (HashMap.slot m) l)).
Proof.
  intros [_ Hs] ND. induction ND as [|i l Hi ND IH]; simpl; [constructor|].
  rewrite map_app. apply NoDup_app.
  - apply (proj2 (Hs i)).
  - exact IH.
  - intros k Hk Hin. apply (proj1 (Hs i)) in Hk.
    apply in_map_iff in Hin. destruct Hin as ([k0 v0] & E & Hin).
    simpl in E. subst k0. apply in_flat_map in Hin.
    destruct Hin as (j & Hj & Hin).
    assert (HashMap.hash k = j).
    { apply (proj1 (Hs j)). change k with (fst (k, v0)). apply in_map. exact Hin. }
    congruence.
Qed.

(** X5.  [getAllPairs] lists the entries of the map, each key once: a
    pair is listed exactly when [search] finds that value under that
    key. *)
Theorem hashmap_pairs_are_the_entries (m : hmap) :
  hashmap_ok m ->
  (forall k v, In (k, v) (HashMap.getAllPairs m) <-> HashMap.search k m = Some v) /\
  NoDup (map fst (HashMap.getAllPairs m)) /\
  (forall k, In k (map fst (HashMap.getAllPairs m)) <-> HashMap.contains k m = true).
Proof.
  intro Hok. split; [|split].
  - intros k v. apply getAllPairs_search. exact Hok.
  - apply flat_map_keys_NoDup; [exact Hok|apply seq_NoDup].
  - intro k. rewrite contains_search. split.
    + intro H. apply in_map_iff in H. destruct H as ([k0 v] & E & H).
      simpl in E. subst k0. exists v. apply getAllPairs_search; assumption.
    + intros [v H]. apply (getAllPairs_search m k v Hok) in H.
      change k with (fst (k, v)). apply in_map. exact H.
Qed.

End HashMapLaws.

Lemma hashmap_insert_then_search_witness :
  HashMap.search "Food" (HashMap.insert "Food" 7 (@HashMap.new Z)) = Some 7.
Proof.
  exact (proj1 (hashmap_insert_then_search HashMap.new "Food" 7
                  hashmap_ok_new hashmap_counted_new)).
Defined.

Lemma hashmap_remove_then_search_witness :
  HashMap.search "Food" (snd (HashMap.remove "Food" map_one_entry)) = None.
Proof.
  exact (proj1 (proj2 (hashmap_remove_then_search map_one_entry "Food"
                         map_one_entry_ok map_one_entry_counted))).
Defined.

Lemma hashmap_update_only_present_witness :
  snd (HashMap.update "Rent" 3 map_one_entry) = map_one_entry.
Proof.
  apply (proj1 (proj2 (hashmap_update_only_present map_one_entry "Rent" 3
                         map_one_entry_ok map_one_entry_counted))).
  vm_compute. reflexivity.
Defined.

Lemma hashmap_pairs_are_the_entries_witness :
  NoDup (map fst (HashMap.getAllPairs map_one_entry)).
Proof.
  exact (proj1 (proj2 (hashmap_pairs_are_the_entries map_one_entry
                         map_one_entry_ok))).
Defined.

(* ------------------------------------------------------------------ *)
(** ** stack.h: what the bounded stacks retain *)

Lemma firstn_app_firstn {A : Type} (n m : nat) (a b : list A) :
  (n <= m)%nat -> firstn n (a ++ firstn m b) = firstn n (a ++ b).
Proof.
  revert n. induction a as [|x a IH]; intros n H; simpl.
  - rewrite firstn_firstn. f_equal. lia.
  - destruct n as [|n]; simpl; [reflexivity|]. f_equal. apply IH. lia.
Qed.

Lemma removelast_firstn_len {A : Type} (l : list A) :
  removelast l = firstn (List.length l - 1) l.
Proof.
  induction l as [|x l IH]; [reflexivity|].
  destruct l as [|y l]; [reflexivity|].
  change (removelast (x :: y :: l)) with (x :: removelast (y :: l)).
  rewrite IH. simpl. rewrite Nat.sub_0_r. reflexivity.
Qed.

Lemma push_keeps_latest (a : Action) (s : UndoStack.t) :
  2 <= UndoStack.maxSize s -> undo_stack_ok s ->
  exists s',
    UndoStack.push a s = Some s' /\ undo_stack_ok s' /\
    UndoStack.maxSize s' = UndoStack.maxSize s /\
    UndoStack.nodes s'
      = firstn (Z.to_nat (UndoStack.maxSize s)) (a :: UndoStack.nodes s).
Proof.
  intros Hcap Hok.
  destruct (push_within_bound a s Hcap Hok) as (s' & P & Ok' & M & N).
  exists s'. repeat split; try assumption; try apply Ok'.
  rewrite N. destruct Hok as [Hc Hle].
  destruct (Z.ltb_spec (UndoStack.count s) (UndoStack.maxSize s)) as [L|L].
  - symmetry. apply firstn_all2. simpl. lia.
  - assert (E : List.length (UndoStack.nodes s)
                = Z.to_nat (UndoStack.maxSize s)) by lia.
    rewrite removelast_firstn_len, E.
    replace (Z.to_nat (UndoStack.maxSize s))
      with (S (Z.to_nat (UndoStack.maxSize s) - 1)) at 2 by lia.
    reflexivity.
Qed.

Lemma pushAll_keeps_latest (l : list Action) :
  forall s, 2 <= UndoStack.maxSize s -> undo_stack_ok s ->
  exists s',
    pushAll l s = Some s' /\ undo_stack_ok s' /\
    UndoStack.maxSize s' = UndoStack.maxSize s /\
    UndoStack.nodes s'
      = firstn (Z.to_nat (UndoStack.maxSize s)) (rev l ++ UndoStack.nodes s).
Proof.
  induction l as [|a l IH]; intros s Hcap Hok.
  - exists s. simpl. repeat split; try apply Hok.
    symmetry. apply firstn_all2. destruct Hok. lia.
  - destruct (push_keeps_latest a s Hcap Hok) as (s1 & P1 & Ok1 & M1 & N1).
    destruct (IH s1 ltac:(lia) Ok1) as (s' & P & Ok' & M & N).
    exists s'. simpl. rewrite P1. simpl. split; [exact P|].
    split; [exact Ok'|]. split; [congruence|].
    rewrite N, N1, M1. rewrite firstn_app_firstn by lia.
    rewrite <- app_assoc. reflexivity.
Qed.

(** X6.  An undo stack of capacity 2 or more holds the most recent
    actions pushed, newest first, up to its capacity: the oldest action
    is dropped once the stack is full. *)
Theorem undo_stack_holds_latest (maxSz : Z) (l : list Action) :
  2 <= maxSz ->
  exists s,
    pushAll l (UndoStack.new maxSz) = Some s /\
    UndoStack.getAllActions s = firstn (Z.to_nat maxSz) (rev l) /\
    UndoStack.size s = Z.of_nat (List.length (UndoStack.getAllActions s)) /\
    UndoStack.size s <= maxSz /\
    UndoStack.peek s = hd_error (rev l).
Proof.
  intro Hcap.
  assert (Ok0 : undo_stack_ok (UndoStack.new maxSz)).
  { split; simpl; lia. }
  destruct (pushAll_keeps_latest l (UndoStack.new maxSz) Hcap Ok0)
    as (s & P & [Hc Hle] & M & N).
  simpl in M, N. rewrite app_nil_r in N.
  exists s. split; [exact P|]. unfold UndoStack.getAllActions, UndoStack.size.
  split; [exact N|]. split; [exact Hc|]. split; [lia|].
  unfold UndoStack.peek. rewrite N.
  destruct (rev l) as [|a r]; [rewrite firstn_nil; reflexivity|].
  replace (Z.to_nat maxSz) with (S (Z.to_nat maxSz - 1)) by lia.
  reflexivity.
Qed.

Lemma undo_stack_holds_latest_witness :
  exists s,
    pushAll [mkAction ADD_BILL "a"; mkAction ADD_BILL "b";
             mkAction ADD_BILL "c"] (UndoStack.new 2) = Some s /\
    UndoStack.getAllActions s
      = firstn (Z.to_nat 2)
          (rev [mkAction ADD_BILL "a"; mkAction ADD_BILL "b";
                mkAction ADD_BILL "c"]) /\
    UndoStack.size s = Z.of_nat (List.length (UndoStack.getAllActions s)) /\
    UndoStack.size s <= 2 /\
    UndoStack.peek s
      = hd_error (rev [mkAction ADD_BILL "a"; mkAction ADD_BILL "b";
                       mkAction ADD_BILL "c"]).
Proof.
  apply (undo_stack_holds_latest 2). lia.
Defined.

Lemma recent_stack_push (x : Transaction) (s : TransactionStack.t) :
  recent_stack_ok s ->
  let s' := TransactionStack.push x s in
  recent_stack_ok s' /\
  TransactionStack.maxSize s' = TransactionStack.maxSize s /\
  TransactionStack.peek s' = Some x /\
  TransactionStack.getAll s'
    = firstn (Z.to_nat (Z.max 1 (TransactionStack.maxSize s)))
             (x :: TransactionStack.getAll s).
Proof.
  intros [Hc Hle]. unfold TransactionStack.push, TransactionStack.getAll,
    TransactionStack.peek, recent_stack_ok.
  set (l := x :: TransactionStack.nodes s).
  set (keep := S (Z.to_nat (TransactionStack.maxSize s - 1))).
  assert (K : keep = Z.to_nat (Z.max 1 (TransactionStack.maxSize s)))
    by (unfold keep; lia).
  assert (Ll : List.length l = S (List.length (TransactionStack.nodes s)))
    by reflexivity.
  destruct (Z.gtb_spec (TransactionStack.count s + 1)
                       (TransactionStack.maxSize s)) as [G|G];
    cbn [TransactionStack.nodes TransactionStack.count TransactionStack.maxSize].
  - rewrite length_skipn, length_firstn, <- K.
    split; [split; lia|]. split; [reflexivity|]. split; reflexivity.
  - rewrite <- K. split; [split; [unfold l; simpl List.length; lia|lia]|].
    split; [reflexivity|]. split; [reflexivity|].
    symmetry. apply firstn_all2. lia.
Qed.

(* ------------------------------------------------------------------ *)
(** ** finance_engine.h: the recent transactions *)

Lemma updateExpenseTracking_recentStack (x : Transaction) (b : bool)
  (e : FinanceEngine) :
  recentStack (Engine.updateExpenseTracking x b e) = recentStack e.
Proof.
  unfold Engine.updateExpenseTracking.
  destruct (negb (str_eq (type x) "expense")); [reflexivity|].
  cbv zeta.
  match goal with
  | |- context [match ?s with Some _ => _ | None => _ end] =>
      destruct s; reflexivity
  end.
Qed.

Lemma indexTransaction_recentStack (x : Transaction) (e : FinanceEngine) :
  recentStack (Engine.indexTransaction x e)
    = TransactionStack.push x (recentStack e).
Proof.
  unfold Engine.indexTransaction. cbv zeta.
  destruct (description x);
    destruct (str_eq (type x) "expense"); simpl;
    rewrite updateExpenseTracking_recentStack; reflexivity.
Qed.

Lemma loadTransaction_recentStack (x : Transaction) (e : FinanceEngine) :
  recentStack (Engine.loadTransaction (id x) (type x) (amount x) (category x)
                 (description x) (date x) e)
    = TransactionStack.push x (recentStack e).
Proof.
  unfold Engine.loadTransaction. cbv zeta.
  rewrite indexTransaction_recentStack. destruct x; reflexivity.
Qed.

Lemma addTransaction_recentStack (now : Z) (ty : string) (amt : Q)
  (cat desc dt : string) (e e' : FinanceEngine) (x : Transaction) :
  Engine.addTransaction now ty amt cat desc dt e = Some (x, e') ->
  recentStack e' = TransactionStack.push x (recentStack e).
Proof.
  unfold Engine.addTransaction, Engine.generateId. cbv zeta.
  unfold Engine.pushUndo, bind. intro A.
  destruct (UndoStack.push _ _) as [s|]; [|discriminate].
  inversion A; subst x e'. clear A.
  cbn [recentStack Engine.set_undoStack].
  rewrite indexTransaction_recentStack. reflexivity.
Qed.

Lemma deleteTransaction_recentStack (i : string) (e e' : FinanceEngine)
  (r : bool) :
  Engine.deleteTransaction i e = Some (r, e') ->
  recentStack e' = recentStack e.
Proof.
  unfold Engine.deleteTransaction. intro D.
  destruct (BST.findById i (transactionBST e)) as [x|].
  - unfold Engine.pushUndo, bind in D.
    destruct (UndoStack.push _ _) as [s|]; [|discriminate].
    inversion D; subst r e'. rewrite updateExpenseTracking_recentStack.
    reflexivity.
  - inversion D. reflexivity.
Qed.

Lemma loadAll_cons (x : Transaction) (xs : list Transaction)
  (e : FinanceEngine) :
  loadAll (x :: xs) e
    = loadAll xs (Engine.loadTransaction (id x) (type x) (amount x)
                    (category x) (description x) (date x) e).
Proof. reflexivity. Qed.

Lemma loadAll_recent_stack (xs : list Transaction) :
  forall e, recent_stack_ok (recentStack e) ->
  recent_stack_ok (recentStack (loadAll xs e)) /\
  TransactionStack.maxSize (recentStack (loadAll xs e))
    = TransactionStack.maxSize (recentStack e) /\
  TransactionStack.nodes (recentStack (loadAll xs e))
    = firstn (Z.to_nat (Z.max 1 (TransactionStack.maxSize (recentStack e))))
             (rev xs ++ TransactionStack.nodes (recentStack e)).
Proof.
  induction xs as [|x xs IH]; intros e Hok.
  - simpl. split; [exact Hok|]. split; [reflexivity|].
    symmetry. apply firstn_all2. destruct Hok. lia.
  - rewrite loadAll_cons.
    set (e1 := Engine.loadTransaction _ _ _ _ _ _ e).
    assert (R1 : recentStack e1 = TransactionStack.push x (recentStack e))
      by apply loadTransaction_recentStack.
    destruct (recent_stack_push x (recentStack e) Hok)
      as (Ok1 & M1 & _ & N1).
    rewrite <- R1 in Ok1, M1, N1.
    destruct (IH e1 Ok1) as (Ok & M & N).
    split; [exact Ok|]. split; [congruence|].
    rewrite N, M1. unfold TransactionStack.getAll in N1. rewrite N1.
    rewrite firstn_app_firstn by lia.
    simpl rev. rewrite <- app_assoc. reflexivity.
Qed.

(** X8.  After a run of [loadTransaction] calls on a new engine,
    [getRecentTransactions n] lists the transactions loaded last, newest
    first: the first [n] of the 100 most recent ones, none for a negative
    [n]. *)
Theorem recent_transactions_are_latest (xs : list Transaction) (n : Z) :
  Engine.getRecentTransactions n (loadAll xs Engine.new)
    = firstn (Z.to_nat n) (firstn 100 (rev xs)).
Proof.
  unfold Engine.getRecentTransactions, TransactionStack.getTopN.
  assert (Ok0 : recent_stack_ok (recentStack Engine.new)).
  { split; simpl; lia. }
  destruct (loadAll_recent_stack xs Engine.new Ok0) as (_ & _ & N).
  rewrite N. simpl. rewrite app_nil_r. reflexivity.
Qed.

(** The members that neither the expense tracking, nor a deletion, nor
    an undo writes. *)
Lemma updateExpenseTracking_frame (x : Transaction) (b : bool)
  (e : FinanceEngine) :
  untracked_members (Engine.updateExpenseTracking x b e) = untracked_members e.
Proof.
  unfold Engine.updateExpenseTracking.
  destruct (negb (str_eq (type x) "expense")); [reflexivity|].
  cbv zeta.
  match goal with
  | |- context [match ?s with Some _ => _ | None => _ end] =>
      destruct s; reflexivity
  end.
Qed.

Lemma deleteTransaction_frame (i : string) (e e' : FinanceEngine) (r : bool) :
  Engine.deleteTransaction i e = Some (r, e') ->
  untracked_members e' = untracked_members e.
Proof.
  unfold Engine.deleteTransaction. intro D.
  destruct (BST.findById i (transactionBST e)) as [x|].
  - unfold Engine.pushUndo, bind in D.
    destruct (UndoStack.push _ _) as [s|]; [|discriminate].
    inversion D; subst r e'. rewrite updateExpenseTracking_frame.
    reflexivity.
  - inversion D. reflexivity.
Qed.

(** X9.  [undo] writes the ledger, the date index, the two maps and
    the undo log only: whatever action it reverses, the bills, the
    recent-transactions stack, the two heaps, the two tries and the id
    counters are left as they were. *)
Theorem undo_leaves_other_members (e e' : FinanceEngine) (r : bool) :
  Engine.undo e = Some (r, e') ->
  billQueue e' = billQueue e /\
  recentStack e' = recentStack e /\
  expenseHeap e' = expenseHeap e /\
  categoryHeap e' = categoryHeap e /\
  categoryTrie e' = categoryTrie e /\
  payeeTrie e' = payeeTrie e /\
  txnCounter e' = txnCounter e /\
  billCounter e' = billCounter e.
Proof.
  intro U.
  assert (F : untracked_members e' = untracked_members e).
  { unfold Engine.undo in U.
    destruct (UndoStack.pop (undoStack e)) as [[a s]|];
      [|inversion U; reflexivity].
    destruct (action_type a).
    - destruct (Stream.getline "|" (Stream.open (action_data a)))
        as [token ss].
      unfold bind in U.
      destruct (Engine.deleteTransaction token (Engine.set_undoStack e s))
        as [[r1 e1]|] eqn:D; [|discriminate].
      apply deleteTransaction_frame in D.
      inversion U; subst r e'.
      transitivity (untracked_members e1);
        [destruct (UndoStack.pop (undoStack e1)) as [[a2 s2]|]; reflexivity|].
      rewrite D. reflexivity.
    - unfold bind in U.
      destruct (Engine.parseTransaction (action_data a)) as [x|];
        [|discriminate].
      inversion U; subst r e'. rewrite updateExpenseTracking_frame.
      reflexivity.
    - destruct (Stream.getline "|" (Stream.open (action_data a)))
        as [token ss].
      inversion U; reflexivity.
    - destruct (Stream.getline "|" (Stream.open (action_data a)))
        as [cat ss].
      destruct (Stream.get_double ss) as [oldLimit ss'].
      destruct (HashMap.search cat (budgetMap (Engine.set_undoStack e s)))
        as [b|].
      + unfold bind in U. destruct oldLimit as [l|]; [|discriminate].
        inversion U; reflexivity.
      + inversion U; reflexivity.
    - inversion U; reflexivity.
    - inversion U; reflexivity.
    - inversion U; reflexivity. }
  unfold untracked_members in F. inversion F. repeat split; assumption.
Qed.

Lemma undo_leaves_other_members_witness :
  billQueue (Engine.set_undoStack engine_bill_added (UndoStack.mk [] 0 50))
    = billQueue engine_bill_added.
Proof.
  apply (undo_leaves_other_members engine_bill_added
           (Engine.set_undoStack engine_bill_added (UndoStack.mk [] 0 50))
           true).
  vm_compute. reflexivity.
Defined.

(** X10.  A transaction that has been added and then deleted is gone
    from the ledger but is still the first of the recent transactions:
    [deleteTransaction] does not write the recent-transactions stack. *)
Theorem deleted_transaction_stays_recent (now : Z) (ty : string) (amt : Q)
  (cat desc dt : string) (e : FinanceEngine) (log : list Transaction) :
  engine_indexed e log ->
  ~ In (fst (Engine.generateId now e)) (map id log) ->
  undo_stack_ok (undoStack e) -> 2 <= UndoStack.maxSize (undoStack e) ->
  recent_stack_ok (recentStack e) ->
  exists x e1 e2,
    Engine.addTransaction now ty amt cat desc dt e = Some (x, e1) /\
    Engine.deleteTransaction (id x) e1 = Some (true, e2) /\
    ~ In x (Engine.getAllTransactions e2) /\
    Engine.getRecentTransactions 1 e2 = [x].
Proof.
  intros Hidx Hfresh Hs Hcap Hr.
  set (i := fst (Engine.generateId now e)) in *.
  set (x := mkTransaction i ty amt cat desc dt).
  set (A := mkAction ADD_TRANSACTION (Engine.transactionRecord x)).
  destruct (push_within_bound A (undoStack e) Hcap Hs)
    as (s1 & P1 & Ok1 & M1 & _).
  set (eb := Engine.indexTransaction x
               (Engine.set_transactionList (snd (Engine.generateId now e))
                  (DoublyLinkedList.addFront x
                     (transactionList (snd (Engine.generateId now e)))))).
  assert (Ub : undoStack eb = undoStack e).
  { unfold eb. rewrite indexTransaction_undoStack. reflexivity. }
  assert (Add : Engine.addTransaction now ty amt cat desc dt e
                = Some (x, Engine.set_undoStack eb s1)).
  { unfold Engine.addTransaction.
    change (Engine.generateId now e)
      with (i, snd (Engine.generateId now e)).
    cbv beta iota zeta. fold x. fold eb. fold A.
    unfold Engine.pushUndo, bind. rewrite Ub, P1. reflexivity. }
  set (e1 := Engine.set_undoStack eb s1).
  pose proof (addTransaction_indexed now ty amt cat desc dt e e1 x log
                Hidx Add) as Hidx1.
  destruct Hidx as (Bok & Bin & Bperm).
  assert (Fnone : BST.findHelper (transactionBST e) (id x) = None).
  { destruct (BST.findHelper (transactionBST e) (id x)) as [y|] eqn:F;
      [|reflexivity].
    apply findHelper_Some in F. destruct F as [Hin Hid].
    exfalso. apply Hfresh. rewrite Bin in Hin.
    apply (Permutation_in _ (by_date_Permutation log)) in Hin.
    change i with (id x). rewrite <- Hid. apply in_map. exact Hin. }
  assert (Find : BST.findById (id x) (transactionBST e1) = Some x).
  { unfold e1, eb. cbn [transactionBST Engine.set_undoStack].
    rewrite indexTransaction_bst. cbn [transactionBST Engine.set_transactionList].
    unfold BST.findById, BST.insert. apply findHelper_insert_fresh.
    unfold Engine.generateId. cbn [snd transactionBST Engine.set_txnCounter].
    exact Fnone. }
  assert (Ok1' : undo_stack_ok (undoStack e1) /\
                 2 <= UndoStack.maxSize (undoStack e1)).
  { unfold e1. cbn [undoStack Engine.set_undoStack]. split; [exact Ok1|lia]. }
  destruct Ok1' as [Ok1' Cap1].
  destruct (push_within_bound
              (mkAction DELETE_TRANSACTION (Engine.transactionRecord x))
              (undoStack e1) Cap1 Ok1') as (s2 & P2 & _).
  pose proof (deleteTransaction_found (id x) e1 x s2 Find P2) as Del.
  eexists x, e1, _. split; [exact Add|]. split; [exact Del|]. split.
  - unfold Engine.getAllTransactions, DoublyLinkedList.traverseForward.
    rewrite updateExpenseTracking_list.
    cbn [transactionList Engine.set_transactionBST Engine.set_transactionList].
    unfold e1, eb. cbn [transactionList Engine.set_undoStack].
    rewrite indexTransaction_list.
    cbn [transactionList Engine.set_transactionList].
    rewrite deleteById_front.
    unfold Engine.generateId. cbn [snd transactionList Engine.set_txnCounter].
    intro Hin. apply Hfresh.
    apply (Permutation_in _ (Permutation_sym Bperm)) in Hin.
    change i with (id x). apply in_map. exact Hin.
  - unfold Engine.getRecentTransactions, TransactionStack.getTopN.
    rewrite updateExpenseTracking_recentStack.
    cbn [recentStack Engine.set_transactionBST Engine.set_transactionList
         Engine.set_undoStack].
    pose proof (addTransaction_recentStack _ _ _ _ _ _ _ _ _ Add) as R.
    unfold e1 in *. cbn [recentStack Engine.set_undoStack] in *.
    rewrite R.
    destruct (recent_stack_push x (recentStack e) Hr)
      as (_ & _ & Pk & _).
    unfold TransactionStack.peek in Pk.
    destruct (TransactionStack.nodes (TransactionStack.push x (recentStack e)))
      as [|y l]; [discriminate|].
    inversion Pk. reflexivity.
Qed.

Lemma deleted_transaction_stays_recent_witness :
  exists x e1 e2,
    Engine.addTransaction 1700000000 "expense" 50 "Food" "Lunch"
      "2024-01-10" Engine.new = Some (x, e1) /\
    Engine.deleteTransaction (id x) e1 = Some (true, e2) /\
    ~ In x (Engine.getAllTransactions e2) /\
    Engine.getRecentTransactions 1 e2 = [x].
Proof.
  apply (deleted_transaction_stays_recent 1700000000 "expense" 50 "Food"
           "Lunch" "2024-01-10" Engine.new []).
  - exact engine_indexed_new.
  - simpl. tauto.
  - split; simpl; lia.
  - simpl. lia.
  - split; simpl; lia.
Defined.

(* ------------------------------------------------------------------ *)
(** ** queue.h and the bill operations of the engine *)

Lemma bill_findById_app (i : string) (q : BillQueue.t) (b : Bill) :
  BillQueue.findById i (q ++ [b])
    = match BillQueue.findById i q with
      | Some x => Some x
      | None => if str_eq (bill_id b) i then Some b else None
      end.
Proof.
  induction q as [|y q IH]; simpl; [reflexivity|].
  destruct (str_eq (bill_id y) i); [reflexivity|exact IH].
Qed.

Lemma markAsPaid_findById (i j : string) (q : BillQueue.t) :
  BillQueue.findById j (snd (BillQueue.markAsPaid i q))
    = if str_eq i j
      then option_map (fun b => setPaid b true) (BillQueue.findById j q)
      else BillQueue.findById j q.
Proof.
  induction q as [|y q IH]; simpl.
  - destruct (str_eq i j); reflexivity.
  - destruct (str_eq (bill_id y) i) eqn:E.
    + apply str_eq_iff in E. subst i. simpl.
      destruct (str_eq (bill_id y) j); reflexivity.
    + destruct (BillQueue.markAsPaid i q) as [f q'] eqn:M. simpl in *.
      destruct (str_eq (bill_id y) j) eqn:Ej.
      * apply str_eq_iff in Ej. subst j.
        destruct (str_eq i (bill_id y)) eqn:E2; [|reflexivity].
        apply str_eq_iff in E2. subst i. rewrite str_eq_refl in E.
        discriminate.
      * exact IH.
Qed.

Lemma markAsPaid_ids (i : string) (q : BillQueue.t) :
  map bill_id (snd (BillQueue.markAsPaid i q)) = map bill_id q /\
  List.length (snd (BillQueue.markAsPaid i q)) = List.length q.
Proof.
  induction q as [|y q [IH1 IH2]]; simpl; [split; reflexivity|].
  destruct (str_eq (bill_id y) i); simpl; [split; reflexivity|].
  destruct (BillQueue.markAsPaid i q) as [f q']. simpl in *.
  split; congruence.
Qed.

Lemma removeById_found (i : string) (q : BillQueue.t) :
  fst (BillQueue.removeById i q) = true <->
  exists b, BillQueue.findById i q = Some b.
Proof.
  induction q as [|y q IH]; simpl.
  - split; [discriminate|intros [b H]; discriminate].
  - destruct (str_eq (bill_id y) i); simpl.
    + split; [eauto|reflexivity].
    + destruct (BillQueue.removeById i q) as [f q']. exact IH.
Qed.

Lemma removeById_split (i : string) (q : BillQueue.t) (b : Bill) :
  BillQueue.findById i q = Some b ->
  exists l1 l2,
    q = l1 ++ b :: l2 /\
    (forall x, In x l1 -> bill_id x <> i) /\
    BillQueue.removeById i q = (true, l1 ++ l2).
Proof.
  induction q as [|y q IH]; simpl; [discriminate|].
  destruct (str_eq (bill_id y) i) eqn:E.
  - intro H. inversion H; subst y. exists [], q. simpl.
    split; [reflexivity|]. split; [intros x []|reflexivity].
  - intro H. destruct (IH H) as (l1 & l2 & Q & N & R).
    exists (y :: l1), l2. simpl. rewrite R. split; [rewrite Q; reflexivity|].
    split; [|reflexivity].
    intros x [<-|Hx]; [apply str_eq_neq; exact E|apply N; exact Hx].
Qed.

Lemma removeById_findById_others (i j : string) (q : BillQueue.t) :
  i <> j ->
  BillQueue.findById j (snd (BillQueue.removeById i q))
    = BillQueue.findById j q.
Proof.
  intro N. induction q as [|y q IH]; simpl; [reflexivity|].
  destruct (str_eq (bill_id y) i) eqn:E.
  - apply str_eq_iff in E. simpl.
    destruct (str_eq (bill_id y) j) eqn:Ej; [|reflexivity].
    apply str_eq_iff in Ej. congruence.
  - destruct (BillQueue.removeById i q) as [f q']. simpl in *.
    destruct (str_eq (bill_id y) j); [reflexivity|exact IH].
Qed.

Lemma bill_findById_None (i : string) (q : BillQueue.t) :
  BillQueue.findById i q = None <-> ~ In i (map bill_id q).
Proof.
  induction q as [|y q IH]; simpl; [tauto|].
  destruct (str_eq (bill_id y) i) eqn:E.
  - apply str_eq_iff in E. split; [discriminate|]. intro H. exfalso. auto.
  - apply str_eq_neq in E. rewrite IH. tauto.
Qed.

(** X11.  [addBill] puts the new, unpaid bill behind the bills already
    queued, so [getNextBill] keeps answering the bill that was added
    first, whatever the due dates; the bill count grows by one and the
    action is logged for undo. *)
Theorem addBill_joins_the_back (now : Z) (name : string) (amt : Q)
  (due cat : string) (e : FinanceEngine) :
  undo_stack_ok (undoStack e) -> 2 <= UndoStack.maxSize (undoStack e) ->
  exists b e',
    Engine.addBill now name amt due cat e = Some (b, e') /\
    b = newBill (fst (Engine.generateBillId now e)) name amt due cat /\
    Engine.getAllBills e' = Engine.getAllBills e ++ [b] /\
    Engine.getNextBill e'
      = match Engine.getNextBill e with
        | Some first => Some first
        | None => Some b
        end /\
    Engine.getBillCount e' = Engine.getBillCount e + 1 /\
    UndoStack.peek (undoStack e')
      = Some (mkAction ADD_BILL (Engine.billRecord b)).
Proof.
  intros Hs Hcap.
  set (b := newBill (fst (Engine.generateBillId now e)) name amt due cat).
  destruct (push_within_bound (mkAction ADD_BILL (Engine.billRecord b))
              (undoStack e) Hcap Hs) as (s & P & _ & _ & N).
  exists b. eexists. split.
  - unfold Engine.addBill.
    change (Engine.generateBillId now e)
      with (fst (Engine.generateBillId now e),
            snd (Engine.generateBillId now e)).
    cbv beta iota zeta. fold b. unfold Engine.pushUndo, bind.
    cbn [undoStack Engine.set_billQueue Engine.generateBillId snd
         Engine.set_billCounter].
    rewrite P. reflexivity.
  - split; [reflexivity|].
    unfold Engine.getAllBills, Engine.getNextBill, Engine.getBillCount,
      BillQueue.getAllBills, BillQueue.size, BillQueue.enqueue.
    cbn [billQueue undoStack Engine.set_undoStack Engine.set_billQueue
         Engine.generateBillId snd Engine.set_billCounter].
    split; [reflexivity|]. split; [|split].
    + destruct (billQueue e); reflexivity.
    + rewrite length_app. simpl. lia.
    + unfold UndoStack.peek. rewrite N.
      destruct (UndoStack.count (undoStack e) <? UndoStack.maxSize (undoStack e));
        reflexivity.
Qed.

Lemma addBill_joins_the_back_witness :
  exists b e',
    Engine.addBill 1700000000 "Power" 60 "2023-12-01" "Bills" engine_one_bill
      = Some (b, e') /\
    b = newBill (fst (Engine.generateBillId 1700000000 engine_one_bill))
          "Power" 60 "2023-12-01" "Bills" /\
    Engine.getAllBills e' = Engine.getAllBills engine_one_bill ++ [b] /\
    Engine.getNextBill e'
      = match Engine.getNextBill engine_one_bill with
        | Some first => Some first
        | None => Some b
        end /\
    Engine.getBillCount e' = Engine.getBillCount engine_one_bill + 1 /\
    UndoStack.peek (undoStack e')
      = Some (mkAction ADD_BILL (Engine.billRecord b)).
Proof.
  apply (addBill_joins_the_back 1700000000 "Power" 60 "2023-12-01" "Bills"
           engine_one_bill).
  - split; simpl; lia.
  - simpl. lia.
Defined.

(** X12.  [payBill] on an id that no queued bill has answers [false] and
    changes nothing, the undo log included.  On the id of a queued bill
    it answers [true], marks the first bill with that id as paid and
    leaves every other bill, the order of the queue and the bill count as
    they were; this holds also when the bill was paid already. *)
Theorem payBill_marks_one_bill (i : string) (e : FinanceEngine) :
  undo_stack_ok (undoStack e) -> 2 <= UndoStack.maxSize (undoStack e) ->
  (~ In i (map bill_id (Engine.getAllBills e)) ->
   Engine.payBill i e = Some (false, e)) /\
  (forall b, BillQueue.findById i (billQueue e) = Some b ->
   exists e',
     Engine.payBill i e = Some (true, e') /\
     BillQueue.findById i (billQueue e') = Some (setPaid b true) /\
     (forall j, j <> i ->
        BillQueue.findById j (billQueue e') = BillQueue.findById j (billQueue e)) /\
     map bill_id (Engine.getAllBills e') = map bill_id (Engine.getAllBills e) /\
     Engine.getBillCount e' = Engine.getBillCount e /\
     UndoStack.peek (undoStack e') = Some (mkAction PAY_BILL i)).
Proof.
  intros Hs Hcap. split.
  - intro Hno. apply bill_findById_None in Hno.
    unfold Engine.payBill. unfold Engine.getAllBills, BillQueue.getAllBills in Hno.
    rewrite Hno. reflexivity.
  - intros b Hb.
    destruct (push_within_bound (mkAction PAY_BILL i) (undoStack e) Hcap Hs)
      as (s & P & _ & _ & N).
    assert (F : fst (BillQueue.markAsPaid i (billQueue e)) = true)
      by (apply markAsPaid_found; eauto).
    exists (Engine.set_billQueue (Engine.set_undoStack e s)
              (snd (BillQueue.markAsPaid i (billQueue e)))).
    split.
    + unfold Engine.payBill. rewrite Hb. unfold Engine.pushUndo, bind.
      rewrite P. cbn [billQueue Engine.set_undoStack].
      destruct (BillQueue.markAsPaid i (billQueue e)) as [r q].
      simpl in F. subst r. reflexivity.
    + unfold Engine.getAllBills, Engine.getBillCount, BillQueue.getAllBills,
        BillQueue.size.
      cbn [billQueue undoStack Engine.set_undoStack Engine.set_billQueue].
      destruct (markAsPaid_ids i (billQueue e)) as [I1 I2].
      split; [|split; [|split; [|split]]].
      * rewrite markAsPaid_findById, str_eq_refl, Hb. reflexivity.
      * intros j Nj. rewrite markAsPaid_findById.
        destruct (str_eq i j) eqn:E; [|reflexivity].
        apply str_eq_iff in E. congruence.
      * exact I1.
      * rewrite I2. reflexivity.
      * unfold UndoStack.peek. rewrite N.
        destruct (UndoStack.count (undoStack e) <? UndoStack.maxSize (undoStack e));
          reflexivity.
Qed.

Lemma payBill_marks_one_bill_witness :
  Engine.payBill "bill_9" engine_one_bill = Some (false, engine_one_bill).
Proof.
  apply (payBill_marks_one_bill "bill_9" engine_one_bill).
  - split; simpl; lia.
  - simpl. lia.
  - vm_compute. intros [H|[]]. discriminate H.
Defined.

(** X13.  [removeBill] on an id that no queued bill has answers [false]
    and changes nothing.  On the id of a queued bill it answers [true],
    unlinks the first bill with that id, keeps the other bills in their
    order, lowers the bill count by one and logs the bill for undo. *)
Theorem removeBill_unlinks_one_bill (i : string) (e : FinanceEngine) :
  undo_stack_ok (undoStack e) -> 2 <= UndoStack.maxSize (undoStack e) ->
  (~ In i (map bill_id (Engine.getAllBills e)) ->
   Engine.removeBill i e = Some (false, e)) /\
  (forall b, BillQueue.findById i (billQueue e) = Some b ->
   exists e' l1 l2,
     Engine.removeBill i e = Some (true, e') /\
     Engine.getAllBills e = l1 ++ b :: l2 /\
     (forall x, In x l1 -> bill_id x <> i) /\
     Engine.getAllBills e' = l1 ++ l2 /\
     Engine.getBillCount e' = Engine.getBillCount e - 1 /\
     (forall j, j <> i ->
        BillQueue.findById j (billQueue e') = BillQueue.findById j (billQueue e)) /\
     (NoDup (map bill_id (Engine.getAllBills e)) ->
      BillQueue.findById i (billQueue e') = None) /\
     UndoStack.peek (undoStack e')
       = Some (mkAction DELETE_BILL (Engine.billRecord b))).
Proof.
  intros Hs Hcap. split.
  - intro Hno. apply bill_findById_None in Hno.
    unfold Engine.removeBill.
    unfold Engine.getAllBills, BillQueue.getAllBills in Hno.
    rewrite Hno. reflexivity.
  - intros b Hb.
    destruct (push_within_bound (mkAction DELETE_BILL (Engine.billRecord b))
                (undoStack e) Hcap Hs) as (s & P & _ & _ & N).
    destruct (removeById_split i (billQueue e) b Hb) as (l1 & l2 & Q & N1 & R).
    exists (Engine.set_billQueue (Engine.set_undoStack e s) (l1 ++ l2)), l1, l2.
    split.
    + unfold Engine.removeBill. rewrite Hb. unfold Engine.pushUndo, bind.
      rewrite P. cbn [billQueue Engine.set_undoStack]. rewrite R. reflexivity.
    + unfold Engine.getAllBills, Engine.getBillCount, BillQueue.getAllBills,
        BillQueue.size.
      cbn [billQueue undoStack Engine.set_undoStack Engine.set_billQueue].
      split; [exact Q|]. split; [exact N1|]. split; [reflexivity|].
      split; [|split; [|split]].
      * rewrite Q, !length_app. simpl. lia.
      * intros j Nj.
        pose proof (removeById_findById_others i j (billQueue e)
                      (not_eq_sym Nj)) as H.
        rewrite R in H. exact H.
      * intro ND. apply bill_findById_None. rewrite Q in ND.
        rewrite map_app in ND. simpl in ND.
        apply NoDup_remove_2 in ND. rewrite <- map_app in ND.
        assert (Eb : bill_id b = i).
        { clear -Hb. induction (billQueue e) as [|y q IH]; simpl in Hb;
            [discriminate|].
          destruct (str_eq (bill_id y) i) eqn:E; [|auto].
          inversion Hb; subst y. apply str_eq_iff. exact E. }
        rewrite <- Eb. exact ND.
      * unfold UndoStack.peek. rewrite N.
        destruct (UndoStack.count (undoStack e) <? UndoStack.maxSize (undoStack e));
          reflexivity.
Qed.

Lemma removeBill_unlinks_one_bill_witness :
  Engine.removeBill "bill_9" engine_one_bill = Some (false, engine_one_bill).
Proof.
  apply (removeBill_unlinks_one_bill "bill_9" engine_one_bill).
  - split; simpl; lia.
  - simpl. lia.
  - vm_compute. intros [H|[]]. discriminate H.
Defined.

(* ------------------------------------------------------------------ *)
(** ** bst.h and linkedlist.h: deleting and listing by date *)

Lemma engine_three_dates_indexed :
  engine_indexed engine_three_dates log_three_dates.
Proof.
  split; [|split].
  - vm_compute. repeat split; repeat constructor.
  - vm_compute. reflexivity.
  - vm_compute. apply Permutation_refl.
Qed.

Lemma engine_four_dates_indexed :
  engine_indexed engine_four_dates log_four_dates.
Proof.
  apply loadTransaction_indexed. exact engine_three_dates_indexed.
Qed.

Lemma log_four_dates_ids : NoDup (map id log_four_dates).
Proof.
  vm_compute. repeat constructor; simpl; intuition discriminate.
Qed.

Lemma unique_id_eq (l : list Transaction) (x y : Transaction) :
  NoDup (map id l) -> In x l -> In y l -> id x = id y -> x = y.
Proof.
  induction l as [|z l IH]; simpl; intros ND Hx Hy E; [contradiction|].
  inversion ND as [|? ? Hz ND']; subst.
  destruct Hx as [<-|Hx], Hy as [<-|Hy]; auto.
  - exfalso. apply Hz. rewrite E. apply in_map. exact Hy.
  - exfalso. apply Hz. rewrite <- E. apply in_map. exact Hx.
Qed.

Lemma filter_other_ids_length (l : list Transaction) (x : Transaction) :
  NoDup (map id l) -> In x l ->
  S (List.length (filter (other_ids (id x)) l)) = List.length l.
Proof.
  induction l as [|z l IH]; simpl; intros ND Hx; [contradiction|].
  inversion ND as [|? ? Hz ND']; subst.
  unfold other_ids at 1. destruct (str_eq (id z) (id x)) eqn:E; simpl.
  - apply str_eq_iff in E. f_equal.
    rewrite filter_other_ids_none; [reflexivity|].
    apply Forall_forall. intros y Hy Ey. apply Hz. rewrite E, <- Ey.
    apply in_map. exact Hy.
  - f_equal. apply IH; [exact ND'|].
    destruct Hx as [->|Hx]; [rewrite str_eq_refl in E; discriminate|exact Hx].
Qed.

(** X14.  [deleteTransaction] on an id that no transaction of the
    ledger has answers [false] and changes nothing, the undo log
    included.  On the id of a transaction of the ledger it answers
    [true], takes that transaction out of the ledger and out of the date
    index, keeps the order of the others, and logs the transaction for
    undo. *)
Theorem deleteTransaction_removes_one (i : string) (e : FinanceEngine)
  (log : list Transaction) :
  engine_indexed e log -> NoDup (map id log) ->
  undo_stack_ok (undoStack e) -> 2 <= UndoStack.maxSize (undoStack e) ->
  (~ In i (map id (Engine.getAllTransactions e)) ->
   Engine.deleteTransaction i e = Some (false, e)) /\
  (forall x, In x (Engine.getAllTransactions e) -> id x = i ->
   exists e',
     Engine.deleteTransaction i e = Some (true, e') /\
     Engine.getAllTransactions e'
       = filter (other_ids i) (Engine.getAllTransactions e) /\
     ~ In x (Engine.getAllTransactions e') /\
     Engine.getTransactionCount e' = Engine.getTransactionCount e - 1 /\
     Engine.getTransactionsByDateAsc e'
       = filter (other_ids i) (Engine.getTransactionsByDateAsc e) /\
     UndoStack.peek (undoStack e')
       = Some (mkAction DELETE_TRANSACTION (Engine.transactionRecord x))).
Proof.
  intros Hidx ND Hs Hcap.
  pose proof Hidx as (Bok & Bin & Bperm).
  assert (NDl : NoDup (map id (transactionList e)))
    by (apply (NoDup_ids_Permutation log); assumption).
  assert (Pin : Permutation (BST.inorderTraversal (transactionBST e))
                            (transactionList e)).
  { rewrite Bin. apply (Permutation_trans (by_date_Permutation log)).
    exact Bperm. }
  unfold Engine.getAllTransactions, DoublyLinkedList.traverseForward,
    Engine.getTransactionCount, DoublyLinkedList.size,
    Engine.getTransactionsByDateAsc.
  split.
  - intro Hno. unfold Engine.deleteTransaction, BST.findById.
    destruct (BST.findHelper (transactionBST e) i) as [y|] eqn:F;
      [|reflexivity].
    apply findHelper_Some in F. destruct F as [Hy Ey].
    exfalso. apply Hno. rewrite <- Ey. apply in_map.
    apply (Permutation_in _ Pin). exact Hy.
  - intros x Hx Ex.
    assert (Find : BST.findById i (transactionBST e) = Some x).
    { unfold BST.findById.
      destruct (BST.findHelper (transactionBST e) i) as [y|] eqn:F.
      - apply findHelper_Some in F. destruct F as [Hy Ey].
        apply (Permutation_in _ Pin) in Hy. f_equal.
        apply (unique_id_eq (transactionList e)); congruence.
      - apply findHelper_None in F.
        apply (Permutation_Forall Pin) in F.
        rewrite Forall_forall in F. exfalso. apply (F x Hx Ex). }
    destruct (push_within_bound
                (mkAction DELETE_TRANSACTION (Engine.transactionRecord x))
                (undoStack e) Hcap Hs) as (s & P & _ & _ & N).
    pose proof (deleteTransaction_found i e x s Find P) as Del.
    eexists. split; [exact Del|].
    rewrite updateExpenseTracking_list, updateExpenseTracking_bst,
      updateExpenseTracking_undoStack.
    cbn [transactionList transactionBST undoStack Engine.set_undoStack
         Engine.set_transactionList Engine.set_transactionBST].
    rewrite list_deleteById_filter by exact NDl.
    split; [reflexivity|]. split; [|split; [|split]].
    + intro H. apply filter_In in H. destruct H as [_ H].
      unfold other_ids in H. rewrite Ex, str_eq_refl in H. discriminate.
    + subst i. pose proof (filter_other_ids_length _ x NDl Hx). lia.
    + unfold BST.deleteById. apply delete_inorder.
      apply (NoDup_ids_Permutation (transactionList e));
        [apply Permutation_sym; exact Pin|exact NDl].
    + unfold UndoStack.peek. rewrite N.
      destruct (UndoStack.count (undoStack e) <? UndoStack.maxSize (undoStack e));
        reflexivity.
Qed.

Lemma deleteTransaction_removes_one_witness :
  Engine.deleteTransaction "zz" engine_four_dates
    = Some (false, engine_four_dates).
Proof.
  apply (deleteTransaction_removes_one "zz" engine_four_dates log_four_dates).
  - exact engine_four_dates_indexed.
  - exact log_four_dates_ids.
  - vm_compute. split; [reflexivity|discriminate].
  - vm_compute. discriminate.
  - vm_compute. intuition discriminate.
Defined.

Lemma reverseInorderHelper_acc (t : BSTNode) (acc : list Transaction) :
  BST.reverseInorderHelper t acc = acc ++ BST.reverseInorderHelper t [].
Proof.
  revert acc. induction t as [|d txs l IHl r IHr]; intro acc; simpl.
  - rewrite app_nil_r. reflexivity.
  - rewrite IHl, IHr. rewrite (IHl (_ ++ txs)), (IHr []).
    simpl. rewrite !app_assoc. reflexivity.
Qed.

Lemma reverse_node (d : string) (txs : list Transaction) (l r : BSTNode) :
  BST.reverseInorderTraversal (Node d txs l r)
    = BST.reverseInorderTraversal r ++ txs ++ BST.reverseInorderTraversal l.
Proof.
  unfold BST.reverseInorderTraversal. simpl.
  rewrite reverseInorderHelper_acc. rewrite <- app_assoc. reflexivity.
Qed.

Lemma reverse_Permutation (t : BSTNode) :
  Permutation (BST.reverseInorderTraversal t) (BST.inorderTraversal t).
Proof.
  induction t as [|d txs l IHl r IHr]; [apply Permutation_refl|].
  rewrite reverse_node, inorder_node.
  apply (Permutation_trans (Permutation_app_comm _ _)).
  apply (Permutation_trans
           (Permutation_app_tail _ (Permutation_app_comm txs _))).
  rewrite <- app_assoc.
  apply Permutation_app; [exact IHl|].
  apply Permutation_app_head. exact IHr.
Qed.

Lemma StronglySorted_app {A : Type} (R : A -> A -> Prop) (a b : list A) :
  StronglySorted R a -> StronglySorted R b ->
  (forall x y, In x a -> In y b -> R x y) ->
  StronglySorted R (a ++ b).
Proof.
  intros Sa Sb H. induction Sa as [|x a Sa IH Hx]; simpl; [exact Sb|].
  constructor.
  - apply IH. intros u v Hu Hv. apply H; [right; exact Hu|exact Hv].
  - apply Forall_app. split; [exact Hx|].
    apply Forall_forall. intros y Hy. apply H; [left; reflexivity|exact Hy].
Qed.

Lemma reverse_dates (P : string -> Prop) (t : BSTNode) :
  bst_ok t -> all_dates P t ->
  Forall (fun x => P (date x)) (BST.reverseInorderTraversal t).
Proof.
  intros Hok Hall.
  apply (Permutation_Forall (Permutation_sym (reverse_Permutation t))).
  apply inorder_dates; assumption.
Qed.

Lemma same_date_sorted (R : Transaction -> Transaction -> Prop)
  (d : string) (txs : list Transaction) :
  (forall a b, date a = d -> date b = d -> R a b) ->
  Forall (fun x => date x = d) txs -> StronglySorted R txs.
Proof.
  intros HR H. induction H as [|x txs Hx H IH]; constructor; [exact IH|].
  apply Forall_forall. intros y Hy. rewrite Forall_forall in H.
  apply HR; [exact Hx|apply H; exact Hy].
Qed.

Lemma str_le_refl (a : string) : str_le a a = true.
Proof. unfold str_le. rewrite str_lt_irrefl. reflexivity. Qed.

Lemma str_lt_le (a b : string) : str_lt a b = true -> str_le a b = true.
Proof. intro H. unfold str_le. rewrite (str_lt_asym a b H). reflexivity. Qed.

Lemma reverse_descending (t : BSTNode) :
  bst_ok t -> descending (BST.reverseInorderTraversal t).
Proof.
  unfold descending.
  induction t as [|d txs l IHl r IHr]; [intros _; constructor|].
  intros (Hl & Hr & Htx & Okl & Okr). rewrite reverse_node.
  pose proof (reverse_dates _ l Okl Hl) as Dl.
  pose proof (reverse_dates _ r Okr Hr) as Dr.
  rewrite Forall_forall in Dl, Dr, Htx.
  apply StronglySorted_app; [apply IHr; exact Okr| |].
  - apply StronglySorted_app; [|apply IHl; exact Okl|].
    + apply (same_date_sorted _ d).
      * intros a b -> <-. apply str_le_refl.
      * apply Forall_forall. exact Htx.
    + intros x y Hx Hy. rewrite (Htx x Hx). apply str_lt_le, Dl, Hy.
  - intros x y Hx Hy. apply in_app_or in Hy. destruct Hy as [Hy|Hy].
    + rewrite (Htx y Hy). apply str_lt_le, Dr, Hx.
    + apply str_lt_le. apply (str_lt_trans _ d); [apply Dl|apply Dr]; assumption.
Qed.

Lemma filter_none {A : Type} (f : A -> bool) (l : list A) :
  Forall (fun x => f x = false) l -> filter f l = [].
Proof.
  intro H. induction H as [|x l Hx H IH]; simpl; [reflexivity|].
  rewrite Hx. exact IH.
Qed.

Lemma dated_excluded (P : string -> Prop) (d : string)
  (l : list Transaction) :
  (forall s, P s -> s <> d) ->
  Forall (fun x => P (date x)) l -> filter (dated d) l = [].
Proof.
  intros HP H. apply filter_none.
  apply Forall_forall. rewrite Forall_forall in H. intros x Hx.
  unfold dated. apply str_eq_neq. apply HP, H, Hx.
Qed.

Lemma str_lt_neq (a b : string) : str_lt a b = true -> a <> b.
Proof. intros H ->. rewrite str_lt_irrefl in H. discriminate. Qed.

Lemma reverse_same_day (d : string) (t : BSTNode) :
  bst_ok t ->
  filter (dated d) (BST.reverseInorderTraversal t)
    = filter (dated d) (BST.inorderTraversal t).
Proof.
  induction t as [|nd txs l IHl r IHr]; [reflexivity|].
  intros (Hl & Hr & Htx & Okl & Okr).
  rewrite reverse_node, inorder_node, !filter_app.
  rewrite IHl, IHr by assumption.
  set (fl := filter (dated d) (BST.inorderTraversal l)).
  set (fr := filter (dated d) (BST.inorderTraversal r)).
  destruct (str_lt d nd) eqn:L1.
  - assert (Er : fr = []).
    { apply (dated_excluded (fun s => str_lt nd s = true)).
      - intros s Hs ->. rewrite (str_lt_asym _ _ L1) in Hs. discriminate.
      - apply (inorder_dates (fun s => str_lt nd s = true)); assumption. }
    assert (Et : filter (dated d) txs = []).
    { apply filter_none. apply Forall_forall. rewrite Forall_forall in Htx.
      intros x Hx. unfold dated. rewrite (Htx x Hx).
      apply str_eq_neq. apply not_eq_sym, str_lt_neq. exact L1. }
    rewrite Er, Et. simpl. rewrite app_nil_r. reflexivity.
  - assert (El : fl = []).
    { apply (dated_excluded (fun s => str_lt s nd = true)).
      - intros s Hs ->. congruence.
      - apply (inorder_dates (fun s => str_lt s nd = true)); assumption. }
    rewrite El. simpl. rewrite app_nil_r.
    destruct (str_lt nd d) eqn:L2.
    + assert (Et : filter (dated d) txs = []).
      { apply filter_none. apply Forall_forall. rewrite Forall_forall in Htx.
        intros x Hx. unfold dated. rewrite (Htx x Hx).
        apply str_eq_neq. apply str_lt_neq. exact L2. }
      rewrite Et. simpl. rewrite app_nil_r. reflexivity.
    + assert (Er : fr = []).
      { apply (dated_excluded (fun s => str_lt nd s = true)).
        - intros s Hs ->. congruence.
        - apply (inorder_dates (fun s => str_lt nd s = true)); assumption. }
      rewrite Er. rewrite app_nil_r. reflexivity.
Qed.

(** X15.  [getTransactionsByDateAsc] lists the transactions of the
    ledger in ascending order of date, the transactions of one date in
    the order they were entered: it is the stable sort by date of the
    transactions in entry order. *)
Theorem transactions_by_date_ascending (e : FinanceEngine)
  (log : list Transaction) :
  engine_indexed e log ->
  Engine.getTransactionsByDateAsc e = by_date log /\
  ascending (Engine.getTransactionsByDateAsc e) /\
  Permutation (Engine.getTransactionsByDateAsc e)
              (Engine.getAllTransactions e) /\
  (forall d, filter (dated d) (Engine.getTransactionsByDateAsc e)
             = filter (dated d) log).
Proof.
  intros (Bok & Bin & Bperm). unfold Engine.getTransactionsByDateAsc.
  rewrite Bin. split; [reflexivity|]. split; [apply by_date_ascending|].
  split.
  - apply (Permutation_trans (by_date_Permutation log)). exact Bperm.
  - intro d. apply by_date_stable.
Qed.

Lemma transactions_by_date_ascending_witness :
  Engine.getTransactionsByDateAsc engine_four_dates = by_date log_four_dates.
Proof.
  exact (proj1 (transactions_by_date_ascending engine_four_dates
                  log_four_dates engine_four_dates_indexed)).
Defined.

(** X16.  [getTransactionsByDateDesc] lists the same transactions in
    descending order of date.  The transactions of one date come in the
    order they were entered, as in the ascending listing, so the
    descending listing is not the ascending one reversed when two
    transactions share a date. *)
Theorem transactions_by_date_descending (e : FinanceEngine)
  (log : list Transaction) :
  engine_indexed e log ->
  descending (Engine.getTransactionsByDateDesc e) /\
  Permutation (Engine.getTransactionsByDateDesc e)
              (Engine.getTransactionsByDateAsc e) /\
  (forall d, filter (dated d) (Engine.getTransactionsByDateDesc e)
             = filter (dated d) log).
Proof.
  intros (Bok & Bin & Bperm).
  unfold Engine.getTransactionsByDateDesc, Engine.getTransactionsByDateAsc.
  split; [apply reverse_descending; exact Bok|].
  split; [apply reverse_Permutation|].
  intro d. rewrite reverse_same_day by exact Bok. rewrite Bin.
  apply by_date_stable.
Qed.

Lemma transactions_by_date_descending_witness :
  filter (dated "2024-01-15") (Engine.getTransactionsByDateDesc engine_four_dates)
    = filter (dated "2024-01-15") log_four_dates.
Proof.
  exact (proj2 (proj2 (transactions_by_date_descending engine_four_dates
                         log_four_dates engine_four_dates_indexed))
           "2024-01-15").
Defined.

Example descending_is_not_ascending_reversed :
  map id (Engine.getTransactionsByDateAsc engine_four_dates)
    = ["a"; "b"; "d"; "c"] /\
  map id (Engine.getTransactionsByDateDesc engine_four_dates)
    = ["c"; "b"; "d"; "a"].
Proof. vm_compute. split; reflexivity. Qed.

Lemma compare_common_prefix (p a b : string) :
  String.compare (p ++ a) (p ++ b) = String.compare a b.
Proof.
  induction p as [|c p IH]; simpl; [reflexivity|].
  rewrite ascii_compare_refl. exact IH.
Qed.

Lemma str_le_common_prefix (p a b : string) :
  str_le (p ++ a) (p ++ b) = str_le a b.
Proof.
  unfold str_le, str_lt, String.ltb. rewrite compare_common_prefix.
  reflexivity.
Qed.

Lemma str_le_compare (a b : string) :
  str_le a b = true <-> String.compare b a <> Lt.
Proof.
  unfold str_le, str_lt, String.ltb.
  destruct (String.compare b a); simpl; split; congruence.
Qed.

Lemma between_has_prefix (p a b d : string) :
  str_le (p ++ a) d = true -> str_le d (p ++ b) = true ->
  exists s, d = (p ++ s)%string.
Proof.
  rewrite !str_le_compare. revert d.
  induction p as [|c p IH]; intros d H1 H2; simpl in *.
  - exists d. reflexivity.
  - destruct d as [|c' d]; simpl in *; [congruence|].
    rewrite (Ascii.compare_antisym c c') in H2.
    destruct (Ascii.compare c' c) eqn:E; simpl in *; try congruence.
    apply Ascii.compare_eq_iff in E. subst c'.
    destruct (IH d H1 H2) as [s ->]. exists s. reflexivity.
Qed.

Lemma string_app_assoc (a b c : string) :
  ((a ++ b) ++ c = a ++ (b ++ c))%string.
Proof. induction a as [|x a IH]; simpl; [reflexivity|rewrite IH; reflexivity]. Qed.

(** X17.  [getByMonth yearMonth] lists, in ascending order of date, the
    transactions of the date index whose date is [yearMonth], a dash and
    a day part between "01" and "31" in string order; a date of another
    month, or one that does not start with [yearMonth] and a dash, is not
    listed. *)
Theorem month_query_lists_the_month (yearMonth : string) (e : FinanceEngine)
  (log : list Transaction) :
  engine_indexed e log ->
  let res := BST.getByMonth yearMonth (transactionBST e) in
  (forall x, In x res <-> In x (Engine.getAllTransactions e) /\
                          in_month yearMonth x) /\
  ascending res /\
  res = filter (in_range (yearMonth ++ "-01") (yearMonth ++ "-31"))
               (by_date log).
Proof.
  intros (Bok & Bin & Bperm) res.
  assert (E : res = filter (in_range (yearMonth ++ "-01") (yearMonth ++ "-31"))
                           (by_date log)).
  { unfold res, BST.getByMonth. rewrite rangeQuery_filter by exact Bok.
    rewrite Bin. reflexivity. }
  assert (Hin : forall x,
            In x res <->
            In x (Engine.getAllTransactions e) /\
            str_le (yearMonth ++ "-01") (date x) = true /\
            str_le (date x) (yearMonth ++ "-31") = true).
  { intro x. rewrite E, filter_In. unfold in_range.
    rewrite andb_true_iff.
    assert (M : In x (by_date log) <-> In x (Engine.getAllTransactions e)).
    { split; intro H.
      - apply (Permutation_in _ Bperm).
        apply (Permutation_in _ (by_date_Permutation log)). exact H.
      - apply (Permutation_in _ (Permutation_sym (by_date_Permutation log))).
        apply (Permutation_in _ (Permutation_sym Bperm)). exact H. }
    rewrite M. tauto. }
  split; [|split; [rewrite E; apply filter_ascending, by_date_ascending
                  |exact E]].
  intro x. rewrite Hin. unfold in_month.
  replace (yearMonth ++ "-01")%string with ((yearMonth ++ "-") ++ "01")%string
    by apply string_app_assoc.
  replace (yearMonth ++ "-31")%string with ((yearMonth ++ "-") ++ "31")%string
    by apply string_app_assoc.
  split.
  - intros (Hx & H1 & H2). split; [exact Hx|].
    destruct (between_has_prefix _ _ _ _ H1 H2) as [day Hd].
    exists day. rewrite Hd in H1, H2. rewrite str_le_common_prefix in H1, H2.
    rewrite Hd. split; [apply string_app_assoc|]. split; assumption.
  - intros (Hx & day & Hd & H1 & H2). split; [exact Hx|].
    rewrite Hd. rewrite <- string_app_assoc.
    rewrite !str_le_common_prefix. split; assumption.
Qed.

Lemma month_query_lists_the_month_witness :
  BST.getByMonth "2024-01" (transactionBST engine_four_dates)
    = filter (in_range ("2024-01" ++ "-01") ("2024-01" ++ "-31"))
             (by_date log_four_dates).
Proof.
  exact (proj2 (proj2 (month_query_lists_the_month "2024-01"
                         engine_four_dates log_four_dates
                         engine_four_dates_indexed))).
Defined.

(* ------------------------------------------------------------------ *)
(** ** heap.h: building, inserting and extracting *)

Section HeapLaws.

Context {T : Type} (key : T -> Q).

Abbreviation heap := (list T).

Lemma child_parent (k c : nat) :
  c = Heap.leftChild k \/ c = Heap.rightChild k ->
  Heap.parent c = k /\ (k < c)%nat.
Proof.
  unfold Heap.leftChild, Heap.rightChild, Heap.parent.
  intros [->| ->]; split; try lia.
  - replace (2 * k + 1 - 1)%nat with (k * 2)%nat by lia.
    apply Nat.div_mul. lia.
  - replace (2 * k + 2 - 1)%nat with (1 + k * 2)%nat by lia.
    rewrite Nat.div_add by lia. reflexivity.
Qed.

Lemma parent_child (i : nat) :
  (0 < i)%nat ->
  i = Heap.leftChild (Heap.parent i) \/ i = Heap.rightChild (Heap.parent i).
Proof.
  intro H. unfold Heap.leftChild, Heap.rightChild, Heap.parent.
  pose proof (Nat.div_mod_eq (i - 1) 2) as D.
  pose proof (Nat.mod_upper_bound (i - 1) 2) as U.
  destruct ((i - 1) mod 2)%nat as [|[|m]] eqn:E; lia.
Qed.

Lemma sift_up_done (h : heap) (i : nat) :
  sift_up_inv key h i ->
  (0 <? i)%nat && Heap.gt_at key h i (Heap.parent i) = false ->
  heap_from key h 0.
Proof.
  intros [I1 I2] Hc k _ x c y Hx Hch Hy.
  destruct (Nat.eq_dec c i) as [->|N]; [|apply (I1 k x c y); assumption].
  destruct (child_parent k i Hch) as [Hp Hlt].
  assert (P : (0 <? i)%nat = true) by (apply Nat.ltb_lt; lia).
  rewrite P in Hc. simpl in Hc. rewrite Hp in Hc.
  apply (gt_at_false key h i k y x Hc Hy Hx).
Qed.

Lemma sift_up_step (h : heap) (i : nat) :
  sift_up_inv key h i -> (0 < i)%nat ->
  Heap.gt_at key h i (Heap.parent i) = true ->
  sift_up_inv key (Heap.swap h (Heap.parent i) i) (Heap.parent i).
Proof.
  intros [I1 I2] Hpos Hgt.
  destruct (gt_at_true key h i (Heap.parent i) Hgt) as (xi & xp & Ei & Ep & Hlt).
  pose proof (parent_lt i Hpos) as Hpi.
  pose proof (parent_child i Hpos) as Hci.
  set (p := Heap.parent i) in *.
  assert (Npi : p <> i) by lia.
  pose proof (fun k => nth_error_swap h p i k xp xi Ep Ei Npi) as Sw.
  split.
  - intros k x c y Hx Hch Ncp Hy.
    destruct (child_parent k c Hch) as [Hpc Hkc].
    rewrite Sw in Hx, Hy.
    destruct (Nat.eqb_spec c p) as [->|_]; [contradiction|].
    destruct (Nat.eqb_spec k p) as [->|Nkp].
    + inversion Hx; subst x.
      destruct (Nat.eqb_spec c i) as [->|Nci].
      * inversion Hy; subst y. lra.
      * pose proof (I1 p xp c y Ep Hch Nci Hy). lra.
    + destruct (Nat.eqb_spec k i) as [->|Nki].
      * inversion Hx; subst x.
        destruct (Nat.eqb_spec c i) as [->|Nci]; [lia|].
        apply (I2 p xp c y Hci Ep Hch Hy).
      * destruct (Nat.eqb_spec c i) as [->|Nci].
        -- exfalso. apply Nkp. unfold p. rewrite <- Hpc. reflexivity.
        -- apply (I1 k x c y Hx Hch Nci Hy).
  - intros g x c y Hpg Hx Hch Hy.
    destruct (child_parent g p Hpg) as [_ Hgp].
    destruct (child_parent p c Hch) as [_ Hpc].
    rewrite Sw in Hx, Hy.
    destruct (Nat.eqb_spec g p) as [->|_]; [lia|].
    destruct (Nat.eqb_spec g i) as [->|_]; [lia|].
    destruct (Nat.eqb_spec c p) as [->|_]; [lia|].
    assert (Hpx : (key xp <= key x)%Q).
    { apply (I1 g x p xp Hx Hpg Npi Ep). }
    destruct (Nat.eqb_spec c i) as [->|Nci].
    + inversion Hy; subst y. exact Hpx.
    + pose proof (I1 p xp c y Ep Hch Nci Hy). lra.
Qed.

Lemma heapifyUp_heap (i : nat) :
  forall h : heap,
    (i < List.length h)%nat -> sift_up_inv key h i ->
    heap_from key (Heap.heapifyUp key h i) 0 /\
    Permutation (Heap.heapifyUp key h i) h.
Proof.
  induction i as [i IH] using lt_wf_ind. intros h Hlen Hinv.
  rewrite heapifyUp_equation by exact Hlen.
  destruct ((0 <? i)%nat && Heap.gt_at key h i (Heap.parent i)) eqn:C.
  - apply andb_prop in C. destruct C as [P G]. apply Nat.ltb_lt in P.
    pose proof (parent_lt i P) as Hp.
    destruct (IH (Heap.parent i) Hp (Heap.swap h (Heap.parent i) i))
      as [H1 H2].
    + rewrite swap_length. lia.
    + apply sift_up_step; assumption.
    + split; [exact H1|].
      apply (Permutation_trans H2). apply swap_Permutation.
  - split; [|apply Permutation_refl].
    apply (sift_up_done h i); assumption.
Qed.

Lemma sift_up_start (h : heap) (x : T) :
  heap_from key h 0 -> sift_up_inv key (h ++ [x]) (List.length h).
Proof.
  intro Hh. split.
  - intros k a c b Ha Hch Nc Hb.
    destruct (child_parent k c Hch) as [_ Hkc].
    assert (Lc : (c < List.length (h ++ [x]))%nat)
      by (apply nth_error_Some; congruence).
    rewrite length_app in Lc. simpl in Lc.
    rewrite nth_error_app1 in Ha, Hb by lia.
    apply (Hh k (Nat.le_0_l k) a c b Ha Hch Hb).
  - intros p a c b Hp Ha Hch Hb.
    destruct (child_parent _ c Hch) as [_ Hlt].
    assert (Lc : (c < List.length (h ++ [x]))%nat)
      by (apply nth_error_Some; congruence).
    rewrite length_app in Lc. simpl in Lc. lia.
Qed.

(** X18.  [buildHeap] rearranges the given elements into a max-heap:
    the vector holds the same elements, every node is at least as large
    as its children, and the root is a largest element. *)
Theorem buildHeap_makes_a_heap (xs : heap) :
  Permutation (Heap.buildHeap key xs) xs /\
  heap_from key (Heap.buildHeap key xs) 0 /\
  (Heap.peek (Heap.buildHeap key xs) = None <-> xs = []) /\
  (forall r, Heap.peek (Heap.buildHeap key xs) = Some r ->
             In r xs /\ forall y, In y xs -> (key y <= key r)%Q).
Proof.
  pose proof (buildHeap_Permutation key xs) as P.
  pose proof (buildHeap_heap key xs) as H.
  split; [exact P|]. split; [exact H|]. split.
  - unfold Heap.peek. destruct (Heap.buildHeap key xs) as [|r h] eqn:E.
    + split; [intros _|reflexivity].
      apply Permutation_nil. exact P.
    + split; [discriminate|]. intros ->.
      apply Permutation_sym, Permutation_nil in P. discriminate.
  - intros r Hr. unfold Heap.peek in Hr.
    destruct (Heap.buildHeap key xs) as [|r0 h] eqn:E; [discriminate|].
    inversion Hr; subst r0. split.
    + apply (Permutation_in _ P). left. reflexivity.
    + intros y Hy. apply (Permutation_in _ (Permutation_sym P)) in Hy.
      apply In_nth_error in Hy. destruct Hy as [j Hj].
      apply (heap_root_max key (r :: h) r H eq_refl j y Hj).
Qed.

(** X19.  [insert] keeps a max-heap a max-heap and adds exactly the new
    element to it. *)
Theorem heap_insert_keeps_heap (x : T) (h : heap) :
  heap_from key h 0 ->
  heap_from key (Heap.insert key x h) 0 /\
  Permutation (Heap.insert key x h) (x :: h) /\
  Heap.size (Heap.insert key x h) = Heap.size h + 1.
Proof.
  intro Hh. unfold Heap.insert.
  assert (L : (List.length (h ++ [x]) - 1 = List.length h)%nat)
    by (rewrite length_app; simpl; lia).
  rewrite L.
  destruct (heapifyUp_heap (List.length h) (h ++ [x])) as [H1 H2].
  - rewrite length_app. simpl. lia.
  - apply sift_up_start. exact Hh.
  - split; [exact H1|]. split.
    + apply (Permutation_trans H2). apply Permutation_sym.
      apply Permutation_cons_append.
    + unfold Heap.size. rewrite (Permutation_length H2), length_app.
      simpl. lia.
Qed.

(** X20.  [extractMax] on an empty heap answers nothing; on a max-heap
    it answers a largest element, removes that one element and leaves a
    max-heap. *)
Theorem extractMax_takes_the_largest (h : heap) :
  heap_from key h 0 ->
  (Heap.extractMax key h = None <-> h = []) /\
  (forall x h', Heap.extractMax key h = Some (x, h') ->
     Heap.peek h = Some x /\
     (forall y, In y h -> (key y <= key x)%Q) /\
     Permutation (x :: h') h /\
     heap_from key h' 0 /\
     Heap.size h' = Heap.size h - 1).
Proof.
  intro Hh. split.
  - destruct h; simpl; split; try discriminate; reflexivity.
  - intros x h' E.
    pose proof (extractMax_Permutation key h h' x E) as P.
    destruct (extractMax_heap key h h' x Hh E) as [H1 H2].
    split; [|split; [exact H2|split; [exact P|split; [exact H1|]]]].
    + destruct h as [|r rest]; [discriminate|].
      simpl in E. inversion E. reflexivity.
    + unfold Heap.size. rewrite <- (Permutation_length P). simpl List.length.
      lia.
Qed.

End HeapLaws.

Lemma heap_insert_keeps_heap_witness :
  Permutation
    (Heap.insert amount (mkTransaction "t6" "expense" 70 "Food" "" "2024-03-02")
       (Heap.buildHeap amount five_amounts))
    (mkTransaction "t6" "expense" 70 "Food" "" "2024-03-02"
       :: Heap.buildHeap amount five_amounts).
Proof.
  exact (proj1 (proj2 (heap_insert_keeps_heap amount
                         (mkTransaction "t6" "expense" 70 "Food" "" "2024-03-02")
                         (Heap.buildHeap amount five_amounts)
                         (buildHeap_heap amount five_amounts)))).
Defined.

Lemma extractMax_takes_the_largest_witness :
  Heap.extractMax amount (Heap.buildHeap amount five_amounts) = None
  <-> Heap.buildHeap amount five_amounts = [].
Proof.
  exact (proj1 (extractMax_takes_the_largest amount
                  (Heap.buildHeap amount five_amounts)
                  (buildHeap_heap amount five_amounts))).
Defined.

Example heap_of_five :
  map amount (Heap.buildHeap amount five_amounts)
    = [90%Q; 50%Q; 30%Q; 10%Q; 20%Q] /\
  map amount
    (Heap.insert amount (mkTransaction "t6" "expense" 70 "Food" "" "2024-03-02")
       (Heap.buildHeap amount five_amounts))
    = [90%Q; 50%Q; 70%Q; 10%Q; 20%Q; 30%Q].
Proof. vm_compute. split; reflexivity. Qed.

(* ------------------------------------------------------------------ *)
(** ** finance_engine.h: totals and the monthly summary *)

Lemma exact_amounts_each (k : Z) (l : list Transaction) :
  exact_amounts k l ->
  Forall (fun x => (0 <= amount x)%Q /\ on_grid k (amount x)) l.
Proof. intros (_ & F & _). exact F. Qed.

(** The loop [total += t.amount] from [a] on amounts that add up without
    rounding. *)
Lemma fold_sum (k : Z) (l : list Transaction) (a : Q) :
  - 1074 <= k ->
  Forall (fun x => (0 <= amount x)%Q /\ on_grid k (amount x)) l ->
  on_grid k a -> (0 <= a)%Q -> (a + sum_amounts l < 2 ^ (k + 53))%Q ->
  (fold_left (fun total x => Double.add total (amount x)) l a
   == a + sum_amounts l)%Q.
Proof.
  intros Hk F. revert a.
  induction F as [|x l [Hx Gx] F IH]; intros a Ga Ha B; simpl.
  - lra.
  - simpl in B.
    assert (P : (0 <= sum_amounts l)%Q).
    { apply sum_amounts_nonneg. refine (Forall_impl _ _ F). tauto. }
    assert (E : (Double.add a (amount x) == a + amount x)%Q).
    { unfold Double.add. apply (round_on_grid k); [exact Hk| |].
      - apply on_grid_add; assumption.
      - rewrite Qabs_pos; lra. }
    rewrite IH.
    + rewrite E. lra.
    + apply (on_grid_comp k (a + amount x)); [symmetry; exact E|].
      apply on_grid_add; assumption.
    + rewrite E. lra.
    + rewrite E. lra.
Qed.

Lemma fold_sum_exact (k : Z) (l : list Transaction) :
  exact_amounts k l ->
  (fold_left (fun total x => Double.add total (amount x)) l 0
   == sum_amounts l)%Q.
Proof.
  intros (Hk & F & B). rewrite (fold_sum k); try assumption.
  - lra.
  - apply on_grid_zero.
  - lra.
  - lra.
Qed.

(** The loop of [getTotalBalance] from [a]. *)
Lemma fold_balance (k : Z) (l : list Transaction) (a : Q) :
  - 1074 <= k ->
  Forall (fun x => (0 <= amount x)%Q /\ on_grid k (amount x)) l ->
  on_grid k a -> (Qabs a + sum_amounts l < 2 ^ (k + 53))%Q ->
  (fold_left
     (fun balance x =>
        if str_eq (type x) "income" then Double.add balance (amount x)
        else Double.sub balance (amount x)) l a
   == a + sum_amounts (filter is_income l)
        - sum_amounts (filter (fun x => negb (is_income x)) l))%Q.
Proof.
  intros Hk F. revert a.
  induction F as [|x l [Hx Gx] F IH]; intros a Ga B; simpl.
  - lra.
  - simpl in B.
    assert (P : (0 <= sum_amounts l)%Q).
    { apply sum_amounts_nonneg. refine (Forall_impl _ _ F). tauto. }
    pose proof (Qabs_triangle a (amount x)) as T1.
    pose proof (Qabs_triangle a (- amount x)) as T2.
    rewrite Qabs_opp in T2.
    rewrite (Qabs_pos (amount x) Hx) in T1, T2.
    change (is_income x) with (str_eq (type x) "income").
    destruct (str_eq (type x) "income"); simpl.
    + assert (E : (Double.add a (amount x) == a + amount x)%Q).
      { unfold Double.add. apply (round_on_grid k); [exact Hk| |lra].
        apply on_grid_add; assumption. }
      rewrite IH.
      * rewrite E. lra.
      * apply (on_grid_comp k (a + amount x)); [symmetry; exact E|].
        apply on_grid_add; assumption.
      * rewrite E. lra.
    + assert (E : (Double.sub a (amount x) == a - amount x)%Q).
      { unfold Double.sub. apply (round_on_grid k); [exact Hk| |].
        - apply on_grid_sub; assumption.
        - unfold Qminus. lra. }
      rewrite IH.
      * rewrite E. lra.
      * apply (on_grid_comp k (a - amount x)); [symmetry; exact E|].
        apply on_grid_sub; assumption.
      * rewrite E. unfold Qminus. lra.
Qed.

Lemma filter_ext_Forall {A : Type} (f g : A -> bool) (l : list A) :
  Forall (fun x => f x = g x) l -> filter f l = filter g l.
Proof.
  intro H. induction H as [|x l Hx H IH]; simpl; [reflexivity|].
  rewrite Hx, IH. reflexivity.
Qed.

(** X21.  On a ledger whose amounts add up without rounding,
    [getTotalIncome] and [getTotalExpenses] are the sums of the amounts
    of the transactions of type "income" and "expense", and
    [getTotalBalance] is the income minus the amounts of all other
    transactions, whatever their type, so it is
    [getTotalIncome - getTotalExpenses] when every transaction is an
    income or an expense. *)
Theorem balance_is_income_minus_the_rest (e : FinanceEngine) (k : Z) :
  let l := Engine.getAllTransactions e in
  exact_amounts k l ->
  (Engine.getTotalIncome e == sum_amounts (filter is_income l))%Q /\
  (Engine.getTotalExpenses e == sum_amounts (filter is_expense l))%Q /\
  (Engine.getTotalBalance e
   == Engine.getTotalIncome e
      - sum_amounts (filter (fun x => negb (is_income x)) l))%Q /\
  (Forall (fun x => type x = "income" \/ type x = "expense") l ->
   (Engine.getTotalBalance e
    == Engine.getTotalIncome e - Engine.getTotalExpenses e)%Q).
Proof.
  intros l Ex.
  assert (I : (Engine.getTotalIncome e == sum_amounts (filter is_income l))%Q).
  { unfold Engine.getTotalIncome, DoublyLinkedList.filterByType.
    apply (fold_sum_exact k). apply exact_amounts_filter. exact Ex. }
  assert (X : (Engine.getTotalExpenses e
               == sum_amounts (filter is_expense l))%Q).
  { unfold Engine.getTotalExpenses, DoublyLinkedList.filterByType.
    apply (fold_sum_exact k). apply exact_amounts_filter. exact Ex. }
  assert (B : (Engine.getTotalBalance e
               == Engine.getTotalIncome e
                  - sum_amounts (filter (fun x => negb (is_income x)) l))%Q).
  { unfold Engine.getTotalBalance.
    change (DoublyLinkedList.traverseForward (transactionList e)) with l.
    destruct Ex as (Hk & F & Bd).
    rewrite (fold_balance k); try assumption.
    - rewrite I. lra.
    - apply on_grid_zero.
    - change (Qabs 0) with 0%Q. lra. }
  split; [exact I|]. split; [exact X|]. split; [exact B|].
  intro H. rewrite B, X.
  rewrite (filter_ext_Forall (fun x => negb (is_income x)) is_expense l);
    [lra|].
  apply (Forall_impl _ (P := fun x => type x = "income" \/ type x = "expense"));
    [|exact H].
  intros x [Hx|Hx]; unfold is_income, is_expense; rewrite Hx; reflexivity.
Qed.

Lemma balance_is_income_minus_the_rest_witness :
  (Engine.getTotalBalance engine_four_dates
   == Engine.getTotalIncome engine_four_dates
      - Engine.getTotalExpenses engine_four_dates)%Q.
Proof.
  assert (Ex : exact_amounts 0 (Engine.getAllTransactions engine_four_dates))
    by whole_amounts_at.
  apply (proj2 (proj2 (proj2 (balance_is_income_minus_the_rest
                                engine_four_dates 0 Ex)))).
  vm_compute.
  repeat (apply Forall_cons; [first [left; reflexivity|right; reflexivity]|]).
  apply Forall_nil.
Defined.

Example balance_counts_other_types :
  (Engine.getTotalIncome engine_mixed_types == 4)%Q /\
  (Engine.getTotalExpenses engine_mixed_types == 6)%Q /\
  (Engine.getTotalBalance engine_mixed_types == -7)%Q.
Proof. vm_compute. repeat split; reflexivity. Qed.

(** With amounts that do not add up without rounding the balance need
    not be the income minus the expenses: for an income of 0.1, an
    expense of 0.3 and an income of 0.2 the loop of [getTotalBalance]
    ends at [2^-55], the two totals differ by [2^-54]. *)
Example balance_rounds :
  (Engine.getTotalBalance engine_tenths == 1 # 2 ^ 55)%Q /\
  (Engine.getTotalIncome engine_tenths - Engine.getTotalExpenses engine_tenths
   == 1 # 2 ^ 54)%Q /\
  (Double.sub (Engine.getTotalIncome engine_tenths)
     (Engine.getTotalExpenses engine_tenths) == 1 # 2 ^ 54)%Q.
Proof. vm_compute. repeat split; reflexivity. Qed.

Lemma addToCategory_keys (c : string) (a : Q) (m : list (string * Q)) :
  map fst (Engine.addToCategory c a m)
    = if in_dec string_dec c (map fst m) then map fst m
      else map fst m ++ [c].
Proof.
  induction m as [|[k v] m IH]; simpl; [reflexivity|].
  destruct (str_eq k c) eqn:E.
  - apply str_eq_iff in E. subst k. simpl.
    destruct (string_dec c c) as [Y|N]; [reflexivity|congruence].
  - apply str_eq_neq in E. simpl. rewrite IH.
    destruct (string_dec k c) as [Y|N]; [congruence|].
    destruct (in_dec string_dec c (map fst m)); reflexivity.
Qed.

Lemma addToCategory_sum (c : string) (a : Q) (m : list (string * Q)) :
  (forall v, In (c, v) m -> (Double.add v a == v + a)%Q) ->
  (Double.add 0 a == a)%Q ->
  (sum_values (Engine.addToCategory c a m) == sum_values m + a)%Q.
Proof.
  intros Hv H0. induction m as [|[k v] m IH]; simpl; [lra|].
  destruct (str_eq k c) eqn:E; simpl.
  - apply str_eq_iff in E. subst k.
    rewrite (Hv v) by (left; reflexivity). lra.
  - rewrite IH; [lra|]. intros w Hw. apply Hv. right. exact Hw.
Qed.

Lemma addToCategory_In (c : string) (a : Q) (m : list (string * Q))
  (k : string) (v : Q) :
  NoDup (map fst m) -> In (k, v) (Engine.addToCategory c a m) ->
  (k <> c /\ In (k, v) m) \/
  (k = c /\ ((exists v0, In (c, v0) m /\ v = Double.add v0 a) \/
             (~ In c (map fst m) /\ v = Double.add 0 a))).
Proof.
  induction m as [|[k0 v0] m IH]; simpl; intros ND H.
  - destruct H as [H|[]]. inversion H; subst. right. split; [reflexivity|].
    right. split; [tauto|reflexivity].
  - inversion ND as [|? ? Hk0 ND']; subst.
    destruct (str_eq k0 c) eqn:E.
    + apply str_eq_iff in E. subst k0. destruct H as [H|H].
      * inversion H; subst. right. split; [reflexivity|]. left.
        exists v0. split; [left; reflexivity|reflexivity].
      * left. split; [|right; exact H].
        intros ->. apply Hk0. change c with (fst (c, v)). apply in_map.
        exact H.
    + apply str_eq_neq in E. destruct H as [H|H].
      * inversion H; subst. left. split; [exact E|left; reflexivity].
      * destruct (IH ND' H) as [[N I]|[-> [(w & I & ->)|[N ->]]]].
        -- left. split; [exact N|right; exact I].
        -- right. split; [reflexivity|]. left. exists w.
           split; [right; exact I|reflexivity].
        -- right. split; [reflexivity|]. right.
           split; [|reflexivity]. intros [H1|H1]; [congruence|auto].
Qed.

(** The categories the totals hold after the transactions [seen]: one
    entry for each category some non-income transaction of [seen]
    has. *)
Lemma summarise_keys (x : Transaction) (seen : list Transaction)
  (totals : list (string * Q)) :
  breakdown_keys seen totals ->
  breakdown_keys (seen ++ [x])
    (if is_income x then totals
     else Engine.addToCategory (category x) (amount x) totals).
Proof.
  intros (ND & Keys).
  destruct (is_income x) eqn:I.
  - assert (Sx : forall c, spent_on c x = false)
      by (intro c; unfold spent_on; rewrite I; reflexivity).
    split; [exact ND|].
    intro c. rewrite Keys. split; intros (y & Hy & Sy).
    + exists y. split; [apply in_or_app; left; exact Hy|exact Sy].
    + apply in_app_or in Hy. destruct Hy as [Hy|[<-|[]]].
      * exists y. split; assumption.
      * rewrite Sx in Sy. discriminate.
  - assert (Sx : forall c, spent_on c x = str_eq (category x) c)
      by (intro c; unfold spent_on; rewrite I; reflexivity).
    pose proof (addToCategory_keys (category x) (amount x) totals) as K.
    split.
    + rewrite K. destruct (in_dec string_dec (category x) (map fst totals))
        as [Hin|Hin]; [exact ND|].
      apply NoDup_app; [exact ND|repeat constructor; auto|].
      intros k Hk [<-|[]]. contradiction.
    + intro c. rewrite K. split.
      * intro H.
        assert (H' : In c (map fst totals) \/ c = category x).
        { destruct (in_dec string_dec (category x) (map fst totals));
            [left; exact H|].
          apply in_app_or in H. destruct H as [H|[<-|[]]]; auto. }
        destruct H' as [H'| ->].
        -- apply Keys in H'. destruct H' as (y & Hy & Sy).
           exists y. split; [apply in_or_app; left; exact Hy|exact Sy].
        -- exists x. split; [apply in_or_app; right; left; reflexivity|].
           rewrite Sx. apply str_eq_refl.
      * intros (y & Hy & Sy). apply in_app_or in Hy.
        destruct Hy as [Hy|[<-|[]]].
        -- assert (In c (map fst totals)) by (apply Keys; eauto).
           destruct (in_dec string_dec (category x) (map fst totals));
             [assumption|apply in_or_app; left; assumption].
        -- rewrite Sx in Sy. apply str_eq_iff in Sy. subst c.
           destruct (in_dec string_dec (category x) (map fst totals));
             [assumption|apply in_or_app; right; left; reflexivity].
Qed.

(** A total of one category is a [double] when the amounts add up
    without rounding. *)
Lemma category_sum_round (k : Z) (c : string) (l : list Transaction) :
  exact_amounts k l ->
  (Double.round (sum_amounts (filter (spent_on c) l))
   == sum_amounts (filter (spent_on c) l))%Q.
Proof.
  intro Ex. apply (round_within k l); [exact Ex| |].
  - apply sum_amounts_grid. apply (exact_amounts_grid k).
    apply exact_amounts_filter. exact Ex.
  - pose proof (sum_amounts_filter_le (spent_on c) l
                  (exact_amounts_nonneg k l Ex)).
    rewrite Qabs_pos; lra.
Qed.

(** What the category totals hold after the transactions [seen], when
    their amounts add up without rounding: for each category the sum of
    the amounts of its non-income transactions. *)
Lemma summarise_values (k : Z) (x : Transaction) (seen : list Transaction)
  (totals : list (string * Q)) :
  exact_amounts k (seen ++ [x]) ->
  breakdown_of seen totals ->
  breakdown_of (seen ++ [x])
    (if is_income x then totals
     else Engine.addToCategory (category x) (amount x) totals).
Proof.
  intros Ex (ND & Keys & Vals).
  destruct (summarise_keys x seen totals (conj ND Keys)) as [ND' Keys'].
  split; [exact ND'|]. split; [exact Keys'|].
  assert (Fx : forall c, filter (spent_on c) (seen ++ [x])
                         = filter (spent_on c) seen
                             ++ (if spent_on c x then [x] else [])).
  { intro c. rewrite filter_app. simpl. destruct (spent_on c x); reflexivity. }
  destruct (is_income x) eqn:I.
  - assert (Sx : forall c, spent_on c x = false)
      by (intro c; unfold spent_on; rewrite I; reflexivity).
    intros c v H. rewrite Fx, Sx, app_nil_r. apply Vals. exact H.
  - assert (Sx : forall c, spent_on c x = str_eq (category x) c)
      by (intro c; unfold spent_on; rewrite I; reflexivity).
    intros c v H.
    pose proof (category_sum_round k c _ Ex) as R.
    rewrite Fx, Sx in R |- *. rewrite sum_amounts_app in R |- *.
    destruct (addToCategory_In _ _ _ _ _ ND H)
      as [[N I']|[-> [(w & I' & ->)|[N ->]]]].
    + apply str_eq_neq in N.
      assert (E : str_eq (category x) c = false).
      { apply str_eq_neq. apply str_eq_neq in N. congruence. }
      rewrite E. simpl. rewrite (Vals c v I'). lra.
    + rewrite str_eq_refl in R |- *. simpl in R |- *.
      unfold Double.add.
      rewrite (round_comp (w + amount x)
                 (sum_amounts (filter (spent_on (category x)) seen)
                  + (amount x + 0)))
        by (rewrite (Vals _ w I'); lra).
      exact R.
    + rewrite str_eq_refl in R |- *. simpl in R |- *.
      unfold Double.add.
      assert (E : filter (spent_on (category x)) seen = []).
      { apply filter_none. apply Forall_forall. intros y Hy.
        destruct (spent_on (category x) y) eqn:Sy; [|reflexivity].
        exfalso. apply N. apply Keys. eauto. }
      rewrite E in R |- *. simpl in R |- *.
      rewrite (round_comp (0 + amount x) (0 + (amount x + 0))) by lra.
      exact R.
Qed.

Lemma summarise_step (n : Z) (income expenses : Q)
  (totals : list (string * Q)) (x : Transaction) :
  Engine.summarise (n, income, expenses, totals) x
    = if is_income x
      then (n + 1, Double.add income (amount x), expenses, totals)
      else (n + 1, income, Double.add expenses (amount x),
            Engine.addToCategory (category x) (amount x) totals).
Proof. reflexivity. Qed.

Lemma summed_step (k : Z) (x : Transaction) (seen : list Transaction)
  (income expenses : Q) (totals : list (string * Q)) :
  exact_amounts k (seen ++ [x]) ->
  summed seen income expenses totals ->
  summed (seen ++ [x])
    (if is_income x then Double.add income (amount x) else income)
    (if is_income x then expenses else Double.add expenses (amount x))
    (if is_income x then totals
     else Engine.addToCategory (category x) (amount x) totals).
Proof.
  intros Ex (Hi & He & Hs & Hb).
  pose proof (summarise_values k x seen totals Ex Hb) as Hb'.
  pose proof (exact_amounts_nonneg k _ Ex) as Pos.
  pose proof (exact_amounts_grid k _ Ex) as Grid.
  assert (Rf : forall f,
             (Double.round (sum_amounts (filter f (seen ++ [x])))
              == sum_amounts (filter f (seen ++ [x])))%Q).
  { intro f. apply (round_within k (seen ++ [x])); [exact Ex| |].
    - apply sum_amounts_grid. apply (exact_amounts_grid k).
      apply exact_amounts_filter. exact Ex.
    - pose proof (sum_amounts_filter_le f _ Pos). rewrite Qabs_pos; lra. }
  unfold summed.
  destruct (is_income x) eqn:I.
  - split; [|split; [|split; [exact Hs|exact Hb']]].
    + pose proof (Rf is_income) as R.
      rewrite filter_app, sum_amounts_app in R |- *. simpl in R |- *.
      rewrite I in R |- *. simpl in R |- *. unfold Double.add.
      rewrite (round_comp (income + amount x)
                 (sum_amounts (filter is_income seen) + (amount x + 0)))
        by (rewrite Hi; lra).
      exact R.
    + rewrite filter_app, sum_amounts_app. simpl. rewrite I. simpl.
      rewrite He. lra.
  - assert (Ee : (Double.add expenses (amount x) == expenses + amount x)%Q).
    { pose proof (Rf (fun y => negb (is_income y))) as R.
      rewrite filter_app, sum_amounts_app in R. simpl in R.
      rewrite I in R. simpl in R. unfold Double.add.
      rewrite (round_comp (expenses + amount x)
                 (sum_amounts (filter (fun y => negb (is_income y)) seen)
                  + (amount x + 0)))
        by (rewrite He; lra).
      rewrite R, He. lra. }
    split; [|split; [|split; [|exact Hb']]].
    + rewrite filter_app, sum_amounts_app. simpl. rewrite I. simpl.
      rewrite Hi. lra.
    + rewrite Ee, filter_app, sum_amounts_app. simpl. rewrite I. simpl.
      rewrite He. lra.
    + rewrite Ee. destruct Hb as (ND & Keys & Vals).
      assert (Sx : forall c, spent_on c x = str_eq (category x) c)
        by (intro c; unfold spent_on; rewrite I; reflexivity).
      pose proof (category_sum_round k (category x) _ Ex) as R.
      rewrite filter_app, sum_amounts_app in R. simpl in R.
      rewrite Sx, str_eq_refl in R. simpl in R.
      rewrite addToCategory_sum; [lra| |].
      * intros v Hv. unfold Double.add.
        rewrite (round_comp (v + amount x)
                   (sum_amounts (filter (spent_on (category x)) seen)
                    + (amount x + 0)))
          by (rewrite (Vals _ v Hv); lra).
        rewrite R, (Vals _ v Hv). lra.
      * unfold Double.add.
        assert (Ax : In x (seen ++ [x]))
          by (apply in_or_app; right; left; reflexivity).
        rewrite Forall_forall in Pos, Grid.
        rewrite (round_comp (0 + amount x) (amount x)) by lra.
        apply (round_within k (seen ++ [x])); [exact Ex|apply Grid; exact Ax|].
        rewrite Qabs_pos by (apply Pos; exact Ax).
        clear - Pos Ax. induction seen as [|y seen IH]; simpl in *.
        -- lra.
        -- assert (0 <= amount y)%Q by (apply Pos; left; reflexivity).
           assert (amount x <= sum_amounts (seen ++ [x]))%Q.
           { apply IH.
             - intros z Hz. apply Pos. right. exact Hz.
             - apply in_or_app. right. left. reflexivity. }
           lra.
Qed.

Lemma summarise_fold (rest : list Transaction) :
  forall (seen : list Transaction) (n : Z) (income expenses : Q)
         (totals : list (string * Q)),
    n = Z.of_nat (List.length seen) ->
    breakdown_keys seen totals ->
    (forall k, exact_amounts k seen -> summed seen income expenses totals) ->
    exists n' income' expenses' totals',
      fold_left Engine.summarise rest (n, income, expenses, totals)
        = (n', income', expenses', totals') /\
      n' = Z.of_nat (List.length (seen ++ rest)) /\
      breakdown_keys (seen ++ rest) totals' /\
      (forall k, exact_amounts k (seen ++ rest) ->
                 summed (seen ++ rest) income' expenses' totals').
Proof.
  induction rest as [|x rest IH]; intros seen n income expenses totals
    Hn Hk Hs.
  - exists n, income, expenses, totals. rewrite app_nil_r. simpl. auto.
  - change (fold_left Engine.summarise (x :: rest)
              (n, income, expenses, totals))
      with (fold_left Engine.summarise rest
              (Engine.summarise (n, income, expenses, totals) x)).
    rewrite summarise_step.
    pose proof (summarise_keys x seen totals Hk) as Hk'.
    assert (A : (seen ++ x :: rest) = (seen ++ [x]) ++ rest)
      by (rewrite <- app_assoc; reflexivity).
    rewrite A.
    assert (Hs' : forall k, exact_amounts k (seen ++ [x]) ->
                  summed (seen ++ [x])
                    (if is_income x then Double.add income (amount x)
                     else income)
                    (if is_income x then expenses
                     else Double.add expenses (amount x))
                    (if is_income x then totals
                     else Engine.addToCategory (category x) (amount x)
                            totals)).
    { intros k Ex. apply (summed_step k); [exact Ex|].
      apply (Hs k). apply (exact_amounts_app k seen [x]). exact Ex. }
    destruct (is_income x) eqn:I; apply IH; try exact Hk'; try exact Hs';
      rewrite length_app; simpl; lia.
Qed.

(** X22.  [getMonthlySummary] counts the transactions [getByMonth]
    lists for the month, sets [netSavings] to [totalIncome] minus
    [totalExpenses], rounded, and lists in the category breakdown each
    category of a non-income transaction of the month once.  When the
    amounts of the month add up without rounding, [totalIncome] is the
    sum of the incomes, [totalExpenses] the sum of all the others,
    [netSavings] their difference, and each category holds the sum of
    its transactions, so that the breakdown adds up to
    [totalExpenses]. *)
Theorem monthly_summary_adds_up (yearMonth : string) (e : FinanceEngine) :
  let s := Engine.getMonthlySummary yearMonth e in
  let txs := BST.getByMonth yearMonth (transactionBST e) in
  month s = yearMonth /\
  transactionCount s = Z.of_nat (List.length txs) /\
  netSavings s = Double.sub (totalIncome s) (totalExpenses s) /\
  breakdown_keys txs (categoryBreakdown s) /\
  (forall k, exact_amounts k txs ->
     (totalIncome s == sum_amounts (filter is_income txs))%Q /\
     (totalExpenses s
      == sum_amounts (filter (fun x => negb (is_income x)) txs))%Q /\
     (netSavings s == totalIncome s - totalExpenses s)%Q /\
     breakdown_of txs (categoryBreakdown s) /\
     (sum_values (categoryBreakdown s) == totalExpenses s)%Q).
Proof.
  intros s txs. unfold s, Engine.getMonthlySummary. cbv zeta. fold txs.
  assert (K0 : breakdown_keys [] []).
  { split; [constructor|].
    intro c. simpl. split; [tauto|intros (x & [] & _)]. }
  assert (S0 : forall k, exact_amounts k [] -> summed [] 0 0 []).
  { intros k _. split; [reflexivity|]. split; [reflexivity|].
    split; [reflexivity|]. destruct K0 as [ND Keys].
    split; [exact ND|]. split; [exact Keys|]. intros c v []. }
  destruct (summarise_fold txs [] 0 0%Q 0%Q [] eq_refl K0 S0)
    as (n & i & x & t & F & Hn & Hk & Hs).
  rewrite F. simpl in Hn, Hk, Hs.
  cbn [month transactionCount totalIncome totalExpenses netSavings
       categoryBreakdown].
  split; [reflexivity|]. split; [exact Hn|]. split; [reflexivity|].
  split; [exact Hk|].
  intros k Ex. destruct (Hs k Ex) as (Hi & Hx & Hv & Hb).
  split; [exact Hi|]. split; [exact Hx|]. split; [|split; assumption].
  unfold Double.sub. apply (round_within k txs); [exact Ex| |].
  - apply (on_grid_comp k
             (sum_amounts (filter is_income txs)
              - sum_amounts (filter (fun x => negb (is_income x)) txs)));
      [rewrite Hi, Hx; reflexivity|].
    apply on_grid_sub; apply sum_amounts_grid;
      apply (exact_amounts_grid k); apply exact_amounts_filter; exact Ex.
  - pose proof (exact_amounts_nonneg k txs Ex) as Pos.
    pose proof (sum_amounts_filter_le is_income txs Pos).
    pose proof (sum_amounts_filter_le (fun x => negb (is_income x)) txs Pos).
    rewrite Hi, Hx. apply Qabs_Qle_condition. lra.
Qed.

Lemma monthly_summary_adds_up_witness :
  (sum_values
     (categoryBreakdown (Engine.getMonthlySummary "2024-01" engine_mixed_types))
   == totalExpenses (Engine.getMonthlySummary "2024-01" engine_mixed_types))%Q.
Proof.
  apply (proj2 (proj2 (proj2 (proj2 (monthly_summary_adds_up "2024-01"
                                       engine_mixed_types)))) 0).
  whole_amounts_at.
Defined.

Example summary_of_january :
  let s := Engine.getMonthlySummary "2024-01" engine_mixed_types in
  transactionCount s = 4 /\ (totalIncome s == 4)%Q /\
  (totalExpenses s == 6)%Q /\ (netSavings s == -2)%Q /\
  map fst (categoryBreakdown s) = ["Food"].
Proof. vm_compute. repeat split; reflexivity. Qed.

(** With amounts that do not add up without rounding the breakdown need
    not add up to [totalExpenses]: for expenses of 0.1 for Food and of
    0.2 and 0.3 for Rent, [totalExpenses] is [(0.1 + 0.2) + 0.3], which
    is 0.6000000000000001, and the breakdown holds 0.1 and [0.2 + 0.3],
    which is 0.5. *)
Example summary_rounds :
  let s := Engine.getMonthlySummary "2024-01" engine_three_tenths in
  (totalExpenses s == 1351079888211149 # 2 ^ 51)%Q /\
  map fst (categoryBreakdown s) = ["Food"; "Rent"] /\
  (map snd (categoryBreakdown s)
   = [Double.round (1 # 10); (1 # 2)%Q]) /\
  ~ (sum_values (categoryBreakdown s) == totalExpenses s)%Q.
Proof.
  vm_compute. split; [reflexivity|]. split; [reflexivity|].
  split; [reflexivity|]. discriminate.
Qed.

(* ------------------------------------------------------------------ *)
(** ** finance_engine.h: budget alerts *)

Lemma alert_level_normal (b : Budget) :
  str_eq (getAlertLevel b) "normal" = negb (Double.leb 50 (getPercentUsed b)).
Proof.
  unfold getAlertLevel.
  destruct (Double.leb 100 (getPercentUsed b)) eqn:E1.
  - apply Double_leb_le in E1.
    assert (E : Double.leb 50 (getPercentUsed b) = true)
      by (apply Double_leb_le; lra).
    rewrite E. reflexivity.
  - destruct (Double.leb 80 (getPercentUsed b)) eqn:E2.
    + apply Double_leb_le in E2.
      assert (E : Double.leb 50 (getPercentUsed b) = true)
        by (apply Double_leb_le; lra).
      rewrite E. reflexivity.
    + destruct (Double.leb 50 (getPercentUsed b)); reflexivity.
Qed.

Lemma alertMessage_total (b : Budget) :
  alert_amounts_fit b ->
  exists m, Engine.alertMessage b (getAlertLevel b) = Some m.
Proof.
  intro H. unfold Engine.alertMessage.
  destruct (str_eq (getAlertLevel b) "exceeded") eqn:E.
  - apply str_eq_iff in E. destruct (H E) as ((s & Hs) & (l & Hl)).
    rewrite Hs, Hl. simpl. eauto.
  - destruct (str_eq (getAlertLevel b) "warning"); eauto.
Qed.

Lemma Forall2_In_r {A B : Type} (R : A -> B -> Prop) (l1 : list A)
  (l2 : list B) :
  Forall2 R l1 l2 -> forall y, In y l2 -> exists x, In x l1 /\ R x y.
Proof.
  intro F. induction F as [|x y l1 l2 Hxy F IH]; [intros y []|].
  intros y' [<-|Hy].
  - exists x. split; [left; reflexivity|exact Hxy].
  - destruct (IH y' Hy) as (x' & Hx' & Hr). exists x'.
    split; [right; exact Hx'|exact Hr].
Qed.

Lemma budgetAlerts_spec (budgets : list Budget) :
  Forall alert_amounts_fit budgets ->
  exists alerts,
    Engine.budgetAlerts budgets = Some alerts /\
    Forall2 alert_for (filter over_half budgets) alerts.
Proof.
  intro H. induction H as [|b budgets Hb H IH]; simpl.
  - exists []. split; [reflexivity|constructor].
  - destruct IH as (alerts & E & F).
    unfold over_half at 1. rewrite alert_level_normal, negb_involutive.
    destruct (Double.leb 50 (getPercentUsed b)) eqn:P.
    + destruct (alertMessage_total b Hb) as [m Hm].
      rewrite Hm, E. simpl. eexists. split; [reflexivity|].
      constructor; [|exact F].
      unfold alert_for. cbn [alert_category level percentUsed alert_spent
        alert_limit message]. repeat split. exact Hm.
    + exists alerts. split; [exact E|exact F].
Qed.

(** X23.  [getBudgetAlerts] raises one alert for each budget that has
    used half of its limit or more, in the order of [getAllBudgets], and
    none for the others; the alert carries the budget's category, level,
    percentage, spent amount and limit.  A budget whose limit is 0 uses
    0 percent, so it never raises an alert, whatever was spent. *)
Theorem budget_alerts_from_half (e : FinanceEngine) :
  Forall alert_amounts_fit (Engine.getAllBudgets e) ->
  exists alerts,
    Engine.getBudgetAlerts e = Some alerts /\
    Forall2 alert_for (filter over_half (Engine.getAllBudgets e)) alerts /\
    (forall a, In a alerts ->
       (50 <= percentUsed a)%Q /\ level a <> "normal" /\
       ~ (alert_limit a == 0)%Q) /\
    (forall b, In b (Engine.getAllBudgets e) ->
       (getPercentUsed b < 50)%Q ->
       forall a, alert_for b a -> ~ In a alerts).
Proof.
  intro H. unfold Engine.getBudgetAlerts.
  destruct (budgetAlerts_spec _ H) as (alerts & E & F).
  exists alerts. split; [exact E|]. split; [exact F|].
  assert (G : forall a, In a alerts ->
            exists b, In b (Engine.getAllBudgets e) /\
                      over_half b = true /\ alert_for b a).
  { intros a Ha. destruct (Forall2_In_r _ _ _ F a Ha) as (b & Hb & Hba).
    apply filter_In in Hb. exists b. tauto. }
  split.
  - intros a Ha. destruct (G a Ha) as (b & _ & Hover & Hfor).
    unfold alert_for in Hfor.
    destruct Hfor as (_ & Hl & Hp & _ & Hlim & _).
    unfold over_half in Hover.
    rewrite alert_level_normal, negb_involutive in Hover.
    pose proof Hover as Hover'. apply Double_leb_le in Hover.
    rewrite Hp, Hl, Hlim. split; [exact Hover|]. split.
    + intro N. pose proof (alert_level_normal b) as A.
      rewrite N, Hover' in A. discriminate.
    + intro Z0. unfold getPercentUsed in Hover.
      destruct (Double.eqb (limit b) 0) eqn:Q0; [lra|].
      apply Double_eqb_eq in Z0. congruence.
  - intros b Hb Hlow a Hfor Ha.
    destruct (G a Ha) as (b' & _ & Hover & Hfor').
    unfold alert_for in Hfor, Hfor'.
    destruct Hfor as (_ & _ & Hp & _). destruct Hfor' as (_ & _ & Hp' & _).
    unfold over_half in Hover.
    rewrite alert_level_normal, negb_involutive in Hover.
    apply Double_leb_le in Hover. rewrite <- Hp', Hp in Hover. lra.
Qed.

Lemma budget_alerts_from_half_witness :
  exists alerts,
    Engine.getBudgetAlerts engine_food_120 = Some alerts /\
    Forall2 alert_for (filter over_half (Engine.getAllBudgets engine_food_120))
            alerts /\
    (forall a, In a alerts ->
       (50 <= percentUsed a)%Q /\ level a <> "normal" /\
       ~ (alert_limit a == 0)%Q) /\
    (forall b, In b (Engine.getAllBudgets engine_food_120) ->
       (getPercentUsed b < 50)%Q ->
       forall a, alert_for b a -> ~ In a alerts).
Proof.
  apply (budget_alerts_from_half engine_food_120).
  assert (E : Engine.getAllBudgets engine_food_120 = [mkBudget "Food" 100 120])
    by (vm_compute; reflexivity).
  rewrite E. constructor; [|constructor].
  intros _. split; [exists 120|exists 100]; vm_compute; reflexivity.
Defined.

Example alert_of_exceeded_budget :
  option_map (map (fun a => (alert_category a, level a, message a)))
             (Engine.getBudgetAlerts engine_food_120)
    = Some [("Food", "exceeded", "Budget exceeded! You've spent $120 of $100")].
Proof. vm_compute. reflexivity. Qed.

(* ------------------------------------------------------------------ *)
(** ** finance_engine.h: generated ids *)

Lemma show_Z_inj (a b : Z) : Stream.show_Z a = Stream.show_Z b -> a = b.
Proof.
  unfold Stream.show_Z. intro H.
  assert (N : forall z, Z.to_int z <> Decimal.Pos Decimal.Nil /\
                        Z.to_int z <> Decimal.Neg Decimal.Nil).
  { intros [|p|p]; simpl; split; try discriminate;
      intro E; inversion E as [E'];
      apply (DecimalPos.Unsigned.to_uint_nonnil p E'). }
  apply (f_equal NilZero.int_of_string) in H.
  rewrite !NilZero.isi in H by apply N.
  inversion H as [H']. apply DecimalZ.to_int_inj. exact H'.
Qed.

Lemma uint_lacks_underscore (d : Decimal.uint) :
  lacks "_" (NilEmpty.string_of_uint d) = true.
Proof. induction d; simpl; auto. Qed.

Lemma show_Z_lacks_underscore (z : Z) : lacks "_" (Stream.show_Z z) = true.
Proof.
  unfold Stream.show_Z, NilZero.string_of_int.
  destruct (Z.to_int z) as [d|d]; unfold NilZero.string_of_uint;
    destruct d; simpl; rewrite ?uint_lacks_underscore; reflexivity.
Qed.

Lemma numbered_inj (n1 c1 n2 c2 : Z) :
  (Stream.show_Z n1 ++ "_" ++ Stream.show_Z c1
   = Stream.show_Z n2 ++ "_" ++ Stream.show_Z c2)%string ->
  n1 = n2 /\ c1 = c2.
Proof.
  intro H. apply (f_equal (Stream.take_until "_")) in H.
  change (Stream.show_Z n1 ++ "_" ++ Stream.show_Z c1)%string
    with (Stream.show_Z n1 ++ String "_" (Stream.show_Z c1))%string in H.
  change (Stream.show_Z n2 ++ "_" ++ Stream.show_Z c2)%string
    with (Stream.show_Z n2 ++ String "_" (Stream.show_Z c2))%string in H.
  rewrite !take_until_prefix in H by apply show_Z_lacks_underscore.
  inversion H as [[H1 H2]]. split; apply show_Z_inj; assumption.
Qed.

Lemma updateExpenseTracking_txnCounter (x : Transaction) (b : bool)
  (e : FinanceEngine) :
  txnCounter (Engine.updateExpenseTracking x b e) = txnCounter e.
Proof.
  pose proof (updateExpenseTracking_frame x b e) as F.
  apply (f_equal (fun t => snd (fst t))) in F. exact F.
Qed.

Lemma indexTransaction_txnCounter (x : Transaction) (e : FinanceEngine) :
  txnCounter (Engine.indexTransaction x e) = txnCounter e.
Proof.
  unfold Engine.indexTransaction. cbv zeta.
  destruct (description x);
    destruct (str_eq (type x) "expense"); simpl;
    rewrite updateExpenseTracking_txnCounter; reflexivity.
Qed.

(** X24.  The ids that [generateId] and [generateBillId] make are
    determined by the clock value and the counter, and the counter grows
    with every id: two transactions added one after the other never get
    the same id, whatever the clock reads, and no transaction id is a
    bill id. *)
Theorem generated_ids_are_distinct (n1 n2 : Z) (e1 e2 : FinanceEngine) :
  (fst (Engine.generateId n1 e1) = fst (Engine.generateId n2 e2) ->
   n1 = n2 /\ txnCounter e1 = txnCounter e2) /\
  (fst (Engine.generateBillId n1 e1) = fst (Engine.generateBillId n2 e2) ->
   n1 = n2 /\ billCounter e1 = billCounter e2) /\
  fst (Engine.generateId n1 e1) <> fst (Engine.generateBillId n2 e2) /\
  txnCounter (snd (Engine.generateId n1 e1)) = txnCounter e1 + 1 /\
  billCounter (snd (Engine.generateBillId n1 e1)) = billCounter e1 + 1 /\
  (forall ty1 a1 c1 d1 dt1 ty2 a2 c2 d2 dt2 x1 x2 e' e'',
     Engine.addTransaction n1 ty1 a1 c1 d1 dt1 e1 = Some (x1, e') ->
     Engine.addTransaction n2 ty2 a2 c2 d2 dt2 e' = Some (x2, e'') ->
     id x1 <> id x2).
Proof.
  split; [|split; [|split; [|split; [|split]]]].
  - unfold Engine.generateId. cbn [fst]. intro H.
    inversion H as [H']. apply numbered_inj in H'.
    destruct H' as [Hn Hc]. split; [exact Hn|lia].
  - unfold Engine.generateBillId. cbn [fst]. intro H.
    inversion H as [H']. apply numbered_inj in H'.
    destruct H' as [Hn Hc]. split; [exact Hn|lia].
  - unfold Engine.generateId, Engine.generateBillId. cbn [fst].
    intro H. inversion H.
  - reflexivity.
  - reflexivity.
  - intros ty1 a1 c1 d1 dt1 ty2 a2 c2 d2 dt2 x1 x2 e' e'' A1 A2.
    unfold Engine.addTransaction in A1, A2.
    change (Engine.generateId n1 e1)
      with (fst (Engine.generateId n1 e1), snd (Engine.generateId n1 e1))
      in A1.
    change (Engine.generateId n2 e')
      with (fst (Engine.generateId n2 e'), snd (Engine.generateId n2 e'))
      in A2.
    cbv beta iota zeta in A1, A2. unfold Engine.pushUndo, bind in A1, A2.
    destruct (UndoStack.push _ _) as [s1|] in A1; [|discriminate].
    destruct (UndoStack.push _ _) as [s2|] in A2; [|discriminate].
    inversion A1 as [[Hx1 He']]. inversion A2 as [[Hx2 He'']].
    cbn [id]. intro E.
    assert (C : txnCounter e' = txnCounter e1 + 1).
    { rewrite <- He'. cbn [txnCounter Engine.set_undoStack].
      rewrite indexTransaction_txnCounter. reflexivity. }
    unfold Engine.generateId in E. cbn [fst] in E.
    inversion E as [E']. apply numbered_inj in E'. lia.
Qed.

Lemma generated_ids_are_distinct_witness :
  id (mkTransaction "txn_1700000000_1" "expense" 5 "Food" "" "2024-01-01")
  <> id (mkTransaction "txn_1700000000_2" "income" 9 "Salary" "" "2024-01-02").
Proof.
  eapply (proj2 (proj2 (proj2 (proj2 (proj2
            (generated_ids_are_distinct 1700000000 1700000000
               Engine.new Engine.new)))))
          "expense" 5%Q "Food" "" "2024-01-01"
          "income" 9%Q "Salary" "" "2024-01-02").
  - vm_compute. reflexivity.
  - vm_compute. reflexivity.
Defined.

(* ------------------------------------------------------------------ *)
(** ** finance_engine.h: budgets and undo *)

(** What [undo] answers once an action has been popped: [true], whatever
    the action, unless the call does not return. *)
Lemma undo_popped_true (e e' : FinanceEngine) (a : Action)
  (rest : list Action) (r : bool) :
  UndoStack.nodes (undoStack e) = a :: rest ->
  Engine.undo e = Some (r, e') -> r = true.
Proof.
  intros N U. unfold Engine.undo, UndoStack.pop in U. rewrite N in U.
  destruct (action_type a).
  - destruct (Stream.getline "|" (Stream.open (action_data a))) as [t ss].
    unfold bind in U.
    destruct (Engine.deleteTransaction _ _) as [[r1 e1]|];
      [|discriminate U].
    inversion U. reflexivity.
  - unfold bind in U.
    destruct (Engine.parseTransaction _); [|discriminate U].
    inversion U. reflexivity.
  - destruct (Stream.getline "|" (Stream.open (action_data a))) as [t ss].
    inversion U. reflexivity.
  - destruct (Stream.getline "|" (Stream.open (action_data a))) as [t ss].
    destruct (Stream.get_double ss) as [o ss'].
    destruct (HashMap.search _ _).
    + unfold bind in U. destruct o; [|discriminate U].
      inversion U. reflexivity.
    + inversion U. reflexivity.
  - inversion U. reflexivity.
  - inversion U. reflexivity.
  - inversion U. reflexivity.
Qed.

(** X25.  [canUndo] is [false] exactly when [undo] has nothing to pop:
    then [undo] answers [false] and changes nothing.  In every other case
    [undo] does not answer [false]: whenever it returns, its answer is
    that of [canUndo], so it is [true] as soon as an action is stored. *)
Theorem canUndo_false_iff_undo_fails (e : FinanceEngine) :
  undo_stack_ok (undoStack e) ->
  (Engine.canUndo e = false <-> Engine.undo e = Some (false, e)) /\
  (Engine.canUndo e = false <-> UndoStack.getAllActions (undoStack e) = []) /\
  (forall r e', Engine.undo e = Some (r, e') -> r = Engine.canUndo e) /\
  (Engine.canUndo e = true -> forall e', Engine.undo e <> Some (false, e')).
Proof.
  intros [Hc _].
  assert (A : Engine.canUndo e = false
              <-> UndoStack.getAllActions (undoStack e) = []).
  { unfold Engine.canUndo, UndoStack.isEmpty, UndoStack.getAllActions.
    rewrite negb_false_iff, Z.eqb_eq, Hc.
    destruct (UndoStack.nodes (undoStack e)); simpl; split;
      try reflexivity; try discriminate; lia. }
  assert (B : forall r e', Engine.undo e = Some (r, e') ->
                           r = Engine.canUndo e).
  { intros r e' U.
    destruct (UndoStack.nodes (undoStack e)) as [|a rest] eqn:N.
    - unfold Engine.undo, UndoStack.pop in U. rewrite N in U.
      injection U as Hr _. subst r. symmetry. apply A.
      unfold UndoStack.getAllActions. exact N.
    - rewrite (undo_popped_true e e' a rest r N U).
      destruct (Engine.canUndo e) eqn:Cu; [reflexivity|].
      pose proof (proj1 A eq_refl) as G.
      unfold UndoStack.getAllActions in G.
      rewrite N in G. discriminate G. }
  split; [|split; [exact A|split; [exact B|]]].
  - split.
    + intro Cu. apply A in Cu. unfold UndoStack.getAllActions in Cu.
      unfold Engine.undo, UndoStack.pop. rewrite Cu. reflexivity.
    + intro U. symmetry. apply (B false e U).
  - intros Cu e' U. apply B in U. rewrite Cu in U. discriminate U.
Qed.

Lemma canUndo_false_iff_undo_fails_witness :
  (Engine.canUndo Engine.new = false
   <-> Engine.undo Engine.new = Some (false, Engine.new)) /\
  (exists e',
     Engine.canUndo engine_food_80 = true /\
     Engine.undo engine_food_80 = Some (true, e') /\
     true = Engine.canUndo engine_food_80).
Proof.
  split.
  - apply (canUndo_false_iff_undo_fails Engine.new).
    split; simpl; lia.
  - destruct (Engine.undo engine_food_80) as [[r e']|] eqn:U;
      [|vm_compute in U; discriminate U].
    exists e'.
    assert (Cu : Engine.canUndo engine_food_80 = true)
      by (vm_compute; reflexivity).
    pose proof (proj1 (proj2 (proj2
                  (canUndo_false_iff_undo_fails engine_food_80
                     (proj1 (proj2 engine_food_80_consistent))))) r e' U)
      as R.
    rewrite Cu in R. subst r. rewrite Cu.
    split; [reflexivity|]. split; reflexivity.
Defined.

Lemma setBudget_unfold (cat : string) (lim : Q) (e : FinanceEngine)
  (s : UndoStack.t) :
  let a := match HashMap.search cat (budgetMap e) with
           | Some existing =>
               mkAction UPDATE_BUDGET
                 (cat ++ "|" ++ Stream.put_double (limit existing))
           | None => mkAction ADD_BUDGET (cat ++ "|" ++ Stream.put_double lim)
           end in
  UndoStack.push a (undoStack e) = Some s ->
  Engine.setBudget cat lim e
    = Some (Engine.set_categoryTrie
              (Engine.set_budgetMap (Engine.set_undoStack e s)
                 (match HashMap.search cat (budgetMap e) with
                  | Some existing =>
                      snd (HashMap.update cat (with_limit existing lim)
                             (budgetMap e))
                  | None =>
                      HashMap.insert cat
                        (mkBudget cat lim (current_total cat (expenseMap e)))
                        (budgetMap e)
                  end))
              (Trie.insert cat (categoryTrie e))).
Proof.
  intros a P. unfold Engine.setBudget, Engine.pushUndo, bind, a in *.
  cbv zeta. destruct (HashMap.search cat (budgetMap e)) as [b|];
    rewrite P; reflexivity.
Qed.

(** X26.  [setBudget] makes [getBudget] answer a budget of the given
    limit for the category and changes no other budget.  A budget that
    existed keeps its spent amount; a new one starts with what the
    expense map holds for the category, so expenses recorded before the
    budget was set count against it.  The action logged for undo tells
    whether the budget was new. *)
Theorem setBudget_then_getBudget (cat : string) (lim : Q)
  (e : FinanceEngine) :
  engine_consistent e ->
  exists e',
    Engine.setBudget cat lim e = Some e' /\
    Engine.getBudget cat e'
      = Some (match Engine.getBudget cat e with
              | Some existing => with_limit existing lim
              | None => mkBudget cat lim (current_total cat (expenseMap e))
              end) /\
    (forall c, c <> cat -> Engine.getBudget c e' = Engine.getBudget c e) /\
    Engine.getAllTransactions e' = Engine.getAllTransactions e /\
    expenseMap e' = expenseMap e /\
    UndoStack.peek (undoStack e')
      = Some (match Engine.getBudget cat e with
              | Some existing =>
                  mkAction UPDATE_BUDGET
                    (cat ++ "|" ++ Stream.put_double (limit existing))
              | None =>
                  mkAction ADD_BUDGET (cat ++ "|" ++ Stream.put_double lim)
              end).
Proof.
  intros ((Hbm & Hem & _ & _) & Hs & Hcap). unfold Engine.getBudget.
  set (a := match HashMap.search cat (budgetMap e) with
            | Some existing =>
                mkAction UPDATE_BUDGET
                  (cat ++ "|" ++ Stream.put_double (limit existing))
            | None => mkAction ADD_BUDGET (cat ++ "|" ++ Stream.put_double lim)
            end).
  destruct (push_within_bound a (undoStack e) Hcap Hs) as (s & P & _ & _ & N).
  eexists. split; [apply (setBudget_unfold cat lim e s P)|].
  cbn [budgetMap undoStack transactionList expenseMap Engine.set_categoryTrie
       Engine.set_budgetMap Engine.set_undoStack Engine.getAllTransactions].
  split; [|split; [|split; [reflexivity|split; [reflexivity|]]]].
  - destruct (HashMap.search cat (budgetMap e)) as [b|] eqn:S.
    + destruct (update_present _ cat (with_limit b lim) b Hbm S)
        as (_ & _ & U). rewrite U, str_eq_refl. reflexivity.
    + rewrite search_insert by exact Hbm. rewrite str_eq_refl. reflexivity.
  - intros c Nc.
    assert (E : str_eq cat c = false)
      by (apply str_eq_neq; congruence).
    destruct (HashMap.search cat (budgetMap e)) as [b|] eqn:S.
    + destruct (update_present _ cat (with_limit b lim) b Hbm S)
        as (_ & _ & U). rewrite U, E. reflexivity.
    + rewrite search_insert by exact Hbm. rewrite E. reflexivity.
  - unfold UndoStack.peek. rewrite N. fold a.
    destruct (UndoStack.count (undoStack e) <? UndoStack.maxSize (undoStack e));
      reflexivity.
Qed.

Lemma setBudget_then_getBudget_witness :
  exists e',
    Engine.setBudget "Food" 150 engine_food_80 = Some e' /\
    Engine.getBudget "Food" e'
      = Some (match Engine.getBudget "Food" engine_food_80 with
              | Some existing => with_limit existing 150
              | None =>
                  mkBudget "Food" 150
                    (current_total "Food" (expenseMap engine_food_80))
              end) /\
    (forall c, c <> "Food" ->
               Engine.getBudget c e' = Engine.getBudget c engine_food_80) /\
    Engine.getAllTransactions e' = Engine.getAllTransactions engine_food_80 /\
    expenseMap e' = expenseMap engine_food_80 /\
    UndoStack.peek (undoStack e')
      = Some (match Engine.getBudget "Food" engine_food_80 with
              | Some existing =>
                  mkAction UPDATE_BUDGET
                    ("Food" ++ "|" ++ Stream.put_double (limit existing))
              | None =>
                  mkAction ADD_BUDGET ("Food" ++ "|" ++ Stream.put_double 150)
              end).
Proof.
  apply (setBudget_then_getBudget "Food" 150 engine_food_80).
  exact engine_food_80_consistent.
Defined.

Lemma budget_record_category (cat rest : string) :
  lacks "|" cat = true ->
  Stream.getline "|" (Stream.open (cat ++ "|" ++ rest))
    = (cat, Stream.mk rest true).
Proof.
  intro H. unfold Stream.getline, Stream.open. cbn [Stream.good Stream.buf].
  change (cat ++ "|" ++ rest)%string with (cat ++ String "|" rest)%string.
  apply take_until_prefix. exact H.
Qed.

(** X27.  Setting a budget for a category that has none and undoing it
    removes the budget again and leaves every other budget, the ledger
    and the rest of the undo log as they were; the category stays in the
    autocomplete trie. *)
Theorem undo_new_budget_removes_it (cat : string) (lim : Q)
  (e : FinanceEngine) :
  engine_consistent e -> lacks "|" cat = true ->
  Engine.getBudget cat e = None ->
  exists e1 e2,
    Engine.setBudget cat lim e = Some e1 /\
    Engine.undo e1 = Some (true, e2) /\
    (forall c, Engine.getBudget c e2 = Engine.getBudget c e) /\
    Engine.getAllTransactions e2 = Engine.getAllTransactions e /\
    Engine.canUndo e2 = Engine.canUndo e /\
    UndoStack.getAllActions (undoStack e2)
      = (if UndoStack.count (undoStack e) <? UndoStack.maxSize (undoStack e)
         then UndoStack.getAllActions (undoStack e)
         else removelast (UndoStack.getAllActions (undoStack e))) /\
    categoryTrie e2 = Trie.insert cat (categoryTrie e).
Proof.
  intros ((Hbm & Hem & _ & _) & Hs & Hcap) Hbar Hnone.
  unfold Engine.getBudget in *.
  set (a := mkAction ADD_BUDGET (cat ++ "|" ++ Stream.put_double lim)).
  destruct (push_then_pop_back a (undoStack e) Hs Hcap)
    as (s1 & s1' & P1 & Pop1 & _ & _ & Emp & Nodes & _).
  pose proof (setBudget_unfold cat lim e s1) as SB.
  cbv zeta in SB. rewrite Hnone in SB. specialize (SB P1).
  eexists. eexists. split; [exact SB|].
  split.
  - unfold Engine.undo.
    cbn [undoStack Engine.set_categoryTrie Engine.set_budgetMap
         Engine.set_undoStack].
    rewrite Pop1. cbn [action_type action_data a].
    rewrite (budget_record_category cat _ Hbar). reflexivity.
  - cbn [budgetMap undoStack transactionList categoryTrie
         Engine.set_categoryTrie Engine.set_budgetMap Engine.set_undoStack
         Engine.getAllTransactions Engine.canUndo].
    split; [|split; [reflexivity|split; [|split; [exact Nodes|reflexivity]]]].
    + intro c.
      assert (Hok' : hashmap_ok
                (HashMap.insert cat
                   (mkBudget cat lim (current_total cat (expenseMap e)))
                   (budgetMap e))) by (apply hashmap_ok_insert; exact Hbm).
      destruct (remove_spec _ cat Hok') as [_ R]. rewrite R.
      rewrite search_insert by exact Hbm.
      destruct (str_eq cat c) eqn:E; [|reflexivity].
      apply str_eq_iff in E. subst c. symmetry. exact Hnone.
    + unfold Engine.canUndo.
      cbn [undoStack Engine.set_categoryTrie Engine.set_budgetMap
           Engine.set_undoStack].
      rewrite Emp. reflexivity.
Qed.

Lemma undo_new_budget_removes_it_witness :
  exists e1 e2,
    Engine.setBudget "Rent" 900 engine_food_80 = Some e1 /\
    Engine.undo e1 = Some (true, e2) /\
    (forall c, Engine.getBudget c e2 = Engine.getBudget c engine_food_80) /\
    Engine.getAllTransactions e2 = Engine.getAllTransactions engine_food_80 /\
    Engine.canUndo e2 = Engine.canUndo engine_food_80 /\
    UndoStack.getAllActions (undoStack e2)
      = (if UndoStack.count (undoStack engine_food_80)
            <? UndoStack.maxSize (undoStack engine_food_80)
         then UndoStack.getAllActions (undoStack engine_food_80)
         else removelast (UndoStack.getAllActions (undoStack engine_food_80))) /\
    categoryTrie e2 = Trie.insert "Rent" (categoryTrie engine_food_80).
Proof.
  apply (undo_new_budget_removes_it "Rent" 900 engine_food_80).
  - exact engine_food_80_consistent.
  - vm_compute. reflexivity.
  - vm_compute. reflexivity.
Defined.

Example printed_limit_keeps_six_digits :
  Stream.put_double 100 = "100" /\
  Stream.put_double 1234567 = "1.23457e+06" /\
  (forall l', fst (Stream.get_double (Stream.open (Stream.put_double 1234567)))
              = Some l' -> (l' == 1234570)%Q).
Proof.
  split; [vm_compute; reflexivity|]. split; [vm_compute; reflexivity|].
  intros l' H. vm_compute in H. inversion H. reflexivity.
Qed.

(* ------------------------------------------------------------------ *)
(** ** trie.h: words, searches and suggestions *)

Lemma child_find_set (c c' : ascii) (n : TrieNode)
  (ch : list (ascii * TrieNode)) :
  Trie.child_find c' (Trie.child_set c n ch)
    = if Ascii.eqb c c' then Some n else Trie.child_find c' ch.
Proof.
  induction ch as [|[k m] ch IH]; simpl.
  - rewrite Ascii.eqb_sym. destruct (Ascii.eqb c' c); reflexivity.
  - destruct (Ascii.eqb k c) eqn:E; simpl.
    + apply Ascii.eqb_eq in E. subst k.
      destruct (Ascii.eqb c c'); reflexivity.
    + destruct (Ascii.eqb k c') eqn:E'.
      * apply Ascii.eqb_eq in E'. subst k. rewrite Ascii.eqb_sym, E.
        reflexivity.
      * exact IH.
Qed.

Lemma child_set_same (c : ascii) (n : TrieNode)
  (ch : list (ascii * TrieNode)) :
  Trie.child_find c ch = Some n -> Trie.child_set c n ch = ch.
Proof.
  induction ch as [|[k m] ch IH]; simpl; [discriminate|].
  destruct (Ascii.eqb k c).
  - intro H. inversion H. reflexivity.
  - intro H. rewrite (IH H). reflexivity.
Qed.

Lemma walk_empty_node (q : string) :
  ends_word (Trie.walk q (TNode [] false "")) = false.
Proof. destruct q; reflexivity. Qed.

Lemma insertAt_added (p w : string) :
  forall n, snd (Trie.insertAt p w n) = negb (ends_word (Trie.walk p n)).
Proof.
  induction p as [|c p IH]; intros [ch e wd]; simpl.
  - destruct e; reflexivity.
  - destruct (Trie.child_find c ch) as [n|] eqn:F.
    + specialize (IH n). destruct (Trie.insertAt p w n). exact IH.
    + specialize (IH (TNode [] false "")).
      destruct (Trie.insertAt p w (TNode [] false "")). simpl in *.
      rewrite IH, walk_empty_node. reflexivity.
Qed.

Lemma insertAt_present (p w : string) :
  forall n, ends_word (Trie.walk p n) = true ->
            fst (Trie.insertAt p w n) = n.
Proof.
  induction p as [|c p IH]; intros [ch e wd]; simpl.
  - intro H. rewrite H. reflexivity.
  - destruct (Trie.child_find c ch) as [n|] eqn:F; [|discriminate].
    intro H. specialize (IH n H).
    destruct (Trie.insertAt p w n) as [n' a]. simpl in IH. subst n'.
    simpl. rewrite (child_set_same c n ch F). reflexivity.
Qed.

Lemma insertAt_walk (p w : string) :
  forall q n,
    ends_word (Trie.walk q (fst (Trie.insertAt p w n)))
      = ends_word (Trie.walk q n) || String.eqb q p.
Proof.
  induction p as [|c p IH]; intros q [ch e wd].
  - simpl. destruct q as [|c' q].
    + destruct e; reflexivity.
    + destruct e; simpl; rewrite orb_false_r; reflexivity.
  - simpl.
    set (child := match Trie.child_find c ch with
                  | Some n => n
                  | None => TNode [] false ""
                  end).
    specialize (IH (match q with EmptyString => EmptyString
                               | String _ q' => q' end) child).
    destruct (Trie.insertAt p w child) as [child' a]. simpl in *.
    destruct q as [|c' q]; simpl.
    + rewrite orb_false_r. reflexivity.
    + rewrite child_find_set. rewrite (Ascii.eqb_sym c' c).
      destruct (Ascii.eqb c c') eqn:E.
      * apply Ascii.eqb_eq in E. subst c'. rewrite IH. unfold child.
        destruct (Trie.child_find c ch); [reflexivity|].
        rewrite walk_empty_node. reflexivity.
      * rewrite orb_false_r. reflexivity.
Qed.

Lemma toLower_empty (w : string) : Trie.toLower w = "" <-> w = "".
Proof. destruct w; simpl; split; congruence. Qed.

(** X29.  [insert] makes [search] find the word in any letter case and
    changes the answer for no other word; the empty word is never
    stored.  A word that is already found, in whatever case, is not
    stored again: the trie is unchanged, and [size] grows by one only
    for a word that was not found. *)
Theorem trie_insert_then_search (w u : string) (tr : Trie.t) :
  Trie.search u (Trie.insert w tr)
    = Trie.search u tr
      || (negb (String.eqb w "")
          && String.eqb (Trie.toLower u) (Trie.toLower w)) /\
  (Trie.search w tr = true -> Trie.insert w tr = tr) /\
  Trie.size (Trie.insert w tr)
    = (if Trie.search w tr || String.eqb w "" then Trie.size tr
       else Trie.size tr + 1) /\
  Trie.insert "" tr = tr.
Proof.
  assert (S : forall x, Trie.search x tr
                        = ends_word (Trie.walk (Trie.toLower x) (Trie.root tr))).
  { intro x. unfold Trie.search, ends_word.
    destruct (Trie.walk (Trie.toLower x) (Trie.root tr)) as [[? ? ?]|];
      reflexivity. }
  destruct w as [|c w].
  - split; [|split; [|split]].
    + simpl. rewrite orb_false_r. reflexivity.
    + intros _. reflexivity.
    + simpl. rewrite orb_true_r. reflexivity.
    + reflexivity.
  - set (W := String c w).
    assert (I : Trie.insert W tr
                = Trie.mk (fst (Trie.insertAt (Trie.toLower W) W (Trie.root tr)))
                    (if snd (Trie.insertAt (Trie.toLower W) W (Trie.root tr))
                     then Trie.wordCount tr + 1 else Trie.wordCount tr)).
    { unfold Trie.insert, W.
      destruct (Trie.insertAt (Trie.toLower (String c w)) (String c w)
                  (Trie.root tr)); reflexivity. }
    split; [|split; [|split; [|reflexivity]]].
    + rewrite I. unfold Trie.search at 1. cbn [Trie.root].
      pose proof (insertAt_walk (Trie.toLower W) W (Trie.toLower u)
                    (Trie.root tr)) as Hw.
      unfold ends_word at 1 in Hw. rewrite Hw, <- S. reflexivity.
    + intro H. rewrite I. rewrite S in H.
      rewrite insertAt_added, H. cbn [negb].
      rewrite (insertAt_present _ _ _ H). destruct tr; reflexivity.
    + rewrite I. unfold Trie.size. cbn [Trie.wordCount].
      rewrite insertAt_added, <- S.
      change (String.eqb W "") with false. rewrite orb_false_r.
      destruct (Trie.search W tr); reflexivity.
Qed.

Example first_spelling_is_kept :
  Trie.getAllWords (Trie.insert "FOOD" (Trie.insert "Food" Trie.new))
    = ["Food"] /\
  Trie.search "fOOd" (Trie.insert "Food" Trie.new) = true /\
  Trie.size (Trie.insert "FOOD" (Trie.insert "Food" Trie.new)) = 1.
Proof. vm_compute. repeat split; reflexivity. Qed.

Lemma string_app_nil_r (s : string) : (s ++ "")%string = s.
Proof. induction s as [|c s IH]; simpl; [reflexivity|rewrite IH; reflexivity]. Qed.

Lemma string_app_cons (a : string) (c : ascii) (b : string) :
  ((a ++ String c "") ++ b = a ++ String c b)%string.
Proof. induction a as [|x a IH]; simpl; [reflexivity|rewrite IH; reflexivity]. Qed.

Lemma children_ok_iff (P : ascii * TrieNode -> Prop)
  (ch : list (ascii * TrieNode)) :
  fold_right (fun p acc => P p /\ acc) True ch <-> forall p, In p ch -> P p.
Proof.
  induction ch as [|p ch IH]; simpl.
  - split; [intros _ p []|auto].
  - rewrite IH. split.
    + intros [Hp H] q [<-|Hq]; auto.
    + intro H. split; [apply H; left; reflexivity|].
      intros q Hq. apply H. right. exact Hq.
Qed.

Lemma trie_ok_node (path : string) (ch : list (ascii * TrieNode))
  (e : bool) (w : string) :
  trie_ok path (TNode ch e w) <->
  (e = true -> Trie.toLower w = path) /\
  NoDup (map fst ch) /\
  forall p, In p ch -> trie_ok (path ++ String (fst p) "") (snd p).
Proof.
  simpl. rewrite (children_ok_iff
    (fun p => trie_ok (path ++ String (fst p) "") (snd p))). reflexivity.
Qed.

Lemma child_find_In (c : ascii) (n : TrieNode) (ch : list (ascii * TrieNode)) :
  Trie.child_find c ch = Some n -> In (c, n) ch.
Proof.
  induction ch as [|[k m] ch IH]; simpl; [discriminate|].
  destruct (Ascii.eqb k c) eqn:E.
  - apply Ascii.eqb_eq in E. intro H. inversion H. subst. left. reflexivity.
  - intro H. right. apply IH. exact H.
Qed.

Lemma child_In_find (c : ascii) (n : TrieNode) (ch : list (ascii * TrieNode)) :
  NoDup (map fst ch) -> In (c, n) ch -> Trie.child_find c ch = Some n.
Proof.
  induction ch as [|[k m] ch IH]; simpl; intros ND H; [contradiction|].
  inversion ND as [|? ? Hk ND']; subst.
  destruct H as [H|H].
  - inversion H; subst. rewrite Ascii.eqb_refl. reflexivity.
  - destruct (Ascii.eqb k c) eqn:E.
    + apply Ascii.eqb_eq in E. subst k. exfalso. apply Hk.
      change c with (fst (c, n)). apply in_map. exact H.
    + apply IH; assumption.
Qed.

Lemma child_find_None (c : ascii) (ch : list (ascii * TrieNode)) :
  Trie.child_find c ch = None <-> ~ In c (map fst ch).
Proof.
  induction ch as [|[k m] ch IH]; simpl; [tauto|].
  destruct (Ascii.eqb k c) eqn:E.
  - apply Ascii.eqb_eq in E. split; [discriminate|]. intro H. exfalso. auto.
  - apply Ascii.eqb_neq in E. rewrite IH. tauto.
Qed.

Lemma child_set_In (c : ascii) (n : TrieNode) (ch : list (ascii * TrieNode))
  (p : ascii * TrieNode) :
  In p (Trie.child_set c n ch) -> p = (c, n) \/ In p ch.
Proof.
  induction ch as [|[k m] ch IH]; simpl.
  - intros [H|[]]. left. symmetry. exact H.
  - destruct (Ascii.eqb k c) eqn:E.
    + apply Ascii.eqb_eq in E. subst k. intros [H|H]; auto.
    + intros [H|H]; auto. destruct (IH H); auto.
Qed.

Lemma child_set_keys (c : ascii) (n : TrieNode) (ch : list (ascii * TrieNode)) :
  NoDup (map fst ch) -> NoDup (map fst (Trie.child_set c n ch)).
Proof.
  induction ch as [|[k m] ch IH]; simpl; intro ND.
  - repeat constructor. auto.
  - inversion ND as [|? ? Hk ND']; subst.
    destruct (Ascii.eqb k c) eqn:E; simpl; [exact ND|].
    constructor; [|apply IH; exact ND'].
    intro H. apply in_map_iff in H. destruct H as (p & Ep & Hp).
    destruct (child_set_In _ _ _ _ Hp) as [->|Hin].
    + simpl in Ep. subst k. rewrite Ascii.eqb_refl in E. discriminate.
    + apply Hk. rewrite <- Ep. apply in_map. exact Hin.
Qed.

Lemma trie_ok_empty_node (path : string) : trie_ok path (TNode [] false "").
Proof. simpl. repeat split; [discriminate|constructor]. Qed.

Lemma insertAt_ok (p w : string) :
  forall path n,
    trie_ok path n -> Trie.toLower w = (path ++ p)%string ->
    trie_ok path (fst (Trie.insertAt p w n)).
Proof.
  induction p as [|c p IH]; intros path [ch e wd] Hok Hw.
  - simpl. destruct e; [exact Hok|]. simpl.
    apply trie_ok_node in Hok. destruct Hok as (_ & ND & Hch).
    apply trie_ok_node. rewrite string_app_nil_r in Hw.
    split; [intros _; exact Hw|split; assumption].
  - simpl.
    set (child := match Trie.child_find c ch with
                  | Some n => n
                  | None => TNode [] false ""
                  end).
    apply trie_ok_node in Hok. destruct Hok as (He & ND & Hch).
    assert (Hc : trie_ok (path ++ String c "") child).
    { unfold child. destruct (Trie.child_find c ch) as [n|] eqn:F.
      - apply child_find_In in F. apply (Hch (c, n) F).
      - apply trie_ok_empty_node. }
    specialize (IH (path ++ String c "")%string child Hc).
    rewrite string_app_cons in IH. specialize (IH Hw).
    destruct (Trie.insertAt p w child) as [child' a]. simpl in *.
    apply trie_ok_node. split; [exact He|].
    split; [apply child_set_keys; exact ND|].
    intros q Hq. destruct (child_set_In _ _ _ _ Hq) as [->|Hin].
    + exact IH.
    + apply Hch. exact Hin.
Qed.

Lemma insert_ok_trie (w : string) (tr : Trie.t) :
  trie_ok "" (Trie.root tr) -> trie_ok "" (Trie.root (Trie.insert w tr)).
Proof.
  intro H. unfold Trie.insert. destruct w as [|c w]; [exact H|].
  pose proof (insertAt_ok (Trie.toLower (String c w)) (String c w) ""
                (Trie.root tr) H eq_refl) as K.
  destruct (Trie.insertAt (Trie.toLower (String c w)) (String c w)
              (Trie.root tr)). exact K.
Qed.

Lemma trie_of_ok (ws : list string) : trie_ok "" (Trie.root (trie_of ws)).
Proof.
  unfold trie_of.
  assert (G : forall tr, trie_ok "" (Trie.root tr) ->
              trie_ok "" (Trie.root (fold_left (fun tr w => Trie.insert w tr)
                                               ws tr))).
  { induction ws as [|w ws IH]; intros tr H; simpl; [exact H|].
    apply IH. apply insert_ok_trie. exact H. }
  apply G. apply trie_ok_empty_node.
Qed.

Lemma walk_collect (q : string) :
  forall n ch x,
    Trie.walk q n = Some (TNode ch true x) -> In x (Trie.collectWords n).
Proof.
  induction q as [|c q IH]; intros [ch0 e w] ch x H; simpl in H.
  - inversion H; subst. simpl. left. reflexivity.
  - destruct (Trie.child_find c ch0) as [m|] eqn:F; [|discriminate].
    simpl. apply in_or_app. right. apply in_flat_map.
    exists (c, m). split; [apply child_find_In; exact F|].
    apply (IH m ch x H).
Qed.

Lemma collect_walk (n : TrieNode) :
  forall path x,
    trie_ok path n -> In x (Trie.collectWords n) ->
    exists q ch,
      Trie.walk q n = Some (TNode ch true x) /\
      Trie.toLower x = (path ++ q)%string.
Proof.
  induction n as [ch e w IH] using TrieNode_children_ind.
  intros path x Hok Hin. apply trie_ok_node in Hok.
  destruct Hok as (He & ND & Hch). simpl in Hin.
  apply in_app_or in Hin. destruct Hin as [Hin|Hin].
  - destruct e; [|contradiction]. destruct Hin as [<-|[]].
    exists "", ch. split; [reflexivity|].
    rewrite string_app_nil_r. apply He. reflexivity.
  - apply in_flat_map in Hin. destruct Hin as ([k m] & Hp & Hx).
    destruct (IH (k, m) Hp (path ++ String k "")%string x (Hch _ Hp) Hx)
      as (q & ch' & Hw & Hl).
    exists (String k q), ch'. split.
    + simpl. rewrite (child_In_find k m ch ND Hp). exact Hw.
    + rewrite Hl. apply string_app_cons.
Qed.

Lemma walk_app (p q : string) :
  forall n, Trie.walk (p ++ q) n
            = match Trie.walk p n with
              | Some m => Trie.walk q m
              | None => None
              end.
Proof.
  induction p as [|c p IH]; intros [ch e w]; simpl; [reflexivity|].
  destruct (Trie.child_find c ch) as [m|]; [apply IH|reflexivity].
Qed.

Lemma walk_ok (p : string) :
  forall path n m,
    trie_ok path n -> Trie.walk p n = Some m -> trie_ok (path ++ p) m.
Proof.
  induction p as [|c p IH]; intros path [ch e w] m Hok H; simpl in H.
  - inversion H; subst. rewrite string_app_nil_r. exact Hok.
  - destruct (Trie.child_find c ch) as [k|] eqn:F; [|discriminate].
    apply trie_ok_node in Hok. destruct Hok as (_ & _ & Hch).
    apply child_find_In in F. specialize (Hch _ F).
    rewrite <- string_app_cons. apply (IH _ k m Hch H).
Qed.

Lemma prefix_app (p q : string) : String.prefix p (p ++ q) = true.
Proof.
  induction p as [|c p IH]; simpl; [destruct q; reflexivity|].
  destruct (ascii_dec c c); [exact IH|congruence].
Qed.

Lemma prefix_split (p s : string) :
  String.prefix p s = true -> exists q, s = (p ++ q)%string.
Proof.
  revert s. induction p as [|c p IH]; intros s H.
  - exists s. reflexivity.
  - destruct s as [|c' s]; simpl in H; [discriminate|].
    destruct (ascii_dec c c') as [->|]; [|discriminate].
    destruct (IH s H) as [q ->]. exists q. reflexivity.
Qed.

Lemma string_app_inv_head (p a b : string) :
  (p ++ a = p ++ b)%string -> a = b.
Proof.
  induction p as [|c p IH]; simpl; intro H; [exact H|].
  inversion H. auto.
Qed.

Lemma firstn_subset {A : Type} (n : nat) (l : list A) (x : A) :
  In x (firstn n l) -> In x l.
Proof.
  revert l. induction n as [|n IH]; intros [|y l]; simpl; try tauto.
  intros [H|H]; [left; exact H|right; apply IH; exact H].
Qed.

Lemma getWordsWithPrefix_walk (prefix : string) (k : Z) (tr : Trie.t) :
  Trie.getWordsWithPrefix prefix k tr
    = match Trie.walk (Trie.toLower prefix) (Trie.root tr) with
      | Some node => Trie.limitResults k (Trie.collectWords node)
      | None => Some []
      end.
Proof. destruct prefix; reflexivity. Qed.

(** The words of the trie that start with the prefix, letter case
    aside, are the words below the node at the end of the prefix. *)
Lemma words_below_prefix (prefix : string) (tr : Trie.t) (x : string) :
  trie_ok "" (Trie.root tr) ->
  (In x (Trie.getAllWords tr) /\
   String.prefix (Trie.toLower prefix) (Trie.toLower x) = true)
  <-> exists node,
        Trie.walk (Trie.toLower prefix) (Trie.root tr) = Some node /\
        In x (Trie.collectWords node).
Proof.
  intro Hok. unfold Trie.getAllWords. split.
  - intros [Hin Hp].
    destruct (collect_walk _ "" x Hok Hin) as (q & ch & Hw & Hl).
    simpl in Hl. rewrite Hl in Hp.
    destruct (prefix_split _ _ Hp) as [q' ->].
    rewrite walk_app in Hw.
    destruct (Trie.walk (Trie.toLower prefix) (Trie.root tr)) as [node|];
      [|discriminate].
    exists node. split; [reflexivity|]. apply (walk_collect q' node ch x Hw).
  - intros (node & Hw & Hin).
    pose proof (walk_ok _ "" _ node Hok Hw) as Hok'. simpl in Hok'.
    destruct (collect_walk node _ x Hok' Hin) as (q & ch & Hw' & Hl).
    split.
    + apply (walk_collect (Trie.toLower prefix ++ q) _ ch).
      rewrite walk_app, Hw. exact Hw'.
    + rewrite Hl. apply prefix_app.
Qed.

(** X30.  [getWordsWithPrefix] answers words of the trie that start
    with the prefix, letter case aside, at most [maxResults] of them, and
    leaves a matching word out only when it has answered [maxResults]
    words.  With a negative [maxResults] the call fails as soon as one
    word matches. *)
Theorem suggestions_start_with_prefix (prefix : string) (maxResults : Z)
  (tr : Trie.t) :
  trie_ok "" (Trie.root tr) ->
  (0 <= maxResults ->
   exists l,
     Trie.getWordsWithPrefix prefix maxResults tr = Some l /\
     Z.of_nat (List.length l) <= maxResults /\
     (forall x, In x l ->
        In x (Trie.getAllWords tr) /\
        String.prefix (Trie.toLower prefix) (Trie.toLower x) = true) /\
     (forall x, In x (Trie.getAllWords tr) ->
        String.prefix (Trie.toLower prefix) (Trie.toLower x) = true ->
        In x l \/ Z.of_nat (List.length l) = maxResults)) /\
  (maxResults < 0 ->
   forall x, In x (Trie.getAllWords tr) ->
     String.prefix (Trie.toLower prefix) (Trie.toLower x) = true ->
     Trie.getWordsWithPrefix prefix maxResults tr = None).
Proof.
  intro Hok. rewrite getWordsWithPrefix_walk.
  pose proof (fun x => words_below_prefix prefix tr x Hok) as W.
  split.
  - intro Hk.
    destruct (Trie.walk (Trie.toLower prefix) (Trie.root tr)) as [node|] eqn:E.
    + unfold Trie.limitResults.
      destruct (Z.gtb_spec (Z.of_nat (List.length (Trie.collectWords node)))
                           maxResults) as [G|G].
      * destruct (Z.ltb_spec maxResults 0) as [L|_]; [lia|].
        exists (firstn (Z.to_nat maxResults) (Trie.collectWords node)).
        assert (Len : List.length (firstn (Z.to_nat maxResults)
                                          (Trie.collectWords node))
                      = Z.to_nat maxResults)
          by (apply firstn_length_le; lia).
        split; [reflexivity|]. split; [lia|]. split.
        -- intros x Hx. apply W. exists node. split; [reflexivity|].
           apply (firstn_subset _ _ _ Hx).
        -- intros x _ _. right. lia.
      * exists (Trie.collectWords node). split; [reflexivity|].
        split; [lia|]. split.
        -- intros x Hx. apply W. exists node. split; [reflexivity|exact Hx].
        -- intros x H1 H2. left.
           destruct (proj1 (W x) (conj H1 H2)) as (node' & E' & Hin).
           inversion E'; subst. exact Hin.
    + exists []. split; [reflexivity|]. split; [simpl; lia|]. split.
      * intros x [].
      * intros x H1 H2.
        destruct (proj1 (W x) (conj H1 H2)) as (node' & E' & _).
        discriminate.
  - intros Hk x H1 H2.
    destruct (proj1 (W x) (conj H1 H2)) as (node & E & Hin).
    rewrite E. unfold Trie.limitResults.
    destruct (Z.gtb_spec (Z.of_nat (List.length (Trie.collectWords node)))
                         maxResults) as [G|G].
    + destruct (Z.ltb_spec maxResults 0) as [L|L]; [reflexivity|lia].
    + lia.
Qed.

Lemma suggestions_start_with_prefix_witness :
  exists l,
    Engine.getCategorySuggestions "fo" Engine.new = Some l /\
    Z.of_nat (List.length l) <= 10 /\
    (forall x, In x l ->
       In x (Engine.getAllCategories Engine.new) /\
       String.prefix (Trie.toLower "fo") (Trie.toLower x) = true) /\
    (forall x, In x (Engine.getAllCategories Engine.new) ->
       String.prefix (Trie.toLower "fo") (Trie.toLower x) = true ->
       In x l \/ Z.of_nat (List.length l) = 10).
Proof.
  apply (proj1 (suggestions_start_with_prefix "fo" 10
                  (categoryTrie Engine.new)
                  (trie_of_ok Engine.defaultCategories))).
  lia.
Defined.

Example suggestions_of_a_new_engine :
  Engine.getCategorySuggestions "FO" Engine.new = Some ["Food"] /\
  Engine.getCategorySuggestions "x" Engine.new = Some [] /\
  Trie.getWordsWithPrefix "s" (-1) (categoryTrie Engine.new) = None.
Proof. vm_compute. repeat split; reflexivity. Qed.

(* ------------------------------------------------------------------ *)
(** ** Numbers written to and read from a stream *)



















(* ------------------------------------------------------------------ *)
(** ** The value of a printed integer *)









(* ------------------------------------------------------------------ *)
(** ** The decimal exponent and the six digits *)










(* ------------------------------------------------------------------ *)
(** ** The value of the printed digits *)






















(* ------------------------------------------------------------------ *)
(** ** Undoing a change of budget *)



(* ------------------------------------------------------------------ *)
(** ** deleteTransaction followed by undo *)




(** Amounts as they are usually entered have at most six significant
    digits; one that has more comes back rounded. *)
Example six_digits_of_money :
  six_digits 4 /\ six_digits (1999 # 100) /\ six_digits (-1250000) /\
  (printed_value 1234567 == 1234570)%Q.
Proof.
  split; [exists 4, 0; split; [reflexivity|reflexivity]|].
  split; [exists 1999, (-2); split; [reflexivity|reflexivity]|].
  split; [exists (-125), 4; split; [reflexivity|reflexivity]|].
  vm_compute. reflexivity.
Qed.
